(* ===== verification/_CoqProject ===== *)
-Q . S2P
Prelude.v
GoBase.v
Effects.v
Utf8.v
Base64.v
Proto.v
GoStrings.v
FilePath.v
Config.v
Os.v
NetAddr.v
Systemd.v
WinService.v
SshServer.v
Noise.v
AccessCode.v
Client.v
Cli.v
SshSession.v
Bridge.v
BridgeInv.v
BridgeProps.v
Endpoint.v
Sha256.v
Auth.v
RelayService.v
Server.v
RelayLease.v
RelayInv.v
RelayFifo.v
RelayProps.v
EndpointProps.v
Commands.v
CommandProps.v
SshCommand.v
Root.v
Service.v
