(* ===== verification/Prelude.v ===== *)
(** * Relaycat: a verification of its core

    Relaycat (src/) carries TCP connections through a public gRPC relay with
    end-to-end encryption.  An _agent_ registers a route with the _relay_ and
    waits; a _client_ that has the agent's connection code asks the relay for a
    tunnel to the route; the relay tells the agent, pairs the two streams and
    forwards ciphertexts it cannot read; each end runs a _bridge_ between its
    stream and a TCP connection.  Around this core there are the connection codes
    with their state file, the relay's token authentication, a built-in SSH server
    the agent can serve instead of a TCP target, and the command line with its
    service management.

    ** Files, and the sources they model

    Shared:
    - [Prelude] (this file): bytes and strings, [result], sums over maps,
      automation (the hint database [relaycat], [crush_match], [euclid]).
    - [GoBase]: Go errors, [errors.Is], [errors.Join], contexts, status codes, and
      the messages of gen/relay/v1/relay.pb.go.
    - [Effects]: the state and error monad of the command line, with its notation,
      the laws of successful runs ([eff_run]) and of relations a body respects
      ([eff_respects]).
    - [Utf8], [GoStrings], [FilePath], [Base64], [Sha256], [NetAddr], [Os]: what the
      program uses of Go's standard library (runes, strings, path/filepath,
      encoding/base64, crypto/sha256, net, files with injected faults), written
      out.
    - [Proto]: the interface [Codec]/[CodecSpec] of proto.Marshal and Unmarshal,
      and a codec in the wire format that satisfies it.

    The core:
    - [AccessCode] (internal/accesscode/code.go): [Encode], [Decode],
      [ValidateRelayURL], [LoadOrCreate], [CheckPrivateFile].
    - [Noise] (internal/tunnelcrypto/noise.go): [StartInitiator], [Finish],
      [Respond], [Encrypt], [Decrypt], over the interface [NoiseLib]/[NoiseSpec].
    - [RelayService] (internal/relay/service.go): the state [Service] with its
      agents and sessions, the handlers [step_register], [step_connect],
      [step_accept] with their deferred calls, and the receiving goroutines
      [step_recv]; a [world] holds all running calls, [step] runs one of them up
      to its next blocking point, with the environment's answer as a [choice].
      [RelayLease], [RelayInv] and [RelayFifo] are its invariants, [RelayProps] its
      theorems.
    - [Auth] (internal/relay/auth.go, [AuthContext] of internal/endpoint/grpc.go).
    - [Server] (internal/relay/server.go): [RunServer] as the actions it takes.
    - [Bridge], [BridgeInv], [BridgeProps] (internal/endpoint/bridge.go):
      [sendLoop], [recvLoop] and [Bridge] as three interleaved goroutines.
    - [Endpoint], [EndpointProps] (internal/endpoint/agent.go, client.go): the
      scripts [handleAgentTunnel] and [handleClientTunnel], [openTarget],
      [RunAgent] and its semaphore; the theorems that join client, relay and agent.
    - [Client] (internal/endpoint/client.go, grpc.go): [Dial], the certificate
      pool, and [RunClient] with its accept loop and deferred wait.

    The SSH server:
    - [SshServer] (internal/sshserver): host keys, authorized keys, the command a
      session runs.
    - [SshSession] (server.go, session_unix.go, session_windows.go): the pipes of a
      session with its copying goroutines and their atomic counter, terminals,
      [HandleConn].

    The command line:
    - [Config] (internal/cli/root.go): [loadConfig] and [logger].
    - [Commands], [CommandProps] (internal/cli/root.go): the bodies of relay,
      expose, connect and serve, which end in the configuration of the process the
      core models.
    - [Cli] (internal/cli/ssh.go, service.go): input and arguments of the ssh and
      service commands, [expandHome], [ReadToken].
    - [SshCommand] (internal/cli/ssh.go): relaycat ssh around the client of
      [Client], which runs in a goroutine.
    - [Root] (internal/cli/root.go, internal/observability/tracing.go,
      cmd/relaycat/main.go): the declared flags of every command and how they are
      read, cobra's checks, [InitTracing], [Execute] and the exit code.

    Services:
    - [Systemd] (internal/winservice/service_linux.go): unit files, [Install],
      [Uninstall].
    - [WinService] (internal/winservice/service_windows.go): the operations on the
      service control manager as a log of calls, and [Execute] as a state machine.
    - [Service] (internal/cli/service.go, service_linux.go, service_stub.go): the
      service commands against the interface [ServiceManager], the three managers,
      and the promise [ServiceManagerSpec] that systemd and Windows keep.

    ** How the code is modelled

    A Go function that returns an error returns a [result]; one that changes
    state takes it and returns it.  Pointers are addresses into heaps ([aheap],
    [sheap]), so aliasing is explicit.  A goroutine is a program counter; a step
    of the model is the code between two blocking operations, and an event names
    the goroutine that runs and what the outside answered, so a run is an explicit
    interleaving and every theorem about reachable states covers all of them.
    Closing a closed channel sets a flag, so its absence is a theorem; in the relay
    such a panic ends the process, and no step follows it.  A critical
    section holds a mutex over no blocking operation, so it is part of one step.
    Ghost logs record what streams received and sent.  System calls take their
    fault, if any, as an argument, those included whose error the code ignores
    ([remove_file]).  int counters are integers of Go's 64-bit type, bounded by
    the limits the theorems state; bytes, digests, modes and terminal dimensions are
    kept at their width.

    ** What is assumed

    Only interfaces, each with an instance that shows it can hold: [CodecSpec] for
    protobuf (unmarshalling gives back what was marshalled), [StateCodecSpec] for
    the JSON of the state file, [NoiseSpec] for flynn/noise (paired handshakes,
    paired ciphers), [PflagSpec] (setting a flag keeps its type; strings, Booleans
    and plain list elements are set as given) and [ViperSpec] (a non-empty
    variable, then the file), and without laws [SshLib] for x/crypto/ssh, [X509] for
    crypto/x509, [Scm] for the Windows service control manager and [url.Parse].
    That os.CreateTemp picks a new name is a hypothesis of the systemd instance
    ([tmp_fresh]).  Secrecy of the cipher is not stated.  The development declares
    no axioms.

    ** What is proved

    - [RelayProps] (C1-C9, C40): capacity limits in every reachable state, exact
      counters and gauges with nothing left when all calls have returned, stable
      sessions without a double close, clean-up that always completes and leaves
      nothing of the call behind, FIFO delivery per session and isolation
      between sessions, ownership of routes and the effect of a disconnect, pairing,
      the handshake deadline; and a state in which Accept waits although its stream
      is cancelled.
    - [AccessCode] (C10, C11): round trip and soundness of decoding; the state file
      is private and stable.
    - [Noise] (C12): client and agent agree.
    - [BridgeProps] (C13-C16, C39): stream integrity and completeness at close,
      frame size, orderly shutdown, termination; and silent truncation.
    - [EndpointProps] (C17-C19): the handshake and the tunnel from end to end,
      backoff and limits; and that endpoints and relay use the same frames
      ([endpoint_conformance]).
    - [Client] (C20): nothing leaks and the client process always comes to an end.
    - [Auth] (C21): who is let in.
    - [CommandProps] (C22-C26): what expose prints is what connect needs to reach
      that agent; whom serve lets in, and where it puts the code; connect stays on
      loopback; the relay's token, and whom its interceptors then let in.
    - [SshCommand] (C27) and [Cli] (C28): the life of the temporary tunnel, and how
      ssh is called.
    - [SshSession] (C29) and [SshServer] (C30, C31): complete output before the
      status, confined environment, stable host key (a temporary file stays only if
      it cannot be removed).
    - [Server] (C32): what the relay exposes and how it stops.
    - [Root] (C33): flags keep their types, and where their values come from.
    - [WinService] (C34, C35), [Service] (C36), [Systemd] (C37, C38): the service
      protocol, handles that are always closed and a stop that waits for the answer
      stopped, commands that stay with their service, quoting against systemd's
      reader, installation that is undone when it fails, as far as the files can be
      removed: what a failed removal leaves is stated too.

    ** Bounds and fuel

    Runs have any length; no bound is put on calls, sessions or messages.  The
    recursive readers take fuel where recursion is not structural: the length of
    the input for runes, [TrimSpace], protobuf fields and systemd words (each turn
    consumes a byte), ten bytes for a varint, eight turns for an IPv6 text
    ([v6_loop_fuel]).  The wait of the Windows [Stop] takes the number of its turns
    before the context ends, which is finite because that context has a deadline.
    [bridge_returns], [relay_unwinds] and the last parts of [client_shutdown],
    [ssh_tunnel_lifecycle], [session_output_complete] and
    [windows_execute_protocol] say that an end is reached.

    ** What is not modelled

    The network and TLS themselves, gRPC and its generated stubs
    (relay_grpc.pb.go), deadlines on connections except as the errors they cause,
    the text of log records, [warmGRPCConnection] (it only waits, and changes no
    state), the insides of cobra, pflag and viper, the bytes copied through a
    terminal, the text of errors on a session's standard error, directories,
    except that making one can fail, what permission bits mean on Windows, and
    signals, except as the end of a context.

    ** Plan

    Next: the command tree as one function from the command line to the process it
    starts, with cobra's order of checks; the agent of serve joined with the SSH
    server it hands its connections to; the deadlines of idle connections. *)

From Stdlib Require Export Strings.Byte ZArith Lia.
From stdpp Require Export base gmap strings list fin_maps option.

Open Scope Z_scope.

(** ** Bytes and strings

    A Go [[]byte] is a [list byte]; a Go [string] is a Rocq [string], that is
    a sequence of 8-bit characters.  [string(b)] and [[]byte(s)] are the
    standard library's conversions. *)

Notation bytes := (list byte).

#[global] Instance byte_eq_dec : EqDecision byte := Byte.byte_eq_dec.

Definition go_string (b : bytes) : string := String.string_of_list_byte b.
Definition go_bytes (s : string) : bytes := String.list_byte_of_string s.

(** A byte as the number it is, and the conversion [byte(n)], which keeps the
    low 8 bits. *)
Definition bval (b : byte) : Z := Z.of_N (Byte.to_N b).
Definition to_byte (n : Z) : byte :=
  match Byte.of_N (Z.to_N (n mod 256)) with Some b => b | None => x00 end.

Lemma bval_range b : 0 <= bval b < 256.
Proof. unfold bval. pose proof (Byte.to_N_bounded b). lia. Qed.

Lemma to_byte_bval b : to_byte (bval b) = b.
Proof.
  unfold to_byte. rewrite Z.mod_small by apply bval_range.
  unfold bval. rewrite N2Z.id. by rewrite Byte.of_to_N.
Qed.

Lemma bval_to_byte n : bval (to_byte n) = n mod 256.
Proof.
  unfold to_byte. pose proof (Z.mod_pos_bound n 256 ltac:(lia)) as Hr.
  destruct (Byte.of_N _) as [b|] eqn:Hb.
  - apply Byte.to_of_N in Hb. unfold bval. rewrite Hb. lia.
  - apply Byte.of_N_None_iff in Hb. lia.
Qed.

Lemma bval_inj a b : bval a = bval b -> a = b.
Proof. intros H. rewrite <- (to_byte_bval a), <- (to_byte_bval b). by rewrite H. Qed.

Lemma go_bytes_string b : go_bytes (go_string b) = b.
Proof. apply String.list_byte_of_string_of_list_byte. Qed.
Lemma go_string_bytes s : go_string (go_bytes s) = s.
Proof. apply String.string_of_list_byte_of_string. Qed.
Lemma go_bytes_inj s t : go_bytes s = go_bytes t -> s = t.
Proof. intros H. rewrite <- (go_string_bytes s), H. apply go_string_bytes. Qed.
Lemma go_bytes_app s t : go_bytes (s +:+ t) = go_bytes s ++ go_bytes t.
Proof.
  unfold go_bytes. induction s as [|c s IH]; [done|].
  change (String c s +:+ t) with (String c (s +:+ t)). cbn. f_equal. exact IH.
Qed.

(** [len(x)] of a slice, as the Go [int] it is compared with. *)
Definition len {A} (l : list A) : Z := Z.of_nat (length l).

(** ** The result of a fallible Go function

    A Go function that returns [(T, error)] returns a [result E T]. *)

Inductive result (E A : Type) : Type :=
| Ok (a : A)
| Err (e : E).
Arguments Ok {E A} _.
Arguments Err {E A} _.

Definition result_bind {E A B} (r : result E A) (k : A -> result E B) : result E B :=
  match r with Ok a => k a | Err e => Err e end.

Declare Scope go_scope.
Delimit Scope go_scope with go.

(** [x <-! e ;; k] is [x, err := e; if err != nil { return err }; k], and
    [guard b e ;; k] is [if b { return e }; k]. *)
Notation "x <-! c ;; k" := (result_bind c (fun x => k))
  (at level 60, c at next level, right associativity) : go_scope.
Notation "'guard' b 'else' e ;; k" := (if b then Err e else k)
  (at level 60, b at next level, e at next level, right associativity) : go_scope.

Definition is_ok {E A} (r : result E A) : bool :=
  match r with Ok _ => true | Err _ => false end.

Lemma result_bind_Ok {E A B} (r : result E A) (k : A -> result E B) b :
  result_bind r k = Ok b <-> exists a, r = Ok a /\ k a = Ok b.
Proof. destruct r; naive_solver. Qed.


(** ** Sums over finite maps

    [msum f m] adds [f x] over the entries of [m]; the relay's counters are
    related to the live goroutines with it. *)

Definition msum {A} (f : A -> Z) (m : gmap nat A) : Z :=
  map_fold (fun _ x acc => f x + acc) 0 m.

Section msum.
Context {A : Type}.
Implicit Types (f g : A -> Z) (m : gmap nat A).

Lemma msum_empty f : msum f ∅ = 0.
Proof. apply map_fold_empty. Qed.

Lemma msum_insert_None f m k x :
  m !! k = None -> msum f (<[k:=x]> m) = f x + msum f m.
Proof.
  intros Hk. unfold msum.
  rewrite (map_fold_insert_L (fun _ x acc => f x + acc) 0 k x m); [done| |done].
  intros; lia.
Qed.

Lemma msum_delete f m k x :
  m !! k = Some x -> msum f (delete k m) = msum f m - f x.
Proof.
  intros Hk.
  rewrite <- (insert_delete_id m k x Hk) at 2.
  rewrite msum_insert_None by apply lookup_delete_eq. lia.
Qed.

Lemma msum_insert f m k x y :
  m !! k = Some x -> msum f (<[k:=y]> m) = msum f m - f x + f y.
Proof.
  intros Hk. rewrite <- insert_delete_eq.
  rewrite msum_insert_None by apply lookup_delete_eq.
  rewrite (msum_delete f m k x Hk). lia.
Qed.


Lemma msum_nonneg f m : (forall x, 0 <= f x) -> 0 <= msum f m.
Proof.
  intros Hf. induction m as [|k x m Hk IH] using map_ind.
  - rewrite msum_empty. lia.
  - rewrite msum_insert_None by done. specialize (Hf x). lia.
Qed.

Lemma msum_zero f m :
  (forall k x, m !! k = Some x -> f x = 0) -> msum f m = 0.
Proof.
  induction m as [|k x m Hk IH] using map_ind; intros Hf.
  - apply msum_empty.
  - rewrite msum_insert_None by done.
    rewrite (Hf k x) by apply lookup_insert_eq.
    rewrite IH; [done|]. intros k' x' Hk'. apply (Hf k').
    rewrite lookup_insert_ne; [done|]. intros ->. congruence.
Qed.

End msum.

(** [count_list P l] is the number of elements of [l] that satisfy [P]. *)
Fixpoint count_list {A} (P : A -> bool) (l : list A) : Z :=
  match l with
  | [] => 0
  | x :: l' => (if P x then 1 else 0) + count_list P l'
  end.

Lemma count_list_nonneg {A} (P : A -> bool) l : 0 <= count_list P l.
Proof. induction l as [|x l IH]; simpl; [lia|]. destruct (P x); lia. Qed.

Lemma count_list_zero {A} (P : A -> bool) l :
  count_list P l = 0 <-> forall x, x ∈ l -> P x = false.
Proof.
  induction l as [|y l IH]; simpl.
  - split; [|done]. intros _ x Hx. by apply not_elem_of_nil in Hx.
  - pose proof (count_list_nonneg P l). destruct (P y) eqn:Hy; split; intros Hc.
    + lia.
    + specialize (Hc y (list_elem_of_here y l)). congruence.
    + intros x Hx. apply elem_of_cons in Hx as [->|Hx]; [done|]. apply IH; [lia|done].
    + rewrite (proj2 IH); [lia|]. intros x Hx. apply Hc. by apply list_elem_of_further.
Qed.

(** ** Lists *)

Lemma filter_fst_snoc {B} (q p : nat) (x : B) (l : list (nat * B)) :
  (filter (fun y => y.1 = q) (l ++ [(p, x)])).*2
  = (filter (fun y => y.1 = q) l).*2 ++ (if decide (p = q) then [x] else []).
Proof.
  rewrite list.filter_app, fmap_app. f_equal.
  destruct (decide (p = q)) as [->|Hne].
  - by rewrite filter_cons_True.
  - by rewrite filter_cons_False.
Qed.

Lemma filter_fst_sublist {B} (q : nat) (l : list (nat * B)) :
  sublist (filter (fun y => y.1 = q) l).*2 l.*2.
Proof.
  induction l as [|[a b] l IH]; simpl; [constructor|].
  destruct (decide (a = q)) as [->|Hne].
  - rewrite filter_cons_True by done. by apply sublist_skip.
  - rewrite filter_cons_False by done. by apply sublist_cons.
Qed.

Lemma filter_fst_all {B} (q : nat) (l : list (nat * B)) :
  Forall (fun y => y.1 = q) l -> (filter (fun y => y.1 = q) l).*2 = l.*2.
Proof.
  induction 1 as [|[a b] l Ha Hl IH]; simpl; [done|].
  rewrite filter_cons_True by done. rewrite !fmap_cons. by f_equal.
Qed.

Lemma prefix_sublist {A} (l k : list A) : l `prefix_of` k -> sublist l k.
Proof. intros [r ->]. by apply sublist_inserts_r. Qed.

Lemma prefix_snoc {A} (l k : list A) x : l `prefix_of` k ++ [x] -> l `prefix_of` k \/ l = k ++ [x].
Proof.
  intros [r Hr]. destruct r as [|y r] using rev_ind.
  - right. by rewrite app_nil_r in Hr.
  - rewrite app_assoc in Hr. apply app_inj_tail in Hr as [-> _]. left. by apply prefix_app_r.
Qed.

(** ** Automation *)

Create HintDb relaycat.

#[export] Hint Resolve count_list_nonneg msum_nonneg : relaycat.
#[export] Hint Resolve prefix_app_r prefix_nil : relaycat.

(** Case analysis on the guards of a step function: every [match] and [if] of
    the hypothesis [H] is destructed, impossible branches are closed. *)
Ltac crush_match H :=
  repeat (match type of H with
          | context [ match ?x with _ => _ end ] =>
              destruct x eqn:?; cbn beta iota in H; try discriminate H
          end);
  simplify_eq/=.

(** Linear arithmetic with division and remainder by constants. *)
Ltac euclid := Z.to_euclidean_division_equations; lia.

(** Split the conjunctions of the context and of the goal. *)
Ltac split_all := destruct_and?; split_and?.
