(* ===== verification/GoBase.v ===== *)
(** * The Go runtime behaviour the sources rely on

    Error values with [errors.Is] and [errors.Join], contexts, gRPC status
    codes, and the messages of [relay.v1] as the generated Go package declares
    them (structs, [oneof] bodies and getters). *)

From S2P Require Import Prelude.

(** ** Contexts and errors *)

(** The two values of [ctx.Err()] of a finished context. *)
Inductive ctx_err := CtxCanceled | CtxDeadlineExceeded.

#[global] Instance ctx_err_eq_dec : EqDecision ctx_err.
Proof. solve_decision. Defined.

(** The gRPC codes the relay uses. *)
Inductive code :=
| FailedPrecondition | InvalidArgument | ResourceExhausted | AlreadyExists
| Unavailable | Internal | DeadlineExceeded | NotFound | Unauthenticated.

#[global] Instance code_eq_dec : EqDecision code.
Proof. solve_decision. Defined.

(** Go error values.  [EOpaque n] is an error produced outside the program (a
    failed [Send], a network error); [EFromContext e] is
    [status.FromContextError(e).Err()]; [EWrap msg e] is
    [fmt.Errorf("msg: %w", e)]; [EJoin1] and [EJoin] are the values of
    [errors.Join] with one and with two errors that are not nil. *)
Inductive goerr :=
| EStatus (c : code) (msg : string)
| EFromContext (e : ctx_err)
| ECtx (e : ctx_err)
| EEOF
| EUnexpectedEOF
| ENetClosed
| ENotExist
| EExist
| ENew (msg : string)
| EOpaque (n : nat)
| EWrap (msg : string) (e : goerr)
| EJoin1 (e : goerr)
| EJoin (e1 e2 : goerr).

#[global] Instance goerr_eq_dec : EqDecision goerr.
Proof. solve_decision. Defined.

(** [errors.Is(err, target)] for the sentinel targets the program uses: the
    error itself, or anything it wraps. *)
Fixpoint errors_Is (e target : goerr) : bool :=
  bool_decide (e = target) ||
  match e with
  | EWrap _ e' => errors_Is e' target
  | EJoin1 e' => errors_Is e' target
  | EJoin e1 e2 => errors_Is e1 target || errors_Is e2 target
  | _ => false
  end.

(** [errors.Join(a, b)]: nil errors are dropped, and it is nil when both are. *)
Definition errors_Join (a b : option goerr) : option goerr :=
  match a, b with
  | None, None => None
  | Some e, None => Some (EJoin1 e)
  | None, Some e => Some (EJoin1 e)
  | Some e1, Some e2 => Some (EJoin e1 e2)
  end.

Lemma errors_Is_refl e : errors_Is e e = true.
Proof. destruct e; cbn [errors_Is]; by rewrite bool_decide_eq_true_2. Qed.

Lemma errors_Is_wrap msg e target :
  errors_Is e target = true -> errors_Is (EWrap msg e) target = true.
Proof. intros He. simpl. rewrite He. apply orb_true_r. Qed.

(** ** UTF-8

    [utf8.Valid]: well-formed sequences, without surrogates or overlong forms. *)

Definition in_range (lo hi : Z) (b : byte) : bool := (lo <=? bval b) && (bval b <=? hi).
Definition cont (b : byte) : bool := in_range 128 191 b.

(** The range of the second byte after the first byte of a sequence of three or
    four bytes. *)
Definition second_lo (b : byte) : Z :=
  if bval b =? 224 then 160 else if bval b =? 240 then 144 else 128.
Definition second_hi (b : byte) : Z :=
  if bval b =? 237 then 159 else if bval b =? 244 then 143 else 191.

Fixpoint utf8_valid (s : bytes) : bool :=
  match s with
  | [] => true
  | b0 :: s1 =>
      if bval b0 <? 128 then utf8_valid s1
      else if in_range 194 223 b0 then
        match s1 with b1 :: s2 => cont b1 && utf8_valid s2 | _ => false end
      else if in_range 224 239 b0 then
        match s1 with
        | b1 :: b2 :: s3 => in_range (second_lo b0) (second_hi b0) b1 && cont b2 && utf8_valid s3
        | _ => false
        end
      else if in_range 240 244 b0 then
        match s1 with
        | b1 :: b2 :: b3 :: s4 =>
            in_range (second_lo b0) (second_hi b0) b1 && cont b2 && cont b3 && utf8_valid s4
        | _ => false
        end
      else false
  end.

(** ** relay.v1 messages *)

Record RegisterAgentRequest := {
  rar_ProtocolVersion : Z;
  rar_RouteId : bytes;
}.

Record RegisterAgentResponse := {
  ras_ProtocolVersion : Z;
  ras_SessionId : bytes;
  ras_ClientHello : bytes;
}.

Record ClientOpen := {
  co_ProtocolVersion : Z;
  co_RouteId : bytes;
}.

Record ClientHandshake := { ch_ClientHello : bytes }.

Record SessionAssigned := { sa_SessionId : bytes }.

Record AgentAccept := {
  aa_ProtocolVersion : Z;
  aa_SessionId : bytes;
  aa_AgentHello : bytes;
}.

Record Ciphertext := { ct_Payload : bytes }.

Inductive ConnectRequest_Body :=
| ConnectRequest_ClientOpen (m : ClientOpen)
| ConnectRequest_ClientHandshake (m : ClientHandshake)
| ConnectRequest_Ciphertext (m : Ciphertext).

(** [Body] is the oneof; [None] is an unset oneof. *)
Record ConnectRequest := { creq_Body : option ConnectRequest_Body }.

Definition ConnectRequest_GetClientOpen (x : ConnectRequest) : option ClientOpen :=
  match creq_Body x with Some (ConnectRequest_ClientOpen m) => Some m | _ => None end.
Definition ConnectRequest_GetClientHandshake (x : ConnectRequest) : option ClientHandshake :=
  match creq_Body x with Some (ConnectRequest_ClientHandshake m) => Some m | _ => None end.
Definition ConnectRequest_GetCiphertext (x : ConnectRequest) : option Ciphertext :=
  match creq_Body x with Some (ConnectRequest_Ciphertext m) => Some m | _ => None end.

Inductive ConnectResponse_Body :=
| ConnectResponse_SessionAssigned (m : SessionAssigned)
| ConnectResponse_AgentAccept (m : AgentAccept)
| ConnectResponse_Ciphertext (m : Ciphertext).

Record ConnectResponse := { cres_Body : option ConnectResponse_Body }.

Definition ConnectResponse_GetSessionAssigned (x : ConnectResponse) : option SessionAssigned :=
  match cres_Body x with Some (ConnectResponse_SessionAssigned m) => Some m | _ => None end.
Definition ConnectResponse_GetAgentAccept (x : ConnectResponse) : option AgentAccept :=
  match cres_Body x with Some (ConnectResponse_AgentAccept m) => Some m | _ => None end.
Definition ConnectResponse_GetCiphertext (x : ConnectResponse) : option Ciphertext :=
  match cres_Body x with Some (ConnectResponse_Ciphertext m) => Some m | _ => None end.

Inductive AcceptRequest_Body :=
| AcceptRequest_AgentAccept (m : AgentAccept)
| AcceptRequest_Ciphertext (m : Ciphertext).

Record AcceptRequest := { areq_Body : option AcceptRequest_Body }.

Definition AcceptRequest_GetAgentAccept (x : AcceptRequest) : option AgentAccept :=
  match areq_Body x with Some (AcceptRequest_AgentAccept m) => Some m | _ => None end.
Definition AcceptRequest_GetCiphertext (x : AcceptRequest) : option Ciphertext :=
  match areq_Body x with Some (AcceptRequest_Ciphertext m) => Some m | _ => None end.

Inductive AcceptResponse_Body :=
| AcceptResponse_Ciphertext (m : Ciphertext).

Record AcceptResponse := { ares_Body : option AcceptResponse_Body }.

Definition AcceptResponse_GetCiphertext (x : AcceptResponse) : option Ciphertext :=
  match ares_Body x with Some (AcceptResponse_Ciphertext m) => Some m | _ => None end.

(** [CloseCode] is an open int32 enum: any number can arrive on the wire. *)
Definition CLOSE_CODE_UNSPECIFIED : Z := 0.
Definition CLOSE_CODE_NORMAL : Z := 1.
Definition CLOSE_CODE_TARGET_UNREACHABLE : Z := 2.
Definition CLOSE_CODE_IDLE_TIMEOUT : Z := 3.
Definition CLOSE_CODE_INTERNAL : Z := 4.

Record HalfClose := mkHalfClose {}.

Record Close := { close_Code : Z; close_Message : string }.

Inductive PlainFrame_Body :=
| PlainFrame_Data (d : bytes)
| PlainFrame_HalfClose (m : HalfClose)
| PlainFrame_Close (m : Close).

Record PlainFrame := { pf_Body : option PlainFrame_Body }.

Record ConnectionCode := {
  cc_ProtocolVersion : Z;
  cc_RelayUrl : string;
  cc_RouteId : bytes;
  cc_PresharedKey : bytes;
}.

#[global] Instance HalfClose_eq_dec : EqDecision HalfClose.
Proof. solve_decision. Defined.
#[global] Instance Close_eq_dec : EqDecision Close.
Proof. solve_decision. Defined.
#[global] Instance PlainFrame_Body_eq_dec : EqDecision PlainFrame_Body.
Proof. solve_decision. Defined.
#[global] Instance PlainFrame_eq_dec : EqDecision PlainFrame.
Proof. solve_decision. Defined.

(** ** Protocol constants (accesscode) *)

Definition ProtocolVersion : Z := 1.
Definition RouteIDSize : Z := 16.
Definition PSKSize : Z := 32.
