(* ===== verification/Effects.v ===== *)
(** * A state and error monad

    The commands of the program thread the file system and their output streams
    through many calls, each of which may fail and return early.  [eff S A] is
    such a body: from a state, a [result] and the state it leaves, also when it
    fails.  The lemmas turn a run of a body into the runs of its parts, and a
    relation every part respects into one the whole body respects. *)

From S2P Require Import Prelude GoBase.

Definition eff (S A : Type) : Type := S -> result goerr A * S.

Section eff.
Context {S : Type}.

Definition eret {A} (a : A) : eff S A := fun s => (Ok a, s).
Definition efail {A} (e : goerr) : eff S A := fun s => (Err e, s).
Definition ebind {A B} (c : eff S A) (k : A -> eff S B) : eff S B := fun s =>
  match c s with
  | (Ok a, s') => k a s'
  | (Err e, s') => (Err e, s')
  end.
(** A pure fallible call, and a guard: [if b { return e }]. *)
Definition elift {A} (r : result goerr A) : eff S A := fun s => (r, s).
Definition echeck (r : option goerr) : eff S unit := fun s => (match r with Some e => Err e | None => Ok tt end, s).
Definition eguard (b : bool) (e : goerr) : eff S unit := fun s => (if b then Err e else Ok tt, s).
Definition eget : eff S S := fun s => (Ok s, s).
Definition emodify (f : S -> S) : eff S unit := fun s => (Ok tt, f s).
Definition ewhen (b : bool) (c : eff S unit) : eff S unit := if b then c else eret tt.
(** [fmt.Errorf("msg: %w", err)] around the error of a call. *)
Definition ewrap {A} (msg : string) (c : eff S A) : eff S A := fun s =>
  match c s with
  | (Ok a, s') => (Ok a, s')
  | (Err e, s') => (Err (EWrap msg e), s')
  end.

(** [defer func() { _ = d() }()] around a body: it runs on every path and its
    error is dropped. *)
Definition edefer {A} (c : eff S A) (d : eff S unit) : eff S A := fun s =>
  let '(r, s1) := c s in (r, (d s1).2).

Fixpoint emap {A B} (f : A -> eff S B) (l : list A) : eff S (list B) :=
  match l with
  | [] => eret []
  | a :: l' => ebind (f a) (fun b => ebind (emap f l') (fun bs => eret (b :: bs)))
  end.
End eff.

Declare Scope eff_scope.
Delimit Scope eff_scope with eff.
Notation "'let!' x ':=' c 'in' k" := (ebind c (fun x => k))
  (at level 200, x pattern, c at level 100, k at level 200, right associativity) : eff_scope.
Notation "'do!' c 'in' k" := (ebind c (fun _ => k))
  (at level 200, c at level 100, k at level 200, right associativity) : eff_scope.

(** ** Runs *)

Section runs.
Context {S : Type}.

Lemma ebind_Ok {A B} (c : eff S A) (k : A -> eff S B) s b s' :
  ebind c k s = (Ok b, s') <-> exists a s1, c s = (Ok a, s1) /\ k a s1 = (Ok b, s').
Proof. unfold ebind. destruct (c s) as [[a|e] s1]; naive_solver. Qed.


Lemma elift_Ok {A} (r : result goerr A) (s : S) a s' : elift r s = (Ok a, s') <-> r = Ok a /\ s' = s.
Proof. unfold elift. naive_solver. Qed.
Lemma echeck_Ok r (s : S) a s' : echeck r s = (Ok a, s') <-> r = None /\ s' = s.
Proof. unfold echeck. destruct r, a; naive_solver. Qed.
Lemma eguard_Ok b e (s : S) a s' : eguard b e s = (Ok a, s') <-> b = false /\ s' = s.
Proof. unfold eguard. destruct b, a; naive_solver. Qed.
Lemma ewrap_Ok {A} msg (c : eff S A) s a s' : ewrap msg c s = (Ok a, s') <-> c s = (Ok a, s').
Proof. unfold ewrap. destruct (c s) as [[]]; naive_solver. Qed.
Lemma emodify_Ok f (s : S) a s' : emodify f s = (Ok a, s') <-> s' = f s.
Proof. unfold emodify. destruct a; naive_solver. Qed.
Lemma eget_Ok (s : S) a s' : eget s = (Ok a, s') <-> a = s /\ s' = s.
Proof. unfold eget. naive_solver. Qed.
Lemma eret_Ok {A} (x : A) (s : S) a s' : eret x s = (Ok a, s') <-> a = x /\ s' = s.
Proof. unfold eret. naive_solver. Qed.
Lemma ewhen_Ok b (c : eff S unit) s a s' :
  ewhen b c s = (Ok a, s') <-> (b = true /\ c s = (Ok a, s')) \/ (b = false /\ s' = s).
Proof. unfold ewhen, eret. destruct b, a; naive_solver. Qed.

(** *** Relations a body respects, whether it succeeds or fails *)

Definition respects {A} (R : S -> S -> Prop) (c : eff S A) : Prop := forall s, R s (c s).2.

Context (R : S -> S -> Prop) {HR : PreOrder R}.

Lemma respects_pure {A} (f : S -> result goerr A) : respects R (fun s => (f s, s)).
Proof. intros s. simpl. reflexivity. Qed.
Lemma respects_bind {A B} (c : eff S A) (k : A -> eff S B) :
  respects R c -> (forall a, respects R (k a)) -> respects R (ebind c k).
Proof.
  intros Hc Hk s. unfold ebind. specialize (Hc s). destruct (c s) as [[a|e] s1]; simpl in *; [|done].
  etransitivity; [exact Hc|apply Hk].
Qed.
Lemma respects_wrap {A} msg (c : eff S A) : respects R c -> respects R (ewrap msg c).
Proof. intros Hc s. unfold ewrap. specialize (Hc s). by destruct (c s) as [[a|e] s1]. Qed.
Lemma respects_when b (c : eff S unit) : respects R c -> respects R (ewhen b c).
Proof. intros Hc. unfold ewhen. destruct b; [done|]. apply (respects_pure (fun _ => Ok tt)). Qed.
Lemma respects_map {A B} (f : A -> eff S B) l : (forall a, respects R (f a)) -> respects R (emap f l).
Proof.
  intros Hf. induction l as [|a l IH]; [apply (respects_pure (fun _ => Ok []))|]. simpl.
  apply respects_bind; [apply Hf|]. intros b. apply respects_bind; [done|]. intros bs.
  apply (respects_pure (fun _ => Ok (b :: bs))).
Qed.
Lemma respects_lift {A} (r : result goerr A) : respects R (elift r).
Proof. apply (respects_pure (fun _ => r)). Qed.
Lemma respects_bind_lift {A B} (r : result goerr A) (k : A -> eff S B) :
  (forall a, r = Ok a -> respects R (k a)) -> respects R (ebind (elift r) k).
Proof. intros Hk s. unfold ebind, elift. destruct r as [a|e]; [by apply Hk|simpl; reflexivity]. Qed.
Lemma respects_check r : respects R (echeck r).
Proof. apply (respects_pure (fun _ => match r with Some e => Err e | None => Ok tt end)). Qed.
Lemma respects_bind_check {B} r (k : unit -> eff S B) :
  (r = None -> respects R (k tt)) -> respects R (ebind (echeck r) k).
Proof. intros Hk s. unfold ebind, echeck. destruct r; [simpl; reflexivity|by apply Hk]. Qed.
Lemma respects_guard b e : respects R (eguard b e).
Proof. apply (respects_pure (fun _ => if b then Err e else Ok tt)). Qed.
Lemma respects_get : respects R eget.
Proof. apply (respects_pure (fun s => Ok s)). Qed.
Lemma respects_ret {A} (a : A) : respects R (eret a).
Proof. apply (respects_pure (fun _ => Ok a)). Qed.
Lemma respects_fail {A} e : respects R (efail (A := A) e).
Proof. apply (respects_pure (fun _ => Err e)). Qed.
End runs.

#[export] Hint Resolve respects_wrap respects_when respects_lift respects_check respects_guard respects_get
  respects_ret respects_fail respects_map : relaycat.

(** Walk through a successful run: every [ebind] gives the runs of its parts, and
    every guard what it checked. *)
Ltac eff_step H :=
  match type of H with
  | ebind _ _ _ = (Ok _, _) =>
      let a := fresh "a" in let s := fresh "s" in let H1 := fresh "Hc" in
      apply ebind_Ok in H as (a & s & H1 & H); eff_step H1; eff_step H
  | elift _ _ = (Ok _, _) => apply elift_Ok in H as [H ->]
  | echeck _ _ = (Ok _, _) => apply echeck_Ok in H as [H ->]
  | eguard _ _ _ = (Ok _, _) => apply eguard_Ok in H as [H ->]
  | ewrap _ _ _ = (Ok _, _) => apply ewrap_Ok in H; eff_step H
  | eret _ _ = (Ok _, _) => apply eret_Ok in H as [-> ->]
  | eget _ = (Ok _, _) => apply eget_Ok in H as [-> ->]
  | emodify _ _ = (Ok _, _) => apply emodify_Ok in H as ->
  | _ => idtac
  end.
Ltac eff_run H := eff_step H.

(** Prove [respects R body] part by part. *)
Ltac eff_respects :=
  repeat first
    [ apply respects_bind; [typeclasses eauto| |intros ?]
    | progress (cbn beta iota zeta)
    | solve [eauto with relaycat typeclass_instances]
    | match goal with |- respects _ (match ?x with _ => _ end) => destruct x end ].
