(* ===== verification/Utf8.v ===== *)
(** * Runes

    [range] over a Go string decodes UTF-8: a well-formed sequence gives its
    code point, any other byte gives U+FFFD and advances by one.  [WriteRune]
    encodes. *)

From S2P Require Import Prelude GoBase.

Definition RuneError : Z := 65533.

(** [utf8.DecodeRune]: the rune and the bytes after it. *)
Definition decode_rune (b0 : byte) (s : bytes) : Z * bytes :=
  if bval b0 <? 128 then (bval b0, s)
  else if in_range 194 223 b0 then
    match s with
    | b1 :: s2 => if cont b1 then ((bval b0 - 192) * 64 + (bval b1 - 128), s2) else (RuneError, s)
    | _ => (RuneError, s)
    end
  else if in_range 224 239 b0 then
    match s with
    | b1 :: b2 :: s3 =>
        if in_range (second_lo b0) (second_hi b0) b1 && cont b2
        then ((bval b0 - 224) * 4096 + (bval b1 - 128) * 64 + (bval b2 - 128), s3) else (RuneError, s)
    | _ => (RuneError, s)
    end
  else if in_range 240 244 b0 then
    match s with
    | b1 :: b2 :: b3 :: s4 =>
        if in_range (second_lo b0) (second_hi b0) b1 && cont b2 && cont b3
        then ((bval b0 - 240) * 262144 + (bval b1 - 128) * 4096 + (bval b2 - 128) * 64 + (bval b3 - 128), s4)
        else (RuneError, s)
    | _ => (RuneError, s)
    end
  else (RuneError, s).

(** The runes of a string; a rune takes at least one byte, so the length of the
    string is enough fuel. *)
Fixpoint runes_fuel (fuel : nat) (s : bytes) : list Z :=
  match fuel, s with
  | S fuel', b0 :: s1 => let '(r, rest) := decode_rune b0 s1 in r :: runes_fuel fuel' rest
  | _, _ => []
  end.
Definition runes (s : bytes) : list Z := runes_fuel (length s) s.

(** [utf8.AppendRune] *)
Definition encode_rune (r : Z) : bytes :=
  if (0 <=? r) && (r <? 128) then [to_byte r]
  else if (128 <=? r) && (r <? 2048) then [to_byte (192 + r / 64); to_byte (128 + r mod 64)]
  else if ((2048 <=? r) && (r <? 55296)) || ((57343 <? r) && (r <? 65536)) then
    [to_byte (224 + r / 4096); to_byte (128 + r / 64 mod 64); to_byte (128 + r mod 64)]
  else if (65536 <=? r) && (r <=? 1114111) then
    [to_byte (240 + r / 262144); to_byte (128 + r / 4096 mod 64); to_byte (128 + r / 64 mod 64); to_byte (128 + r mod 64)]
  else [xef; xbf; xbd].

(** ** Well-formed text survives *)

Lemma decode_rune_length b0 s : (length (decode_rune b0 s).2 <= length s)%nat.
Proof. unfold decode_rune. repeat case_match; simplify_eq/=; lia. Qed.

Lemma runes_fuel_enough n m s : (length s <= n)%nat -> (length s <= m)%nat -> runes_fuel n s = runes_fuel m s.
Proof.
  revert m s. induction n as [|n IH]; intros [|m] [|b s] Hn Hm; simpl in *; try lia; [done..|].
  pose proof (decode_rune_length b s) as Hl. destruct (decode_rune b s) as [r rest]. simpl in Hl.
  f_equal. apply IH; lia.
Qed.

Lemma runes_cons b0 s : runes (b0 :: s) = (decode_rune b0 s).1 :: runes (decode_rune b0 s).2.
Proof.
  unfold runes. cbn [length runes_fuel]. pose proof (decode_rune_length b0 s) as Hl.
  destruct (decode_rune b0 s) as [r rest]. simpl in *. f_equal. by apply runes_fuel_enough.
Qed.

Lemma in_range_spec lo hi b : in_range lo hi b = true <-> lo <= bval b <= hi.
Proof. unfold in_range. rewrite andb_true_iff, !Z.leb_le. done. Qed.

(** Bytes given back by [encode_rune]. *)
Lemma to_byte_is b n : n = bval b -> to_byte n = b.
Proof. intros ->. apply to_byte_bval. Qed.

Ltac rune_bounds :=
  repeat match goal with
  | H : _ && _ = true |- _ => apply andb_true_iff in H as [? ?]
  | H : in_range _ _ _ = true |- _ => apply in_range_spec in H
  | H : cont _ = true |- _ => apply in_range_spec in H
  | H : _ < 128 -> False |- _ => apply Z.nlt_ge in H
  end.

Lemma encode_two b0 b1 :
  in_range 194 223 b0 = true -> cont b1 = true ->
  encode_rune ((bval b0 - 192) * 64 + (bval b1 - 128)) = [b0; b1].
Proof.
  intros H0 H1. rune_bounds. unfold encode_rune. set (r := _ + _).
  rewrite (proj2 (andb_false_iff _ _)) by (right; apply Z.ltb_ge; lia).
  rewrite (proj2 (andb_true_iff _ _)) by (split; [apply Z.leb_le|apply Z.ltb_lt]; lia).
  repeat f_equal; apply to_byte_is; subst r; euclid.
Qed.

Lemma encode_three b0 b1 b2 :
  in_range 224 239 b0 = true -> in_range (second_lo b0) (second_hi b0) b1 = true -> cont b2 = true ->
  encode_rune ((bval b0 - 224) * 4096 + (bval b1 - 128) * 64 + (bval b2 - 128)) = [b0; b1; b2].
Proof.
  intros H0 H1 H2. rune_bounds. unfold second_lo, second_hi in H1. unfold encode_rune. set (r := _ + _).
  assert (Hr : 2048 <= r < 55296 \/ 57343 < r < 65536).
  { subst r. destruct (Z.eqb_spec (bval b0) 224), (Z.eqb_spec (bval b0) 240), (Z.eqb_spec (bval b0) 237),
      (Z.eqb_spec (bval b0) 244); lia. }
  rewrite (proj2 (andb_false_iff _ _)) by (right; apply Z.ltb_ge; lia).
  rewrite (proj2 (andb_false_iff (128 <=? r) _)) by (right; apply Z.ltb_ge; lia).
  rewrite (proj2 (orb_true_iff _ _)) by (rewrite !andb_true_iff, Z.leb_le, !Z.ltb_lt; lia).
  assert (128 <= bval b1 <= 191).
  { destruct (Z.eqb_spec (bval b0) 224), (Z.eqb_spec (bval b0) 240), (Z.eqb_spec (bval b0) 237),
      (Z.eqb_spec (bval b0) 244); lia. }
  repeat f_equal; apply to_byte_is; subst r; euclid.
Qed.

Lemma encode_four b0 b1 b2 b3 :
  in_range 240 244 b0 = true -> in_range (second_lo b0) (second_hi b0) b1 = true -> cont b2 = true -> cont b3 = true ->
  encode_rune ((bval b0 - 240) * 262144 + (bval b1 - 128) * 4096 + (bval b2 - 128) * 64 + (bval b3 - 128))
  = [b0; b1; b2; b3].
Proof.
  intros H0 H1 H2 H3. rune_bounds. unfold second_lo, second_hi in H1. unfold encode_rune. set (r := _ + _).
  assert (Hb : 128 <= bval b1 <= 191 /\ 65536 <= r <= 1114111).
  { subst r. destruct (Z.eqb_spec (bval b0) 224), (Z.eqb_spec (bval b0) 240), (Z.eqb_spec (bval b0) 237),
      (Z.eqb_spec (bval b0) 244); lia. }
  rewrite (proj2 (andb_false_iff _ _)) by (right; apply Z.ltb_ge; lia).
  rewrite (proj2 (andb_false_iff (128 <=? r) _)) by (right; apply Z.ltb_ge; lia).
  rewrite (proj2 (orb_false_iff _ _)) by (rewrite !andb_false_iff, Z.leb_gt, !Z.ltb_ge; lia).
  rewrite (proj2 (andb_true_iff _ _)) by (rewrite !Z.leb_le; lia).
  repeat f_equal; apply to_byte_is; subst r; euclid.
Qed.

Lemma decode_rune_valid b0 s :
  utf8_valid (b0 :: s) = true ->
  encode_rune (decode_rune b0 s).1 ++ (decode_rune b0 s).2 = b0 :: s /\ utf8_valid (decode_rune b0 s).2 = true.
Proof.
  cbn [utf8_valid]. unfold decode_rune. destruct (Z.ltb_spec (bval b0) 128) as [H|H].
  - intros Hv. split; [|done]. simpl. unfold encode_rune. pose proof (bval_range b0).
    rewrite (proj2 (andb_true_iff _ _)) by (split; [apply Z.leb_le|apply Z.ltb_lt]; lia).
    by rewrite to_byte_bval.
  - destruct (in_range 194 223 b0) eqn:E2.
    { destruct s as [|b1 s]; [done|]. destruct (cont b1) eqn:C1; [|done]. intros Hv. split; [|done]. simpl.
      by rewrite encode_two. }
    destruct (in_range 224 239 b0) eqn:E3.
    { destruct s as [|b1 [|b2 s]]; [done..|]. destruct (in_range _ _ b1) eqn:C1, (cont b2) eqn:C2; try done.
      intros Hv. split; [|done]. simpl. by rewrite encode_three. }
    destruct (in_range 240 244 b0) eqn:E4; [|done].
    destruct s as [|b1 [|b2 [|b3 s]]]; [done..|].
    destruct (in_range _ _ b1) eqn:C1, (cont b2) eqn:C2, (cont b3) eqn:C3; try done.
    intros Hv. split; [|done]. simpl. by rewrite encode_four.
Qed.

Lemma encode_runes s : utf8_valid s = true -> flat_map encode_rune (runes s) = s.
Proof.
  induction s as [s IH] using (induction_ltof1 _ (@length byte)). unfold ltof in IH.
  destruct s as [|b0 s]; [done|]. intros Hv. rewrite runes_cons. cbn [flat_map].
  destruct (decode_rune_valid b0 s Hv) as [He Hv']. pose proof (decode_rune_length b0 s).
  rewrite IH; [done|simpl; lia|done].
Qed.

(** ** ASCII text *)

Lemma decode_rune_ascii b0 s : bval b0 < 128 -> decode_rune b0 s = (bval b0, s).
Proof. intros H. unfold decode_rune. by destruct (Z.ltb_spec (bval b0) 128); [|lia]. Qed.

Lemma decode_rune_high b0 s : 128 <= bval b0 -> 128 <= (decode_rune b0 s).1.
Proof.
  intros H. unfold decode_rune. destruct (Z.ltb_spec (bval b0) 128); [lia|].
  repeat case_match; simplify_eq/=; unfold RuneError; try lia; rune_bounds; unfold second_lo in *;
    destruct (Z.eqb_spec (bval b0) 224), (Z.eqb_spec (bval b0) 240); lia.
Qed.

Lemma runes_ascii s : Forall (fun b => bval b < 128) s -> runes s = map bval s.
Proof. induction 1 as [|b s Hb Hs IH]; [done|]. rewrite runes_cons, decode_rune_ascii by done. simpl. by rewrite IH. Qed.

Lemma ascii_runes s : Forall (fun r => r < 128) (runes s) -> Forall (fun b => bval b < 128) s.
Proof.
  induction s as [|b s IH]; [done|]. rewrite runes_cons. intros H. inversion H as [|? ? Hr Hrest]; subst.
  destruct (Z.lt_ge_cases (bval b) 128) as [Hb|Hb]; [|pose proof (decode_rune_high b s Hb); lia].
  rewrite decode_rune_ascii in Hrest by done. constructor; [done|by apply IH].
Qed.
