(* ===== verification/Base64.v ===== *)
(** * base64.RawURLEncoding

    The URL-safe, unpadded base64 of Go's [encoding/base64], which encodes
    connection codes and the keys of the state file.  The decoder is the
    library's: it skips carriage returns and line feeds, rejects the padding
    character, rejects a lone trailing character and ignores the unused low
    bits of the last one. *)

From S2P Require Import Prelude.

(** ** The alphabet *)

(** [A-Z a-z 0-9 - _] *)
Definition encode_digit (d : Z) : byte :=
  if d <? 26 then to_byte (65 + d)
  else if d <? 52 then to_byte (97 + (d - 26))
  else if d <? 62 then to_byte (48 + (d - 52))
  else if d =? 62 then x2d else x5f.

Definition decode_digit (b : byte) : option Z :=
  let v := bval b in
  if (65 <=? v) && (v <=? 90) then Some (v - 65)
  else if (97 <=? v) && (v <=? 122) then Some (v - 97 + 26)
  else if (48 <=? v) && (v <=? 57) then Some (v - 48 + 52)
  else if v =? 45 then Some 62
  else if v =? 95 then Some 63
  else None.

(** ** Encoding *)

(** The [i]-th 6-bit group of a 24-bit value, most significant first. *)
Definition sextet (val : Z) (shift : Z) : byte := encode_digit (Z.land (Z.shiftr val shift) 63).

Fixpoint encode (src : bytes) : bytes :=
  match src with
  | a :: b :: c :: rest =>
      let val := Z.lor (Z.lor (Z.shiftl (bval a) 16) (Z.shiftl (bval b) 8)) (bval c) in
      sextet val 18 :: sextet val 12 :: sextet val 6 :: sextet val 0 :: encode rest
  | [a; b] =>
      let val := Z.lor (Z.shiftl (bval a) 16) (Z.shiftl (bval b) 8) in
      [sextet val 18; sextet val 12; sextet val 6]
  | [a] =>
      let val := Z.shiftl (bval a) 16 in [sextet val 18; sextet val 12]
  | [] => []
  end.

Definition EncodeToString (src : bytes) : string := go_string (encode src).

(** ** Decoding *)

Definition is_newline (b : byte) : bool := bool_decide (b = x0a) || bool_decide (b = x0d).

(** The quanta of [decodeQuantum], on the digits that remain once line breaks
    are skipped. *)
Fixpoint decode_quanta (ds : list Z) : option bytes :=
  match ds with
  | a :: b :: c :: d :: rest =>
      let val := Z.lor (Z.lor (Z.shiftl a 18) (Z.shiftl b 12)) (Z.lor (Z.shiftl c 6) d) in
      tail ← decode_quanta rest;
      Some (to_byte (Z.shiftr val 16) :: to_byte (Z.shiftr val 8) :: to_byte val :: tail)
  | [a; b; c] =>
      let val := Z.lor (Z.lor (Z.shiftl a 18) (Z.shiftl b 12)) (Z.shiftl c 6) in
      Some [to_byte (Z.shiftr val 16); to_byte (Z.shiftr val 8)]
  | [a; b] =>
      let val := Z.lor (Z.shiftl a 18) (Z.shiftl b 12) in
      Some [to_byte (Z.shiftr val 16)]
  | [_] => None
  | [] => Some []
  end.

Definition decode (src : bytes) : option bytes :=
  ds ← mapM decode_digit (filter (fun b => is_newline b = false) src);
  decode_quanta ds.

(** [None] is a [CorruptInputError]; its offset is never used. *)
Definition DecodeString (s : string) : option bytes := decode (go_bytes s).

(** ** Digits *)

Lemma decode_encode_digit d : 0 <= d < 64 -> decode_digit (encode_digit d) = Some d.
Proof.
  intros Hd. unfold encode_digit.
  repeat match goal with |- context [if ?x then _ else _] => destruct x eqn:? end;
    rewrite ?Z.ltb_lt, ?Z.ltb_ge, ?Z.eqb_eq, ?Z.eqb_neq in *;
    unfold decode_digit; rewrite ?bval_to_byte, ?Z.mod_small by lia;
    try (change (bval x2d) with 45); try (change (bval x5f) with 95);
    repeat (match goal with |- context [if ?x then _ else _] => destruct x eqn:? end; simpl);
    rewrite ?andb_true_iff, ?andb_false_iff, ?Z.leb_le, ?Z.leb_gt, ?Z.eqb_eq, ?Z.eqb_neq in *;
    try (f_equal; lia); lia.
Qed.

Lemma encode_digit_not_newline d : 0 <= d < 64 -> is_newline (encode_digit d) = false.
Proof.
  intros Hd. destruct (is_newline (encode_digit d)) eqn:E; [|done].
  pose proof (decode_encode_digit d Hd) as H. unfold is_newline in E.
  apply orb_true_iff in E as [E|E]; apply bool_decide_eq_true in E; rewrite E in H; vm_compute in H; done.
Qed.

Lemma land63 x : Z.land x 63 = x mod 64.
Proof. change 63 with (Z.ones 6). by rewrite Z.land_ones by lia. Qed.

Lemma lor_add x y n : 0 <= n -> x mod 2 ^ n = 0 -> 0 <= y < 2 ^ n -> Z.lor x y = x + y.
Proof.
  intros Hn Hx Hy. symmetry. apply Z.add_nocarry_lor, Z.bits_inj'. intros i Hi.
  rewrite Z.land_spec, Z.bits_0. destruct (Z.lt_ge_cases i n).
  - replace (Z.testbit x i) with false; [done|].
    rewrite <- (Z.mod_pow2_bits_low x n i) by done. by rewrite Hx, Z.bits_0.
  - replace (Z.testbit y i) with false; [apply andb_false_r|].
    rewrite <- (Z.mod_small y (2 ^ n)) by done. by rewrite Z.mod_pow2_bits_high by lia.
Qed.

(** The groups of a value, once the disjoint [lor]s are sums. *)
Ltac bits_to_arith :=
  unfold sextet in *; rewrite ?land63 in *; rewrite ?Z.shiftl_mul_pow2, ?Z.shiftr_div_pow2 in * by lia;
  change (2 ^ 0) with 1 in *; change (2 ^ 6) with 64 in *; change (2 ^ 8) with 256 in *;
  change (2 ^ 12) with 4096 in *; change (2 ^ 16) with 65536 in *; change (2 ^ 18) with 262144 in *.

(** ** Round trip *)

Lemma three_val a b c :
  Z.lor (Z.lor (Z.shiftl (bval a) 16) (Z.shiftl (bval b) 8)) (bval c)
  = bval a * 65536 + bval b * 256 + bval c.
Proof.
  pose proof (bval_range a). pose proof (bval_range b). pose proof (bval_range c).
  bits_to_arith. rewrite (lor_add (bval a * 65536) _ 16) by (change (2 ^ 16) with 65536; euclid).
  rewrite (lor_add _ (bval c) 8) by (change (2 ^ 8) with 256; euclid). lia.
Qed.

Lemma two_val a b :
  Z.lor (Z.shiftl (bval a) 16) (Z.shiftl (bval b) 8) = bval a * 65536 + bval b * 256.
Proof.
  pose proof (bval_range a). pose proof (bval_range b).
  bits_to_arith. by rewrite (lor_add (bval a * 65536) _ 16) by (change (2 ^ 16) with 65536; euclid).
Qed.

Lemma digits_val p q r s :
  0 <= p < 64 -> 0 <= q < 64 -> 0 <= r < 64 -> 0 <= s < 64 ->
  Z.lor (Z.lor (Z.shiftl p 18) (Z.shiftl q 12)) (Z.lor (Z.shiftl r 6) s)
  = p * 262144 + q * 4096 + r * 64 + s.
Proof.
  intros Hp Hq Hr Hs. bits_to_arith.
  rewrite (lor_add (p * 262144) _ 18) by (change (2 ^ 18) with 262144; euclid).
  rewrite (lor_add (r * 64) _ 6) by (change (2 ^ 6) with 64; euclid).
  rewrite (lor_add _ _ 12) by (change (2 ^ 12) with 4096; euclid). lia.
Qed.

Definition group (val shift : Z) : Z := Z.land (Z.shiftr val shift) 63.

Lemma group_range val shift : 0 <= group val shift < 64.
Proof. unfold group. rewrite land63. apply Z.mod_pos_bound. lia. Qed.

Lemma decode_sextets (gs : list Z) (rest : bytes) :
  Forall (fun d => 0 <= d < 64) gs ->
  mapM decode_digit (filter (fun b => is_newline b = false) (map encode_digit gs ++ rest))
  = (ds ← mapM decode_digit (filter (fun b => is_newline b = false) rest); Some (gs ++ ds)).
Proof.
  induction 1 as [|d gs Hd _ IH]; [simpl; by destruct (mapM _ _)|].
  simpl in Hd. cbn [map app]. rewrite filter_cons_True by (by apply encode_digit_not_newline). simpl.
  rewrite decode_encode_digit by done. simpl. rewrite IH. clear IH. by destruct (mapM _ _).
Qed.

(** Three bytes are their four groups. *)
Lemma groups_back v :
  0 <= v < 16777216 ->
  group v 18 * 262144 + group v 12 * 4096 + group v 6 * 64 + group v 0 = v.
Proof. intros Hv. unfold group. bits_to_arith. euclid. Qed.

(** The bytes of a 24-bit value. *)
Lemma bytes_back a b c :
  to_byte (Z.shiftr (bval a * 65536 + bval b * 256 + bval c) 16) = a /\
  to_byte (Z.shiftr (bval a * 65536 + bval b * 256 + bval c) 8) = b /\
  to_byte (bval a * 65536 + bval b * 256 + bval c) = c.
Proof.
  pose proof (bval_range a). pose proof (bval_range b). pose proof (bval_range c).
  split_and!; apply bval_inj; rewrite bval_to_byte; bits_to_arith; euclid.
Qed.

Lemma decode_step (gs : list Z) (rest : bytes) :
  Forall (fun d => 0 <= d < 64) gs ->
  decode (map encode_digit gs ++ rest)
  = (ds ← mapM decode_digit (filter (fun b => is_newline b = false) rest); decode_quanta (gs ++ ds)).
Proof. intros Hg. unfold decode. rewrite decode_sextets by done. by destruct (mapM _ _). Qed.

Lemma groups_ok v l : Forall (fun d => 0 <= d < 64) (map (group v) l).
Proof. induction l; constructor; auto using group_range. Qed.

(** A full quantum, and the two short ones. *)
Lemma decode_three x y z rest :
  decode (encode [x; y; z] ++ rest) = (t ← decode rest; Some (x :: y :: z :: t)).
Proof.
  pose proof (bval_range x). pose proof (bval_range y). pose proof (bval_range z).
  cbn [encode]. rewrite three_val. set (v := _ + bval z).
  change ([sextet v 18; sextet v 12; sextet v 6; sextet v 0]) with (map encode_digit (map (group v) [18; 12; 6; 0])).
  rewrite decode_step by apply groups_ok. unfold decode.
  destruct (mapM _ _) as [ds|]; [|done]. cbn [map app mbind option_bind decode_quanta].
  rewrite digits_val by apply group_range. rewrite groups_back by (subst v; lia).
  subst v. destruct (bytes_back x y z) as (-> & -> & ->). done.
Qed.

Lemma decode_two x y : decode (encode [x; y]) = Some [x; y].
Proof.
  pose proof (bval_range x). pose proof (bval_range y).
  cbn [encode]. rewrite two_val. set (v := _ + _).
  change ([sextet v 18; sextet v 12; sextet v 6]) with (map encode_digit (map (group v) [18; 12; 6])).
  rewrite <- (app_nil_r (map _ _)). rewrite decode_step by apply groups_ok.
  cbn [map app mapM mret option_ret mbind option_bind decode_quanta filter list_filter].
  pose proof (digits_val (group v 18) (group v 12) (group v 6) 0) as Hd.
  rewrite Z.lor_0_r in Hd. rewrite Hd by (first [apply group_range|lia]).
  replace (group v 18 * 262144 + group v 12 * 4096 + group v 6 * 64 + 0)
    with (bval x * 65536 + bval y * 256 + bval x00).
  - destruct (bytes_back x y x00) as (-> & -> & _). done.
  - change (bval x00) with 0. pose proof (groups_back v) as Hg. subst v. revert Hg.
    replace (group (bval x * 65536 + bval y * 256) 0) with 0; [lia|].
    unfold group. bits_to_arith. euclid.
Qed.

Lemma decode_one x : decode (encode [x]) = Some [x].
Proof.
  pose proof (bval_range x). cbn [encode]. set (v := Z.shiftl _ _).
  change ([sextet v 18; sextet v 12]) with (map encode_digit (map (group v) [18; 12])).
  rewrite <- (app_nil_r (map _ _)). rewrite decode_step by apply groups_ok.
  cbn [map app mapM mret option_ret mbind option_bind decode_quanta filter list_filter].
  pose proof (digits_val (group v 18) (group v 12) 0 0) as Hd.
  change (Z.lor (Z.shiftl 0 6) 0) with 0 in Hd. rewrite Z.lor_0_r in Hd.
  rewrite Hd by (first [apply group_range|lia]).
  replace (group v 18 * 262144 + group v 12 * 4096 + 0 * 64 + 0)
    with (bval x * 65536 + bval x00 * 256 + bval x00).
  - destruct (bytes_back x x00 x00) as (-> & _ & _). done.
  - change (bval x00) with 0. pose proof (groups_back v) as Hg. subst v.
    unfold group in *. bits_to_arith. euclid.
Qed.

Lemma decode_encode b : decode (encode b) = Some b.
Proof.
  induction b as [b IH] using (induction_ltof1 _ (@length byte)). unfold ltof in IH.
  destruct b as [|x [|y [|z b]]]; [done|apply decode_one|apply decode_two|].
  change (encode (x :: y :: z :: b)) with (encode [x; y; z] ++ encode b).
  rewrite decode_three, IH by (simpl; lia). done.
Qed.

Lemma DecodeString_EncodeToString b : DecodeString (EncodeToString b) = Some b.
Proof. unfold DecodeString, EncodeToString. rewrite go_bytes_string. apply decode_encode. Qed.
