(* ===== verification/Proto.v ===== *)
(** * Message codecs

    What the program relies on from [proto.Marshal] and [proto.Unmarshal], as a
    type class: the theorems about codes and frames hold for any codec that
    satisfies it.  The second part is a codec in the protobuf wire format
    (varints, tags, length-delimited fields, proto3 defaults) with the proof
    that it satisfies the class, so that the class is inhabited and the
    witnesses can compute. *)

From S2P Require Import Prelude GoBase.

(** ** The interface *)

Class Codec (A : Type) := {
  Marshal : A -> result goerr bytes;
  Unmarshal : bytes -> result goerr A;
}.

(** The values the Go types can hold: [uint32] and [int32] fields in range,
    fields shorter than the 2 GiB that protobuf allows. *)
Class GoTyped (A : Type) := go_typed : A -> bool.
(** The [string] fields are UTF-8, which proto3 demands. *)
Class Utf8Ok (A : Type) := utf8_ok : A -> bool.

Class CodecSpec (A : Type) `{Codec A, GoTyped A, Utf8Ok A} : Prop := {
  marshal_total : forall a, utf8_ok a = true -> exists b, Marshal a = Ok b;
  marshal_utf8 : forall a b, Marshal a = Ok b -> utf8_ok a = true;
  unmarshal_marshal : forall a b, go_typed a = true -> Marshal a = Ok b -> Unmarshal b = Ok a;
}.

Definition is_uint32 (n : Z) : bool := (0 <=? n) && (n <? 2 ^ 32).
Definition is_int32 (n : Z) : bool := (- 2 ^ 31 <=? n) && (n <? 2 ^ 31).
Definition small {A} (b : list A) : bool := len b <? 2 ^ 30.

#[export] Instance ConnectionCode_typed : GoTyped ConnectionCode := fun c =>
  is_uint32 (cc_ProtocolVersion c) && small (go_bytes (cc_RelayUrl c)) &&
  small (cc_RouteId c) && small (cc_PresharedKey c).
#[export] Instance ConnectionCode_utf8 : Utf8Ok ConnectionCode := fun c =>
  utf8_valid (go_bytes (cc_RelayUrl c)).

#[export] Instance PlainFrame_typed : GoTyped PlainFrame := fun f =>
  match pf_Body f with
  | None => true
  | Some (PlainFrame_Data d) => small d
  | Some (PlainFrame_HalfClose _) => true
  | Some (PlainFrame_Close c) => is_int32 (close_Code c) && small (go_bytes (close_Message c))
  end.
#[export] Instance PlainFrame_utf8 : Utf8Ok PlainFrame := fun f =>
  match pf_Body f with
  | Some (PlainFrame_Close c) => utf8_valid (go_bytes (close_Message c))
  | _ => true
  end.

(** The wire format adds a few tags and varints to the payload of a frame. *)
Definition frame_payload (f : PlainFrame) : bytes :=
  match pf_Body f with
  | Some (PlainFrame_Data d) => d
  | Some (PlainFrame_Close c) => go_bytes (close_Message c)
  | _ => []
  end.

Class FrameOverhead `{Codec PlainFrame} : Prop :=
  frame_overhead : forall f b, Marshal f = Ok b -> len b <= len (frame_payload f) + 64.

(** ** The wire format *)

Module Wire.

Fixpoint put_varint (fuel : nat) (n : Z) : bytes :=
  match fuel with
  | O => []
  | S fuel' => if n <? 128 then [to_byte n] else to_byte (n mod 128 + 128) :: put_varint fuel' (n / 128)
  end.
Definition varint (n : Z) : bytes := put_varint 10 n.

Fixpoint get_varint (fuel : nat) (b : bytes) : option (Z * bytes) :=
  match fuel, b with
  | S fuel', x :: b' =>
      if bval x <? 128 then Some (bval x, b')
      else '(v, r) ← get_varint fuel' b'; Some (bval x - 128 + 128 * v, r)
  | _, _ => None
  end.

Inductive value := VInt (n : Z) | VBytes (b : bytes).
Definition field : Type := Z * value.

Definition put_field (f : field) : bytes :=
  match f with
  | (num, VInt n) => varint (num * 8) ++ varint n
  | (num, VBytes b) => varint (num * 8 + 2) ++ varint (len b) ++ b
  end.
Definition put_fields (fs : list field) : bytes := flat_map put_field fs.

Definition get_field (b : bytes) : option (field * bytes) :=
  '(tag, b1) ← get_varint 10 b;
  if tag mod 8 =? 0 then
    '(n, b2) ← get_varint 10 b1;
    if n <? 2 ^ 64 then Some ((tag / 8, VInt n), b2) else None
  else if tag mod 8 =? 2 then
    '(n, b2) ← get_varint 10 b1;
    if n <=? len b2 then Some ((tag / 8, VBytes (firstn (Z.to_nat n) b2)), skipn (Z.to_nat n) b2) else None
  else None.

Fixpoint get_fields (fuel : nat) (b : bytes) : option (list field) :=
  match b, fuel with
  | [], _ => Some []
  | _, O => None
  | _, S fuel' => '(f, r) ← get_field b; fs ← get_fields fuel' r; Some (f :: fs)
  end.

(** proto3 leaves out a scalar field that has its zero value. *)
Definition opt_int (num n : Z) : list field := if n =? 0 then [] else [(num, VInt n)].
Definition opt_bytes (num : Z) (b : bytes) : list field := match b with [] => [] | _ => [(num, VBytes b)] end.

(** The last occurrence of a field wins. *)
Definition get_int (num : Z) (fs : list field) : Z :=
  fold_left (fun acc f => match f with (k, VInt n) => if k =? num then n else acc | _ => acc end) fs 0.
Definition get_bytes (num : Z) (fs : list field) : bytes :=
  fold_left (fun acc f => match f with (k, VBytes b) => if k =? num then b else acc | _ => acc end) fs [].

(** An [int32] travels as the 64-bit two's complement of its value. *)
Definition put_int32 (n : Z) : Z := n mod 2 ^ 64.
Definition get_int32 (n : Z) : Z := (n + 2 ^ 31) mod 2 ^ 32 - 2 ^ 31.

Definition parse {A} (k : list field -> option A) (b : bytes) : result goerr A :=
  match (fs ← get_fields (length b) b; k fs) with
  | Some a => Ok a
  | None => Err (ENew "proto: cannot parse invalid wire-format data")
  end.

Definition invalid_utf8 : goerr := ENew "string field contains invalid UTF-8".

Definition code_fields (c : ConnectionCode) : list field :=
  opt_int 1 (cc_ProtocolVersion c) ++ opt_bytes 2 (go_bytes (cc_RelayUrl c)) ++
  opt_bytes 3 (cc_RouteId c) ++ opt_bytes 4 (cc_PresharedKey c).
Definition code_of_fields (fs : list field) : option ConnectionCode :=
  let url := get_bytes 2 fs in
  if utf8_valid url then
    Some {| cc_ProtocolVersion := get_int 1 fs mod 2 ^ 32; cc_RelayUrl := go_string url;
            cc_RouteId := get_bytes 3 fs; cc_PresharedKey := get_bytes 4 fs |}
  else None.

Definition close_fields (c : Close) : list field :=
  opt_int 1 (put_int32 (close_Code c)) ++ opt_bytes 2 (go_bytes (close_Message c)).
Definition close_of_fields (fs : list field) : option Close :=
  let msg := get_bytes 2 fs in
  if utf8_valid msg then
    Some {| close_Code := get_int32 (get_int 1 fs); close_Message := go_string msg |}
  else None.

Definition frame_fields (f : PlainFrame) : list field :=
  match pf_Body f with
  | None => []
  | Some (PlainFrame_Data d) => [(1, VBytes d)]
  | Some (PlainFrame_HalfClose _) => [(2, VBytes [])]
  | Some (PlainFrame_Close c) => [(3, VBytes (put_fields (close_fields c)))]
  end.

(** Each field of the [oneof] replaces the one before it. *)
Fixpoint frame_of_fields (fs : list field) (body : option PlainFrame_Body) : option PlainFrame :=
  match fs with
  | [] => Some {| pf_Body := body |}
  | (k, VBytes b) :: fs' =>
      if k =? 1 then frame_of_fields fs' (Some (PlainFrame_Data b))
      else if k =? 2 then
        _ ← get_fields (length b) b; frame_of_fields fs' (Some (PlainFrame_HalfClose mkHalfClose))
      else if k =? 3 then
        cs ← get_fields (length b) b; c ← close_of_fields cs;
        frame_of_fields fs' (Some (PlainFrame_Close c))
      else frame_of_fields fs' body
  | _ :: fs' => frame_of_fields fs' body
  end.

#[export] Instance code_codec : Codec ConnectionCode := {|
  Marshal c := if utf8_ok c then Ok (put_fields (code_fields c)) else Err invalid_utf8;
  Unmarshal := parse code_of_fields |}.

#[export] Instance frame_codec : Codec PlainFrame := {|
  Marshal f := if utf8_ok f then Ok (put_fields (frame_fields f)) else Err invalid_utf8;
  Unmarshal := parse (fun fs => frame_of_fields fs None) |}.

(** *** Varints *)

Lemma get_put_varint fuel n r :
  0 <= n < 128 ^ Z.of_nat (S fuel) -> get_varint (S fuel) (put_varint (S fuel) n ++ r) = Some (n, r).
Proof.
  revert n. induction fuel as [|fuel IH]; intros n Hn.
  - change (128 ^ Z.of_nat 1) with 128 in Hn. cbn [put_varint]. rewrite (proj2 (Z.ltb_lt n 128)) by lia.
    cbn [app get_varint]. rewrite bval_to_byte, Z.mod_small by lia. by rewrite (proj2 (Z.ltb_lt n 128)) by lia.
  - remember (S fuel) as k eqn:Ek. cbn [put_varint]. destruct (Z.ltb_spec n 128) as [Hs|Hs].
    + cbn [app get_varint]. rewrite bval_to_byte, Z.mod_small by lia.
      by rewrite (proj2 (Z.ltb_lt n 128)) by lia.
    + cbn [app get_varint]. pose proof (Z.mod_pos_bound n 128 ltac:(lia)).
      rewrite bval_to_byte, (Z.mod_small (_ + 128)) by lia.
      rewrite (proj2 (Z.ltb_ge _ 128)) by lia. rewrite IH.
      * cbn [mbind option_bind]. f_equal. f_equal. euclid.
      * rewrite Nat2Z.inj_succ, Z.pow_succ_r in Hn by lia. split; [apply Z.div_pos; lia|].
        apply Z.div_lt_upper_bound; lia.
Qed.

Lemma get_varint_ok n r : 0 <= n < 2 ^ 64 -> get_varint 10 (varint n ++ r) = Some (n, r).
Proof.
  intros Hn. apply get_put_varint.
  assert (2 ^ 64 <= 128 ^ Z.of_nat 10) by (vm_compute; discriminate). lia.
Qed.

Lemma put_varint_length fuel n : (length (put_varint fuel n) <= fuel)%nat.
Proof. revert n. induction fuel; intros n; simpl; [lia|]. destruct (n <? 128); simpl; [lia|]. specialize (IHfuel (n / 128)). lia. Qed.

Lemma varint_not_nil n : (1 <= length (varint n))%nat.
Proof. unfold varint. simpl. destruct (n <? 128); simpl; lia. Qed.

(** *** Fields *)

Definition field_ok (f : field) : bool :=
  match f with
  | (num, VInt n) => (0 <=? num) && (num <? 2 ^ 29) && (0 <=? n) && (n <? 2 ^ 64)
  | (num, VBytes b) => (0 <=? num) && (num <? 2 ^ 29) && (len b <? 2 ^ 64)
  end.

Lemma get_put_field f r : field_ok f = true -> get_field (put_field f ++ r) = Some (f, r).
Proof.
  assert (E : 2 ^ 29 * 8 + 8 < 2 ^ 64) by reflexivity.
  destruct f as [num [n|b]]; unfold field_ok; intros H; rewrite !andb_true_iff, !Z.leb_le, !Z.ltb_lt in H;
    unfold put_field, get_field; rewrite <- ?app_assoc.
  - rewrite get_varint_ok by lia. cbn [mbind option_bind].
    rewrite Z.mod_mul, Z.div_mul by lia. cbn [Z.eqb]. rewrite get_varint_ok by lia. cbn [mbind option_bind].
    by rewrite (proj2 (Z.ltb_lt n (2 ^ 64))) by lia.
  - rewrite get_varint_ok by lia. cbn [mbind option_bind].
    replace ((num * 8 + 2) mod 8) with 2 by euclid. cbn [Z.eqb Pos.eqb].
    replace ((num * 8 + 2) / 8) with num by euclid.
    assert (0 <= len b) by (unfold len; lia). rewrite get_varint_ok by lia. cbn [mbind option_bind].
    rewrite (proj2 (Z.leb_le _ _)) by (unfold len; rewrite length_app; lia).
    unfold len. rewrite Nat2Z.id, take_app_length, drop_app_length. done.
Qed.

Lemma put_field_not_nil f : (1 <= length (put_field f))%nat.
Proof.
  destruct f as [num [n|b]]; simpl; rewrite !length_app.
  - pose proof (varint_not_nil (num * 8)). lia.
  - pose proof (varint_not_nil (num * 8 + 2)). lia.
Qed.

Lemma get_put_fields fs fuel :
  forallb field_ok fs = true -> (length fs <= fuel)%nat -> get_fields fuel (put_fields fs) = Some fs.
Proof.
  revert fuel. induction fs as [|f fs IH]; intros fuel Hok Hf; [by destruct fuel|].
  simpl in Hok. apply andb_true_iff in Hok as [Hf0 Hok].
  destruct fuel as [|fuel]; [simpl in Hf; lia|].
  change (put_fields (f :: fs)) with (put_field f ++ put_fields fs). cbn [get_fields].
  pose proof (put_field_not_nil f). destruct (put_field f ++ put_fields fs) eqn:E.
  { apply (f_equal length) in E. rewrite length_app in E. simpl in E. lia. }
  rewrite <- E, get_put_field by done. cbn. rewrite IH; [done|done|simpl in Hf; lia].
Qed.

Lemma put_fields_length fs : (length fs <= length (put_fields fs))%nat.
Proof.
  induction fs as [|f fs IH]; [done|]. change (put_fields (f :: fs)) with (put_field f ++ put_fields fs).
  rewrite length_app. pose proof (put_field_not_nil f). simpl. lia.
Qed.

Lemma parse_put {A} (k : list field -> option A) fs a :
  forallb field_ok fs = true -> k fs = Some a -> parse k (put_fields fs) = Ok a.
Proof.
  intros Hok Hk. unfold parse. rewrite get_put_fields by (done || apply put_fields_length).
  cbn. by rewrite Hk.
Qed.

(** *** The codecs satisfy the interface *)

Lemma small_field num b : 0 <= num < 2 ^ 29 -> small b = true -> field_ok (num, VBytes b) = true.
Proof.
  unfold small, field_ok. rewrite !andb_true_iff, !Z.leb_le, !Z.ltb_lt.
  assert (2 ^ 30 < 2 ^ 64) by reflexivity. lia.
Qed.

Lemma opt_bytes_ok num b :
  0 <= num < 2 ^ 29 -> small b = true -> forallb field_ok (opt_bytes num b) = true.
Proof.
  intros Hn Hb. destruct b as [|x b]; [done|]. cbn [opt_bytes forallb].
  by rewrite small_field.
Qed.

Lemma opt_int_ok num n :
  0 <= num < 2 ^ 29 -> 0 <= n < 2 ^ 64 -> forallb field_ok (opt_int num n) = true.
Proof.
  intros Hn Hb. unfold opt_int. destruct (n =? 0); [done|]. cbn [forallb field_ok].
  rewrite !andb_true_iff, !Z.leb_le, !Z.ltb_lt. lia.
Qed.

Lemma code_fields_back c :
  go_typed c = true -> utf8_ok c = true ->
  forallb field_ok (code_fields c) = true /\ code_of_fields (code_fields c) = Some c.
Proof.
  destruct c as [v u r k]. unfold go_typed, utf8_ok, ConnectionCode_typed, ConnectionCode_utf8. simpl.
  rewrite !andb_true_iff. unfold is_uint32. rewrite andb_true_iff, Z.leb_le, Z.ltb_lt.
  intros (((Hv & Hu) & Hr) & Hk) Hutf. split.
  - unfold code_fields. simpl. rewrite !forallb_app.
    assert (2 ^ 32 < 2 ^ 64) by reflexivity. rewrite opt_int_ok, !opt_bytes_ok by (done || lia). done.
  - unfold code_of_fields. set (fs := code_fields _).
    assert (H : get_int 1 fs = v /\ get_bytes 2 fs = go_bytes u /\ get_bytes 3 fs = r /\ get_bytes 4 fs = k).
    { subst fs. unfold code_fields, opt_int. simpl.
      destruct (Z.eqb_spec v 0); subst; destruct (go_bytes u), r, k; done. }
    destruct H as (-> & -> & -> & ->). by rewrite Hutf, go_string_bytes, Z.mod_small.
Qed.

#[export] Instance code_codec_spec : CodecSpec ConnectionCode.
Proof.
  split.
  - intros a Ha. simpl. rewrite Ha. eauto.
  - intros a b. simpl. by destruct (utf8_ok a).
  - intros a b Ht. simpl. destruct (utf8_ok a) eqn:Hu; [|done]. intros [= <-].
    destruct (code_fields_back a Ht Hu). by apply parse_put.
Qed.

Lemma int32_back n : is_int32 n = true -> get_int32 (put_int32 n) = n /\ 0 <= put_int32 n < 2 ^ 64.
Proof.
  unfold is_int32, get_int32, put_int32. rewrite andb_true_iff, Z.leb_le, Z.ltb_lt. intros Hn.
  split; [|apply Z.mod_pos_bound; reflexivity].
  change (2 ^ 64) with 18446744073709551616. change (2 ^ 32) with 4294967296 in *. change (2 ^ 31) with 2147483648 in *.
  euclid.
Qed.

Lemma close_fields_back c :
  is_int32 (close_Code c) = true -> small (go_bytes (close_Message c)) = true ->
  utf8_valid (go_bytes (close_Message c)) = true ->
  forallb field_ok (close_fields c) = true /\ close_of_fields (close_fields c) = Some c.
Proof.
  destruct c as [n m]. simpl. intros Hn Hm Hutf. destruct (int32_back n Hn) as [Hb Hr]. split.
  - unfold close_fields. simpl. rewrite forallb_app, opt_int_ok, opt_bytes_ok by (done || lia). done.
  - unfold close_of_fields. set (fs := close_fields _).
    assert (H : get_int 1 fs = put_int32 n /\ get_bytes 2 fs = go_bytes m).
    { subst fs. unfold close_fields, opt_int. simpl.
      destruct (Z.eqb_spec (put_int32 n) 0) as [->|]; destruct (go_bytes m); done. }
    destruct H as (-> & ->). by rewrite Hutf, go_string_bytes, Hb.
Qed.

Lemma put_field_length f :
  (length (put_field f) <= 20 + match f with (_, VBytes b) => length b | _ => 0 end)%nat.
Proof.
  destruct f as [num [n|b]]; unfold put_field, varint; rewrite !length_app;
    repeat match goal with |- context [put_varint 10 ?n] =>
      pose proof (put_varint_length 10 n); generalize dependent (put_varint 10 n); intros end; lia.
Qed.

Lemma close_fields_small c :
  small (go_bytes (close_Message c)) = true -> len (put_fields (close_fields c)) < 2 ^ 31.
Proof.
  unfold small. rewrite Z.ltb_lt. intros Hm. unfold close_fields, opt_int, len in *.
  pose proof (put_field_length (1, VInt (put_int32 (close_Code c)))) as H1.
  pose proof (put_field_length (2, VBytes (go_bytes (close_Message c)))) as H2.
  cbv beta iota in H1, H2. assert (2 ^ 30 + 40 < 2 ^ 31) by reflexivity.
  destruct (_ =? 0), (go_bytes (close_Message c)) as [|x l]; unfold put_fields; cbn [app opt_bytes put_fields flat_map];
    rewrite ?app_nil_r, ?length_app; change (length (@nil byte)) with 0%nat; lia.
Qed.

Lemma frame_fields_back f :
  go_typed f = true -> utf8_ok f = true ->
  forallb field_ok (frame_fields f) = true /\ frame_of_fields (frame_fields f) None = Some f.
Proof.
  destruct f as [[[d|[]|c]|]]; unfold go_typed, utf8_ok, PlainFrame_typed, PlainFrame_utf8, frame_fields; simpl;
    intros Ht Hu; [| | |done].
  - assert (Hf : field_ok (1, VBytes d) = true) by (apply small_field; done || lia).
    simpl in Hf. by rewrite Hf.
  - done.
  - apply andb_true_iff in Ht as [Hn Hm]. destruct (close_fields_back c Hn Hm Hu) as [Hok Hback].
    pose proof (close_fields_small c Hm). split.
    + rewrite andb_true_r. apply Z.ltb_lt. assert (2 ^ 31 < 2 ^ 64) by reflexivity. lia.
    + rewrite get_put_fields by (done || apply put_fields_length). cbn. by rewrite Hback.
Qed.

#[export] Instance frame_codec_spec : CodecSpec PlainFrame.
Proof.
  split.
  - intros a Ha. simpl. rewrite Ha. eauto.
  - intros a b. simpl. by destruct (utf8_ok a).
  - intros a b Ht. simpl. destruct (utf8_ok a) eqn:Hu; [|done]. intros [= <-].
    destruct (frame_fields_back a Ht Hu). by apply parse_put.
Qed.

Lemma put_fields_bound fs :
  (length (put_fields fs) <= list_sum (map (fun f : field =>
     20 + match f with (_, VBytes b) => length b | _ => 0 end) fs))%nat.
Proof.
  induction fs as [|f fs IH]; [done|]. change (put_fields (f :: fs)) with (put_field f ++ put_fields fs).
  rewrite length_app. pose proof (put_field_length f). cbn [map list_sum fold_right]. unfold list_sum in IH. lia.
Qed.

#[export] Instance frame_codec_overhead : FrameOverhead.
Proof.
  intros f b. simpl. destruct (utf8_ok f); [|done]. intros H. assert (b = put_fields (frame_fields f)) as -> by congruence.
  pose proof (put_fields_bound (frame_fields f)) as Hb. unfold frame_fields, frame_payload, len in *.
  destruct (pf_Body f) as [[d|m|c]|]; cbn [map list_sum fold_right length] in *; [lia|lia| |lia].
  assert (Hc : (length (put_fields (close_fields c)) <= 40 + length (go_bytes (close_Message c)))%nat); [|lia].
  etrans; [apply put_fields_bound|]. unfold close_fields, opt_int.
  destruct (_ =? 0), (go_bytes (close_Message c)) as [|x l]; cbn [map app opt_bytes list_sum fold_right length]; lia.
Qed.

End Wire.
