(* ===== verification/GoStrings.v ===== *)
(** * Strings

    What the program uses of Go's [strings] and [bytes] packages, on byte
    sequences. *)

From S2P Require Import Prelude GoBase Utf8.

(** [unicode.IsSpace] *)
Definition is_space (r : Z) : bool :=
  ((9 <=? r) && (r <=? 13)) || (r =? 32) || (r =? 133) || (r =? 160) || (r =? 5760) ||
  ((8192 <=? r) && (r <=? 8202)) || (r =? 8232) || (r =? 8233) || (r =? 8239) || (r =? 8287) || (r =? 12288).

(** [strings.TrimSpace]: leading, then trailing, white space.  The trailing runes
    are found by decoding forward: a space rune starts with a byte that is never a
    continuation byte, so decoding from either end meets it.  Every rune takes at
    least one byte, so the length is enough fuel. *)
Fixpoint trim_left (fuel : nat) (s : bytes) : bytes :=
  match fuel, s with
  | S fuel', b0 :: s1 => let '(r, rest) := decode_rune b0 s1 in if is_space r then trim_left fuel' rest else s
  | _, _ => s
  end.
Fixpoint trim_right (fuel : nat) (s : bytes) : bytes :=
  match fuel, s with
  | S fuel', b0 :: s1 =>
      let '(r, rest) := decode_rune b0 s1 in
      match trim_right fuel' rest with
      | [] => if is_space r then [] else take (length s - length rest) s
      | t => take (length s - length rest) s ++ t
      end
  | _, _ => []
  end.
Definition TrimSpace (s : bytes) : bytes :=
  let t := trim_left (length s) s in trim_right (length t) t.

(** [strings.Split(s, sep)] for a one-byte separator: never empty. *)
Fixpoint Split (sep : byte) (s : bytes) : list bytes :=
  match s with
  | [] => [[]]
  | b :: s' =>
      if bool_decide (b = sep) then [] :: Split sep s'
      else match Split sep s' with
           | l :: ls => (b :: l) :: ls
           | [] => [[b]]
           end
  end.

(** [strings.TrimSuffix(s, suffix)] for a one-byte suffix. *)
Definition TrimSuffix1 (c : byte) (s : bytes) : bytes :=
  match list.last s with
  | Some b => if bool_decide (b = c) then take (length s - 1) s else s
  | None => s
  end.

(** [strings.HasPrefix] *)
Fixpoint HasPrefix (s p : bytes) : bool :=
  match p, s with
  | [], _ => true
  | a :: p', b :: s' => bool_decide (a = b) && HasPrefix s' p'
  | _, [] => false
  end.

(** [strings.Cut(s, sep)] for a one-byte separator: before, after, found. *)
Fixpoint Cut (sep : byte) (s : bytes) : bytes * bytes * bool :=
  match s with
  | [] => ([], [], false)
  | b :: s' =>
      if bool_decide (b = sep) then ([], s', true)
      else let '(l, r, f) := Cut sep s' in (b :: l, r, f)
  end.

(** [strings.Index] *)
Fixpoint Index (s sub : bytes) : option nat :=
  if HasPrefix s sub then Some O
  else match s with
       | [] => None
       | _ :: s' => S <$> Index s' sub
       end.

Example trim_examples :
  TrimSpace (go_bytes "  a b  ") = go_bytes "a b" /\ TrimSpace [xc2; xa0; x61; xe2; x80; x83; x0d; x0a] = [x61] /\
  TrimSpace [x20; x09] = [] /\ TrimSpace [xa0; x61; x85] = [xa0; x61; x85] /\
  Split x0a [x61; x0a; x0a; x62] = [[x61]; []; [x62]] /\ Index (go_bytes "me@rc1_x") (go_bytes "@rc1_") = Some 2%nat.
Proof. repeat split; vm_compute; reflexivity. Qed.

(** ** Lemmas *)

Lemma HasPrefix_spec s p : HasPrefix s p = true <-> p `prefix_of` s.
Proof.
  revert s. induction p as [|a p IH]; intros s; simpl; [split; [intros; apply prefix_nil|by destruct s]|].
  destruct s as [|b s]; [split; [done|intros H; by apply prefix_nil_inv in H]|].
  cbn [HasPrefix]. rewrite andb_true_iff, bool_decide_eq_true, IH. split.
  - intros [-> H]. by apply prefix_cons.
  - intros H. split; [by eapply prefix_cons_inv_1|by eapply prefix_cons_inv_2].
Qed.


Lemma Cut_app sep l r : sep ∉ l -> Cut sep (l ++ sep :: r) = (l, r, true).
Proof.
  induction l as [|b l IH]; intros Hl; cbn [app Cut]; [by rewrite bool_decide_eq_true_2|].
  apply not_elem_of_cons in Hl as [Hb Hl]. rewrite bool_decide_eq_false_2 by done. by rewrite IH.
Qed.

Lemma Index_split s sub i : Index s sub = Some i -> sub `prefix_of` drop i s.
Proof.
  revert i. induction s as [|b s IH]; intros i H; cbn [Index] in H.
  - destruct (HasPrefix [] sub) eqn:E; [|done]. simplify_eq. by apply HasPrefix_spec.
  - destruct (HasPrefix (b :: s) sub) eqn:E; [simplify_eq; by apply HasPrefix_spec|].
    destruct (Index s sub) as [j|] eqn:Hj; simplify_eq/=. by apply IH.
Qed.

(** Text without white space survives [TrimSpace], and the line feed after it
    does not. *)
Definition graphic (b : byte) : Prop := 33 <= bval b < 127.

Lemma graphic_not_space b : graphic b -> is_space (bval b) = false.
Proof. unfold graphic, is_space. intros Hb. repeat (apply orb_false_iff; split); lia. Qed.

Lemma trim_right_line s n :
  Forall graphic s -> (length s < n)%nat -> trim_right n (s ++ [x0a]) = s.
Proof.
  intros Hs. revert n. induction Hs as [|b s Hb Hs IH]; intros [|n] Hn; try (simpl in Hn; lia).
  { by destruct n. }
  cbn [app trim_right]. rewrite decode_rune_ascii by (unfold graphic in Hb; lia). rewrite IH by (simpl in Hn; lia).
  replace (length (b :: s ++ [x0a]) - length (s ++ [x0a]))%nat with 1%nat by (simpl; lia). rewrite graphic_not_space by done.
  by destruct s.
Qed.

Lemma TrimSpace_line s : Forall graphic s -> TrimSpace (s ++ [x0a]) = s.
Proof.
  intros Hs. unfold TrimSpace. destruct Hs as [|b s Hb Hs]; [done|].
  assert (E : trim_left (length ((b :: s) ++ [x0a])) ((b :: s) ++ [x0a]) = (b :: s) ++ [x0a]).
  { cbn [app length trim_left]. rewrite decode_rune_ascii by (unfold graphic in Hb; lia). by rewrite graphic_not_space. }
  rewrite E. apply trim_right_line; [by constructor|]. rewrite length_app. simpl. lia.
Qed.
