(* ===== verification/FilePath.v ===== *)
(** * Paths

    What the program uses of Go's [path/filepath] on Unix: [Clean], [Join] and
    [Dir], on byte sequences. *)

From S2P Require Import Prelude GoBase GoStrings.

(** [filepath.Clean]: the elements of the path, most recent first.  [rooted] paths
    drop a leading "..", others keep it. *)
Definition dotdot : bytes := [x2e; x2e].
Definition clean_elem (rooted : bool) (out : list bytes) (e : bytes) : list bytes :=
  if bool_decide (e = []) || bool_decide (e = [x2e]) then out
  else if bool_decide (e = dotdot) then
    match out with
    | o :: out' => if bool_decide (o = dotdot) then e :: out else out'
    | [] => if rooted then [] else [e]
    end
  else e :: out.
Fixpoint join_slash (es : list bytes) : bytes :=
  match es with
  | [] => []
  | [e] => e
  | e :: es' => e ++ x2f :: join_slash es'
  end.
Definition Clean (path : bytes) : bytes :=
  let rooted := bool_decide (head path = Some x2f) in
  let body := join_slash (reverse (fold_left (clean_elem rooted) (Split x2f path) [])) in
  if rooted then x2f :: body else if bool_decide (body = []) then [x2e] else body.

(** [filepath.Join(a, b)] *)
Definition Join (a b : bytes) : bytes :=
  match a, b with
  | [], [] => []
  | [], _ => Clean b
  | _, [] => Clean a
  | _, _ => Clean (a ++ x2f :: b)
  end.

(** [filepath.Dir]: up to the last slash, cleaned. *)
Fixpoint from_slash (s : bytes) : bytes :=
  match s with
  | [] => []
  | b :: s' => if bool_decide (b = x2f) then s else from_slash s'
  end.
Definition Dir (path : bytes) : bytes := Clean (reverse (from_slash (reverse path))).

Example path_examples :
  map (fun p => go_string (Clean (go_bytes p))) ["/a/./b//c/.."; "a/../../b"; ""; "/.."; "./x/"]
  = ["/a/b"; "../b"; "."; "/"; "x"] /\
  map (fun p => go_string (Dir (go_bytes p))) ["/a/b"; "/a"; "a"; "/a/b/"; "/"] = ["/a"; "/"; "."; "/a/b"; "/"].
Proof. split; vm_compute; reflexivity. Qed.

(** ** Names below a directory *)

Lemma Split_nonempty sep p : Split sep p <> [].
Proof. destruct p as [|c p]; simpl; [done|]. case_bool_decide; [done|]. by destruct (Split sep p). Qed.

Lemma Split_last sep p b : sep ∉ b -> Split sep (p ++ sep :: b) = Split sep p ++ [b].
Proof.
  intros Hb. assert (E : Split sep b = [b]).
  { induction b as [|c b IH]; [done|]. apply not_elem_of_cons in Hb as [Hc Hb]. simpl.
    rewrite bool_decide_eq_false_2 by congruence. by rewrite IH. }
  induction p as [|c p IH]; simpl.
  - by rewrite bool_decide_eq_true_2, E.
  - case_bool_decide; [by rewrite IH|]. rewrite IH. pose proof (Split_nonempty sep p). by destruct (Split sep p).
Qed.

(** A single name stays below the directory it is joined to. *)
Lemma Join_name p b :
  p <> [] -> b <> [] -> x2f ∉ b -> b <> [x2e] -> b <> dotdot ->
  Join p b = let rooted := bool_decide (head p = Some x2f) in
    (if rooted then [x2f] else []) ++ join_slash (reverse (fold_left (clean_elem rooted) (Split x2f p) []) ++ [b]).
Proof.
  intros Hp Hb Hs Hd Hdd. destruct p as [|c p]; [done|]. destruct b as [|d b]; [done|]. unfold Join, Clean.
  rewrite Split_last, fold_left_app by done. cbn zeta. change (head ((c :: p) ++ x2f :: d :: b)) with (head (c :: p)).
  set (rooted := bool_decide _). cbn [fold_left].
  assert (E : clean_elem rooted (fold_left (clean_elem rooted) (Split x2f (c :: p)) []) (d :: b)
    = (d :: b) :: fold_left (clean_elem rooted) (Split x2f (c :: p)) []).
  { unfold clean_elem at 1. rewrite !bool_decide_eq_false_2 by done. done. }
  rewrite E, reverse_cons. destruct rooted; [done|]. rewrite bool_decide_eq_false_2; [done|].
  destruct (reverse _) as [|x [|]]; simpl; [done|by destruct x|by destruct x].
Qed.

Lemma Dir_name p b : x2f ∉ b -> Dir (p ++ x2f :: b) = Clean (p ++ [x2f]).
Proof.
  intros Hb. unfold Dir. f_equal. replace (p ++ x2f :: b) with ((p ++ [x2f]) ++ b) by (by rewrite <- app_assoc).
  rewrite reverse_app. assert (E : forall l, x2f ∉ l -> from_slash (l ++ reverse (p ++ [x2f])) = reverse (p ++ [x2f])).
  { induction l as [|c l IH]; intros Hl; simpl; [by rewrite reverse_app|]. apply not_elem_of_cons in Hl as [Hc Hl].
    rewrite bool_decide_eq_false_2 by congruence. by apply IH. }
  rewrite E by (by rewrite elem_of_reverse). by rewrite reverse_involutive.
Qed.
