(* ===== verification/Config.v ===== *)
(** * Configuration and logging (internal/cli/root.go)

    [loadConfig]: flags that were not given on the command line take their value
    from the environment or from the YAML file.  [logger]: the level and the
    format of the log.

    The libraries are parameters: pflag's [Value.Set] ([Pflag]) and viper's
    lookup ([Viper]), with what they document ([PflagSpec], [ViperSpec]). *)

From stdpp Require Import pretty.
From S2P Require Import Prelude GoBase Utf8 GoStrings.

(** ** Flags *)

(** A [pflag.Value]: its type and contents.  A string slice knows whether it has
    been set, because the first [Set] replaces the default and later ones add. *)
Inductive flag_value :=
| FString (s : string)
| FBool (b : bool)
| FInt (n : Z)
| FDuration (ns : Z)
| FStrings (l : list string) (set : bool).

Inductive flag_kind := KString | KBool | KInt | KDuration | KStrings.
Definition kind (v : flag_value) : flag_kind :=
  match v with
  | FString _ => KString | FBool _ => KBool | FInt _ => KInt | FDuration _ => KDuration | FStrings _ _ => KStrings
  end.

Record flag := { fl_value : flag_value; fl_changed : bool }.

Class Pflag := { Value_Set : flag_value -> string -> result goerr flag_value }.

(** [strconv.FormatBool] *)
Definition FormatBool (b : bool) : string := if b then "true" else "false".

(** Text that is one CSV field as it stands. *)
Definition csv_plain (t : string) : Prop :=
  t <> "" /\ Forall (fun c => c ∉ [x2c; x22; x0a; x0d]) (go_bytes t).

Class PflagSpec `{Pflag} : Prop := {
  set_kind v t v' : Value_Set v t = Ok v' -> kind v' = kind v;
  set_string s t : Value_Set (FString s) t = Ok (FString t);
  set_bool b x : Value_Set (FBool b) (FormatBool x) = Ok (FBool x);
  set_strings l t : csv_plain t -> Value_Set (FStrings l false) t = Ok (FStrings [t] true);
}.

(** ** Viper *)

(** The values of a YAML file.  [YOther] is any other one (a float, a map, a list of
    several types, a time), of which the program uses only what [fmt.Sprint] makes
    of it; a null is a key that is not set. *)
Inductive yaml := YBool (b : bool) | YString (s : string) | YInt (n : Z) | YList (l : list string) | YOther (printed : string).

(** The settings the program makes on a viper object, and its configuration. *)
Record viper := {
  vi_prefix : string;
  vi_replacer : byte -> byte;
  vi_automatic : bool;
  vi_config : gmap string yaml;
}.

Notation environ := (string -> option string).

Class Viper := {
  vp_IsSet : viper -> environ -> string -> bool;
  vp_Get : viper -> environ -> string -> yaml;
}.

(** The variable of a key: prefix, underscore and key in upper case, with the
    replacer applied. *)
Definition upper_byte (b : byte) : byte := if in_range 97 122 b then to_byte (bval b - 32) else b.
Definition env_name (v : viper) (key : string) : string :=
  go_string (map (fun b => vi_replacer v (upper_byte b)) (go_bytes (vi_prefix v +:+ "_" +:+ key))).

(** A variable counts when it is set and not empty. *)
Definition variable (env : environ) (name : string) : option string :=
  match env name with
  | Some x => if bool_decide (x = "") then None else Some x
  | None => None
  end.
Definition env_value (v : viper) (env : environ) (key : string) : option string := variable env (env_name v key).

Class ViperSpec `{Viper} : Prop := {
  viper_env v env key x :
    vi_automatic v = true -> env_value v env key = Some x ->
    vp_IsSet v env key = true /\ vp_Get v env key = YString x;
  viper_file v env key y :
    env_value v env key = None -> vi_config v !! key = Some y ->
    vp_IsSet v env key = true /\ vp_Get v env key = y;
  viper_none v env key :
    env_value v env key = None -> vi_config v !! key = None -> vp_IsSet v env key = false;
}.

(** ** loadConfig *)

(** [fmt.Sprint] of a value. *)
Fixpoint join_space (l : list string) : string :=
  match l with
  | [] => ""
  | [x] => x
  | x :: l' => x +:+ " " +:+ join_space l'
  end.
Definition Sprint (y : yaml) : string :=
  match y with
  | YBool b => FormatBool b
  | YString s => s
  | YInt n => pretty n
  | YList l => "[" +:+ join_space l +:+ "]"
  | YOther printed => printed
  end.
Definition config_text (y : yaml) : string :=
  match y with YBool b => FormatBool b | _ => Sprint y end.

(** What reading a configuration file gives. *)
Inductive config_read :=
| ReadConfig (m : gmap string yaml)
| ConfigFileNotFound (e : goerr)
| ReadError (e : goerr).

Section loadConfig.
Context `{Pflag} `{Viper}.

Definition new_viper (m : gmap string yaml) : viper :=
  {| vi_prefix := "RELAYCAT"; vi_replacer := fun b => if bool_decide (b ∈ [x2d; x2e]) then x5f else b;
     vi_automatic := true; vi_config := m |}.

(** The closure [apply] on one flag, with [applyErr]. *)
Definition apply_flag (v : viper) (env : environ) (st : gmap string flag * option goerr) (name : string)
  : gmap string flag * option goerr :=
  let '(flags, applyErr) := st in
  match applyErr with
  | Some _ => st
  | None =>
      match flags !! name with
      | None => st
      | Some f =>
          if fl_changed f || negb (vp_IsSet v env name) then st
          else match Value_Set (fl_value f) (config_text (vp_Get v env name)) with
          | Err e => (flags, Some (EWrap ("setting " +:+ name +:+ " from configuration") e))
          | Ok x => (<[name := {| fl_value := x; fl_changed := fl_changed f |}]> flags, None)
          end
      end
  end.

(** [configDir] is [None] when [os.UserConfigDir] fails; [read] is what the
    selected file gives, [visit] and [inherited] the flags in the order of
    [VisitAll]. *)
Definition loadConfig (config : string) (configDir : option string) (read : config_read) (env : environ)
    (visit inherited : list string) (flags : gmap string flag) : result goerr (gmap string flag) :=
  let file :=
    if negb (bool_decide (config = "")) then
      match read with
      | ReadConfig m => Ok m
      | ConfigFileNotFound e | ReadError e => Err (EWrap "reading config" e)
      end
    else match configDir with
    | None => Ok ∅
    | Some _ =>
        match read with
        | ReadConfig m => Ok m
        | ConfigFileNotFound _ => Ok ∅
        | ReadError e => Err (EWrap "reading config" e)
        end
    end in
  match file with
  | Err e => Err e
  | Ok m =>
      let v := new_viper m in
      let st := fold_left (apply_flag v env) visit (flags, None) in
      match fold_left (apply_flag v env) inherited st with
      | (_, Some e) => Err e
      | (flags', None) => Ok flags'
      end
  end.
End loadConfig.

(** ** logger *)

(** Letters in upper case; the dotless i and the long s are the only other runes
    that [unicode.ToUpper] maps to ASCII. *)
Definition upper_rune (r : Z) : Z :=
  if (97 <=? r) && (r <=? 122) then r - 32 else if r =? 305 then 73 else if r =? 383 then 83 else r.
Definition ascii_upper (s : bytes) : list Z := map upper_rune (runes s).
Definition ascii_runes_of (s : string) : list Z := map bval (go_bytes s).

(** [strconv.Atoi] of a text that starts with a sign. *)
Definition signed_atoi (s : bytes) : option Z :=
  match s with
  | sign :: (_ :: _) as ds =>
      let go := fix go (ds : bytes) (acc : Z) :=
        match ds with
        | [] => Some acc
        | d :: ds' => if in_range 48 57 d then go ds' (acc * 10 + (bval d - 48)) else None
        end in
      n ← go (tail s) 0;
      let n := if bool_decide (sign = x2d) then - n else n in
      if (- 2 ^ 63 <=? n) && (n <? 2 ^ 63) then Some n else None
  | _ => None
  end.

(** [slog.Level.UnmarshalText]; [None] is its error. *)
Definition level_name (name : list Z) : option Z :=
  if bool_decide (name = ascii_runes_of "DEBUG") then Some (-4)
  else if bool_decide (name = ascii_runes_of "INFO") then Some 0
  else if bool_decide (name = ascii_runes_of "WARN") then Some 4
  else if bool_decide (name = ascii_runes_of "ERROR") then Some 8
  else None.
Fixpoint split_sign (s : bytes) : bytes * bytes :=
  match s with
  | [] => ([], [])
  | b :: s' => if bool_decide (b ∈ [x2b; x2d]) then ([], s) else let '(l, r) := split_sign s' in (b :: l, r)
  end.
(** A sum of 64-bit integers wraps around. *)
Definition wrap64 (n : Z) : Z := (n + 2 ^ 63) mod 2 ^ 64 - 2 ^ 63.
Definition UnmarshalLevel (s : string) : option Z :=
  let '(name, rest) := split_sign (go_bytes s) in
  offset ← match rest with [] => Some 0 | _ => signed_atoi rest end;
  base ← level_name (ascii_upper name);
  Some (wrap64 (base + offset)).

Inductive log_format := LogText | LogJSON.

Definition logger (logLevel logFormat : string) (relayMode : bool) : result goerr (Z * log_format) :=
  match UnmarshalLevel logLevel with
  | None => Err (EWrap "invalid log level" (ENew "slog: level string"))
  | Some level =>
      let format := if relayMode && bool_decide (logFormat = "text") then "json" else logFormat in
      if bool_decide (format = "text") then Ok (level, LogText)
      else if bool_decide (format = "json") then Ok (level, LogJSON)
      else Err (ENew "log format must be text or json")
  end.

Example logger_examples :
  logger "info" "text" false = Ok (0, LogText) /\ logger "WARN+2" "text" true = Ok (6, LogJSON) /\
  is_ok (logger "verbose" "text" false) = false /\ is_ok (logger "debug" "xml" true) = false /\
  is_ok (logger "info+" "json" true) = false.
Proof. repeat split; vm_compute; reflexivity. Qed.

(** ** Where a flag's value comes from *)

Section precedence.
Context `{Pflag} {PS : PflagSpec} `{Viper} {VS : ViperSpec}.

(** The environment before the file. *)
Definition source (v : viper) (env : environ) (name : string) : option string :=
  match env_value v env name with
  | Some x => Some x
  | None => config_text <$> vi_config v !! name
  end.

(** A flag after the configuration: untouched if it was given, or nothing is
    configured; otherwise set to the configured text, within its type. *)
Definition configured (v : viper) (env : environ) (name : string) (f f' : flag) : Prop :=
  fl_changed f' = fl_changed f /\ kind (fl_value f') = kind (fl_value f) /\
  (fl_changed f = true -> f' = f) /\
  (fl_changed f = false -> match source v env name with
                           | Some t => Value_Set (fl_value f) t = Ok (fl_value f')
                           | None => f' = f
                           end).

Lemma viper_source v env name :
  vi_automatic v = true ->
  match source v env name with
  | Some t => vp_IsSet v env name = true /\ config_text (vp_Get v env name) = t
  | None => vp_IsSet v env name = false
  end.
Proof.
  intros Ha. unfold source. destruct (env_value v env name) as [x|] eqn:He.
  - destruct (viper_env v env name x Ha He) as [-> ->]. done.
  - destruct (vi_config v !! name) as [y|] eqn:Hy; simpl; [|by apply viper_none].
    by destruct (viper_file v env name y He Hy) as [-> ->].
Qed.

Lemma apply_flag_Ok v env flags name flags' :
  vi_automatic v = true -> apply_flag v env (flags, None) name = (flags', None) ->
  (forall n, n <> name -> flags' !! n = flags !! n) /\
  (forall f, flags !! name = Some f -> exists f', flags' !! name = Some f' /\ configured v env name f f').
Proof.
  intros Ha Hap. unfold apply_flag in Hap. pose proof (viper_source v env name Ha) as Hsrc.
  destruct (flags !! name) as [f|] eqn:Hf; [|simplify_eq; split; [done|congruence]].
  destruct (fl_changed f) eqn:Hch; cbn [orb] in Hap.
  { simplify_eq. split; [done|]. intros g [= <-]. exists f. split; [done|]. split_and!; [done..|congruence]. }
  destruct (source v env name) as [t|] eqn:Hs.
  - destruct Hsrc as [HI HG]. rewrite HI, HG in Hap. cbn [negb] in Hap.
    destruct (Value_Set (fl_value f) t) as [x|] eqn:Hx; [|done]. simplify_eq. split.
    + intros n Hn. by rewrite lookup_insert_ne.
    + intros g [= <-]. eexists. rewrite lookup_insert_eq. split; [done|].
      split_and!; [done|by eapply set_kind|congruence|]. intros _. by rewrite Hs.
  - rewrite Hsrc in Hap. cbn [negb] in Hap. simplify_eq. split; [done|]. intros g [= <-]. exists f. split; [done|].
    split_and!; [done..|]. intros _. by rewrite Hs.
Qed.

Lemma fold_apply_err v env l flags e :
  fold_left (apply_flag v env) l (flags, Some e) = (flags, Some e).
Proof. induction l; [done|]. simpl. done. Qed.

Lemma fold_apply_Ok v env l flags flags' :
  vi_automatic v = true -> NoDup l -> fold_left (apply_flag v env) l (flags, None) = (flags', None) ->
  (forall n, n ∉ l -> flags' !! n = flags !! n) /\
  (forall n f, n ∈ l -> flags !! n = Some f -> exists f', flags' !! n = Some f' /\ configured v env n f f').
Proof.
  intros Ha Hn. revert flags. induction Hn as [|n l Hnl Hl IH]; intros flags Hf; cbn [fold_left] in Hf.
  { simplify_eq. split; [done|]. intros n f Hin. by apply not_elem_of_nil in Hin. }
  destruct (apply_flag v env (flags, None) n) as [flags1 [e|]] eqn:E1; [by rewrite fold_apply_err in Hf|].
  destruct (apply_flag_Ok _ _ _ _ _ Ha E1) as [A1 A2]. destruct (IH _ Hf) as [B1 B2]. split.
  - intros m Hm. apply not_elem_of_cons in Hm as [Hmn Hm]. rewrite B1, A1; done.
  - intros m f Hm Hmf. destruct (decide (m = n)) as [->|Hmn].
    + rewrite B1 by done. by apply A2.
    + apply elem_of_cons in Hm as [|Hm]; [done|]. apply B2; [done|]. by rewrite A1.
Qed.

(** Setting a string twice is setting it once. *)
Lemma configured_twice v env name f f1 f2 :
  kind (fl_value f) = KString -> configured v env name f f1 -> configured v env name f1 f2 -> configured v env name f f2.
Proof.
  intros Hk (C1 & K1 & T1 & U1) (C2 & K2 & T2 & U2). split_and!; [congruence|congruence| |].
  - intros Hc. rewrite C1 in T2. rewrite T2 by done. by apply T1.
  - intros Hc. specialize (U1 Hc). rewrite C1 in U2. specialize (U2 Hc).
    destruct (source v env name) as [t|]; [|congruence]. rewrite Hk in K1.
    destruct (fl_value f) as [s| | | |]; try done. rewrite set_string in U1. injection U1 as U1.
    rewrite <- U1, set_string in U2. by rewrite set_string.
Qed.

Lemma loadConfig_Ok config dir read env visit inherited flags flags' :
  NoDup visit -> NoDup inherited ->
  (forall n f, n ∈ inherited -> flags !! n = Some f -> kind (fl_value f) = KString) ->
  loadConfig config dir read env visit inherited flags = Ok flags' ->
  exists m, (forall n f, flags !! n = Some f -> n ∈ visit ->
      exists f', flags' !! n = Some f' /\ configured (new_viper m) env n f f') /\
    (forall m', read = ReadConfig m' -> config <> "" \/ is_Some dir -> m = m').
Proof.
  intros Hn Hni Hk Hl. unfold loadConfig in Hl.
  destruct (if negb (bool_decide (config = "")) then _ else _) as [m|] eqn:Hm; [|done]. cbn zeta in Hl.
  destruct (fold_left _ visit _) as [flags1 [e|]] eqn:E1; [by rewrite fold_apply_err in Hl|].
  destruct (fold_left _ inherited _) as [flags2 [e|]] eqn:E2; [done|]. simplify_eq. exists m. split.
  - intros n f Hf Hv. destruct (fold_apply_Ok (new_viper m) _ _ _ _ eq_refl Hn E1) as [A1 A2].
    destruct (fold_apply_Ok (new_viper m) _ _ _ _ eq_refl Hni E2) as [B1 B2]. destruct (A2 n f Hv Hf) as (f1 & Hf1 & C1).
    destruct (decide (n ∈ inherited)) as [Hi|Hi]; [|exists f1; by rewrite B1].
    destruct (B2 n f1 Hi Hf1) as (f2 & Hf2 & C2). exists f2. split; [done|]. eapply configured_twice; [by eapply Hk|done|done].
  - intros m' -> Hc. case_bool_decide as Hce; simpl in Hm; [|congruence]. destruct dir; [congruence|].
    destruct Hc as [?|[? ?]]; done.
Qed.

(** The variable of a flag, as it is documented: RELAYCAT_ and the name in upper
    case, with an underscore for a hyphen or a dot. *)
Definition variable_letter (b : byte) : byte :=
  if bool_decide (b = x2d) || bool_decide (b = x2e) then x5f
  else if (97 <=? bval b) && (bval b <=? 122) then to_byte (bval b - 32) else b.
Definition flag_variable (name : string) : string := "RELAYCAT_" +:+ go_string (map variable_letter (go_bytes name)).

Lemma env_name_flag m name : env_name (new_viper m) name = flag_variable name.
Proof.
  apply go_bytes_inj. unfold env_name, flag_variable. rewrite go_bytes_string, !go_bytes_app, go_bytes_string, !map_app.
  rewrite (app_assoc (map _ (go_bytes (vi_prefix _)))). f_equal.
  apply map_ext. intros b. by destruct b.
Qed.

(** What decides the value of a flag: the command line, then a non-empty variable,
    then the file, then the default.  A list in the file becomes one element, its
    printed form, of a string-slice flag. *)
Definition decided (m : gmap string yaml) (env : environ) (name : string) (f f' : flag) : Prop :=
  kind (fl_value f') = kind (fl_value f) /\ fl_changed f' = fl_changed f /\
  (fl_changed f = true -> fl_value f' = fl_value f) /\
  (fl_changed f = false ->
     match variable env (flag_variable name), m !! name with
     | Some x, _ => Value_Set (fl_value f) x = Ok (fl_value f')
     | None, Some y => Value_Set (fl_value f) (config_text y) = Ok (fl_value f') /\
         (forall l t, y = YList l -> fl_value f = FStrings t false -> csv_plain (Sprint y) ->
            fl_value f' = FStrings ["[" +:+ join_space l +:+ "]"] true)
     | None, None => fl_value f' = fl_value f
     end).

Lemma configured_decided m env n f f' : configured (new_viper m) env n f f' -> decided m env n f f'.
Proof.
  intros (C1 & K1 & T1 & U1). split_and!; [done|done|intros E; by rewrite (T1 E)|]. intros E. specialize (U1 E). unfold source, env_value in U1. rewrite env_name_flag in U1.
  destruct (variable _ _); [done|]. destruct (m !! n) as [y|] eqn:Hy; simpl in U1; rewrite Hy in U1; simpl in U1; [|by rewrite U1].
  split; [done|]. intros l t -> Ht Hp. rewrite Ht in U1. simpl in U1. rewrite set_strings in U1 by done. by injection U1.
Qed.
End precedence.

(** ** Witnesses *)

(** A pflag and a viper that do what is documented, on the types in use. *)
Module PlainFlags.
Definition plain_text (t : string) : bool :=
  negb (bool_decide (t = "")) && forallb (fun c => negb (bool_decide (c ∈ [x2c; x22; x0a; x0d]))) (go_bytes t).


#[global] Instance plain_pflag : Pflag := {|
  Value_Set := fun v t =>
    match v with
    | FString _ => Ok (FString t)
    | FBool _ => if bool_decide (t = "true") then Ok (FBool true)
                 else if bool_decide (t = "false") then Ok (FBool false) else Err (ENew "invalid syntax")
    | FInt _ => Err (ENew "invalid syntax")
    | FDuration _ => if bool_decide (t = "45s") then Ok (FDuration (45 * 1000000000)) else Err (ENew "invalid duration")
    | FStrings l set => if plain_text t then Ok (FStrings (if set then l ++ [t] else [t]) true) else Err (ENew "bad record")
    end
|}.

#[global] Instance plain_pflag_spec : PflagSpec.
Proof.
  split.
  - intros v t v' Hs. destruct v; simpl in Hs; repeat case_match; by simplify_eq.
  - done.
  - by intros b [].
  - intros l t [Hne Hp]. simpl. assert (E : plain_text t = true); [|by rewrite E].
    unfold plain_text. rewrite bool_decide_eq_false_2 by done. simpl. apply forallb_forall. intros c Hc.
    rewrite Forall_forall in Hp. specialize (Hp c Hc). by rewrite bool_decide_eq_false_2.
Qed.

#[global] Instance plain_viper : Viper := {|
  vp_IsSet := fun v env key => match env_value v env key with
    | Some _ => vi_automatic v || bool_decide (is_Some (vi_config v !! key))
    | None => bool_decide (is_Some (vi_config v !! key)) end;
  vp_Get := fun v env key => match env_value v env key with
    | Some x => YString x
    | None => default (YString "") (vi_config v !! key) end;
|}.

#[global] Instance plain_viper_spec : ViperSpec.
Proof.
  split; simpl.
  - intros v env key x Ha He. by rewrite He, Ha.
  - intros v env key y He Hy. rewrite He, Hy. by split; [apply bool_decide_eq_true_2|].
  - intros v env key He Hy. rewrite He, Hy. by apply bool_decide_eq_false_2; intros [? ?].
Qed.
End PlainFlags.
