(* ===== verification/Os.v ===== *)
(** * Files

    The part of the file system the program touches: regular files with a
    permission mode and contents.  A call that can fail takes the fault that the
    operating system injects, if any; directories matter only through those
    faults. *)

From S2P Require Import Prelude GoBase.

Record file := { f_mode : Z; f_data : bytes }.

Notation fs := (gmap string file).

(** [os.ReadFile] *)
Definition ReadFile (d : fs) (path : string) (fault : option goerr) : result goerr bytes :=
  match fault with
  | Some e => Err e
  | None => match d !! path with Some f => Ok (f_data f) | None => Err ENotExist end
  end.

(** [os.Stat(path).Mode().Perm()] *)
Definition StatPerm (d : fs) (path : string) (fault : option goerr) : result goerr Z :=
  match fault with
  | Some e => Err e
  | None => match d !! path with Some f => Ok (Z.land (f_mode f) 511) | None => Err ENotExist end
  end.

(** [os.OpenFile(path, O_WRONLY|O_CREATE|O_EXCL, perm)]: a new empty file, or an
    error when the path exists.  The mode is the one asked for, less the umask; it
    says who can access the file except on Windows, which has no such bits. *)
Definition CreateExcl (d : fs) (path : string) (perm umask : Z) (fault : option goerr) : result goerr fs :=
  match fault with
  | Some e => Err e
  | None =>
      match d !! path with
      | Some _ => Err EExist
      | None => Ok (<[path := {| f_mode := Z.ldiff perm umask; f_data := [] |}]> d)
      end
  end.

(** [f.Write(b)] on a file just created: all of [b], or a part of it and an
    error. *)
Definition append_file (c : bytes) (f : file) : file :=
  {| f_mode := f_mode f; f_data := f_data f ++ c |}.
Definition WriteAll (d : fs) (path : string) (b : bytes) (fault : option (nat * goerr)) : option goerr * fs :=
  match fault with
  | Some (n, e) => (Some e, alter (append_file (firstn n b)) path d)
  | None => (None, alter (append_file b) path d)
  end.

(** The faults of one operation that creates a file, in the order of its calls. *)
Record faults := {
  io_read : option goerr;
  io_stat : option goerr;
  io_mkdir : option goerr;
  io_open : option goerr;
  io_write : option (nat * goerr);
  io_sync : option goerr;
  io_close : option goerr;
}.

Definition no_faults : faults :=
  {| io_read := None; io_stat := None; io_mkdir := None; io_open := None;
     io_write := None; io_sync := None; io_close := None |}.

(** The faults of publishing a file: a temporary file is created, its mode set,
    written, synced, closed, linked to its final name, and removed. *)
Record publish_faults := {
  pf_create : option goerr;
  pf_chmod : option goerr;
  pf_write : option (nat * goerr);
  pf_sync : option goerr;
  pf_close : option goerr;
  pf_link : option goerr;
  pf_remove : option goerr;
}.

Definition set_mode (m : Z) (f : file) : file := {| f_mode := m; f_data := f_data f |}.

Definition no_publish_faults : publish_faults :=
  {| pf_create := None; pf_chmod := None; pf_write := None; pf_sync := None; pf_close := None;
     pf_link := None; pf_remove := None |}.

(** A file created with mode 0600 is private whatever the umask is. *)
Lemma private_mode umask : Z.land (Z.land (Z.ldiff 384 umask) 511) 63 = 0.
Proof.
  apply Z.bits_inj'. intros i Hi. rewrite Z.bits_0, !Z.land_spec, Z.ldiff_spec.
  destruct (Z.lt_ge_cases i 6).
  - replace (Z.testbit 384 i) with false; [done|].
    assert (Hc : i = 0 \/ i = 1 \/ i = 2 \/ i = 3 \/ i = 4 \/ i = 5) by lia.
    by destruct Hc as [->|[->|[->|[->|[->| ->]]]]].
  - change 63 with (Z.ones 6). by rewrite Z.ones_spec_high, andb_false_r by lia.
Qed.

(** [_ = os.Remove(path)]: a removal whose error is ignored, so that the file
    stays when it fails. *)
Definition remove_file (fault : option goerr) (path : string) (d : fs) : fs :=
  match fault with Some _ => d | None => delete path d end.

Lemma remove_file_ne fault path (d : fs) q : q <> path -> remove_file fault path d !! q = d !! q.
Proof. intros Hq. unfold remove_file. destruct fault; [done|]. by rewrite lookup_delete_ne. Qed.

(** [but_temp pf tmp d d']: [d'] is [d], but for the temporary file when its removal
    failed. *)
Definition but_temp (pf : publish_faults) (tmp : string) (d d' : fs) : Prop :=
  (forall q, q <> tmp -> d' !! q = d !! q) /\ (pf_remove pf = None -> d' = d).

Lemma remove_but_temp pf tmp f (d : fs) :
  d !! tmp = None -> but_temp pf tmp d (remove_file (pf_remove pf) tmp (<[tmp := f]> d)).
Proof.
  intros Ht. split.
  - intros q Hq. by rewrite remove_file_ne, lookup_insert_ne.
  - intros ->. simpl. by rewrite delete_insert_id.
Qed.
Lemma remove_temp_left fault tmp f g (d : fs) : remove_file fault tmp (<[tmp := f]> d) !! tmp = Some g -> g = f.
Proof. destruct fault; simpl; [rewrite lookup_insert_eq; congruence|by rewrite lookup_delete_eq]. Qed.
Lemma but_temp_refl pf tmp d : but_temp pf tmp d d.
Proof. by split. Qed.

#[export] Hint Resolve remove_but_temp but_temp_refl : relaycat.
