(* ===== verification/NetAddr.v ===== *)
(** * Network addresses

    What the program uses of Go's [net] package: [SplitHostPort], [ParseIP] (that
    is [netip.ParseAddr] without zones) and [IP.IsLoopback], with the guard built
    on them, [isLoopbackListen] (internal/relay/server.go) and
    [isLoopbackAddress] (internal/cli/root.go). *)

From S2P Require Import Prelude GoBase.

(** ** SplitHostPort *)

(** [bytealg.IndexByteString] and [LastIndexByteString]; [None] is -1. *)
Fixpoint index_byte (c : byte) (s : bytes) : option nat :=
  match s with
  | [] => None
  | b :: s' => if bool_decide (b = c) then Some O else S <$> index_byte c s'
  end.
Fixpoint last_index_byte (c : byte) (s : bytes) : option nat :=
  match s with
  | [] => None
  | b :: s' => match last_index_byte c s' with
               | Some i => Some (S i)
               | None => if bool_decide (b = c) then Some O else None
               end
  end.

Definition missing_port : goerr := ENew "missing port in address".
Definition too_many_colons : goerr := ENew "too many colons in address".

Definition SplitHostPort (hostport : bytes) : result goerr (bytes * bytes) :=
  match last_index_byte x3a hostport with
  | None => Err missing_port
  | Some i =>
      let finish host j k :=
        if index_byte x5b (drop j hostport) then Err (ENew "unexpected '[' in address")
        else if index_byte x5d (drop k hostport) then Err (ENew "unexpected ']' in address")
        else Ok (host, drop (S i) hostport) in
      if bool_decide (head hostport = Some x5b) then
        match index_byte x5d hostport with
        | None => Err (ENew "missing ']' in address")
        | Some e =>
            if bool_decide (S e = length hostport) then Err missing_port
            else if bool_decide (S e = i) then finish (take (e - 1) (drop 1 hostport)) 1%nat (S e)
            else if bool_decide (hostport !! S e = Some x3a) then Err too_many_colons
            else Err missing_port
        end
      else
        let host := take i hostport in
        if index_byte x3a host then Err too_many_colons else finish host O O
  end.

(** ** ParseIP *)

Definition digit (b : byte) : option Z := if in_range 48 57 b then Some (bval b - 48) else None.

(** [parseIPv4Fields]: the value and the number of digits of the current octet,
    the octets before it, and whether the character before was a dot (or there
    was none). *)
Fixpoint v4_loop (s : bytes) (val : Z) (digLen : nat) (dot : bool) (fields : list Z) : option (list Z) :=
  match s with
  | [] => if bool_decide (length fields < 3)%nat then None else Some (fields ++ [val])
  | c :: s' =>
      match digit c with
      | Some d =>
          if bool_decide (digLen = 1%nat) && (val =? 0) then None
          else let val' := val * 10 + d in
               if 255 <? val' then None else v4_loop s' val' (S digLen) false fields
      | None =>
          if bool_decide (c = x2e) then
            if dot || bool_decide (s' = []) then None
            else if bool_decide (length fields = 3%nat) then None
            else v4_loop s' 0 O true (fields ++ [val])
          else None
      end
  end.
Definition parseIPv4Fields (s : bytes) : option (list Z) := v4_loop s 0 O true [].

Definition hex_val (c : byte) : option Z :=
  if in_range 48 57 c then Some (bval c - 48)
  else if in_range 97 102 c then Some (bval c - 87)
  else if in_range 65 70 c then Some (bval c - 55)
  else None.

(** The hexadecimal number at the start of [s]: its value, its length and the
    rest; [None] when it has more than four digits. *)
Fixpoint hex_group (s : bytes) (off : nat) (acc : Z) : option (Z * nat * bytes) :=
  match s with
  | [] => Some (acc, off, [])
  | c :: s' =>
      match hex_val c with
      | None => Some (acc, off, s)
      | Some v => if bool_decide (3 < off)%nat then None else hex_group s' (S off) (acc * 16 + v)
      end
  end.

(** One turn of the loop of [parseIPv6]: the rest of the text, the bytes so far,
    and where the ellipsis is.  It ends with the text that is left, or goes on
    with [again]. *)
Definition v6_turn (again : bytes -> list Z -> option nat -> option (list Z * option nat * bytes))
    (s : bytes) (ip : list Z) (ellipsis : option nat) : option (list Z * option nat * bytes) :=
  match hex_group s O 0 with
  | None => None
  | Some (_, O, _) => None
  | Some (acc, _, s1) =>
      if bool_decide (head s1 = Some x2e) then
        if bool_decide (ellipsis = None) && negb (bool_decide (length ip = 12%nat)) then None
        else if bool_decide (16 < length ip + 4)%nat then None
        else fields ← parseIPv4Fields s; Some (ip ++ fields, ellipsis, [])
      else
        let ip' := ip ++ [acc / 256; acc mod 256] in
        match s1 with
        | [] => Some (ip', ellipsis, [])
        | c :: s2 =>
            if negb (bool_decide (c = x3a)) then None
            else match s2 with
            | [] => None
            | c2 :: s3 =>
                if bool_decide (c2 = x3a) then
                  if ellipsis then None
                  else match s3 with
                  | [] => Some (ip', Some (length ip'), [])
                  | _ => again s3 ip' (Some (length ip'))
                  end
                else again s2 ip' ellipsis
            end
        end
  end.

Fixpoint v6_loop (fuel : nat) (s : bytes) (ip : list Z) (ellipsis : option nat) : option (list Z * option nat * bytes) :=
  if bool_decide (16 <= length ip)%nat then Some (ip, ellipsis, s)
  else match fuel with
  | O => None
  | S fuel' => v6_turn (v6_loop fuel') s ip ellipsis
  end.

(** Each turn of the loop adds two or four of the sixteen bytes, so eight turns
    are enough. *)
Definition parseIPv6 (s : bytes) : option (list Z) :=
  let '(ellipsis, s) := match s with x3a :: x3a :: s' => (Some O, s') | _ => (None, s) end in
  if bool_decide (ellipsis = Some O) && bool_decide (s = []) then Some (replicate 16 0)
  else
    match v6_loop 8 s [] ellipsis with
    | None => None
    | Some (ip, ellipsis, rest) =>
        if negb (bool_decide (rest = [])) then None
        else match ellipsis with
        | None => if bool_decide (length ip < 16)%nat then None else Some ip
        | Some e =>
            if bool_decide (length ip < 16)%nat
            then Some (take e ip ++ replicate (16 - length ip) 0 ++ drop e ip)
            else None
        end
    end.

(** [netip.ParseAddr]: the first dot, colon or percent sign decides. *)
Inductive ip_kind := KindV4 | KindV6.
Fixpoint ip_kind_of (s : bytes) : option ip_kind :=
  match s with
  | [] => None
  | x2e :: _ => Some KindV4
  | x3a :: _ => Some KindV6
  | x25 :: _ => None
  | _ :: s' => ip_kind_of s'
  end.

Definition v4_in_v6 (f : list Z) : list Z := replicate 10 0 ++ [255; 255] ++ f.

(** [ParseIP]: the 16 bytes.  An address with a zone is refused, and so is a
    malformed one, so any percent sign makes the result nil. *)
Definition ParseIP (s : bytes) : option (list Z) :=
  match ip_kind_of s with
  | Some KindV4 => v4_in_v6 <$> parseIPv4Fields s
  | Some KindV6 => if index_byte x25 s then None else parseIPv6 s
  | None => None
  end.

Definition IPv6loopback : list Z := replicate 15 0 ++ [1].

(** [IP.IsLoopback], through [To4]. *)
Definition IsLoopback (ip : list Z) : bool :=
  if bool_decide (take 12 ip = replicate 10 0 ++ [255; 255]) then bool_decide (ip !! 12%nat = Some 127)
  else bool_decide (ip = IPv6loopback).

(** ** The guards *)

Definition isLoopbackListen (addr : string) : bool :=
  match SplitHostPort (go_bytes addr) with
  | Err _ => false
  | Ok (host, _) =>
      if bool_decide (host = go_bytes "localhost") then true
      else match ParseIP host with Some ip => IsLoopback ip | None => false end
  end.

Definition isLoopbackAddress (addr : string) : bool :=
  match SplitHostPort (go_bytes addr) with
  | Err _ => false
  | Ok (host, _) =>
      if bool_decide (host = go_bytes "localhost") then true
      else match ParseIP host with Some ip => IsLoopback ip | None => false end
  end.

Example loopback_examples :
  map isLoopbackListen ["127.0.0.1:0"; "localhost:80"; "[::1]:8443"; "[::ffff:127.1.2.3]:1"; "127.9.8.7:";
    "[0:0:0:0:0:0:0:1]:5"] = repeat true 6 /\
  map isLoopbackListen [":8443"; "0.0.0.0:1"; "127.0.0.1"; "127.00.0.1:1"; "127.0.0.256:1"; "127.0.1:1"; "[::]:1";
    "::1:80"; "[::1%lo]:1"; "[::2]:1"; "localhost.evil:1"; "[1:2]"; "[::1]80"; "128.0.0.1:1"] = repeat false 14.
Proof. split; vm_compute; reflexivity. Qed.

(** ** What the guards accept *)

(** Decimal text of an octet, and the dotted form of an IPv4 address. *)
Definition dec_digit (n : Z) : byte := to_byte (48 + n).
Definition dec (n : Z) : bytes :=
  if n <? 10 then [dec_digit n]
  else if n <? 100 then [dec_digit (n / 10); dec_digit (n mod 10)]
  else [dec_digit (n / 100); dec_digit (n / 10 mod 10); dec_digit (n mod 10)].
Fixpoint dotted (f : list Z) : bytes :=
  match f with
  | [] => []
  | [n] => dec n
  | n :: f' => dec n ++ x2e :: dotted f'
  end.

Definition octet (n : Z) : Prop := 0 <= n <= 255.

(** A host that is a loopback address, as text. *)
Definition loopback_host (h : bytes) : Prop :=
  h = go_bytes "localhost" \/
  (exists b c d, octet b /\ octet c /\ octet d /\ h = dotted [127; b; c; d]) \/
  (x3a ∈ h /\ exists ip, parseIPv6 h = Some ip /\
     (ip = IPv6loopback \/ exists b c d, ip = v4_in_v6 [127; b; c; d])).

Lemma digit_Some c d : digit c = Some d <-> 0 <= d <= 9 /\ c = dec_digit d.
Proof.
  unfold digit, dec_digit. destruct (in_range 48 57 c) eqn:E.
  - unfold in_range in E. apply andb_true_iff in E as [E1 E2]. apply Z.leb_le in E1, E2. split.
    + intros [= <-]. split; [lia|]. rewrite Zplus_minus. by rewrite to_byte_bval.
    + intros [Hd ->]. rewrite bval_to_byte, Z.mod_small by lia. f_equal. lia.
  - split; [done|]. intros [Hd ->]. unfold in_range in E. rewrite bval_to_byte, Z.mod_small in E by lia.
    apply andb_false_iff in E as [E|E]; apply Z.leb_gt in E; lia.
Qed.

(** Octets by computation. *)
Definition below (n : nat) : list Z := Z.of_nat <$> seq 0 n.
Lemma below_all n (P : Z -> bool) : forallb P (below n) = true -> forall z, 0 <= z < Z.of_nat n -> P z = true.
Proof.
  intros H z Hz. rewrite forallb_forall in H. apply H. unfold below. apply list_elem_of_In, list_elem_of_fmap.
  exists (Z.to_nat z). split; [lia|]. apply elem_of_seq. lia.
Qed.

(** Adding a digit to the text of an octet. *)
Lemma dec_snoc v d : 0 <= v -> 0 <= d <= 9 -> v <> 0 -> v * 10 + d <= 255 -> dec v ++ [dec_digit d] = dec (v * 10 + d).
Proof.
  intros Hv Hd Hne Hm.
  assert (H : forallb (fun v => forallb (fun d => (v =? 0) || (255 <? v * 10 + d) ||
      bool_decide (dec v ++ [dec_digit d] = dec (v * 10 + d))) (below 10)) (below 26) = true) by (vm_compute; reflexivity).
  pose proof (below_all 26 _ H v ltac:(lia)) as H1. pose proof (below_all 10 _ H1 d ltac:(lia)) as H2.
  apply orb_true_iff in H2 as [H2|H2]; [apply orb_true_iff in H2 as [H2|H2]; [apply Z.eqb_eq in H2|apply Z.ltb_lt in H2]; lia|].
  by apply bool_decide_eq_true_1 in H2.
Qed.

(** The text of the octet being read. *)
Definition cur (digLen : nat) (val : Z) : bytes := match digLen with O => [] | _ => dec val end.

Lemma dotted_snoc f n : f <> [] -> dotted (f ++ [n]) = dotted f ++ x2e :: dec n.
Proof.
  induction f as [|a f IH]; [done|]. intros _. destruct f as [|b f]; [done|].
  change ((a :: b :: f) ++ [n]) with (a :: (b :: f) ++ [n]). cbn [dotted app] in *. rewrite IH by done.
  by rewrite <- app_assoc.
Qed.

Definition dotted_dot (f : list Z) : bytes := match f with [] => [] | _ => dotted f ++ [x2e] end.
Lemma dotted_dot_snoc f n : dotted_dot (f ++ [n]) = (dotted_dot f ++ dec n) ++ [x2e].
Proof.
  unfold dotted_dot. destruct f as [|a f]; [done|]. cbn [app]. rewrite app_comm_cons, dotted_snoc by done.
  by rewrite <- !app_assoc.
Qed.
Lemma dotted_dot_dec f n : dotted_dot f ++ dec n = dotted (f ++ [n]).
Proof. unfold dotted_dot. destruct f as [|a f]; [done|]. rewrite dotted_snoc by done. by rewrite <- app_assoc. Qed.

(** [parseIPv4Fields] reads exactly the dotted text of four octets. *)
Lemma v4_loop_sound s val k dot fields f :
  v4_loop s val k dot fields = Some f ->
  (dot = true <-> k = O) -> 0 <= val <= 255 -> (length fields <= 3)%nat -> Forall octet fields ->
  (k = O -> val = 0 /\ (fields = [] \/ s <> [])) -> (val = 0 -> (k <= 1)%nat) ->
  length f = 4%nat /\ Forall octet f /\ dotted_dot fields ++ cur k val ++ s = dotted f.
Proof.
  revert val k dot fields. induction s as [|c s IH]; intros val k dot fields H Hdot Hv Hl Ho Hk Hz; cbn [v4_loop] in H.
  - case_bool_decide; [done|]. injection H as <-. rewrite length_app, Forall_app. simpl. split; [lia|].
    split; [split; [done|by apply Forall_singleton]|]. rewrite app_nil_r.
    destruct k as [|k]; [|apply dotted_dot_dec]. destruct (Hk eq_refl) as [_ [->|]]; [simpl in *; lia|done].
  - destruct (digit c) as [d|] eqn:Hd.
    + apply digit_Some in Hd as [Hd ->]. destruct (bool_decide (k = 1%nat) && (val =? 0)) eqn:E0; [done|].
      destruct (Z.ltb_spec 255 (val * 10 + d)) as [|Hle]; [done|].
      assert (Hcur : cur k val ++ [dec_digit d] = dec (val * 10 + d) /\ (val = 0 -> k = O)).
      { destruct k as [|k]; cbn [cur app].
        - destruct (Hk eq_refl) as [-> _]. split; [|done]. rewrite Z.mul_0_l, Z.add_0_l. unfold dec. by destruct (Z.ltb_spec d 10); [|lia].
        - assert (val <> 0); [|split; [apply dec_snoc; lia|lia]]. intros ->. specialize (Hz eq_refl).
          by rewrite bool_decide_eq_true_2 in E0 by lia. }
      destruct Hcur as [Hcur Hk0].
      destruct (IH (val * 10 + d) (S k) false fields H) as (L & O & T); try done; try lia.
      split_and!; [done|done|]. rewrite <- T. cbn [cur]. by rewrite <- Hcur, <- !app_assoc.
    + case_bool_decide as Hc; [subst c|done]. destruct dot; [done|]. simpl in H.
      case_bool_decide as Hs; [done|]. case_bool_decide as H3; [done|].
      destruct (IH 0 O true (fields ++ [val]) H) as (L & O & T); try done; try lia.
      * rewrite length_app. simpl. lia.
      * apply Forall_app. split; [done|]. by apply Forall_singleton.
      * intros _. split; [done|by right].
      * split_and!; [done|done|]. rewrite <- T, dotted_dot_snoc. destruct k as [|k]; [by discriminate (proj2 Hdot eq_refl)|].
        cbn [cur app]. by rewrite <- !app_assoc.
Qed.

Lemma parseIPv4Fields_sound s f : parseIPv4Fields s = Some f -> length f = 4%nat /\ Forall octet f /\ s = dotted f.
Proof.
  intros H. destruct (v4_loop_sound _ _ _ _ _ _ H) as (L & O & T); [done|lia|simpl; lia|done|by intros _; split; [|left]|lia|].
  by rewrite <- T.
Qed.

(** The other way: the digits of an octet are read as it. *)
Lemma v4_loop_digit d s val val' k dot fields :
  0 <= d <= 9 -> k = O \/ val <> 0 -> val * 10 + d = val' -> val' <= 255 ->
  v4_loop (dec_digit d :: s) val k dot fields = v4_loop s val' (S k) false fields.
Proof.
  intros Hd Hk <- Hm. cbn [v4_loop]. assert (E : digit (dec_digit d) = Some d) by (by apply digit_Some). rewrite E.
  assert (E1 : bool_decide (k = 1%nat) && (val =? 0) = false).
  { destruct Hk as [->|Hk]; [done|]. apply Z.eqb_neq in Hk. by rewrite Hk, andb_false_r. }
  rewrite E1. cbn zeta. destruct (Z.ltb_spec 255 (val * 10 + d)); [lia|done].
Qed.

Lemma v4_loop_octet n s fields :
  octet n -> exists k, v4_loop (dec n ++ s) 0 O true fields = v4_loop s n (S k) false fields.
Proof.
  intros [Hn Hm]. unfold dec.
  destruct (Z.ltb_spec n 10); [|destruct (Z.ltb_spec n 100)]; cbn [app].
  - exists O. apply v4_loop_digit; lia.
  - exists 1%nat. rewrite (v4_loop_digit (n / 10) _ 0 (n / 10)) by euclid. apply v4_loop_digit; euclid.
  - exists 2%nat. rewrite (v4_loop_digit (n / 100) _ 0 (n / 100)) by euclid.
    rewrite (v4_loop_digit (n / 10 mod 10) _ (n / 100) (n / 10)) by euclid. apply v4_loop_digit; euclid.
Qed.

Lemma v4_loop_dot n s k fields :
  s <> [] -> (length fields < 3)%nat ->
  v4_loop (x2e :: s) n k false fields = v4_loop s 0 O true (fields ++ [n]).
Proof.
  intros Hs Hl. cbn [v4_loop digit]. change (digit x2e) with (@None Z). cbn iota.
  rewrite bool_decide_eq_true_2 by done. rewrite bool_decide_eq_false_2 by done. cbn.
  by rewrite bool_decide_eq_false_2 by lia.
Qed.

Lemma dec_nonempty n : dec n <> [].
Proof. unfold dec. repeat case_match; done. Qed.

Lemma parseIPv4Fields_dotted a b c d :
  octet a -> octet b -> octet c -> octet d -> parseIPv4Fields (dotted [a; b; c; d]) = Some [a; b; c; d].
Proof.
  intros Ha Hb Hc Hd. unfold parseIPv4Fields. cbn [dotted].
  assert (Hne : forall n s, dec n ++ s <> []) by (intros n s H; apply app_eq_nil in H as [H _]; by apply dec_nonempty in H).
  destruct (v4_loop_octet a (x2e :: dec b ++ x2e :: dec c ++ x2e :: dec d) [] Ha) as [k1 ->].
  rewrite v4_loop_dot by (simpl; auto; lia). cbn [app].
  destruct (v4_loop_octet b (x2e :: dec c ++ x2e :: dec d) [a] Hb) as [k2 E2]. rewrite E2.
  rewrite v4_loop_dot by (simpl; auto; lia). cbn [app].
  destruct (v4_loop_octet c (x2e :: dec d) [a; b] Hc) as [k3 E3]. rewrite E3.
  rewrite v4_loop_dot by (simpl; (apply dec_nonempty || lia)). cbn [app].
  destruct (v4_loop_octet d [] [a; b; c] Hd) as [k4 E4]. rewrite app_nil_r in E4. by rewrite E4.
Qed.

(** *** IPv6 *)

Lemma v6_loop_length fuel s ip el r el' rest :
  v6_loop fuel s ip el = Some (r, el', rest) -> (length ip <= 16)%nat -> Nat.Even (length ip) -> (length r <= 16)%nat.
Proof.
  revert s ip el. induction fuel as [|fuel IH]; intros s ip el H Hl He; cbn [v6_loop] in H; unfold v6_turn in H.
  { by case_bool_decide; simplify_eq. }
  case_bool_decide as H16; [by simplify_eq|].
  assert (Hl2 : forall a b, (length (ip ++ [a; b]) <= 16)%nat /\ Nat.Even (length (ip ++ [a; b]))).
  { intros a b. rewrite length_app. destruct He as [k Hk]. simpl. split; [lia|]. exists (S k). lia. }
  destruct (hex_group s O 0) as [[[acc [|k]] s1]|]; [done| |done].
  destruct (bool_decide (head s1 = Some x2e)).
  - case_match; [done|]. case_bool_decide; [done|].
    destruct (parseIPv4Fields s) as [f|] eqn:Hf; simplify_eq/=.
    destruct (parseIPv4Fields_sound _ _ Hf) as [Hf4 _]. rewrite length_app. lia.
  - repeat (case_match; simplify_eq; try by apply Hl2); eapply IH; try done; apply Hl2.
Qed.

(** More fuel than eight turns changes nothing. *)
Lemma v6_loop_fuel fuel s ip el :
  (16 <= length ip + 2 * fuel)%nat -> v6_loop (S fuel) s ip el = v6_loop fuel s ip el.
Proof.
  revert s ip el. induction fuel as [|fuel IH]; intros s ip el Hl.
  - cbn [v6_loop]. by rewrite bool_decide_eq_true_2 by lia.
  - assert (Hn : forall a b s el, v6_loop (S fuel) s (ip ++ [a; b]) el = v6_loop fuel s (ip ++ [a; b]) el)
      by (intros; apply IH; rewrite length_app; simpl; lia).
    assert (Hu : forall k, v6_loop (S k) s ip el =
      if bool_decide (16 <= length ip)%nat then Some (ip, el, s) else v6_turn (v6_loop k) s ip el) by (by destruct k).
    rewrite !Hu. clear Hu IH. destruct (bool_decide _); [done|]. revert Hn. generalize (v6_loop (S fuel)), (v6_loop fuel).
    intros g g' Hn. unfold v6_turn. repeat (case_match; try done); apply Hn.
Qed.

Lemma parseIPv6_length s ip : parseIPv6 s = Some ip -> length ip = 16%nat.
Proof.
  unfold parseIPv6. intros H. destruct (match s with x3a :: x3a :: s' => _ | _ => _ end) as [el s'].
  destruct (_ && _); [by simplify_eq|].
  destruct (v6_loop 8 s' [] el) as [[[r el'] rest]|] eqn:Hv; [|done].
  apply v6_loop_length in Hv; [|simpl; lia|by exists O].
  case_match; [done|]. destruct el' as [e|]; case_bool_decide; simplify_eq; [|lia].
  rewrite !length_app, length_take, length_replicate, length_drop. lia.
Qed.

Lemma ip_kind_v6 s : ip_kind_of s = Some KindV6 -> x3a ∈ s.
Proof. induction s as [|b s IH]; [done|]. cbn [ip_kind_of]. destruct b; (by left) || (intros H; right; by apply IH) || done. Qed.

Lemma IsLoopback_v4 f : IsLoopback (v4_in_v6 f) = bool_decide (f !! O = Some 127).
Proof. unfold IsLoopback, v4_in_v6. rewrite bool_decide_eq_true_2 by done. by destruct f. Qed.

Lemma IsLoopback_inv ip :
  length ip = 16%nat -> IsLoopback ip = true -> ip = IPv6loopback \/ exists b c d, ip = v4_in_v6 [127; b; c; d].
Proof.
  intros Hl H. unfold IsLoopback in H. case_bool_decide as E; [|left; by apply bool_decide_eq_true_1 in H].
  right. apply bool_decide_eq_true_1 in H. rewrite <- (take_drop 12 ip), E. rewrite <- (take_drop 12 ip), E in H.
  assert (Hd : length (drop 12 ip) = 4%nat) by (rewrite length_drop; lia).
  destruct (drop 12 ip) as [|a [|b [|c [|d [|]]]]]; try done. injection H as ->. by exists b, c, d.
Qed.

(** *** The shape of what [SplitHostPort] accepts *)

Lemma last_index_split c s i : last_index_byte c s = Some i -> s = take i s ++ c :: drop (S i) s.
Proof.
  revert i. induction s as [|b s IH]; intros i H; [done|]. cbn [last_index_byte] in H.
  destruct (last_index_byte c s) as [j|].
  - injection H as <-. cbn [take drop app]. f_equal. by apply IH.
  - case_bool_decide; simplify_eq/=. by rewrite drop_0.
Qed.

Lemma index_byte_at c s i : index_byte c s = Some i -> s !! i = Some c.
Proof.
  revert i. induction s as [|b s IH]; intros i H; [done|]. cbn [index_byte] in H.
  case_bool_decide; simplify_eq/=; [done|]. destruct (index_byte c s) as [j|]; simplify_eq/=. by apply IH.
Qed.

Lemma index_byte_None c s : index_byte c s = None <-> c ∉ s.
Proof.
  induction s as [|b s IH]; [split; [intros _ H; by apply not_elem_of_nil in H|done]|]. cbn [index_byte].
  case_bool_decide as E; [subst; split; [done|intros H; destruct H; by left]|].
  rewrite not_elem_of_cons. destruct (index_byte c s); naive_solver.
Qed.

Lemma SplitHostPort_shape s host port :
  SplitHostPort s = Ok (host, port) ->
  s = host ++ x3a :: port \/ s = x5b :: host ++ x5d :: x3a :: port.
Proof.
  unfold SplitHostPort. intros H. destruct (last_index_byte x3a s) as [i|] eqn:Hi; [|done].
  pose proof (last_index_split _ _ _ Hi) as Hs.
  destruct (bool_decide (head s = Some x5b)) eqn:Hb.
  - apply bool_decide_eq_true_1 in Hb. destruct s as [|c s]; [done|]. injection Hb as ->.
    destruct (index_byte x5d (x5b :: s)) as [e|] eqn:He; [|done]. apply index_byte_at in He.
    case_bool_decide; [done|]. case_bool_decide as Hie; [subst i|by case_bool_decide].
    repeat (case_match; [done|]). injection H as <- <-. right.
    rewrite (take_S_r _ _ _ He) in Hs. rewrite Hs at 1. destruct e as [|e]; [done|].
    cbn [take drop app Nat.sub]. rewrite drop_0, <- app_assoc, ?Nat.sub_0_r. done.
  - case_match; [done|]. repeat (case_match; [done|]). injection H as <- <-. by left.
Qed.

(** *** Loopback *)

Lemma loopback_sound addr :
  isLoopbackListen addr = true ->
  exists host port, loopback_host host /\
    (go_bytes addr = host ++ x3a :: port \/ go_bytes addr = x5b :: host ++ x5d :: x3a :: port).
Proof.
  unfold isLoopbackListen. intros H. destruct (SplitHostPort (go_bytes addr)) as [[host port]|] eqn:Hs; [|done].
  exists host, port. split; [|by apply SplitHostPort_shape]. case_bool_decide as Hl; [by left|].
  destruct (ParseIP host) as [ip|] eqn:Hp; [|done]. unfold ParseIP in Hp.
  destruct (ip_kind_of host) as [[]|] eqn:Hk; [| |done].
  - right; left. destruct (parseIPv4Fields host) as [f|] eqn:Hf; simplify_eq/=.
    destruct (parseIPv4Fields_sound _ _ Hf) as (L & O & ->). rewrite IsLoopback_v4 in H. apply bool_decide_eq_true_1 in H.
    destruct f as [|a [|b [|c [|d [|]]]]]; try done. injection H as ->. decompose_Forall_hyps. by exists b, c, d.
  - right; right. split; [by apply ip_kind_v6|]. case_match; [done|]. exists ip. split; [done|].
    apply IsLoopback_inv; [by eapply parseIPv6_length|done].
Qed.

Lemma dec_chars n : octet n -> forall c, c ∈ dec n -> 48 <= bval c <= 57.
Proof.
  intros Hn c Hc.
  assert (H : forallb (fun n => forallb (fun c => (48 <=? bval c) && (bval c <=? 57)) (dec n)) (below 256) = true)
    by (vm_compute; reflexivity).
  unfold octet in Hn. pose proof (below_all 256 _ H n ltac:(lia)) as H1. rewrite forallb_forall in H1.
  specialize (H1 c (proj1 (list_elem_of_In _ _) Hc)). apply andb_true_iff in H1 as [H1 H2].
  apply Z.leb_le in H1, H2. lia.
Qed.

Definition plain_char (c : byte) : Prop := c <> x3a /\ c <> x5b /\ c <> x5d.

Lemma last_index_app c s t : c ∉ t -> last_index_byte c (s ++ c :: t) = Some (length s).
Proof.
  intros Ht. assert (Hn : last_index_byte c t = None).
  { clear s. induction t as [|b t IH]; [done|]. apply not_elem_of_cons in Ht as [Hb Ht]. cbn [last_index_byte].
    rewrite (IH Ht). by rewrite bool_decide_eq_false_2. }
  induction s as [|b s IH]; cbn [last_index_byte app length]; [|by rewrite IH].
  rewrite Hn. by rewrite bool_decide_eq_true_2.
Qed.

Lemma SplitHostPort_plain host port :
  Forall plain_char host -> Forall plain_char port -> SplitHostPort (host ++ x3a :: port) = Ok (host, port).
Proof.
  intros Hh Hp.
  assert (Hnot : forall c l, (forall x, plain_char x -> x <> c) -> Forall plain_char l -> c ∉ l).
  { intros c l Hc Hl Hin. rewrite Forall_forall in Hl. apply list_elem_of_In in Hin. exact (Hc c (Hl c Hin) eq_refl). }
  assert (Ha : forall c, (forall x, plain_char x -> x <> c) -> c <> x3a -> index_byte c (host ++ x3a :: port) = None).
  { intros c Hc Hne. apply index_byte_None. rewrite elem_of_app, elem_of_cons.
    intros [Hi|[Hi|Hi]]; [by destruct (Hnot c host)|done|by destruct (Hnot c port)]. }
  unfold SplitHostPort. rewrite last_index_app by (apply Hnot; [by intros x (? & _)|done]).
  rewrite bool_decide_eq_false_2.
  2: { destruct host as [|b host]; [done|]. inversion Hh as [|? ? (_ & Hb & _)]; subst. by intros [= ->]. }
  rewrite take_app_length. rewrite (proj2 (index_byte_None _ _)) by (apply Hnot; [by intros x (? & _)|done]).
  cbn zeta. rewrite drop_0, !Ha by (done || by intros x (? & ? & ?)).
  do 2 f_equal. rewrite cons_middle, app_assoc. apply drop_app_length'. rewrite length_app. simpl. lia.
Qed.

Lemma dotted_plain f : Forall octet f -> Forall plain_char (dotted f).
Proof.
  assert (Hd : forall n, octet n -> Forall plain_char (dec n)).
  { intros n Hn. apply Forall_forall. intros c Hc. apply list_elem_of_In in Hc. pose proof (dec_chars n Hn c Hc) as Hr.
    repeat split; intros ->; unfold bval in Hr; simpl in Hr; lia. }
  induction 1 as [|n f Hn Hf IH]; [constructor|]. cbn [dotted]. destruct f; [by apply Hd|].
  apply Forall_app. split; [by apply Hd|]. by constructor.
Qed.

Lemma loopback_v4 b c d port :
  octet b -> octet c -> octet d -> Forall plain_char port ->
  isLoopbackListen (go_string (dotted [127; b; c; d] ++ x3a :: port)) = true.
Proof.
  intros Hb Hc Hd Hp. unfold isLoopbackListen. rewrite go_bytes_string.
  assert (H127 : octet 127) by (unfold octet; lia).
  rewrite SplitHostPort_plain by (done || (apply dotted_plain; repeat (constructor; [done|]); constructor)).
  case_bool_decide; [done|]. unfold ParseIP.
  assert (Hk : ip_kind_of (dotted [127; b; c; d]) = Some KindV4) by reflexivity.
  rewrite Hk, parseIPv4Fields_dotted by done. cbn [fmap option_fmap option_map]. by rewrite IsLoopback_v4.
Qed.
