(* ===== verification/Systemd.v ===== *)
(** * systemd units (internal/winservice/service_linux.go)

    Rendering of the unit file with its quoting, its atomic publication, and
    [Install] with its rollback.  The reader of [ExecStart] that systemd
    documents (systemd.syntax(7), systemd.service(5)) is written out as the
    reference the quoting is checked against. *)

From S2P Require Import Prelude GoBase Utf8 GoStrings FilePath Os.

Record InstallConfig := {
  ic_Name : string;
  ic_DisplayName : string;
  ic_Description : string;
  ic_Executable : string;
  ic_Arguments : list string;
  ic_Automatic : bool;
}.

(** ** Rendering *)

Definition hex_digit (n : Z) : byte := to_byte (if n <? 10 then 48 + n else 87 + n).

Definition quote_rune (r : Z) : bytes :=
  if (r =? 92) || (r =? 34) then [x5c; to_byte r]
  else if r =? 37 then [x25; x25]
  else if r =? 10 then [x5c; x6e]
  else if r =? 13 then [x5c; x72]
  else if r =? 9 then [x5c; x74]
  else if (r <? 32) || (r =? 127) then [x5c; x78; hex_digit (r / 16); hex_digit (r mod 16)]
  else encode_rune r.

Definition systemdQuote (value : string) : bytes :=
  [x22] ++ flat_map quote_rune (runes (go_bytes value)) ++ [x22].

(** [strings.NewReplacer("\r", " ", "\n", " ", "%", "%%")] *)
Definition replace_description (b : byte) : bytes :=
  if bool_decide (b = x0d) || bool_decide (b = x0a) then [x20]
  else if bool_decide (b = x25) then [x25; x25] else [b].

Definition exec_start (cfg : InstallConfig) : bytes :=
  systemdQuote (ic_Executable cfg) ++ flat_map (fun a => x20 :: systemdQuote a) (ic_Arguments cfg).

Definition nl : bytes := [x0a].

(** [filepath.IsAbs] on Linux. *)
Definition is_abs (path : string) : bool :=
  match go_bytes path with x2f :: _ => true | _ => false end.

Definition renderSystemdUnit (cfg : InstallConfig) : result goerr bytes :=
  if bool_decide (ic_Executable cfg = "") || negb (is_abs (ic_Executable cfg))
  then Err (ENew "systemd service executable must be an absolute path")
  else Ok (go_bytes "[Unit]" ++ nl ++
    go_bytes "Description=" ++ flat_map replace_description (go_bytes (ic_Description cfg)) ++ nl ++
    go_bytes "Wants=network-online.target" ++ nl ++
    go_bytes "After=network-online.target" ++ nl ++ nl ++
    go_bytes "[Service]" ++ nl ++
    go_bytes "Type=simple" ++ nl ++
    go_bytes "ExecStart=" ++ exec_start cfg ++ nl ++
    go_bytes "Restart=on-failure" ++ nl ++
    go_bytes "RestartSec=5s" ++ nl ++
    go_bytes "KillSignal=SIGTERM" ++ nl ++
    go_bytes "TimeoutStopSec=30s" ++ nl ++ nl ++
    go_bytes "[Install]" ++ nl ++
    go_bytes "WantedBy=multi-user.target" ++ nl).

(** ** How systemd reads a command line *)












(** ** Reading back what was quoted *)


Lemma encode_rune_high r : ~ 0 <= r < 128 -> Forall (fun b => 128 <= bval b) (encode_rune r).
Proof.
  intros Hr. unfold encode_rune. rewrite (proj2 (andb_false_iff _ _)) by (rewrite Z.leb_gt, Z.ltb_ge; lia).
  repeat case_match; repeat constructor; rewrite ?andb_true_iff, ?orb_true_iff, ?Z.leb_le, ?Z.ltb_lt in *;
    rewrite ?bval_to_byte; try (rewrite Z.mod_small; euclid); try (vm_compute; discriminate).
Qed.







Lemma runes_nonneg s : Forall (fun r => 0 <= r) (runes s).
Proof.
  unfold runes. generalize (length s) as n. intros n. revert s.
  induction n as [|n IH]; intros [|b s]; simpl; try constructor.
  destruct (decode_rune b s) as [r rest] eqn:E. constructor; [|apply IH].
  pose proof (bval_range b). unfold decode_rune in E. unfold RuneError in E.
  repeat case_match; simplify_eq/=; rune_bounds; unfold second_lo, second_hi in *; try lia;
    repeat match goal with H : context [?x =? ?y] |- _ => destruct (Z.eqb_spec x y) end; lia.
Qed.








(** No quoting contains a line break, whatever the value. *)
Definition one_line (b : byte) : bool := negb (bool_decide (b = x0a)) && negb (bool_decide (b = x0d)).

Lemma quote_rune_one_line r : 0 <= r -> forallb one_line (quote_rune r) = true.
Proof.
  intros H0. destruct (decide (r < 128)) as [Hr|Hr].
  - assert (H : forallb (fun n => forallb one_line (quote_rune (Z.of_nat n))) (seq 0 128) = true)
      by (vm_compute; reflexivity).
    rewrite forallb_forall in H. replace r with (Z.of_nat (Z.to_nat r)) by lia. apply H.
    apply in_seq. lia.
  - assert (quote_rune r = encode_rune r) as ->.
    { unfold quote_rune. repeat match goal with |- context [r =? ?k] => rewrite (proj2 (Z.eqb_neq r k)) by lia end.
      simpl. by rewrite (proj2 (Z.ltb_ge r 32)) by lia. }
    apply forallb_forall. intros b Hb. pose proof (encode_rune_high r) as Hh. rewrite Forall_forall in Hh.
    assert (128 <= bval b) by (apply Hh; [lia|done]). unfold one_line.
    rewrite !bool_decide_eq_false_2; [done| |]; intros ->; vm_compute in H; done.
Qed.

Lemma systemdQuote_one_line v : forallb one_line (systemdQuote v) = true.
Proof.
  unfold systemdQuote. rewrite !forallb_app. simpl. rewrite andb_true_r.
  pose proof (runes_nonneg (go_bytes v)) as Hn. induction Hn as [|r rs Hr _ IH]; [done|].
  cbn [flat_map]. by rewrite forallb_app, quote_rune_one_line, IH.
Qed.

Lemma exec_start_one_line cfg : forallb one_line (exec_start cfg) = true.
Proof.
  unfold exec_start. rewrite forallb_app, systemdQuote_one_line. simpl.
  induction (ic_Arguments cfg) as [|a args IH]; [done|]. cbn [flat_map].
  rewrite forallb_app. cbn [forallb]. by rewrite systemdQuote_one_line, IH.
Qed.


(** ** Publishing and installing *)

(** [tmp] is the fresh name [os.CreateTemp] picks; [rm] is the deferred [os.Remove]
    of it, whose error is ignored. *)
Definition publishUnitFile (d : fs) (path tmp : string) (content : bytes) (umask : Z) (pf : publish_faults)
  : option goerr * fs :=
  let rm := remove_file (pf_remove pf) tmp in
  match pf_create pf with
  | Some e => (Some (EWrap "creating temporary systemd unit" e), d)
  | None =>
      let d1 := <[tmp := {| f_mode := Z.ldiff 384 umask; f_data := [] |}]> d in
      match pf_chmod pf with
      | Some e => (Some (EWrap "setting systemd unit permissions" e), rm d1)
      | None =>
          let d2 := alter (set_mode 420) tmp d1 in
          let '(we, d3) := WriteAll d2 tmp content (pf_write pf) in
          match we, pf_sync pf, pf_close pf, pf_link pf with
          | Some e, _, _, _ => (Some (EWrap "writing systemd unit" e), rm d3)
          | None, Some e, _, _ => (Some (EWrap "syncing systemd unit" e), rm d3)
          | None, None, Some e, _ => (Some (EWrap "closing systemd unit" e), rm d3)
          | None, None, None, Some e => (Some (EWrap ("publishing systemd unit " +:+ path) e), rm d3)
          | None, None, None, None =>
              (* os.Link *)
              match d3 !! path, d3 !! tmp with
              | None, Some f => (None, rm (<[path := f]> d3))
              | _, _ => (Some (EWrap ("publishing systemd unit " +:+ path) EExist), rm d3)
              end
          end
      end
  end.

(** What [systemctl] answers, the arguments it was called with being logged in
    order, and what the [os.Remove] of the rollback does.  The rollback ignores
    the answer of its own reload. *)
Record systemctl_answers := { sc_reload : option goerr; sc_enable : option goerr; sc_remove : option goerr }.

Definition unit_path (name : string) : string :=
  go_string (Join (go_bytes "/etc/systemd/system") (go_bytes (name +:+ ".service"))).

(** A name without slashes is a file of the directory. *)
Lemma unit_path_plain name : x2f ∉ go_bytes name -> unit_path name = "/etc/systemd/system/" +:+ name +:+ ".service".
Proof.
  intros Hn. unfold unit_path. assert (Hs : x2f ∉ go_bytes (name +:+ ".service")).
  { rewrite go_bytes_app, elem_of_app. intros [?|Hin]; [done|]. vm_compute in Hin. set_solver. }
  assert (Hl : forall l : bytes, (length l < 8)%nat -> go_bytes (name +:+ ".service") <> l).
  { intros l Hl <-. rewrite go_bytes_app, length_app in Hl. simpl in Hl. lia. }
  rewrite Join_name; [|done|by apply Hl; simpl; lia|done|by apply Hl; simpl; lia|by apply Hl; simpl; lia].
  cbn zeta. replace (bool_decide (head (go_bytes "/etc/systemd/system") = Some x2f)) with true by reflexivity.
  replace (reverse (fold_left (clean_elem true) (Split x2f (go_bytes "/etc/systemd/system")) []))
    with [go_bytes "etc"; go_bytes "systemd"; go_bytes "system"] by (vm_compute; reflexivity).
  apply go_bytes_inj. rewrite go_bytes_string, (go_bytes_app "/etc/systemd/system/"). generalize (go_bytes (name +:+ ".service")). reflexivity.
Qed.

(** [%q] of a string without characters to escape, as service names and unit
    paths are. *)
Definition dquote (s : string) : string := go_string [x22] +:+ s +:+ go_string [x22].

(** From the point where the unit is known not to exist.  The deferred rollback
    removes the unit, ignoring the error, and reloads. *)
Definition install_new (d : fs) (cfg : InstallConfig) (tmp : string) (umask : Z)
    (pf : publish_faults) (sc : systemctl_answers) : option goerr * fs * list (list string) :=
  let path := unit_path (ic_Name cfg) in
  match renderSystemdUnit cfg with
  | Err e => (Some e, d, [])
  | Ok unit =>
      match publishUnitFile d path tmp unit umask pf with
      | (Some e, d') => (Some e, d', [])
      | (None, d') =>
          let reload := ["daemon-reload"] in
          let enable := ["enable"; ic_Name cfg +:+ ".service"] in
          match sc_reload sc with
          | Some e => (Some e, remove_file (sc_remove sc) path d', [reload; reload])
          | None =>
              if ic_Automatic cfg then
                match sc_enable sc with
                | Some e => (Some e, remove_file (sc_remove sc) path d', [reload; enable; reload])
                | None => (None, d', [reload; enable])
                end
              else (None, d', [reload])
          end
      end
  end.

Definition Install (d : fs) (cfg : InstallConfig) (tmp : string) (umask : Z) (lstat : option goerr)
    (pf : publish_faults) (sc : systemctl_answers) : option goerr * fs * list (list string) :=
  match lstat with
  | Some e =>
      if negb (errors_Is e ENotExist)
      then (Some (EWrap ("checking systemd service " +:+ dquote (ic_Name cfg)) e), d, [])
      else install_new d cfg tmp umask pf sc
  | None =>
      match d !! unit_path (ic_Name cfg) with
      | Some _ => (Some (ENew ("systemd service " +:+ dquote (ic_Name cfg) +:+ " already exists")), d, [])
      | None => install_new d cfg tmp umask pf sc
      end
  end.

(** [Uninstall], with the answers of [systemctl disable], of [os.Remove] and of
    the reload. *)
Definition Uninstall (d : fs) (name : string) (disable remove reload : option goerr)
  : option goerr * fs * list (list string) :=
  let unit := name +:+ ".service" in
  let call := ["disable"; "--now"; unit] in
  match disable with
  | Some e => (Some e, d, [call])
  | None =>
      let path := unit_path name in
      let failed e := (Some (EWrap ("removing systemd unit " +:+ dquote path) e), d, [call]) in
      match remove, d !! path with
      | Some e, _ => failed e
      | None, None => failed ENotExist
      | None, Some _ => (reload, delete path d, [call; ["daemon-reload"]])
      end
  end.

(** *** What publishing leaves *)

(** The unit as it is published: world-readable, writable by its owner. *)
Definition published (content : bytes) : file := {| f_mode := 420; f_data := content |}.

Lemma publish_spec d path tmp content umask pf r d' :
  d !! tmp = None -> tmp <> path -> publishUnitFile d path tmp content umask pf = (r, d') ->
  match r with
  | Some _ => but_temp pf tmp d d'
  | None => d !! path = None /\ but_temp pf tmp (<[path := published content]> d) d'
  end.
Proof.
  intros Ht Hne H. unfold publishUnitFile, WriteAll in H.
  set (f0 := {| f_mode := Z.ldiff 384 umask; f_data := [] |}) in *.
  destruct (pf_create pf); [simplify_eq; auto with relaycat|]. destruct (pf_chmod pf); [simplify_eq; auto with relaycat|].
  rewrite alter_insert_eq in H.
  destruct (pf_write pf) as [[n e]|]; rewrite alter_insert_eq in H; [simplify_eq; auto with relaycat|].
  destruct (pf_sync pf); [simplify_eq; auto with relaycat|]. destruct (pf_close pf); [simplify_eq; auto with relaycat|].
  destruct (pf_link pf); [simplify_eq; auto with relaycat|].
  rewrite lookup_insert_ne, lookup_insert_eq in H by done.
  destruct (d !! path) eqn:Hp; simplify_eq; [auto with relaycat|]. split; [done|].
  rewrite insert_insert_ne by done. apply remove_but_temp. by rewrite lookup_insert_ne.
Qed.

(** What the rollback leaves of the published unit. *)
Lemma rollback_spec pf tmp path d d' f fault :
  d !! tmp = None -> tmp <> path -> d !! path = None -> but_temp pf tmp (<[path := f]> d) d' ->
  (forall q, q <> path -> q <> tmp -> remove_file fault path d' !! q = d !! q) /\
  (pf_remove pf = None -> remove_file fault path d' !! tmp = None) /\
  (pf_remove pf = None -> fault = None -> remove_file fault path d' = d) /\
  remove_file fault path d' !! path = match fault with None => None | Some _ => Some f end.
Proof.
  intros Ht Hne Hn [Hf Hd]. split_and!.
  - intros q Hq Hq'. by rewrite remove_file_ne, Hf, lookup_insert_ne.
  - intros Hr. by rewrite remove_file_ne, Hd, lookup_insert_ne.
  - intros Hr ->. rewrite Hd by done. simpl. by rewrite delete_insert_id.
  - destruct fault; simpl; [|by rewrite lookup_delete_eq]. by rewrite Hf, lookup_insert_eq.
Qed.

(** ** Properties *)



(** An argument with a space, a percent sign, a quote, a backslash and a line
    feed. *)
Definition demo_unit : InstallConfig :=
  {| ic_Name := "relaycat"; ic_DisplayName := ""; ic_Description := "tunnel";
     ic_Executable := "/usr/bin/relaycat";
     ic_Arguments := ["relay"; go_string [x61; x20; x25; x22; x5c; x0a; x01]]; ic_Automatic := true |}.


(** What a call of [Install] leaves.  Nothing changes but the unit and, when its
    removal fails, the temporary file.
    - A failed call that told systemd nothing has not touched the unit.  One that
      did tell it asks it to reload a second time, after the removal of the
      unit: the unit is gone if that removal worked, and is there, as rendered, if
      it did not, for its error is ignored.
    - After a successful call the unit, which did not exist, is there as rendered,
      and [Uninstall] takes it away. *)
Definition install_outcome (d : fs) (cfg : InstallConfig) (tmp : string) (pf : publish_faults) (sc : systemctl_answers)
    (r : option goerr) (d' : fs) (calls : list (list string)) : Prop :=
  let path := unit_path (ic_Name cfg) in
  (forall q, q <> path -> q <> tmp -> d' !! q = d !! q) /\
  (pf_remove pf = None -> d' !! tmp = None) /\
  match r with
  | Some _ =>
      (pf_remove pf = None -> sc_remove sc = None -> d' = d) /\
      (calls = [] /\ d' !! path = d !! path \/
       list.last calls = Some ["daemon-reload"] /\ (2 <= length calls)%nat /\ d !! path = None /\
       exists unit, renderSystemdUnit cfg = Ok unit /\
         d' !! path = match sc_remove sc with None => None | Some _ => Some (published unit) end)
  | None =>
      d !! path = None /\
      (exists unit, renderSystemdUnit cfg = Ok unit /\ d' !! path = Some (published unit) /\
         (pf_remove pf = None -> d' = <[path := published unit]> d)) /\
      (Uninstall d' (ic_Name cfg) None None None).1 = (None, delete path d') /\
      (pf_remove pf = None -> delete path d' = d)
  end.

Lemma untouched_outcome d cfg tmp pf sc e d' :
  d !! tmp = None -> tmp <> unit_path (ic_Name cfg) -> but_temp pf tmp d d' -> install_outcome d cfg tmp pf sc (Some e) d' [].
Proof.
  intros Ht Hne [Hf Hd]. unfold install_outcome. cbn zeta. split_and!; [auto|by intros Hr; rewrite Hd|by auto|].
  left. split; [done|]. by apply Hf.
Qed.

Lemma rolled_back_outcome d cfg tmp pf sc e d' unit calls :
  d !! tmp = None -> tmp <> unit_path (ic_Name cfg) -> renderSystemdUnit cfg = Ok unit ->
  d !! unit_path (ic_Name cfg) = None -> but_temp pf tmp (<[unit_path (ic_Name cfg) := published unit]> d) d' ->
  list.last calls = Some ["daemon-reload"] -> (2 <= length calls)%nat ->
  install_outcome d cfg tmp pf sc (Some e) (remove_file (sc_remove sc) (unit_path (ic_Name cfg)) d') calls.
Proof.
  intros Ht Hne Hu Hn Hb Hl H2. destruct (rollback_spec pf tmp _ d d' _ (sc_remove sc) Ht Hne Hn Hb) as (H3 & H4 & H5 & H6).
  unfold install_outcome. cbn zeta. split_and!; [done..|]. right. split_and!; [done..|]. by exists unit.
Qed.

Lemma installed_outcome d cfg tmp pf sc d' unit calls :
  d !! tmp = None -> tmp <> unit_path (ic_Name cfg) -> renderSystemdUnit cfg = Ok unit ->
  d !! unit_path (ic_Name cfg) = None -> but_temp pf tmp (<[unit_path (ic_Name cfg) := published unit]> d) d' ->
  install_outcome d cfg tmp pf sc None d' calls.
Proof.
  intros Ht Hne Hu Hn [Hf Hd]. unfold install_outcome. cbn zeta. set (path := unit_path (ic_Name cfg)) in *.
  assert (Hp : d' !! path = Some (published unit)) by (by rewrite Hf, lookup_insert_eq).
  split_and!; [by intros q Hq Hq'; rewrite Hf, lookup_insert_ne|by intros Hr; rewrite Hd, lookup_insert_ne|done|by eauto| |].
  - unfold Uninstall. change (unit_path (ic_Name cfg)) with path. by rewrite Hp.
  - intros Hr. rewrite Hd by done. by rewrite delete_insert_id.
Qed.

Lemma Install_outcome d cfg tmp umask lstat pf sc r d' calls :
  d !! tmp = None -> tmp <> unit_path (ic_Name cfg) ->
  Install d cfg tmp umask lstat pf sc = (r, d', calls) -> install_outcome d cfg tmp pf sc r d' calls.
Proof.
  intros Ht Hne H.
  assert (HN : install_new d cfg tmp umask pf sc = (r, d', calls) \/ (is_Some r /\ d' = d /\ calls = [])).
  { unfold Install in H. repeat case_match; simplify_eq; eauto. }
  destruct HN as [HN|([e ->] & -> & ->)]; [|apply untouched_outcome; auto with relaycat]. unfold install_new in HN.
  destruct (renderSystemdUnit cfg) as [unit|e] eqn:Hu; [|simplify_eq; apply untouched_outcome; auto with relaycat].
  destruct (publishUnitFile d (unit_path (ic_Name cfg)) tmp unit umask pf) as [[e|] d1] eqn:Hp;
    pose proof (publish_spec _ _ _ _ _ _ _ _ Ht Hne Hp) as Hs; simpl in Hs; [simplify_eq; by apply untouched_outcome|].
  destruct Hs as [Hn Hb].
  repeat case_match; simplify_eq;
    (eapply rolled_back_outcome; first [done|simpl; lia]) || by eapply installed_outcome.
Qed.

(** C38: installing is all or nothing, as far as files can be removed.  Whatever
    fails, [Install] changes nothing but the unit and, if its removal fails, its
    temporary file.  When it fails and its removals work, all files are as before;
    if systemd was told anything it is told to reload again, after the unit is
    gone.  The rollback ignores the error of its removal: if that fails the
    published unit stays behind a failed [Install].  When it succeeds the unit did
    not exist and is the rendered text, world-readable and writable only by its
    owner, on one [ExecStart] line that no argument can break out of; and
    [Uninstall] then takes it away again. *)
Theorem install_atomic d cfg tmp umask lstat pf sc r d' calls :
  d !! tmp = None -> tmp <> unit_path (ic_Name cfg) ->
  Install d cfg tmp umask lstat pf sc = (r, d', calls) ->
  install_outcome d cfg tmp pf sc r d' calls /\ forallb one_line (exec_start cfg) = true.
Proof. intros Ht Hne H. split; [by eapply Install_outcome|apply exec_start_one_line]. Qed.

(** Enabling the unit fails: the rollback removes it, or leaves it behind when the
    disk has become read-only. *)
Definition demo_answers (remove : option goerr) : systemctl_answers :=
  {| sc_reload := None; sc_enable := Some (EOpaque 1); sc_remove := remove |}.
Definition demo_failed (remove : option goerr) : option goerr * fs * list (list string) :=
  Install ∅ demo_unit "/etc/systemd/system/.tmp" 18 None no_publish_faults (demo_answers remove).

Lemma install_atomic_witness :
  (demo_failed None).1.2 = ∅ /\
  exists unit, renderSystemdUnit demo_unit = Ok unit /\
    (demo_failed (Some (EOpaque 2))).1.2 !! "/etc/systemd/system/relaycat.service" = Some (published unit).
Proof.
  split.
  - refine (proj1 (proj2 (proj2 (proj1 (install_atomic ∅ demo_unit "/etc/systemd/system/.tmp" 18 None no_publish_faults
      (demo_answers None) (Some (EOpaque 1)) (demo_failed None).1.2 (demo_failed None).2 eq_refl ltac:(discriminate) _)))) eq_refl eq_refl).
    vm_compute. reflexivity.
  - destruct (proj2 (proj2 (proj2 (proj1 (install_atomic ∅ demo_unit "/etc/systemd/system/.tmp" 18 None no_publish_faults
      (demo_answers (Some (EOpaque 2))) (Some (EOpaque 1)) (demo_failed (Some (EOpaque 2))).1.2 (demo_failed (Some (EOpaque 2))).2
      (lookup_empty _) ltac:(discriminate) ltac:(vm_compute; reflexivity)))))) as [[Hc _]|(_ & _ & _ & Hu)].
    + vm_compute in Hc. discriminate.
    + exact Hu.
Defined.
