(* ===== verification/WinService.v ===== *)
(** * Windows services (internal/winservice/service_windows.go)

    Managing a service through the service control manager ([Install],
    [Uninstall], [Start], [Stop], [Query]) and running as one ([Execute]).

    The manager (golang.org/x/sys/windows/svc/mgr) is a parameter: what it answers
    to a call may depend on all the calls before it.  The calls are logged with
    their success. *)

From stdpp Require Import pretty.
From S2P Require Import Prelude GoBase Effects Systemd.

(** ** States of a service *)

Definition Stopped : Z := 1.
Definition StartPending : Z := 2.
Definition StopPending : Z := 3.
Definition Running : Z := 4.
Definition ContinuePending : Z := 5.
Definition PausePending : Z := 6.
Definition Paused : Z := 7.

Definition stateName (state : Z) : string :=
  if state =? Stopped then "stopped"
  else if state =? StartPending then "start-pending"
  else if state =? StopPending then "stop-pending"
  else if state =? Running then "running"
  else if state =? ContinuePending then "continue-pending"
  else if state =? PausePending then "pause-pending"
  else if state =? Paused then "paused"
  else "unknown-" +:+ pretty state.

(** [svc.Status], as far as it is used. *)
Record svc_Status := { ss_State : Z; ss_Accepts : Z; ss_ProcessId : Z }.

Record Status := { State : string; ProcessID : Z }.

(** ** The service control manager *)

Inductive scm_call :=
| Connect
| OpenService (name : string)
| CreateService (name executable displayName description : string) (startType : Z) (args : list string)
| DeleteService
| StartService
| ControlStop
| QueryService
| CloseService
| Disconnect.

Definition StartAutomatic : Z := 2.
Definition StartManual : Z := 3.

Class Scm := {
  scm_error : list (scm_call * bool) -> scm_call -> option goerr;
  scm_status : list (scm_call * bool) -> scm_call -> result goerr svc_Status;
}.

Notation scm_log := (list (scm_call * bool)).

Section manager.
Context {SCM : Scm}.

Definition ask (c : scm_call) : eff scm_log unit := fun l =>
  match scm_error l c with
  | Some e => (Err e, l ++ [(c, false)])
  | None => (Ok tt, l ++ [(c, true)])
  end.
Definition ask_status (c : scm_call) : eff scm_log svc_Status := fun l =>
  let r := scm_status l c in (r, l ++ [(c, is_ok r)]).

Definition connect_scm {A} (body : eff scm_log A) : eff scm_log A := (
  do! ewrap "connecting to Windows Service Control Manager" (ask Connect) in edefer body (ask Disconnect))%eff.

(** The service exists if it can be opened. *)
Definition Install (cfg : InstallConfig) : eff scm_log unit := connect_scm (fun l =>
  match ask (OpenService (ic_Name cfg)) l with
  | (Ok _, l1) => (Err (ENew ("Windows service " +:+ dquote (ic_Name cfg) +:+ " already exists")), (ask CloseService l1).2)
  | (Err _, l1) =>
      let startType := if ic_Automatic cfg then StartAutomatic else StartManual in
      let serviceArgs := ["service"; "run"; "--name"; ic_Name cfg; "--"] ++ ic_Arguments cfg in
      (do! ewrap ("creating Windows service " +:+ dquote (ic_Name cfg))
             (ask (CreateService (ic_Name cfg) (ic_Executable cfg) (ic_DisplayName cfg) (ic_Description cfg) startType serviceArgs)) in
       ask CloseService)%eff l1
  end).

Definition withService {A} (name : string) (fn : eff scm_log A) : eff scm_log A := connect_scm (
  do! ewrap ("opening Windows service " +:+ dquote name) (ask (OpenService name)) in edefer fn (ask CloseService))%eff.

Definition Uninstall (name : string) : eff scm_log unit :=
  withService name (ewrap ("deleting Windows service " +:+ dquote name) (ask DeleteService)).

Definition Start (name : string) : eff scm_log unit :=
  withService name (ewrap ("starting Windows service " +:+ dquote name) (ask StartService)).

(** The loop of [Stop]: [ticks] waits of 250 ms end before the context does, with
    error [e].  The context of [service stop] has a deadline, so they are finitely
    many. *)
Fixpoint stop_loop (name : string) (ticks : nat) (e : goerr) (status : svc_Status) : eff scm_log unit :=
  if ss_State status =? Stopped then eret tt
  else match ticks with
  | O => efail (EWrap ("waiting for Windows service " +:+ dquote name +:+ " to stop") e)
  | S ticks' => (
      let! status := ewrap ("querying Windows service " +:+ dquote name) (ask_status QueryService) in
      stop_loop name ticks' e status)%eff
  end.

Definition Stop (ticks : nat) (e : goerr) (name : string) : eff scm_log unit := withService name (
  let! status := ewrap ("stopping Windows service " +:+ dquote name) (ask_status ControlStop) in
  stop_loop name ticks e status)%eff.

Definition Query (name : string) : eff scm_log Status := withService name (
  let! status := ewrap ("querying Windows service " +:+ dquote name) (ask_status QueryService) in
  eret {| State := stateName (ss_State status); ProcessID := ss_ProcessId status |})%eff.
End manager.

(** Under [svc.Run] the manager drives [Execute]; its error is that of the connection
    to the manager. *)
Definition Run (svc_Run : option goerr) (name : string) : option goerr :=
  EWrap ("running Windows service " +:+ dquote name) <$> svc_Run.

(** ** Execute *)

Definition AcceptStop : Z := 1.
Definition AcceptShutdown : Z := 4.

Inductive svc_cmd := Interrogate | CmdStop | CmdShutdown | CmdOther.

Inductive exec_pc :=
| ExLoop                                   (* the select *)
| ExClosed                                 (* requests is closed: <-done *)
| ExReturned (specific : bool) (code : Z).

Record exec_state := {
  ex_pc : exec_pc;
  ex_ctx : bool;                           (* ctx is cancelled *)
  ex_running : bool;                       (* h.run has not returned *)
  ex_done : option (option goerr);         (* the element of done *)
  ex_statuses : list svc_Status;           (* what was sent *)
}.

Definition status_of (state accepts : Z) : svc_Status := {| ss_State := state; ss_Accepts := accepts; ss_ProcessId := 0 |}.

(** Up to the loop. *)
Definition Execute_start : exec_state :=
  {| ex_pc := ExLoop; ex_ctx := false; ex_running := true; ex_done := None;
     ex_statuses := [status_of StartPending 0; status_of Running (Z.lor AcceptStop AcceptShutdown)] |}.

Inductive exec_event :=
| XRunEnds (err : option goerr)            (* h.run returns *)
| XDone                                    (* err := <-done *)
| XRequest (cmd : svc_cmd) (current : svc_Status)
| XRequestsClosed
| XDrained.                                (* <-done after that *)

(** The exit code for the error of the command. *)
Definition exit_of (err : option goerr) : bool * Z :=
  match err with
  | Some e => if negb (errors_Is e (ECtx CtxCanceled)) then (true, 1) else (false, 0)
  | None => (false, 0)
  end.

(** The manager takes every status it is sent: the sends on [statuses] do not block. *)
Definition exec_step (s : exec_state) (ev : exec_event) : option exec_state :=
  match ev, ex_pc s with
  | XRunEnds err, k =>
      if ex_running s then
        Some {| ex_pc := k; ex_ctx := ex_ctx s; ex_running := false; ex_done := Some err; ex_statuses := ex_statuses s |}
      else None
  | XDone, ExLoop =>
      err ← ex_done s;
      let '(specific, code) := exit_of err in
      Some {| ex_pc := ExReturned specific code; ex_ctx := true; ex_running := ex_running s; ex_done := None;
              ex_statuses := ex_statuses s ++ [status_of Stopped 0] |}
  | XRequest cmd current, ExLoop =>
      Some match cmd with
      | Interrogate =>
          {| ex_pc := ExLoop; ex_ctx := ex_ctx s; ex_running := ex_running s; ex_done := ex_done s;
             ex_statuses := ex_statuses s ++ [current] |}
      | CmdStop | CmdShutdown =>
          {| ex_pc := ExLoop; ex_ctx := true; ex_running := ex_running s; ex_done := ex_done s;
             ex_statuses := ex_statuses s ++ [status_of StopPending 0] |}
      | CmdOther => s
      end
  | XRequestsClosed, ExLoop =>
      Some {| ex_pc := ExClosed; ex_ctx := true; ex_running := ex_running s; ex_done := ex_done s;
              ex_statuses := ex_statuses s |}
  | XDrained, ExClosed =>
      _ ← ex_done s;
      Some {| ex_pc := ExReturned false 0; ex_ctx := true; ex_running := ex_running s; ex_done := None;
              ex_statuses := ex_statuses s |}
  | _, _ => None
  end.

Fixpoint exec_run (s : exec_state) (evs : list exec_event) : option exec_state :=
  match evs with
  | [] => Some s
  | ev :: evs' => s' ← exec_step s ev; exec_run s' evs'
  end.

(** ** Handles *)

(** A handle on the manager, and one on a service: what each call needs and leaves. *)
Inductive handles := HNone | HManager | HService.

Definition use_handle (h : handles) (c : scm_call * bool) : option handles :=
  match c.1, h with
  | Connect, HNone => Some (if c.2 then HManager else HNone)
  | OpenService _, HManager | CreateService _ _ _ _ _ _, HManager => Some (if c.2 then HService else HManager)
  | DeleteService, HService | StartService, HService | ControlStop, HService | QueryService, HService => Some HService
  | CloseService, HService => Some HManager
  | Disconnect, HManager => Some HNone
  | _, _ => None
  end.
Fixpoint use_handles (h : handles) (l : scm_log) : option handles :=
  match l with
  | [] => Some h
  | c :: l' => h' ← use_handle h c; use_handles h' l'
  end.

Lemma use_handles_app h l l' : use_handles h (l ++ l') = h' ← use_handles h l; use_handles h' l'.
Proof. revert h. induction l as [|c l IH]; intros h; simpl; [done|]. destruct (use_handle h c); simpl; [apply IH|done]. Qed.

Section handles.
Context {SCM : Scm}.

(** [c] runs from handles [p]; it leaves [ok] when it succeeds and [err] when it
    fails. *)
Definition runs {A} (p : handles) (c : eff scm_log A) (ok err : handles) : Prop :=
  forall l, use_handles HNone l = Some p ->
    use_handles HNone (c l).2 = Some (if is_ok (c l).1 then ok else err).

Lemma runs_ask p c ok err :
  use_handle p (c, true) = Some ok -> use_handle p (c, false) = Some err -> runs p (ask c) ok err.
Proof.
  intros H1 H2 l Hl. unfold ask. destruct (scm_error l c); simpl; rewrite use_handles_app, Hl; simpl; by rewrite ?H1, ?H2.
Qed.
Lemma runs_status p c ok err :
  use_handle p (c, true) = Some ok -> use_handle p (c, false) = Some err -> runs p (ask_status c) ok err.
Proof.
  intros H1 H2 l Hl. unfold ask_status. simpl. rewrite use_handles_app, Hl. simpl. destruct (scm_status l c); simpl; by rewrite ?H1, ?H2.
Qed.
Lemma runs_bind {A B} p (c : eff scm_log A) (k : A -> eff scm_log B) mid ok err :
  runs p c mid err -> (forall a, runs mid (k a) ok err) -> runs p (ebind c k) ok err.
Proof.
  intros Hc Hk l Hl. specialize (Hc l Hl). unfold ebind. destruct (c l) as [[a|e] l1]; simpl in *; [by apply Hk|done].
Qed.
Lemma runs_wrap {A} p msg (c : eff scm_log A) ok err : runs p c ok err -> runs p (ewrap msg c) ok err.
Proof. intros Hc l Hl. specialize (Hc l Hl). unfold ewrap. by destruct (c l) as [[a|e] l1]. Qed.
Lemma runs_defer {A} p (c : eff scm_log A) d mid q : runs p c mid mid -> runs mid d q q -> runs p (edefer c d) q q.
Proof.
  intros Hc Hd l Hl. specialize (Hc l Hl). unfold edefer. destruct (c l) as [r l1]. simpl in *.
  assert (H1 : use_handles HNone l1 = Some mid) by (by destruct (is_ok r)). specialize (Hd l1 H1).
  destruct (is_ok r); by destruct (is_ok (d l1).1).
Qed.
Lemma runs_ret {A} p (a : A) err : runs p (eret a) p err.
Proof. intros l Hl. done. Qed.
Lemma runs_fail {A} p e ok : runs p (efail (A := A) e) ok p.
Proof. intros l Hl. done. Qed.

Hint Resolve runs_ask runs_status runs_bind runs_wrap runs_ret runs_fail : handles.
Hint Extern 1 (use_handle _ _ = _) => reflexivity : handles.

Lemma connect_scm_runs {A} (body : eff scm_log A) : runs HManager body HManager HManager -> runs HNone (connect_scm body) HNone HNone.
Proof.
  intros Hb. eapply runs_bind with (mid := HManager); [eauto with handles|]. intros _.
  by eapply runs_defer, runs_ask.
Qed.

Lemma withService_runs {A} name (fn : eff scm_log A) : runs HService fn HService HService -> runs HNone (withService name fn) HNone HNone.
Proof.
  intros Hf. apply connect_scm_runs. eapply runs_bind with (mid := HService); [eauto with handles|]. intros _.
  by eapply runs_defer, runs_ask.
Qed.

Lemma stop_loop_runs name ticks e status : runs HService (stop_loop name ticks e status) HService HService.
Proof.
  revert status. induction ticks as [|n IH]; intros status; cbn [stop_loop]; case_match; eauto with handles.
Qed.

Lemma Install_runs cfg : runs HNone (Install cfg) HNone HNone.
Proof.
  apply connect_scm_runs. intros l Hl.
  pose proof (runs_ask HManager (OpenService (ic_Name cfg)) HService HManager eq_refl eq_refl l Hl) as Ho.
  destruct (ask _ l) as [[u|e] l1]; simpl in Ho.
  - pose proof (runs_ask HService CloseService HManager HManager eq_refl eq_refl l1 Ho) as Hc. simpl. by destruct (is_ok _).
  - cbn zeta. match goal with |- context [ebind ?a ?b] => enough (Hr : runs HManager (ebind a b) HManager HManager) by exact (Hr l1 Ho) end.
    eapply runs_bind with (mid := HService); eauto with handles.
Qed.

(** *** Stopping *)

(** What the last question about the state was answered with. *)
Definition last_status (l : scm_log) : option Z :=
  match rev l with
  | (c, _) :: r => match scm_status (rev r) c with Ok st => Some (ss_State st) | Err _ => None end
  | [] => None
  end.

Lemma last_status_snoc l c b :
  last_status (l ++ [(c, b)]) = match scm_status l c with Ok st => Some (ss_State st) | Err _ => None end.
Proof. unfold last_status. rewrite rev_app_distr. simpl. by rewrite rev_involutive. Qed.

Lemma stop_loop_spec name ticks e status l r l' :
  stop_loop name ticks e status l = (r, l') -> last_status l = Some (ss_State status) ->
  exists k, (k <= ticks)%nat /\ (exists bs, l' = l ++ map (pair QueryService) bs /\ length bs = k) /\
    match r with
    | Ok _ => last_status l' = Some Stopped
    | Err err => (k = ticks /\ last_status l' <> Some Stopped /\ errors_Is err e = true) \/ last_status l' = None
    end.
Proof.
  revert status l. induction ticks as [|n IH]; intros status l H Hl; cbn [stop_loop] in H;
    destruct (Z.eqb_spec (ss_State status) Stopped) as [E|E].
  1,3: injection H as <- <-; exists 0%nat; split_and!; [lia|exists []; by rewrite app_nil_r|congruence].
  - injection H as <- <-. exists 0%nat. split_and!; [lia|exists []; by rewrite app_nil_r|]. left. split_and!; [done|congruence|].
    apply errors_Is_wrap, errors_Is_refl.
  - unfold ebind, ewrap, ask_status in H. destruct (scm_status l QueryService) as [st|e'] eqn:Hs.
    + apply IH in H as (k & Hk & (bs & -> & Hb) & Hr); [|by rewrite last_status_snoc, Hs].
      exists (S k). split_and!; [lia|exists (true :: bs); split; [by rewrite <- app_assoc|simpl; lia]|].
      destruct r; [done|]. naive_solver.
    + injection H as <- <-. exists 1%nat. split_and!; [lia|by exists [false]|]. right. by rewrite last_status_snoc, Hs.
Qed.

(** The calls of a whole [Stop]: it fails before the manager has taken the request to
    stop, or it asks on until the answer is stopped or the waits are used up. *)
Definition stop_outcome (ticks : nat) (e : goerr) (name : string) (l : scm_log) (r : result goerr unit) (l' : scm_log) : Prop :=
  (is_ok r = false /\ exists calls, l' = l ++ calls /\ (ControlStop, true) ∉ calls) \/
  exists bs b1 b2,
    let asked := l ++ [(Connect, true); (OpenService name, true); (ControlStop, true)] ++ map (pair QueryService) bs in
    l' = asked ++ [(CloseService, b1); (Disconnect, b2)] /\ (length bs <= ticks)%nat /\
    match r with
    | Ok _ => last_status asked = Some Stopped
    | Err err => (length bs = ticks /\ last_status asked <> Some Stopped /\ errors_Is err e = true) \/ last_status asked = None
    end.

Lemma ask_log c l : (ask c l).2 = l ++ [(c, is_ok (ask c l).1)].
Proof. unfold ask. by destruct (scm_error l c). Qed.

Lemma Stop_outcome ticks e name l r l' : Stop ticks e name l = (r, l') -> stop_outcome ticks e name l r l'.
Proof.
  unfold Stop, withService, connect_scm. intros H. unfold ebind at 1, ewrap at 1 in H.
  pose proof (ask_log Connect l) as L1. destruct (ask Connect l) as [[u1|e1] l1]; simpl in L1; subst l1.
  2: { injection H as <- <-. left. split; [done|]. exists [(Connect, false)]. split; [done|]. set_solver. }
  unfold edefer at 1 in H. unfold ebind at 1, ewrap at 1 in H.
  pose proof (ask_log (OpenService name) (l ++ [(Connect, true)])) as L2.
  destruct (ask (OpenService name) (l ++ [(Connect, true)])) as [[u2|e2] l2]; simpl in L2; subst l2.
  2: { injection H as <- <-. left. split; [done|]. rewrite ask_log, <- !app_assoc. eexists. split; [done|]. set_solver. }
  unfold edefer, ebind, ewrap, ask_status in H. rewrite <- !app_assoc in H. cbn [app] in H.
  destruct (scm_status (l ++ [(Connect, true); (OpenService name, true)]) ControlStop) as [st|e3] eqn:Hs; cbn [is_ok] in H.
  2: { injection H as <- <-. left. split; [done|]. rewrite !ask_log, <- !app_assoc. eexists. split; [done|]. set_solver. }
  destruct (stop_loop name ticks e st _) as [r' l3] eqn:Hloop. injection H as <- <-.
  assert (Hlast : last_status (l ++ [(Connect, true); (OpenService name, true); (ControlStop, true)]) = Some (ss_State st)).
  { replace (l ++ _) with ((l ++ [(Connect, true); (OpenService name, true)]) ++ [(ControlStop, true)]) by (by rewrite <- app_assoc).
    by rewrite last_status_snoc, Hs. }
  destruct (stop_loop_spec _ _ _ _ _ _ _ Hloop Hlast) as (k & Hk & (bs & -> & <-) & Hr).
  right. eexists bs, _, _. cbn zeta. rewrite <- !app_assoc in Hr. cbn [app] in Hr. split_and!; [|done|exact Hr].
  rewrite !ask_log, <- !app_assoc. done.
Qed.
End handles.

(** ** Execute: what it reports *)

(** The status an event makes it send, and the events that stop the command. *)
Definition reported (ev : exec_event) : list svc_Status :=
  match ev with
  | XDone => [status_of Stopped 0]
  | XRequest Interrogate current => [current]
  | XRequest CmdStop _ | XRequest CmdShutdown _ => [status_of StopPending 0]
  | _ => []
  end.
Definition stops (ev : exec_event) : bool :=
  match ev with
  | XRequest CmdStop _ | XRequest CmdShutdown _ | XRequestsClosed | XDone => true
  | _ => false
  end.
(** How the command ended. *)
Definition run_result (evs : list exec_event) : list (option goerr) :=
  omap (fun ev => match ev with XRunEnds err => Some err | _ => None end) evs.

(** The state after some events, by what the events were. *)
Record exec_inv (evs : list exec_event) (s : exec_state) : Prop := {
  xi_statuses : ex_statuses s = ex_statuses Execute_start ++ flat_map reported evs;
  xi_ctx : ex_ctx s = existsb stops evs;
  xi_running : run_result evs = if ex_running s then [] else
    match ex_done s with Some err => [err] | None => run_result evs end;
  xi_once : (length (run_result evs) <= 1)%nat;
  xi_done : is_Some (ex_done s) -> ex_running s = false;
  xi_pc : match ex_pc s with
    | ExLoop => ex_running s = true \/ is_Some (ex_done s)
    | ExClosed => XRequestsClosed ∈ evs /\ (ex_running s = true \/ is_Some (ex_done s))
    | ExReturned b c => ex_running s = false /\ ex_ctx s = true /\
        exists err pre, run_result evs = [err] /\
          (evs = pre ++ [XDone] /\ (b, c) = exit_of err \/ XRequestsClosed ∈ evs /\ evs = pre ++ [XDrained] /\ (b, c) = (false, 0))
    end;
}.

Lemma run_result_snoc evs ev : run_result (evs ++ [ev]) = run_result evs ++ run_result [ev].
Proof. unfold run_result. by rewrite omap_app. Qed.

Lemma exec_inv_start : exec_inv [] Execute_start.
Proof. split; try done; simpl; [lia|by intros [? ?]|by left]. Qed.

Lemma exec_inv_step evs s ev s' : exec_inv evs s -> exec_step s ev = Some s' -> exec_inv (evs ++ [ev]) s'.
Proof.
  intros [I1 I2 I3 I4 I5 I6] H. assert (Hf : flat_map reported (evs ++ [ev]) = flat_map reported evs ++ reported ev)
    by (rewrite flat_map_app; simpl; by rewrite app_nil_r).
  assert (He : existsb stops (evs ++ [ev]) = existsb stops evs || stops ev)
    by (rewrite existsb_app; simpl; by rewrite orb_false_r).
  unfold exec_step in H. destruct ev as [err| |cmd cur| |].
  - destruct (ex_running s) eqn:Hr; [|done]. simplify_eq.
    split; cbn [ex_pc ex_ctx ex_running ex_done ex_statuses]; rewrite ?run_result_snoc, ?I3, ?Hf, ?He; simpl;
      rewrite ?app_nil_r, ?orb_false_r; try done.
    destruct (ex_pc s); [by right; eauto|split; [set_solver|by eauto]|by destruct I6].
  - destruct (ex_pc s) eqn:Hp; try done. destruct (ex_done s) as [err|] eqn:Hd; [|done]. simpl in H.
    destruct (exit_of err) as [b c] eqn:Hx. simplify_eq. assert (Hr : ex_running s = false) by (apply I5; eauto).
    rewrite Hr in I3. split; cbn [ex_pc ex_ctx ex_running ex_done ex_statuses]; rewrite ?run_result_snoc, ?Hf, ?He; simpl;
      rewrite ?app_nil_r, ?orb_true_r, ?Hr, ?I1, ?app_assoc; try done.
    split_and!; [done|done|]. exists err, evs. split; [done|]. left. by rewrite Hx.
  - destruct (ex_pc s) eqn:Hp; try done. destruct cmd; simplify_eq;
      split; cbn [ex_pc ex_ctx ex_running ex_done ex_statuses]; rewrite ?run_result_snoc, ?Hf, ?He; simpl;
      rewrite ?app_nil_r, ?orb_true_r, ?orb_false_r, ?I1, ?app_assoc, ?Hp; done.
  - destruct (ex_pc s) eqn:Hp; try done. simplify_eq.
    split; cbn [ex_pc ex_ctx ex_running ex_done ex_statuses]; rewrite ?run_result_snoc, ?Hf, ?He; simpl;
      rewrite ?app_nil_r, ?orb_true_r, ?I1, ?app_assoc; try done. split; [set_solver|done].
  - destruct (ex_pc s) eqn:Hp; try done. destruct (ex_done s) as [err|] eqn:Hd; [|done]. simplify_eq/=.
    assert (Hr : ex_running s = false) by (apply I5; eauto). rewrite Hr in I3.
    destruct I6 as [Hc _]. assert (Hst : existsb stops evs = true).
    { apply existsb_exists. exists XRequestsClosed. split; [by apply list_elem_of_In|done]. }
    split; cbn [ex_pc ex_ctx ex_running ex_done ex_statuses]; rewrite ?run_result_snoc, ?Hf, ?He, ?Hst; simpl;
      rewrite ?app_nil_r, ?Hr, ?I1, ?app_assoc; try done.
    split_and!; [done|done|]. exists err, evs. split; [done|]. right. split_and!; [set_solver|done|done].
Qed.

Lemma exec_run_inv pre s evs s' : exec_inv pre s -> exec_run s evs = Some s' -> exec_inv (pre ++ evs) s'.
Proof.
  revert pre s. induction evs as [|ev evs IH]; intros pre s Hi H; simpl in H; [simplify_eq; by rewrite app_nil_r|].
  destruct (exec_step s ev) as [s1|] eqn:E; [|done]. simpl in H.
  replace (pre ++ ev :: evs) with ((pre ++ [ev]) ++ evs) by (by rewrite <- app_assoc).
  eapply IH; [|done]. by eapply exec_inv_step.
Qed.

Lemma exec_done_last evs s s' ev : exec_inv evs s -> exec_step s XDone = Some s' -> exec_step s' ev = None.
Proof.
  intros I H. unfold exec_step in H. destruct (ex_pc s); try done. destruct (ex_done s) as [err|] eqn:Hd; [|done]. simpl in H.
  destruct (exit_of err). simplify_eq. unfold exec_step. cbn [ex_pc ex_running]. rewrite (xi_done _ _ I) by (rewrite Hd; eauto).
  by destruct ev.
Qed.

Lemma exec_run_app s a b : exec_run s (a ++ b) = s' ← exec_run s a; exec_run s' b.
Proof. revert s. induction a as [|ev a IH]; intros s; simpl; [done|]. destruct (exec_step s ev); simpl; [apply IH|done]. Qed.

(** Once the command has returned, one step ends [Execute]. *)
Definition finish_events (s : exec_state) (err : option goerr) : list exec_event :=
  (if ex_running s then [XRunEnds err] else []) ++
  match ex_pc s with ExLoop => [XDone] | ExClosed => [XDrained] | ExReturned _ _ => [] end.

Lemma exec_finishes evs s err :
  exec_inv evs s -> exists s' b c, exec_run s (finish_events s err) = Some s' /\ ex_pc s' = ExReturned b c.
Proof.
  intros [_ _ _ _ I5 I6]. unfold finish_events. destruct (ex_running s) eqn:Hr.
  - cbn [app exec_run exec_step]. rewrite Hr. cbn [mbind option_bind].
    destruct (ex_pc s) eqn:Hp; cbn [exec_run exec_step ex_pc ex_done mbind option_bind]; [|by eauto|by destruct I6].
    destruct (exit_of err). cbn. eauto.
  - cbn [app]. destruct (ex_pc s) as [| |b c] eqn:Hp; cbn [exec_run exec_step]; rewrite ?Hp.
    + destruct I6 as [?|[r ->]]; [done|]. simpl. destruct (exit_of r). simpl. eauto.
    + destruct I6 as [_ [?|[r ->]]]; [done|]. simpl. eauto.
    + exists s, b, c. done.
Qed.

(** ** Properties *)

(** C35: no handle leaks.  Whatever the service control manager answers, [Install],
    [Uninstall], [Start], [Stop] and [Query] use each handle only while it is open
    and close it: started without handles, they end without.  [Stop] fails when the
    manager did not take the request to stop; otherwise it asks for the state at
    most once per 250 ms wait that its context allows, succeeds only when the last
    answer was that the service is stopped, and fails otherwise: with the context's
    error once the waits are used up, or because the manager did not answer. *)
Theorem windows_handles_closed {SCM : Scm} cfg name ticks e l :
  use_handles HNone l = Some HNone ->
  use_handles HNone (Install cfg l).2 = Some HNone /\
  use_handles HNone (Uninstall name l).2 = Some HNone /\
  use_handles HNone (Start name l).2 = Some HNone /\
  use_handles HNone (Query name l).2 = Some HNone /\
  use_handles HNone (Stop ticks e name l).2 = Some HNone /\
  stop_outcome ticks e name l (Stop ticks e name l).1 (Stop ticks e name l).2.
Proof.
  intros Hl. assert (Hdone : forall A (c : eff scm_log A), runs HNone c HNone HNone -> use_handles HNone (c l).2 = Some HNone)
    by (intros A c Hc; specialize (Hc l Hl); by destruct (is_ok _)).
  split_and!; [apply Hdone, Install_runs|apply Hdone, withService_runs..|].
  1,2: by apply runs_wrap, runs_ask.
  1: eapply runs_bind; [by apply runs_wrap, runs_status|intros; apply runs_ret].
  1: eapply runs_bind; [by apply runs_wrap, runs_status|intros; apply stop_loop_runs].
  apply Stop_outcome. by destruct (Stop ticks e name l).
Qed.

(** Once the requests are closed nothing is reported any more. *)
Lemma closed_quiet s evs s' :
  ex_pc s <> ExLoop -> exec_run s evs = Some s' -> flat_map reported evs = [].
Proof.
  revert s. induction evs as [|ev evs IH]; intros s Hp H; [done|]. cbn [exec_run] in H.
  destruct (exec_step s ev) as [s1|] eqn:E; [|done]. cbn [flat_map]. unfold exec_step in E.
  assert (Hq : ex_pc s1 <> ExLoop /\ reported ev = []).
  { destruct ev; destruct (ex_pc s) eqn:Hpc; try done; try (destruct (ex_running s); [|done]);
      try (destruct (ex_done s); [|done]); simplify_eq/=; done. }
  destruct Hq as [Hq ->]. by rewrite (IH s1).
Qed.

(** C34: the protocol of a Windows service.  However requests and the end of the
    command are ordered: [Execute] reports start-pending and running, then the
    current status for each interrogation and stop-pending for each request to stop
    or shut down, nothing for other requests, and stopped only as its last report,
    when it sees the command's end.  The command's context is cancelled exactly when
    the service was told to stop, its requests were closed, or the command's end was
    seen.  [Execute] returns only after the command has: with exit code 1 exactly if
    the command failed other than by cancellation, unless the requests were closed;
    then it reports nothing more, not even stopped, and returns 0 whatever the
    command's result.  From every point it returns as soon as the command does. *)
Theorem windows_execute_protocol evs s :
  exec_run Execute_start evs = Some s ->
  ex_statuses s = [status_of StartPending 0; status_of Running 5] ++ flat_map reported evs /\
  ex_ctx s = existsb stops evs /\
  (forall b c, ex_pc s = ExReturned b c -> ex_running s = false /\ exists err pre, run_result evs = [err] /\
     (evs = pre ++ [XDone] /\ (b, c) = exit_of err \/ XRequestsClosed ∈ evs /\ evs = pre ++ [XDrained] /\ (b, c) = (false, 0))) /\
  (forall pre post, evs = pre ++ XDone :: post -> post = []) /\
  (forall pre post, evs = pre ++ XRequestsClosed :: post -> flat_map reported post = []) /\
  (forall err, exists s' b c, exec_run s (finish_events s err) = Some s' /\ ex_pc s' = ExReturned b c).
Proof.
  intros H. pose proof (exec_run_inv _ _ _ _ exec_inv_start H) as I. rewrite app_nil_l in I.
  pose proof I as [I1 I2 I3 I4 I5 I6]. split_and!; [done|done| | | |intros err; by eapply exec_finishes].
  - intros b c Hp. rewrite Hp in I6. by destruct I6 as (? & _ & ?).
  - intros pre post ->. rewrite exec_run_app in H. destruct (exec_run Execute_start pre) as [s1|] eqn:E1; [|done].
    apply (exec_run_inv _ _ _ _ exec_inv_start) in E1. cbn [exec_run mbind option_bind] in H.
    destruct (exec_step s1 XDone) as [s2|] eqn:E; [|done]. destruct post as [|ev post]; [done|].
    cbn [exec_run mbind option_bind] in H. by rewrite (exec_done_last _ _ _ ev E1 E) in H.
  - intros pre post ->. rewrite exec_run_app in H. destruct (exec_run Execute_start pre) as [s1|]; [|done].
    cbn [exec_run mbind option_bind] in H. destruct (exec_step s1 XRequestsClosed) as [s2|] eqn:E; [|done].
    eapply closed_quiet; [|exact H]. unfold exec_step in E. destruct (ex_pc s1); simplify_eq/=. done.
Qed.

(** ** Witnesses *)

(** A manager that knows the service "relaycat", which needs two questions to
    stop. *)
Module PlainScm.
#[global] Instance plain_scm : Scm := {|
  scm_error := fun l c => match c with
    | OpenService name => if bool_decide (name = "relaycat") then None else Some (EOpaque 0)
    | _ => None end;
  scm_status := fun l c => match c with
    | ControlStop => Ok (status_of StopPending 0)
    | _ => Ok (status_of (if Nat.leb 4 (length l) then Stopped else StopPending) 0)
    end;
|}.
End PlainScm.

#[local] Existing Instance PlainScm.plain_scm.

Lemma windows_handles_closed_witness :
  (Stop 5 (ECtx CtxDeadlineExceeded) "relaycat" []).1 = Ok tt /\
  (Stop 1 (ECtx CtxDeadlineExceeded) "relaycat" []).1
    = Err (EWrap ("waiting for Windows service " +:+ dquote "relaycat" +:+ " to stop") (ECtx CtxDeadlineExceeded)) /\
  use_handles HNone (Stop 1 (ECtx CtxDeadlineExceeded) "relaycat" []).2 = Some HNone.
Proof.
  split; [vm_compute; reflexivity|]. split; [vm_compute; reflexivity|].
  exact (proj1 (proj2 (proj2 (proj2 (proj2 (windows_handles_closed demo_unit "relaycat" 1 (ECtx CtxDeadlineExceeded) [] eq_refl)))))).
Defined.

(** A service that is told to stop and whose command then fails. *)
Definition demo_stop : list exec_event :=
  [XRequest CmdStop (status_of Running 5); XRunEnds (Some (ENew "listen failed")); XDone].
Definition demo_stopped : exec_state :=
  {| ex_pc := ExReturned true 1; ex_ctx := true; ex_running := false; ex_done := None;
     ex_statuses := [status_of StartPending 0; status_of Running 5; status_of StopPending 0; status_of Stopped 0] |}.

Lemma windows_execute_protocol_witness :
  ex_statuses demo_stopped = [status_of StartPending 0; status_of Running 5] ++ flat_map reported demo_stop /\
  exists err pre, run_result demo_stop = [err] /\
    (demo_stop = pre ++ [XDone] /\ (true, 1) = exit_of err \/
     XRequestsClosed ∈ demo_stop /\ demo_stop = pre ++ [XDrained] /\ (true, 1) = (false, 0)).
Proof.
  destruct (windows_execute_protocol demo_stop demo_stopped ltac:(vm_compute; reflexivity)) as (H1 & _ & H2 & _).
  split; [exact H1|]. exact (proj2 (H2 true 1 eq_refl)).
Defined.
