(* ===== verification/SshServer.v ===== *)
(** * The built-in SSH server (internal/sshserver)

    Its host key and who may log in ([New], keys.go), and the command a session
    runs ([sessionHandler], [sessionCommand], session_unix.go).  The SSH library
    is a parameter: how it parses and prints keys. *)

From stdpp Require Import pretty.
From S2P Require Import Prelude GoBase GoStrings FilePath Os.

(** golang.org/x/crypto/ssh: public keys with their wire form, the parser of one
    authorized_keys line (key, options, rest), and private keys. *)
Class SshLib := {
  PublicKey : Type;
  key_Marshal : PublicKey -> bytes;
  ParseAuthorizedKey : bytes -> result goerr (PublicKey * list string * bytes);
  Signer : Type;
  ParsePrivateKey : bytes -> result goerr Signer;
}.

(** ** Host keys (keys.go) *)

Definition readPrivateKey (windows : bool) (d : fs) (path : string) (stat read : option goerr) : result goerr bytes :=
  match StatPerm d path stat with
  | Err e => Err e
  | Ok perm =>
      if negb windows && negb (Z.land perm 63 =? 0)
      then Err (ENew ("SSH host key " +:+ path +:+ " is accessible by group or other users"))
      else match ReadFile d path read with
      | Err e => Err (EWrap "reading SSH host key" e)
      | Ok key => Ok key
      end
  end.

(** [dir] is the result of [os.UserConfigDir]. *)
Definition DefaultHostKeyPath (dir : result goerr string) : result goerr string :=
  match dir with
  | Err e => Err (EWrap "locating user config directory" e)
  | Ok dir => Ok (go_string (Join (go_bytes dir) (go_bytes "relaycat/ssh/ssh_host_ed25519_key")))
  end.

(** The answers of the system during one [loadOrCreateHostKey]: [hk_configDir]
    is that of [os.UserConfigDir], [hk_generate] the error of [ed25519.GenerateKey],
    if any, [hk_encode] the new key in PEM form, [hk_tmp] the name
    [os.CreateTemp] picks, and [hk_race] the file another process may publish
    under the same path before the link. *)
Record hostkey_env := {
  hk_configDir : result goerr string;
  hk_mkdir : option goerr;
  hk_stat : option goerr;
  hk_read : option goerr;
  hk_generate : option goerr;
  hk_encode : result goerr bytes;
  hk_tmp : string;
  hk_umask : Z;
  hk_publish : publish_faults;
  hk_race : option file;
  hk_stat2 : option goerr;
  hk_read2 : option goerr;
}.

Section sshserver.
Context {SL : SshLib}.
Variable windows : bool.

(** Another process creates the file, if it is not there. *)
Definition race (f : option file) (path : string) (d : fs) : fs :=
  match f, d !! path with Some f, None => <[path := f]> d | _, _ => d end.

(** The file does not exist: generate a key and publish it.  [rm] is the deferred
    [os.Remove] of the temporary file, whose error is ignored. *)
Definition create_host_key (d : fs) (path : string) (env : hostkey_env) : result goerr Signer * fs :=
  match hk_generate env, hk_encode env with
  | Some e, _ => (Err (EWrap "generating SSH host key" e), d)
  | None, Err e => (Err (EWrap "encoding SSH host key" e), d)
  | None, Ok pemData =>
      let pf := hk_publish env in
      let tmp := hk_tmp env in
      let rm := remove_file (pf_remove pf) tmp in
      match pf_create pf with
      | Some e => (Err (EWrap "creating temporary SSH host key" e), d)
      | None =>
          let d1 := <[tmp := {| f_mode := Z.ldiff 384 (hk_umask env); f_data := [] |}]> d in
          match pf_chmod pf with
          | Some e => (Err (EWrap "setting SSH host key permissions" e), rm d1)
          | None =>
              let '(we, d2) := WriteAll (alter (set_mode 384) tmp d1) tmp pemData (pf_write pf) in
              match we, pf_sync pf, pf_close pf with
              | Some e, _, _ => (Err (EWrap "writing SSH host key" e), rm d2)
              | None, Some e, _ => (Err (EWrap "syncing SSH host key" e), rm d2)
              | None, None, Some e => (Err (EWrap "closing SSH host key" e), rm d2)
              | None, None, None =>
                  let d3 := race (hk_race env) path d2 in
                  let link :=
                    match pf_link pf with
                    | Some e => Err e
                    | None => match d3 !! path, d3 !! tmp with
                              | None, Some f => Ok (<[path := f]> d3)
                              | _, _ => Err EExist
                              end
                    end in
                  match link with
                  | Ok d4 => (ParsePrivateKey pemData, rm d4)
                  | Err e =>
                      if negb (errors_Is e EExist)
                      then (Err (EWrap "publishing SSH host key" e), rm d3)
                      else (result_bind (readPrivateKey windows d3 path (hk_stat2 env) (hk_read2 env)) ParsePrivateKey,
                            rm d3)
                  end
              end
          end
      end
  end.

Definition loadOrCreateHostKey (d : fs) (path : string) (env : hostkey_env) : result goerr Signer * fs :=
  match (if bool_decide (path = "") then DefaultHostKeyPath (hk_configDir env) else Ok path) with
  | Err e => (Err e, d)
  | Ok path =>
      match hk_mkdir env with
      | Some e => (Err (EWrap "creating SSH key directory" e), d)
      | None =>
          match readPrivateKey windows d path (hk_stat env) (hk_read env) with
          | Ok key => (ParsePrivateKey key, d)
          | Err e => if negb (errors_Is e ENotExist) then (Err e, d) else create_host_key d path env
          end
      end
  end.

(** ** Who may log in (server.go) *)

Definition entry_line (textIndex lineIndex : nat) : string :=
  "authorized keys entry " +:+ pretty (textIndex + 1)%nat +:+ ", line " +:+ pretty (lineIndex + 1)%nat.

(** The text of a line, and whether it is skipped. *)
Definition key_line (line : bytes) : bytes := TrimSpace (TrimSuffix1 x0d line).
Definition skip_line (line : bytes) : bool := bool_decide (line = []) || HasPrefix line [x23].

Definition scan_line (ti li : nat) (line : bytes) (allowed : gset string) : result goerr (gset string) :=
  let line := key_line line in
  if skip_line line then Ok allowed
  else match ParseAuthorizedKey line with
  | Err e => Err (EWrap (entry_line ti li) e)
  | Ok (key, options, rest) =>
      if negb (bool_decide (TrimSpace rest = [])) then Err (EWrap (entry_line ti li) (ENew "unexpected trailing data"))
      else if negb (bool_decide (options = [])) then Err (ENew (entry_line ti li +:+ ": options are not supported"))
      else Ok ({[ go_string (key_Marshal key) ]} ∪ allowed)
  end.

Fixpoint scan_lines (ti li : nat) (lines : list bytes) (allowed : gset string) : result goerr (gset string) :=
  match lines with
  | [] => Ok allowed
  | line :: lines' => result_bind (scan_line ti li line allowed) (scan_lines ti (S li) lines')
  end.

Fixpoint scan_texts (ti : nat) (texts : list string) (allowed : gset string) : result goerr (gset string) :=
  match texts with
  | [] => Ok allowed
  | text :: texts' => result_bind (scan_lines ti 0 (Split x0a (go_bytes text)) allowed) (scan_texts (S ti) texts')
  end.

(** [None] is the nil slice, and a nil handler. *)
Definition publicKeyHandler (texts : option (list string)) : result goerr (option (PublicKey -> bool)) :=
  match texts with
  | None => Ok None
  | Some texts =>
      match scan_texts 0 texts ∅ with
      | Err e => Err e
      | Ok allowed =>
          if bool_decide (allowed = ∅) then Err (ENew "no SSH public keys found")
          else Ok (Some (fun key => bool_decide (go_string (key_Marshal key) ∈ allowed)))
      end
  end.

Record Config := {
  HostKeyPath : string;
  AuthorizedKeys : option (list string);
  NoClientAuth : bool;
}.

(** [ssh.Server] as [New] fills it: the host key, the handler, and the names of
    the channels, global requests and subsystems it answers. *)
Record Server := {
  HostSigner : Signer;
  PublicKeyHandler : option (PublicKey -> bool);
  ChannelHandlers : list string;
  RequestHandlers : list string;
  SubsystemHandlers : list string;
}.

Definition New (d : fs) (cfg : Config) (env : hostkey_env) : result goerr Server * fs :=
  if NoClientAuth cfg && (if AuthorizedKeys cfg then true else false)
  then (Err (ENew "authorized keys cannot be combined with no client authentication"), d)
  else if negb (NoClientAuth cfg) && (if AuthorizedKeys cfg then false else true)
  then (Err (ENew "at least one authorized key is required"), d)
  else match loadOrCreateHostKey d (HostKeyPath cfg) env with
  | (Err e, d') => (Err e, d')
  | (Ok signer, d') =>
      match publicKeyHandler (AuthorizedKeys cfg) with
      | Err e => (Err e, d')
      | Ok handler =>
          (Ok {| HostSigner := signer; PublicKeyHandler := handler; ChannelHandlers := ["session"];
                 RequestHandlers := []; SubsystemHandlers := [] |}, d')
      end
  end.
End sshserver.

(** ** Sessions (server.go, session_unix.go) *)

Record user := { Uid : string; Username : string; HomeDir : string }.

(** [exec.Cmd], as far as it is set up here. *)
Record Cmd := { cmd_Args : list string; cmd_Dir : string; cmd_Env : list string }.

Definition defaultPath (u : user) : string :=
  if bool_decide (Uid u = "0") then "/usr/local/sbin:/usr/local/bin:/usr/sbin:/usr/bin:/sbin:/bin"
  else "/usr/local/bin:/usr/bin:/bin".

(** [getenv] is [os.Getenv], "" for a variable that is not set. *)
Definition sessionCommand (windows : bool) (getenv : string -> string) (u : user) (rawCommand : string) : Cmd :=
  let shell :=
    if bool_decide (getenv "SHELL" = "") then (if windows then getenv "COMSPEC" else "/bin/sh") else getenv "SHELL" in
  let args :=
    if windows then (if bool_decide (rawCommand = "") then [shell] else [shell; "/c"; rawCommand])
    else if bool_decide (rawCommand = "") then [shell; "-l"] else [shell; "-c"; rawCommand] in
  {| cmd_Args := args; cmd_Dir := HomeDir u;
     cmd_Env := ["HOME=" +:+ HomeDir u; "USER=" +:+ Username u; "SHELL=" +:+ shell; "PATH=" +:+ defaultPath u] |}.

Definition acceptEnvPair (pair : string) : bool :=
  let '(key, _, ok) := Cut x3d (go_bytes pair) in
  ok && (bool_decide (key = go_bytes "TERM") || bool_decide (key = go_bytes "LANG") || HasPrefix key (go_bytes "LC_")).

Definition terminalDimension (value : Z) : Z :=
  let maxUint16 := 65535 in
  if value <? 1 then 1 else if maxUint16 <? value then 65535 else value mod 65536.

Record Pty := { Term : string; Height : Z; Width : Z }.

(** What a client asks for in a session. *)
Record session := { RawCommand : string; Environ : list string; PtyReq : option Pty }.

(** How the command is started. *)
Inductive run_mode :=
| WithPTY (rows cols : Z)
| WithPipes.

Inductive session_start :=
| SessionFailed (exit : Z)                        (* the message is written to stderr *)
| SessionRun (motd : bool) (cmd : Cmd) (mode : run_mode).

Definition add_env (cmd : Cmd) (es : list string) : Cmd :=
  {| cmd_Args := cmd_Args cmd; cmd_Dir := cmd_Dir cmd; cmd_Env := cmd_Env cmd ++ es |}.

(** The start of [runWithPTY]. *)
Definition runWithPTY (cmd : Cmd) (request : Pty) : Cmd * run_mode :=
  (add_env cmd (if bool_decide (Term request = "") then [] else ["TERM=" +:+ Term request]),
   WithPTY (terminalDimension (Height request)) (terminalDimension (Width request))).

Definition sessionHandler (windows : bool) (getenv : string -> string) (current : result goerr user) (sess : session)
  : session_start :=
  match current with
  | Err _ => SessionFailed 1
  | Ok u =>
      let cmd := add_env (sessionCommand windows getenv u (RawCommand sess)) (List.filter acceptEnvPair (Environ sess)) in
      match PtyReq sess with
      | Some request =>
          let motd := bool_decide (RawCommand sess = "") in
          if negb windows then let '(cmd', mode) := runWithPTY cmd request in SessionRun motd cmd' mode
          else SessionRun motd cmd WithPipes
      | None => SessionRun false cmd WithPipes
      end
  end.

(** [exitSession]: the exit status for the result of the command; an exit error
    carries its own.  The text of any other error, which is also printed on the
    session's standard error, is not part of the model. *)
Inductive cmd_error := ExitError (code : Z) | OtherError (e : goerr).
Definition exitSession (err : option cmd_error) : Z :=
  match err with
  | None => 0
  | Some (ExitError c) => c
  | Some (OtherError _) => 1
  end.

(** ** Sessions: what the command sees *)

(** The value of a variable in the environment of a command: the last entry
    counts. *)
Fixpoint env_lookup (name : bytes) (env : list string) : option bytes :=
  match env with
  | [] => None
  | e :: env' =>
      match env_lookup name env' with
      | Some v => Some v
      | None => let '(k, v, ok) := Cut x3d (go_bytes e) in if ok && bool_decide (k = name) then Some v else None
      end
  end.

(** The variables a client may set. *)
Definition client_var (name : bytes) : Prop :=
  name = go_bytes "TERM" \/ name = go_bytes "LANG" \/ go_bytes "LC_" `prefix_of` name.

Lemma env_lookup_app name a b :
  env_lookup name (a ++ b) = match env_lookup name b with Some v => Some v | None => env_lookup name a end.
Proof. induction a as [|e a IH]; simpl; [by destruct (env_lookup name b)|]. rewrite IH. by destruct (env_lookup name b). Qed.


Lemma acceptEnvPair_spec pair k v ok :
  Cut x3d (go_bytes pair) = (k, v, ok) -> acceptEnvPair pair = true <-> ok = true /\ client_var k.
Proof.
  intros Hc. unfold acceptEnvPair, client_var. rewrite Hc, andb_true_iff, !orb_true_iff, !bool_decide_eq_true, HasPrefix_spec.
  tauto.
Qed.

Lemma env_lookup_accepted name es :
  env_lookup name (List.filter acceptEnvPair es) = if decide (client_var name) then env_lookup name es else None.
Proof.
  induction es as [|e es IH]; [simpl; by destruct (decide _)|]. cbn [List.filter env_lookup].
  destruct (Cut x3d (go_bytes e)) as [[k v] ok] eqn:Hc. pose proof (acceptEnvPair_spec _ _ _ _ Hc) as Ha.
  destruct (acceptEnvPair e).
  - destruct (proj1 Ha eq_refl) as [-> Hk]. cbn [env_lookup]. rewrite IH, Hc.
    destruct (decide (client_var name)) as [Hn|Hn]; [done|]. cbn [andb].
    rewrite bool_decide_eq_false_2; [done|]. by intros ->.
  - rewrite IH. destruct (decide (client_var name)) as [Hn|Hn]; [|done].
    destruct (env_lookup name es); [done|]. destruct ok; [|done]. cbn [andb].
    rewrite bool_decide_eq_false_2; [done|]. intros ->. by discriminate (proj2 Ha (conj eq_refl Hn)).
Qed.

(** The variables the server sets itself. *)
Definition server_shell (getenv : string -> string) : string :=
  if bool_decide (getenv "SHELL" = "") then "/bin/sh" else getenv "SHELL".
Definition server_env (getenv : string -> string) (u : user) (name : bytes) : option bytes :=
  if bool_decide (name = go_bytes "HOME") then Some (go_bytes (HomeDir u))
  else if bool_decide (name = go_bytes "USER") then Some (go_bytes (Username u))
  else if bool_decide (name = go_bytes "SHELL") then Some (go_bytes (server_shell getenv))
  else if bool_decide (name = go_bytes "PATH") then Some (go_bytes (defaultPath u))
  else None.

Lemma Cut_assignment k e v :
  e = k +:+ "=" -> forallb (fun c => negb (bool_decide (c = x3d))) (go_bytes k) = true ->
  Cut x3d (go_bytes (e +:+ v)) = (go_bytes k, go_bytes v, true).
Proof.
  intros -> Hk. rewrite !go_bytes_app. rewrite <- app_assoc. apply Cut_app. intros Hin. rewrite forallb_forall in Hk.
  apply list_elem_of_In in Hin. specialize (Hk _ Hin). by rewrite bool_decide_eq_true_2 in Hk.
Qed.

Lemma env_lookup_base getenv u raw name :
  env_lookup name (cmd_Env (sessionCommand false getenv u raw)) = server_env getenv u name.
Proof.
  unfold sessionCommand, server_env, server_shell. cbn [cmd_Env env_lookup].
  rewrite (Cut_assignment "HOME" "HOME="), (Cut_assignment "USER" "USER="), (Cut_assignment "SHELL" "SHELL="), (Cut_assignment "PATH" "PATH=") by reflexivity.
  cbn [andb]. repeat (case_bool_decide; subst; try done).
Qed.

Lemma client_var_unset getenv u name : client_var name -> server_env getenv u name = None.
Proof.
  intros [->|[->|[k ->]]]; [reflexivity|reflexivity|]. unfold server_env.
  by rewrite !bool_decide_eq_false_2 by (intros [=]).
Qed.

Lemma terminalDimension_bounds v :
  1 <= terminalDimension v <= 65535 /\ (1 <= v <= 65535 -> terminalDimension v = v).
Proof.
  unfold terminalDimension. destruct (Z.ltb_spec v 1); [lia|]. destruct (Z.ltb_spec 65535 v); [lia|].
  rewrite Z.mod_small by lia. lia.
Qed.

(** ** Keys: lemmas *)

Section keys.
Context {SL : SshLib}.

(** A line of an authorized_keys text gives a key. *)
Definition line_key (line : bytes) (key : PublicKey) : Prop :=
  skip_line (key_line line) = false /\ exists rest, ParseAuthorizedKey (key_line line) = Ok (key, [], rest) /\ TrimSpace rest = [].

(** A line is blank, a comment, or one key without options. *)
Definition line_ok (line : bytes) : Prop := skip_line (key_line line) = true \/ exists key, line_key line key.

Lemma scan_line_Ok ti li line allowed allowed' :
  scan_line ti li line allowed = Ok allowed' ->
  line_ok line /\ forall s, s ∈ allowed' <-> s ∈ allowed \/ exists key, line_key line key /\ s = go_string (key_Marshal key).
Proof.
  unfold scan_line, line_ok, line_key. intros H. destruct (skip_line (key_line line)) eqn:Hs.
  { simplify_eq. split; [by left|]. naive_solver. }
  destruct (ParseAuthorizedKey (key_line line)) as [[[key opts] rest]|] eqn:Hp; [|done].
  do 2 (case_bool_decide; [|done]; cbn [negb] in H). simplify_eq. split; [naive_solver|].
  intros s. rewrite elem_of_union, elem_of_singleton. naive_solver.
Qed.

Lemma scan_lines_Ok ti li lines allowed allowed' :
  scan_lines ti li lines allowed = Ok allowed' ->
  Forall line_ok lines /\
  forall s, s ∈ allowed' <-> s ∈ allowed \/ exists line key, line ∈ lines /\ line_key line key /\ s = go_string (key_Marshal key).
Proof.
  revert li allowed. induction lines as [|line lines IH]; intros li allowed H; cbn [scan_lines] in H.
  { simplify_eq. split; [constructor|]. set_solver. }
  apply result_bind_Ok in H as (a & Ha & H). destruct (scan_line_Ok _ _ _ _ _ Ha) as [H1 H2].
  destruct (IH _ _ H) as [H3 H4]. split; [by constructor|]. intros s. rewrite H4, H2. set_solver.
Qed.

(** The lines of all texts. *)
Definition all_lines (texts : list string) : list bytes := flat_map (fun t => Split x0a (go_bytes t)) texts.

Lemma scan_texts_Ok ti texts allowed allowed' :
  scan_texts ti texts allowed = Ok allowed' ->
  Forall line_ok (all_lines texts) /\
  forall s, s ∈ allowed' <-> s ∈ allowed \/
    exists line key, line ∈ all_lines texts /\ line_key line key /\ s = go_string (key_Marshal key).
Proof.
  revert ti allowed. induction texts as [|t texts IH]; intros ti allowed H; cbn [scan_texts] in H.
  { simplify_eq. split; [constructor|]. set_solver. }
  apply result_bind_Ok in H as (a & Ha & H). destruct (scan_lines_Ok _ _ _ _ _ Ha) as [H1 H2].
  destruct (IH _ _ H) as [H3 H4]. unfold all_lines in *. cbn [flat_map]. split; [by apply Forall_app|].
  intros s. rewrite H4, H2. set_solver.
Qed.

Variable windows : bool.

(** *** Publishing the host key *)

Lemma readPrivateKey_Ok d path st rd key :
  readPrivateKey windows d path st rd = Ok key ->
  exists f, d !! path = Some f /\ f_data f = key /\ (windows = false -> Z.land (f_mode f) 63 = 0).
Proof.
  unfold readPrivateKey, StatPerm, ReadFile. intros H. destruct st; [done|]. destruct (d !! path) as [f|]; [|done].
  destruct (negb windows && _) eqn:E; [done|]. destruct rd; [done|]. simplify_eq. exists f. split_and!; [done..|].
  intros ->. apply negb_false_iff, Z.eqb_eq in E. by rewrite <- Z.land_assoc in E.
Qed.

Lemma readPrivateKey_file d path f :
  d !! path = Some f -> (windows = false -> Z.land (f_mode f) 63 = 0) ->
  readPrivateKey windows d path None None = Ok (f_data f).
Proof.
  intros Hf Hm. unfold readPrivateKey, StatPerm, ReadFile. rewrite Hf, <- Z.land_assoc.
  change (Z.land 511 63) with 63. destruct windows; [done|]. by rewrite Hm.
Qed.

(** What a call leaves in [d'] of the files [d]: the key's file, which is private
    and as it was if there was one, and what is left of the temporary file, which is
    private too; nothing else is touched. *)
Definition key_at (env : hostkey_env) (d d' : fs) (path : string) (signer : Signer) : Prop :=
  exists f, but_temp (hk_publish env) (hk_tmp env) (<[path := f]> d) d' /\ ParsePrivateKey (f_data f) = Ok signer /\
    (windows = false -> Z.land (f_mode f) 63 = 0) /\ (forall f0, d !! path = Some f0 -> f0 = f) /\
    (forall g, d' !! hk_tmp env = Some g -> Z.land (f_mode g) 63 = 0).

Lemma race_temp r path tmp (d : fs) (f : file) :
  d !! tmp = None -> tmp <> path -> race r path (<[tmp := f]> d) = <[tmp := f]> (race r path d).
Proof.
  intros Ht Hne. unfold race. destruct r as [g|]; [|done]. rewrite lookup_insert_ne by done.
  destruct (d !! path); [done|]. by rewrite insert_insert_ne.
Qed.

Lemma create_host_key_Ok d path env signer d' :
  d !! hk_tmp env = None -> hk_tmp env <> path ->
  create_host_key windows d path env = (Ok signer, d') ->
  key_at env (race (hk_race env) path d) d' path signer.
Proof.
  intros Ht Hne H. unfold create_host_key, WriteAll in H. set (tmp := hk_tmp env) in *.
  destruct (hk_generate env); [done|]. destruct (hk_encode env) as [pem|]; [|done].
  destruct (pf_create _); [done|]. destruct (pf_chmod _); [done|]. rewrite alter_insert_eq in H.
  destruct (pf_write _) as [[n e]|]; rewrite alter_insert_eq in H; [done|].
  destruct (pf_sync _); [done|]. destruct (pf_close _); [done|]. rewrite race_temp in H by done.
  set (d1 := race (hk_race env) path d) in *.
  assert (Ht1 : d1 !! tmp = None) by (unfold d1, race; repeat case_match; rewrite ?lookup_insert_ne; done).
  rewrite lookup_insert_ne, lookup_insert_eq in H by done.
  match type of H with context [<[tmp := ?f]> d1] => set (ft := f) in * end.
  assert (Hread : forall r, result_bind (readPrivateKey windows (<[tmp := ft]> d1) path (hk_stat2 env) (hk_read2 env))
                    ParsePrivateKey = Ok r -> key_at env d1 (remove_file (pf_remove (hk_publish env)) tmp (<[tmp := ft]> d1)) path r).
  { intros r Hr. apply result_bind_Ok in Hr as (k & Hk & Hr). apply readPrivateKey_Ok in Hk as (g & Hg & <- & Hm).
    rewrite lookup_insert_ne in Hg by done. exists g. rewrite insert_id by done.
    split_and!; [by apply remove_but_temp|done|done|congruence|]. by intros ? ->%remove_temp_left. }
  destruct (pf_link _) as [e|].
  { case_match; [done|]. injection H as Hr <-. by apply Hread. }
  destruct (d1 !! path) as [g|] eqn:Hg; injection H as Hr <-; [by apply Hread|].
  rewrite insert_insert_ne by done. exists ft.
  split_and!; [apply remove_but_temp; by rewrite lookup_insert_ne|done|done|congruence|]. by intros ? ->%remove_temp_left.
Qed.

Lemma loadOrCreateHostKey_Ok d path env signer d' p :
  (if bool_decide (path = "") then DefaultHostKeyPath (hk_configDir env) else Ok path) = Ok p ->
  d !! hk_tmp env = None -> hk_tmp env <> p ->
  loadOrCreateHostKey windows d path env = (Ok signer, d') ->
  exists f, but_temp (hk_publish env) (hk_tmp env) (<[p := f]> d) d' /\ ParsePrivateKey (f_data f) = Ok signer /\
    (windows = false -> Z.land (f_mode f) 63 = 0) /\
    (forall f0, d !! p = Some f0 -> f0 = f) /\ (forall g, d !! p = None -> hk_race env = Some g -> g = f) /\
    (forall g, d' !! hk_tmp env = Some g -> Z.land (f_mode g) 63 = 0).
Proof.
  intros Hp Ht Hne H. unfold loadOrCreateHostKey in H. rewrite Hp in H. destruct (hk_mkdir env); [done|].
  assert (HK : key_at env (race (hk_race env) p d) d' p signer).
  { destruct (readPrivateKey windows d p (hk_stat env) (hk_read env)) as [k|e] eqn:Hk.
    - injection H as Hs <-. apply readPrivateKey_Ok in Hk as (f & Hf & <- & Hm).
      assert (Hr : race (hk_race env) p d = d) by (unfold race; rewrite Hf; by destruct (hk_race env)).
      rewrite Hr. exists f. rewrite insert_id by done. split_and!; [apply but_temp_refl|done|done|congruence|congruence].
    - case_match; [done|]. by apply create_host_key_Ok. }
  destruct HK as (f & Hb & Hs & Hm & Hf & Hl). exists f. unfold race in *.
  destruct (hk_race env) as [g|], (d !! p) as [f0|] eqn:Hd; rewrite ?lookup_insert_eq, ?insert_insert_eq, ?Hd in *;
    split_and!; try done.
  intros ? _ [= <-]. by apply Hf.
Qed.
End keys.

(** ** Properties *)

Section properties.
Context {SL : SshLib}.
Variable windows : bool.

(** Who may log in: a server asks for no key exactly when it was configured without
    authentication; otherwise every line of every text is blank, a comment, or one
    key without options, at least one key is allowed, and a key is accepted exactly
    when its wire form is that of the key on one of the lines.  It answers no global
    request and has no subsystem. *)
Definition server_auth (cfg : Config) (s : Server) : Prop :=
  (PublicKeyHandler s = None <-> NoClientAuth cfg = true) /\
  (forall h, PublicKeyHandler s = Some h ->
     exists texts, AuthorizedKeys cfg = Some texts /\ Forall line_ok (all_lines texts) /\
       (exists key, h key = true) /\
       forall key, h key = true <->
         exists line key', line ∈ all_lines texts /\ line_key line key' /\ key_Marshal key' = key_Marshal key) /\
  RequestHandlers s = [] /\ SubsystemHandlers s = [].

Lemma New_auth d cfg env s d' : New windows d cfg env = (Ok s, d') -> server_auth cfg s.
Proof.
  unfold New, server_auth. intros H. destruct (NoClientAuth cfg) eqn:Hn; destruct (AuthorizedKeys cfg) as [texts|] eqn:Ht;
    cbn [andb negb] in H; try done; destruct (loadOrCreateHostKey _ _ _ _) as [[sg|] d1]; try done; cbn [publicKeyHandler] in H.
  - simplify_eq/=. split_and!; done.
  - destruct (scan_texts 0 texts ∅) as [allowed|] eqn:Hs; [|done]. case_bool_decide as He; [done|]. simplify_eq/=.
    split_and!; [done| |done|done]. intros h [= <-]. exists texts.
    destruct (scan_texts_Ok _ _ _ _ Hs) as [Hok Hin]. split_and!; [done|done| |].
    + apply set_choose_L in He as [k Hk]. pose proof (proj1 (Hin k) Hk) as [?|(line & key & _ & _ & ->)]; [set_solver|].
      exists key. by apply bool_decide_eq_true.
    + intros key. rewrite bool_decide_eq_true, Hin. split.
      * intros [?|(line & key' & H1 & H2 & H3)]; [set_solver|]. exists line, key'. split_and!; [done|done|].
        rewrite <- (go_bytes_string (key_Marshal key')), <- H3. apply go_bytes_string.
      * intros (line & key' & H1 & H2 & H3). right. exists line, key'. split_and!; [done|done|by rewrite H3].
Qed.

(** Making a server touches no file but its host key, and leaves at most a private
    temporary file. *)
Lemma New_frame d cfg env s d' p q :
  (if bool_decide (HostKeyPath cfg = "") then DefaultHostKeyPath (hk_configDir env) else Ok (HostKeyPath cfg)) = Ok p ->
  d !! hk_tmp env = None -> hk_tmp env <> p -> New windows d cfg env = (Ok s, d') -> q <> p ->
  d' !! q = d !! q \/ (q = hk_tmp env /\ exists f, d' !! q = Some f /\ Z.land (f_mode f) 63 = 0).
Proof.
  intros Hp Ht Hne H Hq. unfold New in H. destruct (_ && _); [done|]. destruct (_ && _); [done|].
  destruct (loadOrCreateHostKey _ _ _ _) as [[sg|] d1] eqn:Hk; [|done].
  destruct (publicKeyHandler _); [|done]. injection H as <- <-.
  destruct (loadOrCreateHostKey_Ok _ _ _ _ _ _ _ Hp Ht Hne Hk) as (f & [Hb _] & _ & _ & _ & _ & Hl).
  destruct (decide (q = hk_tmp env)) as [->|Hqt]; [|left; by rewrite Hb, lookup_insert_ne].
  destruct (d1 !! hk_tmp env) as [g|] eqn:Hg; [right; eauto|by left].
Qed.

(** C31: the host key is stable and private.  When [loadOrCreateHostKey] returns a
    key, the file at its path holds it and, except on Windows, no one else can access
    the file; an existing file is as it was, and the file of another process that was
    first is used, not replaced; nothing else has changed, unless the temporary file
    could not be removed (an error that is ignored), and that file is private.  Every
    later call returns the same key and changes nothing. *)
Theorem host_key_stable d path env signer d' p :
  (if bool_decide (path = "") then DefaultHostKeyPath (hk_configDir env) else Ok path) = Ok p ->
  d !! hk_tmp env = None -> hk_tmp env <> p ->
  loadOrCreateHostKey windows d path env = (Ok signer, d') ->
  (exists f, d' !! p = Some f /\ (pf_remove (hk_publish env) = None -> d' = <[p := f]> d) /\
     (forall q, q <> p -> q <> hk_tmp env -> d' !! q = d !! q) /\
     (forall g, d' !! hk_tmp env = Some g -> Z.land (f_mode g) 63 = 0) /\
     ParsePrivateKey (f_data f) = Ok signer /\ (windows = false -> Z.land (f_mode f) 63 = 0) /\
     (forall f0, d !! p = Some f0 -> f0 = f) /\
     (forall g, d !! p = None -> hk_race env = Some g -> g = f)) /\
  (forall env', hk_configDir env' = hk_configDir env -> hk_mkdir env' = None -> hk_stat env' = None -> hk_read env' = None ->
     loadOrCreateHostKey windows d' path env' = (Ok signer, d')).
Proof.
  intros Hp Ht Hne H. destruct (loadOrCreateHostKey_Ok _ _ _ _ _ _ _ Hp Ht Hne H) as (f & [Hb Hd] & Hs & Hm & Hf & Hg & Hl).
  assert (Hfp : d' !! p = Some f) by (by rewrite Hb, lookup_insert_eq).
  split. { exists f. split_and!; try done. intros q Hq Hqt. by rewrite Hb, lookup_insert_ne. }
  intros env' He H1 H2 H3. unfold loadOrCreateHostKey. rewrite He, Hp, H1, H2, H3.
  rewrite (readPrivateKey_file _ _ _ f) by done. by rewrite Hs.
Qed.
End properties.

(** C30: what a client controls.  On Linux and macOS a session's command sees,
    for every name a client may not set, exactly what the server put there (HOME,
    USER, SHELL, PATH and nothing else); a LANG or LC_ variable has the client's
    last value, and TERM that of the terminal request when it names one; a
    terminal is used exactly when it was requested, with each dimension between 1
    and 65535 and as requested when that is possible. *)
Theorem session_confined getenv u sess :
  match sessionHandler false getenv (Ok u) sess with
  | SessionFailed _ => False
  | SessionRun motd cmd mode =>
      (forall name, env_lookup name (cmd_Env cmd) =
         if decide (client_var name) then
           match PtyReq sess with
           | Some pty => if bool_decide (name = go_bytes "TERM" /\ Term pty <> "") then Some (go_bytes (Term pty))
                         else env_lookup name (Environ sess)
           | None => env_lookup name (Environ sess)
           end
         else server_env getenv u name) /\
      match PtyReq sess, mode with
      | Some pty, WithPTY rows cols =>
          1 <= rows <= 65535 /\ 1 <= cols <= 65535 /\
          (1 <= Height pty <= 65535 -> rows = Height pty) /\ (1 <= Width pty <= 65535 -> cols = Width pty)
      | None, WithPipes => motd = false
      | _, _ => False
      end
  end.
Proof.
  assert (Hbase : forall name, env_lookup name (cmd_Env (sessionCommand false getenv u (RawCommand sess)) ++
            List.filter acceptEnvPair (Environ sess))
          = if decide (client_var name) then env_lookup name (Environ sess) else server_env getenv u name).
  { intros name. rewrite env_lookup_app, env_lookup_accepted, env_lookup_base.
    destruct (decide (client_var name)) as [Hc|]; [|done]. rewrite (client_var_unset _ _ _ Hc).
    by destruct (env_lookup name (Environ sess)). }
  unfold sessionHandler. destruct (PtyReq sess) as [pty|]; cbn [negb runWithPTY]; (split; [intros name|]); [| |apply Hbase|done].
  - unfold runWithPTY. cbn [cmd_Env add_env]. rewrite env_lookup_app, Hbase.
    case_bool_decide as Ht.
    + cbn [env_lookup]. rewrite bool_decide_eq_false_2 by tauto. done.
    + cbn [env_lookup]. rewrite (Cut_assignment "TERM" "TERM=") by reflexivity. cbn [andb].
      case_bool_decide as E; subst; [|case_bool_decide; naive_solver].
      rewrite decide_True by (by left). by rewrite bool_decide_eq_true_2.
  - pose proof (terminalDimension_bounds (Height pty)). pose proof (terminalDimension_bounds (Width pty)).
    split_and!; naive_solver.
Qed.

(** ** Witnesses *)

(** A library whose keys are their text. *)
Module PlainSsh.
#[global] Instance plain_ssh : SshLib := {|
  PublicKey := bytes;
  key_Marshal := fun k => k;
  ParseAuthorizedKey := fun l => Ok (l, [], []);
  Signer := bytes;
  ParsePrivateKey := fun b => Ok b;
|}.
End PlainSsh.

#[local] Existing Instance PlainSsh.plain_ssh.

Definition demo_hostkey_env : hostkey_env :=
  {| hk_configDir := Err (EOpaque 0); hk_mkdir := None; hk_stat := None; hk_read := None; hk_generate := None; hk_encode := Ok [x6b];
     hk_tmp := "/k/.tmp-1"; hk_umask := 18; hk_publish := no_publish_faults; hk_race := None;
     hk_stat2 := None; hk_read2 := None |}.

(** The same with another process that publishes its key first. *)
Definition demo_hostkey_race : hostkey_env :=
  {| hk_configDir := Err (EOpaque 0); hk_mkdir := None; hk_stat := None; hk_read := None; hk_generate := None; hk_encode := Ok [x6b];
     hk_tmp := "/k/.tmp-1"; hk_umask := 18; hk_publish := no_publish_faults;
     hk_race := Some {| f_mode := 384; f_data := [x6f] |}; hk_stat2 := None; hk_read2 := None |}.

(** A comment, a key with a carriage return, a blank line and another key. *)
Definition demo_keys : string := go_string (go_bytes "# team" ++ [x0a; x61; x0d; x0a; x0a; x20; x62]).

Lemma host_key_stable_witness :
  loadOrCreateHostKey false ∅ "/k/host" demo_hostkey_race = (Ok [x6f], <["/k/host" := {| f_mode := 384; f_data := [x6f] |}]> ∅) /\
  loadOrCreateHostKey false (<["/k/host" := {| f_mode := 384; f_data := [x6f] |}]> ∅) "/k/host" demo_hostkey_env
    = (Ok [x6f], <["/k/host" := {| f_mode := 384; f_data := [x6f] |}]> ∅).
Proof.
  assert (E : loadOrCreateHostKey false ∅ "/k/host" demo_hostkey_race
    = (Ok [x6f], <["/k/host" := {| f_mode := 384; f_data := [x6f] |}]> ∅)) by (vm_compute; reflexivity).
  split; [exact E|].
  refine (proj2 (host_key_stable false ∅ "/k/host" demo_hostkey_race [x6f] _ "/k/host" _ _ _ E) demo_hostkey_env _ _ _ _);
    (reflexivity || discriminate).
Defined.
