(* ===== verification/Noise.v ===== *)
(** * The end-to-end cipher (internal/tunnelcrypto/noise.go)

    The package wraps [github.com/flynn/noise]: an NN handshake with a preshared
    key whose prologue names the route and the session, then one cipher state
    per direction.  The library is a parameter ([NoiseLib]) and what the program
    relies on is [NoiseSpec]: two handshakes run against each other with the same
    key and prologue end in cipher states that are paired, and a paired state
    decrypts what the other encrypts, in order. *)

From S2P Require Import Prelude GoBase.

(** [noise.Config], with the fields the program sets. *)
Record noise_config := {
  nc_CipherSuite : string;
  nc_Pattern : string;
  nc_Initiator : bool;
  nc_PresharedKey : bytes;
  nc_Prologue : bytes;
}.

(** The library.  A handshake or cipher state is mutated in place: each call
    returns the state it leaves.  [WriteMessage] draws its ephemeral key from the
    given randomness.  The two cipher states come with the message that completes
    the handshake: the first is for initiator to responder. *)
Class NoiseLib := {
  hstate : Type;
  cstate : Type;
  NewHandshakeState : noise_config -> result goerr hstate;
  WriteMessage : hstate -> bytes -> result goerr (bytes * option (cstate * cstate)) * hstate;
  ReadMessage : hstate -> bytes -> result goerr (bytes * option (cstate * cstate)) * hstate;
  cs_Encrypt : cstate -> bytes -> result goerr bytes * cstate;
  cs_Decrypt : cstate -> bytes -> result goerr bytes * cstate;
}.

Class NoiseSpec `{NoiseLib} := {
  (** [paired s r]: [r] expects exactly the ciphertexts [s] produces. *)
  paired : cstate -> cstate -> Prop;
  paired_message : forall s r m c s', paired s r -> cs_Encrypt s m = (Ok c, s') ->
    len c = len m + 16 /\ exists r', cs_Decrypt r c = (Ok m, r') /\ paired s' r';
  handshake_read : forall ci cr h0 h1 g0 r m x,
    nc_Initiator ci = true -> nc_Initiator cr = false ->
    nc_CipherSuite ci = nc_CipherSuite cr -> nc_Pattern ci = "NN" -> nc_Pattern cr = "NN" ->
    nc_PresharedKey ci = nc_PresharedKey cr -> nc_Prologue ci = nc_Prologue cr ->
    NewHandshakeState ci = Ok h0 -> NewHandshakeState cr = Ok g0 ->
    WriteMessage h0 r = (Ok (m, x), h1) ->
    exists g1, ReadMessage g0 m = (Ok ([], None), g1) /\
      forall r' m' y g2, WriteMessage g1 r' = (Ok (m', y), g2) ->
        exists a b, y = Some (a, b) /\
        exists a' b' h2, ReadMessage h1 m' = (Ok ([], Some (a', b')), h2) /\ paired a' a /\ paired b b';
}.

Section tunnelcrypto.
Context {NL : NoiseLib}.

Record Initiator := { i_hs : option hstate }.

(** The two [*noise.CipherState]s; [None] is a nil pointer. *)
Record Transport := { t_send : option cstate; t_recv : option cstate }.

Definition prologue (routeID sessionID : bytes) : bytes :=
  go_bytes "relaycat/v1" ++ routeID ++ sessionID.

Definition config (psk routeID sessionID : bytes) (initiator : bool) : noise_config :=
  {| nc_CipherSuite := "25519_ChaChaPoly_BLAKE2s"; nc_Pattern := "NN"; nc_Initiator := initiator;
     nc_PresharedKey := psk; nc_Prologue := prologue routeID sessionID |}.

Definition StartInitiator (psk routeID sessionID rnd : bytes) : result goerr (bytes * Initiator) :=
  match NewHandshakeState (config psk routeID sessionID true) with
  | Err e => Err (EWrap "creating noise initiator" e)
  | Ok hs =>
      match WriteMessage hs rnd with
      | (Err e, _) => Err (EWrap "writing noise client hello" e)
      | (Ok (hello, _), hs') => Ok (hello, {| i_hs := Some hs' |})
      end
  end.

(** [Finish] also returns the initiator it leaves. *)
Definition Finish (i : Initiator) (agentHello : bytes) : result goerr Transport * Initiator :=
  match i_hs i with
  | None => (Err (ENew "noise initiator is not initialized"), i)
  | Some hs =>
      match ReadMessage hs agentHello with
      | (Err e, hs') => (Err (EWrap "verifying noise agent hello" e), {| i_hs := Some hs' |})
      | (Ok (_, cs), _) =>
          (Ok {| t_send := fst <$> cs; t_recv := snd <$> cs |}, {| i_hs := None |})
      end
  end.

Definition Respond (psk routeID sessionID clientHello rnd : bytes) : result goerr (bytes * Transport) :=
  match NewHandshakeState (config psk routeID sessionID false) with
  | Err e => Err (EWrap "creating noise responder" e)
  | Ok hs =>
      match ReadMessage hs clientHello with
      | (Err e, _) => Err (EWrap "verifying noise client hello" e)
      | (Ok _, hs1) =>
          match WriteMessage hs1 rnd with
          | (Err e, _) => Err (EWrap "writing noise agent hello" e)
          | (Ok (hello, cs), _) => Ok (hello, {| t_send := snd <$> cs; t_recv := fst <$> cs |})
          end
      end
  end.

Definition Encrypt (t : Transport) (plaintext : bytes) : result goerr bytes * Transport :=
  match t_send t with
  | None => (Err (ENew "noise transport is not initialized"), t)
  | Some s =>
      let '(r, s') := cs_Encrypt s plaintext in
      (match r with Ok b => Ok b | Err e => Err (EWrap "encrypting frame" e) end,
       {| t_send := Some s'; t_recv := t_recv t |})
  end.

Definition Decrypt (t : Transport) (ciphertext : bytes) : result goerr bytes * Transport :=
  match t_recv t with
  | None => (Err (ENew "noise transport is not initialized"), t)
  | Some s =>
      let '(r, s') := cs_Decrypt s ciphertext in
      (match r with Ok b => Ok b | Err e => Err (EWrap "decrypting frame" e) end,
       {| t_send := t_send t; t_recv := Some s' |})
  end.

(** [t] sends to [t']. *)
Definition linked {NS : NoiseSpec} (t t' : Transport) : Prop :=
  exists s r, t_send t = Some s /\ t_recv t' = Some r /\ paired s r.
End tunnelcrypto.

(** ** The prologue binds the route and the session *)

Lemma prologue_inj r s r' s' :
  length r = length r' -> prologue r s = prologue r' s' -> r = r' /\ s = s'.
Proof.
  intros Hl. unfold prologue. rewrite (inj_iff (app (go_bytes "relaycat/v1"))).
  intros E. apply app_inj_1 in E; auto.
Qed.

(** ** Messages between linked transports *)

Section linked.
Context {NL : NoiseLib} {NS : NoiseSpec}.

Lemma linked_message t u m c t' :
  linked t u -> Encrypt t m = (Ok c, t') ->
  len c = len m + 16 /\ exists u', Decrypt u c = (Ok m, u') /\ linked t' u'.
Proof.
  intros (s & r & Hs & Hr & Hp) He. unfold Encrypt in He. rewrite Hs in He.
  destruct (cs_Encrypt s m) as [[c'|] s'] eqn:E; simplify_eq/=.
  destruct (paired_message _ _ _ _ _ Hp E) as (Hlen & r' & Hd & Hp').
  split; [done|]. eexists. unfold Decrypt. rewrite Hr, Hd. split; [done|]. exists s', r'. done.
Qed.

Lemma linked_send t t' u : linked t u -> t_send t' = t_send t -> linked t' u.
Proof. intros (s & r & Hs & Hr & Hp) E. exists s, r. by rewrite E. Qed.

Lemma Encrypt_recv t m r t' : Encrypt t m = (r, t') -> t_recv t' = t_recv t.
Proof. unfold Encrypt. intros E. repeat case_match; by simplify_eq/=. Qed.
Lemma Decrypt_send t m r t' : Decrypt t m = (r, t') -> t_send t' = t_send t.
Proof. unfold Decrypt. intros E. repeat case_match; by simplify_eq/=. Qed.

Lemma handshake psk route sid r1 r2 hello i hello' tr :
  StartInitiator psk route sid r1 = Ok (hello, i) ->
  Respond psk route sid hello r2 = Ok (hello', tr) ->
  exists ti, Finish i hello' = (Ok ti, {| i_hs := None |}) /\ linked ti tr /\ linked tr ti.
Proof.
  unfold StartInitiator, Respond. intros HI HR.
  destruct (NewHandshakeState (config psk route sid true)) as [h0|] eqn:Eh; [|done].
  destruct (WriteMessage h0 r1) as [[[m x]|] h1] eqn:Ew; [|done]. simplify_eq.
  destruct (NewHandshakeState (config psk route sid false)) as [g0|] eqn:Eg; [|done].
  destruct (handshake_read (config psk route sid true) (config psk route sid false) h0 h1 g0 r1 hello x)
    as (g1 & Hread & Hwrite); [done..|]. rewrite Hread in HR.
  destruct (WriteMessage g1 r2) as [[[m' y]|] g2] eqn:Ew2; [|done]. simplify_eq.
  destruct (Hwrite _ _ _ _ Ew2) as (a & b & -> & a' & b' & h2 & Hfin & Ha & Hb).
  eexists. unfold Finish. simpl. rewrite Hfin. split; [done|].
  split; unfold linked; simpl; eauto 10.
Qed.
End linked.

(** ** A concrete library, for the witnesses

    Not a cipher: messages travel in clear with a 16-byte counter.  It satisfies
    the laws, so that they can hold together. *)

Module ClearNoise.

Definition tag (n : Z) : bytes := repeat (to_byte n) 16.

Lemma tag_length n : length (tag n) = 16%nat.
Proof. apply repeat_length. Qed.

Record hs := { h_cfg : noise_config; h_done : bool }.

Definition new (c : noise_config) : result goerr hs :=
  if len (nc_PresharedKey c) =? 32 then Ok {| h_cfg := c; h_done := false |} else Err (EOpaque 0).

Definition hello (c : noise_config) : bytes := nc_PresharedKey c ++ nc_Prologue c.

(** A state is the number of messages so far; both directions start at 0. *)
#[export] Instance clear_noise : NoiseLib := {|
  hstate := hs;
  cstate := Z;
  NewHandshakeState := new;
  WriteMessage h r :=
    (Ok (hello (h_cfg h), if nc_Initiator (h_cfg h) then None else Some (0, 0)), h);
  ReadMessage h m :=
    (if bool_decide (m = hello (h_cfg h))
     then Ok ([], if nc_Initiator (h_cfg h) then Some (0, 0) else None) else Err (EOpaque 1), h);
  cs_Encrypt n m := (Ok (m ++ tag n), n + 1);
  cs_Decrypt n c :=
    let k := (length c - 16)%nat in
    if bool_decide (skipn k c = tag n) then (Ok (firstn k c), n + 1) else (Err (EOpaque 2), n);
|}.

#[export] Program Instance clear_noise_spec : NoiseSpec := {| paired (s r : Z) := s = r |}.
Next Obligation.
  intros s r m c s' -> E.
  assert (c = m ++ tag r) as -> by (injection E; auto). assert (s' = r + 1) as -> by (injection E; auto).
  clear E. split.
  - unfold len. rewrite length_app, tag_length. lia.
  - exists (r + 1). cbn -[tag]. replace (length (m ++ tag r) - 16)%nat with (length m)
      by (rewrite length_app, tag_length; lia).
    rewrite drop_app_length, take_app_length, bool_decide_eq_true_2 by done. done.
Qed.
Next Obligation.
  intros ci cr h0 h1 g0 r m x Hi Hr Hc Hp Hp' Hk Hl Hh Hg Hw. cbn in *. unfold new in *.
  destruct (len (nc_PresharedKey ci) =? 32), (len (nc_PresharedKey cr) =? 32); simplify_eq/=. rewrite ?Hi, ?Hr.
  assert (E : hello cr = hello ci) by (unfold hello; congruence).
  exists {| h_cfg := cr; h_done := false |}. rewrite bool_decide_eq_true_2 by congruence. split; [done|].
  intros r' m' y g2 [= <- <- <-]. rewrite Hr. exists 0, 0. split; [done|].
  exists 0, 0. eexists. rewrite bool_decide_eq_true_2 by congruence. done.
Qed.
End ClearNoise.

(** ** Properties *)

(** C12: the two ends agree.  When an agent answers a client's hello with the
    same preshared key, route and session, the client's [Finish] succeeds on the
    answer, and each transport decrypts what the other encrypts; the initiator is
    spent.  The prologue both ends authenticate determines the route and the
    session. *)
Theorem noise_agreement {NL : NoiseLib} {NS : NoiseSpec} psk route sid r1 r2 hello i hello' tr :
  StartInitiator psk route sid r1 = Ok (hello, i) ->
  Respond psk route sid hello r2 = Ok (hello', tr) ->
  (exists ti, Finish i hello' = (Ok ti, {| i_hs := None |}) /\ linked ti tr /\ linked tr ti) /\
  (forall h, exists e, Finish {| i_hs := None |} h = (Err e, {| i_hs := None |})) /\
  (forall route' sid', length route' = length route -> prologue route' sid' = prologue route sid ->
     route' = route /\ sid' = sid).
Proof.
  intros HI HR. split_and!; [by eapply handshake| |].
  - intros h. eexists. reflexivity.
  - intros route' sid' Hl. by apply prologue_inj.
Qed.

Lemma noise_agreement_witness :
  exists hello i hello' tr ti,
    StartInitiator (NL := ClearNoise.clear_noise) (repeat x02 32) [x01] [x03] [] = Ok (hello, i) /\
    Respond (NL := ClearNoise.clear_noise) (repeat x02 32) [x01] [x03] hello [] = Ok (hello', tr) /\
    Finish i hello' = (Ok ti, {| i_hs := None |}) /\ linked (NS := ClearNoise.clear_noise_spec) ti tr.
Proof.
  eexists _, _, _, _.
  destruct (noise_agreement (NS := ClearNoise.clear_noise_spec) (repeat x02 32) [x01] [x03] [] [] _ _ _ _
    eq_refl eq_refl) as ((ti & Hf & Hl & _) & _).
  exists ti. split; [reflexivity|]. split; [reflexivity|]. split; [exact Hf|exact Hl].
Defined.
