(* ===== verification/AccessCode.v ===== *)
(** * Connection codes and the state file (internal/accesscode/code.go)

    A [Code] is what a client needs to reach an agent: the relay's URL, the
    agent's route and the preshared key.  [Encode] and [Decode] move it through
    a string; [LoadOrCreate] keeps it in a private file.

    [url.Parse], [proto.Marshal]/[Unmarshal] and the JSON codec are parameters:
    the first needs no assumption, the others satisfy [CodecSpec] and
    [StateCodec]. *)

From stdpp Require Import pretty.
From S2P Require Import Prelude GoBase Base64 Proto Os.

Definition CodePrefix : string := "rc1_".

Record Code := { RelayURL : string; RouteID : bytes; PSK : bytes }.

Record stateFile := {
  st_Version : Z;
  st_RelayURL : string;
  st_Target : string;
  st_RouteID : string;
  st_PSK : string;
  st_CreatedAt : Z;        (* nanoseconds since the epoch, UTC *)
}.

(** The fields of [url.URL] the program reads. *)
Record URL := { u_Scheme : string; u_Host : string; u_Path : string; u_RawQuery : string; u_Fragment : string }.

(** ** Operations *)

(** [rand.Read] into [make([]byte, n)]: the buffer keeps its length. *)
Definition fill (n : Z) (r : bytes) : bytes := firstn (Z.to_nat n) (r ++ repeat x00 (Z.to_nat n)).

Definition New (relayURL : string) (route psk : result goerr bytes) : result goerr Code :=
  match route with
  | Err e => Err (EWrap "generating route ID" e)
  | Ok r =>
      match psk with
      | Err e => Err (EWrap "generating preshared key" e)
      | Ok k => Ok {| RelayURL := relayURL; RouteID := fill RouteIDSize r; PSK := fill PSKSize k |}
      end
  end.

Definition validate (c : Code) : option goerr :=
  if negb (len (RouteID c) =? RouteIDSize)
  then Some (ENew ("route ID must be " +:+ pretty RouteIDSize +:+ " bytes"))
  else if negb (len (PSK c) =? PSKSize)
  then Some (ENew ("preshared key must be " +:+ pretty PSKSize +:+ " bytes"))
  else None.

(** [strings.HasPrefix] and [strings.TrimPrefix] in one: the rest of [s] after
    [p], or [None] when [s] does not start with [p]. *)
Fixpoint cut_prefix (p s : string) : option string :=
  match p, s with
  | EmptyString, _ => Some s
  | String a p', String b s' => if Ascii.eqb a b then cut_prefix p' s' else None
  | String _ _, EmptyString => None
  end.

Definition CheckPrivateFile (windows : bool) (d : fs) (path : string) (stat_fault : option goerr) : option goerr :=
  if bool_decide (path = "") || windows then None
  else match StatPerm d path stat_fault with
  | Err e => Some e
  | Ok perm =>
      if negb (Z.land perm 63 =? 0) then Some (ENew (path +:+ " is accessible by group or other users"))
      else None
  end.

Class StateCodec := {
  MarshalIndent : stateFile -> result goerr bytes;
  UnmarshalState : bytes -> result goerr stateFile;
}.

Section accesscode.
Context `{ConnectionCodeCodec : Codec ConnectionCode} `{JSON : StateCodec}.
Variable url_Parse : string -> result goerr URL.

Definition ValidateRelayURL (raw : string) (allowInsecure : bool) : option goerr :=
  match url_Parse raw with
  | Err _ => Some (ENew "relay URL must contain only scheme and host")
  | Ok u =>
      if bool_decide (u_Host u = "") || (bool_decide (u_Path u <> "") && bool_decide (u_Path u <> "/"))
         || bool_decide (u_RawQuery u <> "") || bool_decide (u_Fragment u <> "")
      then Some (ENew "relay URL must contain only scheme and host")
      else if bool_decide (u_Scheme u = "https") then None
      else if bool_decide (u_Scheme u = "http") && allowInsecure then None
      else Some (ENew "relay URL must use https; use --allow-insecure-relay for trusted development networks")
  end.

Definition Encode (c : Code) : result goerr string :=
  match validate c with
  | Some e => Err e
  | None =>
      match Marshal {| cc_ProtocolVersion := ProtocolVersion; cc_RelayUrl := RelayURL c;
                       cc_RouteId := RouteID c; cc_PresharedKey := PSK c |} with
      | Err e => Err (EWrap "encoding connection code" e)
      | Ok b => Ok (CodePrefix +:+ EncodeToString b)
      end
  end.

Definition Decode (s : string) (allowInsecure : bool) : result goerr Code :=
  match cut_prefix CodePrefix s with
  | None => Err (ENew "invalid connection code prefix")
  | Some rest =>
      match DecodeString rest with
      | None => Err (ENew "invalid connection code encoding")
      | Some b =>
          match (Unmarshal b : result goerr ConnectionCode) with
          | Err _ => Err (ENew "invalid connection code payload")
          | Ok msg =>
              if negb (cc_ProtocolVersion msg =? ProtocolVersion)
              then Err (ENew ("unsupported connection code version " +:+ pretty (cc_ProtocolVersion msg)))
              else
                let c := {| RelayURL := cc_RelayUrl msg; RouteID := cc_RouteId msg; PSK := cc_PresharedKey msg |} in
                match validate c with
                | Some e => Err e
                | None =>
                    match ValidateRelayURL (RelayURL c) allowInsecure with
                    | Some e => Err e
                    | None => Ok c
                    end
                end
          end
      end
  end.

(** What a run of [LoadOrCreate] finds around it. *)
Record environment := {
  e_windows : bool;
  e_umask : Z;
  e_now : Z;
  e_route : result goerr bytes;   (* rand.Read, for the route *)
  e_psk : result goerr bytes;     (* and for the key *)
  e_io : faults;
}.

(** The file exists: lines 98-118. *)
Definition load_state (d : fs) (env : environment) (path relayURL target : string) (b : bytes) : result goerr Code :=
  match CheckPrivateFile (e_windows env) d path (io_stat (e_io env)) with
  | Some e => Err e
  | None =>
      match UnmarshalState b with
      | Err e => Err (EWrap "decoding state file" e)
      | Ok st =>
          if negb (st_Version st =? ProtocolVersion) || bool_decide (st_RelayURL st <> relayURL)
             || bool_decide (st_Target st <> target)
          then Err (ENew "state file does not match protocol version, relay URL, and target")
          else match DecodeString (st_RouteID st) with
          | None => Err (ENew "invalid route ID in state file")
          | Some route =>
              match DecodeString (st_PSK st) with
              | None => Err (ENew "invalid preshared key in state file")
              | Some psk =>
                  let c := {| RelayURL := relayURL; RouteID := route; PSK := psk |} in
                  match validate c with Some e => Err e | None => Ok c end
              end
          end
      end
  end.

(** Lines 135-152: the directory, the exclusive create, the write, the sync and
    the close.  Directories are not part of the files: making one can only fail. *)
Definition write_state (d : fs) (env : environment) (path : string) (b : bytes) : option goerr * fs :=
  let io := e_io env in
  match io_mkdir io with
  | Some e => (Some (EWrap "creating state directory" e), d)
  | None =>
      match CreateExcl d path 384 (e_umask env) (io_open io) with
      | Err e => (Some (EWrap "writing state file" e), d)
      | Ok d1 =>
          let '(we, d2) := WriteAll d1 path (b ++ [x0a]) (io_write io) in
          match we, io_sync io, io_close io with
          | Some e, _, _ => (Some (EWrap "writing state file" e), d2)
          | None, Some e, _ => (Some (EWrap "syncing state file" e), d2)
          | None, None, Some e => (Some (EWrap "closing state file" e), d2)
          | None, None, None => (None, d2)
          end
      end
  end.

(** The contents of a new state file. *)
Definition state_of (env : environment) (target : string) (c : Code) : stateFile :=
  {| st_Version := ProtocolVersion; st_RelayURL := RelayURL c; st_Target := target;
     st_RouteID := EncodeToString (RouteID c); st_PSK := EncodeToString (PSK c);
     st_CreatedAt := e_now env |}.

Definition LoadOrCreate (d : fs) (env : environment) (path relayURL target : string)
  : result goerr Code * fs :=
  if bool_decide (path = "") then (New relayURL (e_route env) (e_psk env), d)
  else match ReadFile d path (io_read (e_io env)) with
  | Ok b => (load_state d env path relayURL target b, d)
  | Err err =>
      if negb (errors_Is err ENotExist) then (Err (EWrap "reading state file" err), d)
      else match New relayURL (e_route env) (e_psk env) with
      | Err e => (Err e, d)
      | Ok c =>
          match MarshalIndent (state_of env target c) with
          | Err e => (Err (EWrap "encoding state file" e), d)
          | Ok b =>
              let '(r, d') := write_state d env path b in
              (match r with Some e => Err e | None => Ok c end, d')
          end
      end
  end.
End accesscode.

(** ** Strings *)

Lemma cut_prefix_app p s : cut_prefix p (p +:+ s) = Some s.
Proof.
  induction p as [|a p IH]; [done|]. change (String a p +:+ s) with (String a (p +:+ s)). cbn [cut_prefix].
  by rewrite Ascii.eqb_refl.
Qed.

Lemma cut_prefix_Some p s r : cut_prefix p s = Some r -> s = p +:+ r.
Proof.
  revert s. induction p as [|a p IH]; intros s H; [by injection H as ->|].
  destruct s as [|b s]; [done|]. cbn [cut_prefix] in H.
  destruct (Ascii.eqb_spec a b) as [->|]; [|done]. by rewrite (IH s H).
Qed.

Lemma fill_length n r : 0 <= n -> len (fill n r) = n.
Proof.
  intros Hn. unfold len, fill. rewrite length_firstn, length_app, repeat_length. lia.
Qed.

Lemma New_valid u r k c : New u r k = Ok c -> validate c = None /\ RelayURL c = u.
Proof.
  unfold New. intros H. crush_match H. unfold validate. simpl.
  by rewrite !fill_length by done.
Qed.

Lemma validate_None c : validate c = None <-> len (RouteID c) = RouteIDSize /\ len (PSK c) = PSKSize.
Proof.
  unfold validate. destruct (Z.eqb_spec (len (RouteID c)) RouteIDSize), (Z.eqb_spec (len (PSK c)) PSKSize); simpl;
    naive_solver.
Qed.

(** Base64 text is ASCII, hence UTF-8. *)
Lemma encode_digit_ascii d : 0 <= d < 64 -> bval (encode_digit d) < 128.
Proof.
  intros Hd. unfold encode_digit.
  repeat match goal with |- context [if ?x then _ else _] => destruct x eqn:? end;
    rewrite ?Z.ltb_lt, ?Z.ltb_ge in *; rewrite ?bval_to_byte, ?Z.mod_small by lia; try lia; reflexivity.
Qed.

Lemma sextet_ascii v s : bval (sextet v s) < 128.
Proof. apply encode_digit_ascii. rewrite land63. apply Z.mod_pos_bound. lia. Qed.

Lemma encode_ascii b : Forall (fun x => bval x < 128) (encode b).
Proof.
  induction b as [b IH] using (induction_ltof1 _ (@length byte)). unfold ltof in IH.
  destruct b as [|x [|y [|z b]]]; cbn [encode]; repeat (constructor; [apply sextet_ascii|]);
    [constructor..|]. apply IH. simpl. lia.
Qed.

Lemma ascii_utf8 b : Forall (fun x => bval x < 128) b -> utf8_valid b = true.
Proof. induction 1 as [|x b Hx _ IH]; [done|]. cbn [utf8_valid]. by rewrite (proj2 (Z.ltb_lt _ _) Hx). Qed.

Lemma EncodeToString_utf8 b : utf8_valid (go_bytes (EncodeToString b)) = true.
Proof. unfold EncodeToString. rewrite go_bytes_string. apply ascii_utf8, encode_ascii. Qed.

(** What [json.MarshalIndent] and [json.Unmarshal] promise for the state file:
    strings that are UTF-8 come back, and so do times in the years JSON can
    write; white space at the end is ignored. *)
Definition json_ok (st : stateFile) : bool :=
  is_uint32 (st_Version st) && utf8_valid (go_bytes (st_RelayURL st)) && utf8_valid (go_bytes (st_Target st)) &&
  utf8_valid (go_bytes (st_RouteID st)) && utf8_valid (go_bytes (st_PSK st)) &&
  (0 <=? st_CreatedAt st) && (st_CreatedAt st <? 2 ^ 63).

Class StateCodecSpec `{StateCodec} : Prop :=
  state_back : forall st b, json_ok st = true -> MarshalIndent st = Ok b -> UnmarshalState (b ++ [x0a]) = Ok st.

Section accesscode_lemmas.
Context `{Codec ConnectionCode} {CS : CodecSpec ConnectionCode}.
Variable url_Parse : string -> result goerr URL.

Lemma Encode_shape c s :
  Encode c = Ok s -> exists b, validate c = None /\ s = CodePrefix +:+ EncodeToString b /\
    Marshal {| cc_ProtocolVersion := ProtocolVersion; cc_RelayUrl := RelayURL c;
               cc_RouteId := RouteID c; cc_PresharedKey := PSK c |} = Ok b.
Proof.
  unfold Encode. intros Hs. destruct (validate c); [done|]. destruct (Marshal _) as [b|] eqn:Hm; [|done].
  exists b. split_and!; congruence.
Qed.

Lemma code_typed c :
  validate c = None -> small (go_bytes (RelayURL c)) = true ->
  go_typed {| cc_ProtocolVersion := ProtocolVersion; cc_RelayUrl := RelayURL c;
              cc_RouteId := RouteID c; cc_PresharedKey := PSK c |} = true.
Proof.
  rewrite validate_None. intros [Hr Hk] Hs. unfold go_typed, ConnectionCode_typed. simpl. rewrite Hs.
  unfold small. by rewrite Hr, Hk.
Qed.

Lemma Decode_Encode c s a :
  small (go_bytes (RelayURL c)) = true -> Encode c = Ok s ->
  Decode url_Parse s a = match ValidateRelayURL url_Parse (RelayURL c) a with Some e => Err e | None => Ok c end.
Proof.
  intros Hs He. destruct (Encode_shape c s He) as (b & Hv & -> & Hm). unfold Decode.
  rewrite cut_prefix_app, DecodeString_EncodeToString.
  rewrite (unmarshal_marshal _ _ (code_typed c Hv Hs) Hm). simpl. destruct c. simpl. by rewrite Hv.
Qed.

Lemma Decode_Ok s a c :
  Decode url_Parse s a = Ok c ->
  (exists rest, s = CodePrefix +:+ rest) /\ validate c = None /\ ValidateRelayURL url_Parse (RelayURL c) a = None.
Proof.
  unfold Decode. intros Hd. destruct (cut_prefix _ _) as [r|] eqn:Hp; [|done].
  apply cut_prefix_Some in Hp. crush_match Hd. split_and!; eauto.
Qed.

Lemma ValidateRelayURL_None raw a :
  ValidateRelayURL url_Parse raw a = None <->
  exists u, url_Parse raw = Ok u /\ u_Host u <> "" /\ (u_Path u = "" \/ u_Path u = "/") /\
    u_RawQuery u = "" /\ u_Fragment u = "" /\
    (u_Scheme u = "https" \/ (u_Scheme u = "http" /\ a = true)).
Proof.
  unfold ValidateRelayURL. split.
  - destruct (url_Parse raw) as [u|e]; [|done]. intros Hc. exists u.
    repeat (case_bool_decide; simplify_eq/=); destruct a; simplify_eq/=; split_and!; auto;
      destruct (decide (u_Path u = "")), (decide (u_Path u = "/")); naive_solver.
  - intros (u & -> & Hh & Hp & Hq & Hf & Hs).
    rewrite (bool_decide_eq_false_2 (u_Host u = "")) by done.
    rewrite (bool_decide_eq_false_2 (u_RawQuery u <> "")) by naive_solver.
    rewrite (bool_decide_eq_false_2 (u_Fragment u <> "")) by naive_solver.
    replace (bool_decide (u_Path u <> "") && bool_decide (u_Path u <> "/")) with false
      by (destruct Hp as [-> | ->]; reflexivity).
    simpl. destruct Hs as [-> | [-> ->]]; reflexivity.
Qed.
End accesscode_lemmas.

(** ** The state file *)

Section state_lemmas.
Context `{JSON : StateCodec}.

Lemma write_state_ok d env path b d' :
  write_state d env path b = (None, d') ->
  d !! path = None /\
  d' = <[path := {| f_mode := Z.ldiff 384 (e_umask env); f_data := b ++ [x0a] |}]> d.
Proof.
  unfold write_state, CreateExcl, WriteAll. intros H. repeat case_match; simplify_eq/=.
  split; [done|]. by rewrite alter_insert_eq.
Qed.

(** What a write can leave behind, failed or not: nothing else is touched, an
    existing file stays, a new one is private. *)
Lemma write_state_frame d env path b r d' :
  write_state d env path b = (r, d') ->
  (forall q, q <> path -> d' !! q = d !! q) /\
  (forall f, d !! path = Some f -> d' = d) /\
  (forall f, d !! path = None -> d' !! path = Some f -> f_mode f = Z.ldiff 384 (e_umask env)).
Proof.
  unfold write_state, CreateExcl, WriteAll. intros H.
  repeat case_match; simplify_eq/=; (split_and!;
    [intros q Hq; rewrite ?lookup_alter_ne, ?lookup_insert_ne by done; done
    |intros; simplify_eq; done
    |intros f0 Hn Hf; rewrite ?lookup_alter_eq, ?lookup_insert_eq in Hf; by simplify_eq/=]).
Qed.

Lemma LoadOrCreate_cases d env path relayURL target r d' :
  LoadOrCreate d env path relayURL target = (r, d') ->
  d' = d \/ exists b w, write_state d env path b = (w, d').
Proof.
  unfold LoadOrCreate. intros H. repeat case_match; simplify_eq/=; eauto.
Qed.

(** What is returned is a well-formed code for the relay asked for, and no other
    file has changed. *)
Lemma LoadOrCreate_Ok d env path relayURL target c d' :
  LoadOrCreate d env path relayURL target = (Ok c, d') ->
  validate c = None /\ RelayURL c = relayURL /\ (path = "" -> d' = d) /\ (forall q, q <> path -> d' !! q = d !! q).
Proof.
  intros Hl. assert (Hv : validate c = None /\ RelayURL c = relayURL).
  { unfold LoadOrCreate, load_state in Hl. repeat case_match; simplify_eq/=; try done; by eapply New_valid. }
  destruct Hv as [Hv Hu]. split_and!; [done|done| |].
  - intros ->. unfold LoadOrCreate in Hl. rewrite bool_decide_eq_true_2 in Hl by done. by injection Hl.
  - destruct (LoadOrCreate_cases _ _ _ _ _ _ _ Hl) as [->|(b & w & Hw)]; [done|]. by apply write_state_frame in Hw as [? _].
Qed.

Lemma load_state_idem d env env' path relayURL target b :
  e_windows env' = e_windows env -> io_stat (e_io env') = io_stat (e_io env) ->
  load_state d env' path relayURL target b = load_state d env path relayURL target b.
Proof. intros Hw Hs. unfold load_state. by rewrite Hw, Hs. Qed.
End state_lemmas.

Section state_codec_lemmas.
Context `{JSON : StateCodec} {JS : StateCodecSpec}.

(** The file written for a fresh code reads back as that code. *)
Lemma load_state_back d env env' path target c b :
  validate c = None -> path <> "" ->
  d !! path = Some {| f_mode := Z.ldiff 384 (e_umask env); f_data := b ++ [x0a] |} ->
  io_stat (e_io env') = None -> json_ok (state_of env target c) = true ->
  MarshalIndent (state_of env target c) = Ok b ->
  load_state d env' path (RelayURL c) target (b ++ [x0a]) = Ok c.
Proof.
  intros Hv Hp Hf Hst Hj Hm. unfold load_state, CheckPrivateFile, StatPerm. rewrite Hst, Hf. cbn [f_mode].
  rewrite private_mode. rewrite (bool_decide_eq_false_2 (path = "")) by done.
  destruct (e_windows env'); cbn [orb negb Z.eqb]; rewrite (state_back _ _ Hj Hm); simpl;
    rewrite !bool_decide_eq_false_2 by naive_solver; simpl; rewrite !DecodeString_EncodeToString;
    destruct c; simpl in *; by rewrite Hv.
Qed.

Lemma state_json_ok env target c :
  utf8_valid (go_bytes (RelayURL c)) = true -> utf8_valid (go_bytes target) = true ->
  0 <= e_now env < 2 ^ 63 -> json_ok (state_of env target c) = true.
Proof.
  intros Hu Ht Hn. unfold json_ok. simpl. rewrite Hu, Ht, !EncodeToString_utf8. simpl.
  rewrite andb_true_iff, Z.leb_le, Z.ltb_lt. lia.
Qed.

(** Enough calls to the operating system succeed for a load. *)
Definition reads_ok (env : environment) : Prop := io_read (e_io env) = None /\ io_stat (e_io env) = None.

Lemma load_stable d env env' path relayURL target c d' :
  path <> "" -> reads_ok env -> reads_ok env' -> e_windows env' = e_windows env ->
  utf8_valid (go_bytes relayURL) = true -> utf8_valid (go_bytes target) = true -> 0 <= e_now env < 2 ^ 63 ->
  LoadOrCreate d env path relayURL target = (Ok c, d') ->
  LoadOrCreate d' env' path relayURL target = (Ok c, d').
Proof.
  intros Hp [Hr Hs] [Hr' Hs'] Hw Hu Ht Hn. unfold LoadOrCreate.
  rewrite (bool_decide_eq_false_2 (path = "")) by done. rewrite Hr, Hr'. unfold ReadFile.
  destruct (d !! path) as [f|] eqn:Hd.
  - intros [= Hl <-]. rewrite Hd. f_equal. rewrite (load_state_idem d env env'); congruence.
  - cbn [errors_Is orb negb]. rewrite bool_decide_eq_true_2 by done. cbn [orb negb].
    destruct (New relayURL (e_route env) (e_psk env)) as [c0|e] eqn:HN; [|done].
    destruct (New_valid _ _ _ _ HN) as [Hv HU].
    destruct (MarshalIndent (state_of env target c0)) as [b|e] eqn:Hm; [|done].
    destruct (write_state d env path b) as [[e|] d1] eqn:Hws; [done|].
    intros [= -> ->]. destruct (write_state_ok _ _ _ _ _ Hws) as [_ Hd1].
    rewrite Hd1 at 1. rewrite lookup_insert_eq. f_equal. subst relayURL.
    apply (load_state_back _ env); auto; [by rewrite Hd1, lookup_insert_eq|].
    by apply state_json_ok.
Qed.
End state_codec_lemmas.

(** ** A concrete state codec and URL parser, for the witnesses *)

Module StateWire.
Import Wire.

Definition state_fields (st : stateFile) : list field :=
  [(1, VInt (st_Version st)); (2, VBytes (go_bytes (st_RelayURL st))); (3, VBytes (go_bytes (st_Target st)));
   (4, VBytes (go_bytes (st_RouteID st))); (5, VBytes (go_bytes (st_PSK st))); (6, VInt (st_CreatedAt st))].

Definition state_of_fields (fs : list field) : option stateFile :=
  match fs with
  | [(1, VInt v); (2, VBytes u); (3, VBytes t); (4, VBytes r); (5, VBytes k); (6, VInt n)] =>
      Some {| st_Version := v; st_RelayURL := go_string u; st_Target := go_string t;
              st_RouteID := go_string r; st_PSK := go_string k; st_CreatedAt := n |}
  | _ => None
  end.

(** A final line feed is dropped before parsing. *)
Definition chomp (b : bytes) : bytes :=
  match rev b with x0a :: r => rev r | _ => b end.

#[export] Instance state_wire : StateCodec := {|
  MarshalIndent st :=
    if forallb field_ok (state_fields st) then Ok (put_fields (state_fields st)) else Err (EOpaque 0);
  UnmarshalState b := parse state_of_fields (chomp b) |}.

#[export] Instance state_wire_spec : StateCodecSpec.
Proof.
  intros st b _. unfold MarshalIndent, UnmarshalState, state_wire.
  case_match eqn:Hok; [|done]. intros Hb. assert (b = put_fields (state_fields st)) as -> by congruence.
  unfold chomp. rewrite rev_unit, rev_involutive. apply parse_put; [done|].
  destruct st. unfold state_of_fields, state_fields. simpl. by rewrite !go_string_bytes.
Qed.
End StateWire.

Definition demo_url : string := "https://relay.example".
Definition demo_parse (s : string) : result goerr URL :=
  if bool_decide (s = demo_url)
  then Ok {| u_Scheme := "https"; u_Host := "relay.example"; u_Path := ""; u_RawQuery := ""; u_Fragment := "" |}
  else Err (EOpaque 0).
Definition demo_code : Code := {| RelayURL := demo_url; RouteID := repeat x01 16; PSK := repeat x02 32 |}.
Definition demo_env : environment :=
  {| e_windows := false; e_umask := 18; e_now := 1700000000; e_route := Ok (repeat x01 16);
     e_psk := Ok (repeat x02 32); e_io := no_faults |}.
Definition demo_env2 : environment :=
  {| e_windows := false; e_umask := 0; e_now := 1800000000; e_route := Ok (repeat x07 16);
     e_psk := Ok (repeat x08 32); e_io := no_faults |}.
Definition demo_fs : fs :=
  (LoadOrCreate (JSON := StateWire.state_wire) ∅ demo_env "/s" demo_url "127.0.0.1:22").2.

(** ** Properties *)

Section properties.
Context `{Codec ConnectionCode} {CS : CodecSpec ConnectionCode} `{JSON : StateCodec} {JS : StateCodecSpec}.
Variable url_Parse : string -> result goerr URL.

Lemma Decode_sound s a c :
  Decode url_Parse s a = Ok c ->
  (exists rest, s = CodePrefix +:+ rest) /\ len (RouteID c) = 16 /\ len (PSK c) = 32 /\
  (exists u, url_Parse (RelayURL c) = Ok u /\ u_Host u <> "" /\ (u_Path u = "" \/ u_Path u = "/") /\
     u_RawQuery u = "" /\ u_Fragment u = "" /\ (u_Scheme u = "https" \/ u_Scheme u = "http" /\ a = true)) /\
  Decode url_Parse s true = Ok c.
Proof.
  intros Hd. destruct (Decode_Ok url_Parse s a c Hd) as (Hp & Hv & Hu).
  pose proof (proj1 (validate_None c) Hv) as [Hr Hk]. split_and!; [done|done|done|by apply ValidateRelayURL_None|].
  destruct a; [done|]. unfold Decode in *. crush_match Hd.
  match goal with H1 : ValidateRelayURL _ _ false = None |- _ =>
    apply ValidateRelayURL_None in H1 as (u & ? & ? & ? & ? & ? & [?|[? ?]]); [|done] end.
  match goal with |- context [ValidateRelayURL url_Parse ?r true] =>
    assert (ValidateRelayURL url_Parse r true = None) as -> by (apply ValidateRelayURL_None; exists u; auto 10) end.
  done.
Qed.

(** C10: connection codes round trip.  A code with a 16-byte route, a 32-byte
    key and a UTF-8 relay URL encodes to a string, and decoding that string gives
    the same code back exactly when its URL passes [ValidateRelayURL] under the
    decoder's setting.  And any string [Decode] accepts starts with the prefix,
    carries a 16-byte route and a 32-byte key, and a relay URL that has a host, no
    query, no fragment and no path but "/", over https, or over http only when
    insecure relays are allowed; what is accepted without that permission is
    accepted with it. *)
Theorem code_round_trip c :
  validate c = None -> utf8_valid (go_bytes (RelayURL c)) = true -> small (go_bytes (RelayURL c)) = true ->
  (exists s, Encode c = Ok s /\
    forall a, Decode url_Parse s a =
      match ValidateRelayURL url_Parse (RelayURL c) a with Some e => Err e | None => Ok c end) /\
  (forall s a c', Decode url_Parse s a = Ok c' ->
     (exists rest, s = CodePrefix +:+ rest) /\ len (RouteID c') = 16 /\ len (PSK c') = 32 /\
     (exists u, url_Parse (RelayURL c') = Ok u /\ u_Host u <> "" /\ (u_Path u = "" \/ u_Path u = "/") /\
        u_RawQuery u = "" /\ u_Fragment u = "" /\ (u_Scheme u = "https" \/ u_Scheme u = "http" /\ a = true)) /\
     Decode url_Parse s true = Ok c').
Proof.
  intros Hv Hu Hs. split; [|apply Decode_sound].
  destruct (marshal_total {| cc_ProtocolVersion := ProtocolVersion; cc_RelayUrl := RelayURL c;
                cc_RouteId := RouteID c; cc_PresharedKey := PSK c |} Hu) as [b Hb].
  assert (He : Encode c = Ok (CodePrefix +:+ EncodeToString b)) by (unfold Encode; by rewrite Hv, Hb).
  eexists. split; [exact He|]. intros a. by apply Decode_Encode.
Qed.

(** C11: the state file is stable and private.  Whatever fails on the way, [LoadOrCreate]
    touches no other file and never alters an existing one; a file it makes has
    no permission bit for group or others under any umask (bits that mean nothing on
    Windows); and, except on Windows, it returns no code from a file that group or others can access.  Whatever code it
    returned the first time for a path, URL and target, it returns again later, at
    another time and with other random numbers, and changes nothing. *)
Theorem state_private d env path relayURL target r d' :
  LoadOrCreate d env path relayURL target = (r, d') ->
  (forall q, q <> path -> d' !! q = d !! q) /\
  (forall f, d !! path = Some f -> d' = d) /\
  (forall f, d !! path = None -> d' !! path = Some f -> Z.land (Z.land (f_mode f) 511) 63 = 0) /\
  (forall f c, d !! path = Some f -> path <> "" -> e_windows env = false -> r = Ok c ->
     Z.land (Z.land (f_mode f) 511) 63 = 0) /\
  (forall c env', r = Ok c -> path <> "" -> reads_ok env -> reads_ok env' -> e_windows env' = e_windows env ->
     utf8_valid (go_bytes relayURL) = true -> utf8_valid (go_bytes target) = true -> 0 <= e_now env < 2 ^ 63 ->
     LoadOrCreate d' env' path relayURL target = (Ok c, d') /\ validate c = None /\ RelayURL c = relayURL).
Proof.
  intros Hl. split_and!.
  5: { intros c env' -> Hp Hr Hr' Hw Hu Ht Hn. destruct (LoadOrCreate_Ok _ _ _ _ _ _ _ Hl) as (Hv & HU & _).
    split; [|done]. by apply (load_stable d env). }
  1-3: destruct (LoadOrCreate_cases _ _ _ _ _ _ _ Hl) as [->|(b & w & Hw)]; [by intros; congruence|];
    destruct (write_state_frame _ _ _ _ _ _ Hw) as (H1 & H2 & H3); auto.
  - intros f H4 H5. rewrite (H3 f H4 H5). apply private_mode.
  - intros f c Hf Hp Hw ->. unfold LoadOrCreate, load_state, CheckPrivateFile, StatPerm in Hl.
    rewrite (bool_decide_eq_false_2 (path = "")), Hw in Hl by done.
    unfold ReadFile in Hl. rewrite Hf in Hl. cbn [orb] in Hl.
    destruct (io_read (e_io env)) eqn:Eio.
    + repeat case_match; simplify_eq/=. 
      match goal with H : write_state _ _ _ _ = (None, _) |- _ => apply write_state_ok in H as [? _] end. congruence.
    + destruct (io_stat (e_io env)); [done|].
      destruct (Z.eqb_spec (Z.land (Z.land (f_mode f) 511) 63) 0); done.
Qed.
End properties.

Lemma code_round_trip_witness :
  exists s, Encode (ConnectionCodeCodec := Wire.code_codec) demo_code = Ok s /\
    Decode (ConnectionCodeCodec := Wire.code_codec) demo_parse s false = Ok demo_code /\ len (PSK demo_code) = 32.
Proof.
  destruct (code_round_trip (H := Wire.code_codec) (CS := Wire.code_codec_spec) demo_parse demo_code) as ((s & Hs & Hd) & Hsound);
    [reflexivity..|]. exists s. split; [exact Hs|].
  assert (E : Decode (ConnectionCodeCodec := Wire.code_codec) demo_parse s false = Ok demo_code) by (rewrite Hd; reflexivity).
  split; [exact E|]. exact (proj1 (proj2 (proj2 (Hsound s false demo_code E)))).
Defined.

Lemma state_private_witness :
  (exists f, demo_fs !! "/s" = Some f /\ Z.land (Z.land (f_mode f) 511) 63 = 0) /\
  LoadOrCreate (JSON := StateWire.state_wire) demo_fs demo_env2 "/s" demo_url "127.0.0.1:22" = (Ok demo_code, demo_fs).
Proof.
  destruct (state_private (JSON := StateWire.state_wire) (JS := StateWire.state_wire_spec) ∅ demo_env "/s" demo_url "127.0.0.1:22"
    (Ok demo_code) demo_fs) as (_ & _ & Hp & _ & Hs); [vm_compute; reflexivity|]. split.
  - assert (Hf : exists f, demo_fs !! "/s" = Some f) by (vm_compute; eauto). destruct Hf as [f Hf].
    exists f. split; [exact Hf|]. exact (Hp f eq_refl Hf).
  - refine (proj1 (Hs demo_code demo_env2 eq_refl _ _ _ _ _ _ _)); [discriminate|by split|by split|reflexivity..|by vm_compute].
Defined.
