(* ===== verification/Client.v ===== *)
(** * The client process (internal/endpoint/client.go, grpc.go)

    [Dial] with its certificate pool, and [RunClient]: the accept loop, its tunnel
    goroutines and the deferred wait, as an executable transition function.
    [url.Parse], crypto/x509 and gRPC are parameters. *)

From S2P Require Import Prelude GoBase Os AccessCode.

(** ** Certificates *)

(** crypto/x509: certificates (with the constraint they are added with), and the
    ones in a PEM text; [None] when it has none. *)
Class X509 := {
  Certificate : Type;
  AppendCertsFromPEM : bytes -> option (list Certificate);
}.

Section dial.
Context {X : X509}.

(** [loadPublicRootPool]: [system] is [x509.SystemCertPool], [None] when it fails
    or is nil; [roots] the parsed roots of the embedded bundle. *)
Fixpoint addMozillaRoots (roots : list (result goerr Certificate)) (pool : list Certificate)
  : result goerr (list Certificate) :=
  match roots with
  | [] => Ok pool
  | Err e :: _ => Err (EWrap "parsing embedded Mozilla root" e)
  | Ok c :: roots' => addMozillaRoots roots' (pool ++ [c])
  end.
Definition loadPublicRootPool (system : option (list Certificate)) (roots : list (result goerr Certificate))
  : result goerr (list Certificate) :=
  addMozillaRoots roots (default [] system).

(** [publicRootPool] is loaded once and shared; [public] is its contents. *)
Definition rootCertPool (d : fs) (public : result goerr (list Certificate)) (caFile : string) (fault : option goerr)
  : result goerr (list Certificate) :=
  match public with
  | Err e => Err e
  | Ok pool =>
      if bool_decide (caFile = "") then Ok pool
      else match ReadFile d caFile fault with
      | Err e => Err (EWrap "reading CA file" e)
      | Ok pem => match AppendCertsFromPEM pem with
                  | None => Err (ENew "CA file contains no certificates")
                  | Some cs => Ok (pool ++ cs)
                  end
      end
  end.

(** ** Dial *)

Record DialConfig := { dc_RelayURL : string; dc_CAFile : string; dc_Token : string; dc_AllowInsecure : bool }.

Inductive credentials := CredTLS (pool : list Certificate) | CredInsecure.

(** The host and the credentials of the connection. *)
Definition Dial (url_Parse : string -> result goerr URL) (d : fs) (public : result goerr (list Certificate))
    (cfg : DialConfig) (read new_client : option goerr) : result goerr (string * credentials) :=
  match url_Parse (dc_RelayURL cfg) with
  | Err _ => Err (ENew "invalid relay URL")
  | Ok u =>
      if bool_decide (u_Host u = "") then Err (ENew "invalid relay URL")
      else
      let creds :=
        if bool_decide (u_Scheme u = "https") then
          match rootCertPool d public (dc_CAFile cfg) read with Err e => Err e | Ok pool => Ok (CredTLS pool) end
        else if bool_decide (u_Scheme u = "http") then
          if negb (dc_AllowInsecure cfg) then Err (ENew "insecure relay requires --allow-insecure-relay") else Ok CredInsecure
        else Err (ENew "relay URL scheme must be https or http") in
      match creds with
      | Err e => Err e
      | Ok creds => match new_client with
                    | Some e => Err (EWrap "creating gRPC client" e)
                    | None => Ok (u_Host u, creds)
                    end
      end
  end.

(** ** RunClient *)

Record ClientConfig := {
  cl_Code : Code;
  cl_Listen : string;
  cl_Token : string;
  cl_CAFile : string;
  cl_AllowInsecure : bool;
  cl_Once : bool;
  cl_IdleTimeout : Z;
}.

Definition client_idle (cfg : ClientConfig) : Z :=
  if cl_IdleTimeout cfg <=? 0 then 30 * 60 * 1000000000 else cl_IdleTimeout cfg.

Inductive client_pc :=
| ClAccept                             (* ln.Accept *)
| ClWait (r : option goerr)            (* the deferred wg.Wait, before returning r *)
| ClDone (r : option goerr).

Record client_state := {
  cs_pc : client_pc;
  cs_ctx : bool;                       (* ctx is done *)
  cs_listener : bool;                  (* ln is open *)
  cs_conn : bool;                      (* the gRPC connection is open *)
  cs_creds : credentials;
  cs_accepted : nat;                   (* local connections accepted so far, numbered from 0 *)
  cs_locals : list nat;                (* those that are open *)
  cs_tunnels : list nat;               (* the goroutines running handleClientTunnel, by connection *)
}.

(** Up to the loop.  [listen] is the error of [net.Listen], if any. *)
Definition client_start (url_Parse : string -> result goerr URL) (d : fs) (public : result goerr (list Certificate))
    (cfg : ClientConfig) (read new_client listen : option goerr) : result goerr client_state :=
  match Dial url_Parse d public
          {| dc_RelayURL := RelayURL (cl_Code cfg); dc_CAFile := cl_CAFile cfg; dc_Token := cl_Token cfg;
             dc_AllowInsecure := cl_AllowInsecure cfg |} read new_client with
  | Err e => Err e
  | Ok (_, creds) =>
      match listen with
      | Some e => Err (EWrap "listening locally" e)
      | None => Ok {| cs_pc := ClAccept; cs_ctx := false; cs_listener := true; cs_conn := true; cs_creds := creds;
                      cs_accepted := O; cs_locals := []; cs_tunnels := [] |}
      end
  end.

Inductive client_event :=
| CeCtxDone                            (* the context ends *)
| CeLnClose                            (* the goroutine that waits for it closes ln *)
| CeAccept                             (* Accept returns a connection *)
| CeAcceptErr (e : goerr)
| CeTunnelEnd (i : nat)                (* handleClientTunnel returns; local.Close *)
| CeWaited.                            (* wg.Wait returns; ln.Close, conn.Close *)

Definition with_pc (k : client_pc) (s : client_state) : client_state :=
  {| cs_pc := k; cs_ctx := cs_ctx s; cs_listener := cs_listener s; cs_conn := cs_conn s; cs_creds := cs_creds s;
     cs_accepted := cs_accepted s; cs_locals := cs_locals s; cs_tunnels := cs_tunnels s |}.

Definition client_step (cfg : ClientConfig) (s : client_state) (ev : client_event) : option client_state :=
  match ev, cs_pc s with
  | CeCtxDone, _ =>
      Some {| cs_pc := cs_pc s; cs_ctx := true; cs_listener := cs_listener s; cs_conn := cs_conn s;
              cs_creds := cs_creds s; cs_accepted := cs_accepted s; cs_locals := cs_locals s; cs_tunnels := cs_tunnels s |}
  | CeLnClose, _ =>
      if cs_ctx s then
        Some {| cs_pc := cs_pc s; cs_ctx := true; cs_listener := false; cs_conn := cs_conn s;
                cs_creds := cs_creds s; cs_accepted := cs_accepted s; cs_locals := cs_locals s; cs_tunnels := cs_tunnels s |}
      else None
  | CeAccept, ClAccept =>
      if cs_listener s then
        Some {| cs_pc := if cl_Once cfg then ClWait None else ClAccept;
                cs_ctx := cs_ctx s; cs_listener := true; cs_conn := cs_conn s; cs_creds := cs_creds s;
                cs_accepted := S (cs_accepted s); cs_locals := cs_accepted s :: cs_locals s;
                cs_tunnels := cs_accepted s :: cs_tunnels s |}
      else None
  | CeAcceptErr e, ClAccept =>
      (* a closed listener only fails with net.ErrClosed *)
      if cs_listener s || errors_Is e ENetClosed then
        if cs_ctx s || errors_Is e ENetClosed then Some (with_pc (ClWait None) s)
        else Some (with_pc (ClWait (Some (EWrap "accepting local connection" e))) s)
      else None
  | CeTunnelEnd i, _ =>
      if decide (i ∈ cs_tunnels s) then
        Some {| cs_pc := cs_pc s; cs_ctx := cs_ctx s; cs_listener := cs_listener s; cs_conn := cs_conn s;
                cs_creds := cs_creds s; cs_accepted := cs_accepted s;
                cs_locals := remove Nat.eq_dec i (cs_locals s); cs_tunnels := remove Nat.eq_dec i (cs_tunnels s) |}
      else None
  | CeWaited, ClWait r =>
      match cs_tunnels s with
      | [] => Some {| cs_pc := ClDone r; cs_ctx := cs_ctx s; cs_listener := false; cs_conn := false;
                      cs_creds := cs_creds s; cs_accepted := cs_accepted s; cs_locals := cs_locals s; cs_tunnels := [] |}
      | _ => None
      end
  | _, _ => None
  end.

Fixpoint client_run (cfg : ClientConfig) (s : client_state) (evs : list client_event) : option client_state :=
  match evs with
  | [] => Some s
  | ev :: evs' => s' ← client_step cfg s ev; client_run cfg s' evs'
  end.
End dial.

(** ** Invariant *)

Section invariant.
Context {X : X509}.

Record client_inv (cfg : ClientConfig) (s : client_state) : Prop := {
  ci_creds : cs_creds s = CredInsecure -> cl_AllowInsecure cfg = true;
  ci_locals : cs_locals s = cs_tunnels s;
  ci_nodup : NoDup (cs_tunnels s);
  ci_fresh : forall i, i ∈ cs_tunnels s -> (i < cs_accepted s)%nat;
  ci_once : cl_Once cfg = true -> (cs_accepted s <= match cs_pc s with ClAccept => 0 | _ => 1 end)%nat;
  ci_conn : cs_conn s = match cs_pc s with ClDone _ => false | _ => true end;
  ci_listener : cs_listener s = false -> cs_ctx s = true \/ exists r, cs_pc s = ClDone r;
  ci_done : forall r, cs_pc s = ClDone r -> cs_tunnels s = [] /\ cs_listener s = false;
}.

Lemma remove_nodup i (l : list nat) : NoDup l -> NoDup (remove Nat.eq_dec i l) /\ forall j, j ∈ remove Nat.eq_dec i l -> j ∈ l.
Proof.
  intros Hl. assert (Hs : forall j, j ∈ remove Nat.eq_dec i l -> j ∈ l).
  { intros j Hj. apply list_elem_of_In in Hj. apply in_remove in Hj as [Hj _]. by apply list_elem_of_In. }
  split; [|done]. clear Hs. induction Hl as [|x l Hx Hl IH]; simpl; [constructor|]. destruct (Nat.eq_dec i x); [done|].
  constructor; [|done]. intros Hin. apply Hx. apply list_elem_of_In in Hin. apply in_remove in Hin as [Hin _].
  by apply list_elem_of_In.
Qed.

Lemma remove_head i (l : list nat) : NoDup (i :: l) -> remove Nat.eq_dec i (i :: l) = l.
Proof.
  intros Hn. inversion Hn as [|? ? Hi _]; subst. simpl. destruct (Nat.eq_dec i i); [|done].
  apply notin_remove. by rewrite <- list_elem_of_In.
Qed.

Lemma client_start_inv url d public cfg rd nc ln s :
  client_start url d public cfg rd nc ln = Ok s -> client_inv cfg s.
Proof.
  unfold client_start, Dial. intros H. destruct (url _) as [u|]; [|done]. case_bool_decide; [done|].
  destruct (if bool_decide (u_Scheme u = "https") then _ else _) as [creds|] eqn:Hc; [|done].
  destruct nc; [done|]. destruct ln; [done|]. simplify_eq. split; simpl; try done; [|constructor|by intros i Hi; apply not_elem_of_nil in Hi].
  intros ->. simpl in Hc. case_bool_decide; [by destruct (rootCertPool _ _ _ _)|]. case_bool_decide; [|done].
  by destruct (cl_AllowInsecure cfg).
Qed.

Lemma client_step_inv cfg s ev s' : client_inv cfg s -> client_step cfg s ev = Some s' -> client_inv cfg s'.
Proof.
  intros [I1 I2 I3 I4 I5 I6 I7 I8] H. unfold client_step in H.
  destruct ev as [| | |e|i|].
  - simplify_eq. split; simpl; auto.
  - destruct (cs_ctx s); [|done]. simplify_eq. split; simpl; auto. naive_solver.
  - destruct (cs_pc s) eqn:Hp; [|done..]. destruct (cs_listener s); [|done]. simplify_eq.
    split; simpl; auto.
    + by f_equal.
    + constructor; [|done]. intros Hin. apply I4 in Hin. lia.
    + intros i [->|Hin]%elem_of_cons; [lia|]. apply I4 in Hin. lia.
    + intros Ho. rewrite Ho. specialize (I5 Ho). lia.
    + by destruct (cl_Once cfg).
    + done.
    + intros r. by destruct (cl_Once cfg).
  - destruct (cs_pc s) eqn:Hp; [|done..]. destruct (_ || _); [|done].
    assert (Hl : cs_listener s = false -> cs_ctx s = true) by (intros Hl; destruct (I7 Hl) as [?|[r Hr]]; [done|congruence]).
    assert (Ho : cl_Once cfg = true -> (cs_accepted s <= 1)%nat) by (intros Ho; specialize (I5 Ho); lia).
    destruct (_ || _); simplify_eq; split; simpl; auto; done.
  - case_decide; [|done]. simplify_eq. destruct (remove_nodup i _ I3) as [N1 N2]. split; simpl; auto.
    + by rewrite I2.
    + intros r Hr. by destruct (I8 r Hr) as [-> ?].
  - destruct (cs_pc s) as [|r|r] eqn:Hp; [done| |done]. destruct (cs_tunnels s) eqn:Ht; [|done]. simplify_eq.
    split; simpl; auto. naive_solver.
Qed.

Lemma client_run_inv cfg s evs s' : client_inv cfg s -> client_run cfg s evs = Some s' -> client_inv cfg s'.
Proof.
  revert s. induction evs as [|ev evs IH]; intros s Hs H; simplify_eq/=; [done|].
  destruct (client_step cfg s ev) eqn:E; simplify_eq/=. eapply IH; [|done]. by eapply client_step_inv.
Qed.

(** *** Stopping *)

(** The tunnels end one by one. *)
Lemma drain_run cfg s :
  NoDup (cs_tunnels s) -> exists s', client_run cfg s (CeTunnelEnd <$> cs_tunnels s) = Some s' /\
    cs_tunnels s' = [] /\ cs_pc s' = cs_pc s.
Proof.
  remember (cs_tunnels s) as l eqn:Hl. revert s Hl. induction l as [|i l IH]; intros s Hl Hn; [by exists s|].
  rewrite fmap_cons. cbn [client_run client_step]. rewrite <- Hl. rewrite decide_True by left.
  rewrite remove_head by done. cbn [mbind option_bind].
  match goal with |- exists s', client_run cfg ?x _ = _ /\ _ => set (s1 := x) end.
  destruct (IH s1) as (s' & E & H1 & H2); [done|by inversion Hn|]. by exists s'.
Qed.

Lemma client_run_app cfg s a b : client_run cfg s (a ++ b) = s' ← client_run cfg s a; client_run cfg s' b.
Proof. revert s. induction a as [|ev a IH]; intros s; simpl; [done|]. by destruct (client_step cfg s ev); simpl. Qed.

(** Once the context is done, closing the listener and the end of the tunnels is
    all it takes. *)
Definition stop_events (s : client_state) : list client_event :=
  match cs_pc s with
  | ClAccept => [CeCtxDone; CeLnClose; CeAcceptErr ENetClosed] ++ (CeTunnelEnd <$> cs_tunnels s) ++ [CeWaited]
  | ClWait _ => (CeTunnelEnd <$> cs_tunnels s) ++ [CeWaited]
  | ClDone _ => []
  end.

Lemma client_drains cfg s r :
  NoDup (cs_tunnels s) -> cs_pc s = ClWait r ->
  exists s', client_run cfg s ((CeTunnelEnd <$> cs_tunnels s) ++ [CeWaited]) = Some s' /\ cs_pc s' = ClDone r.
Proof.
  intros Hn Hp. destruct (drain_run cfg s Hn) as (s1 & E & Ht & Hp1). rewrite client_run_app, E. simpl.
  rewrite Hp1, Hp, Ht. simpl. by eexists.
Qed.

Lemma client_stops cfg s :
  client_inv cfg s -> exists s' r, client_run cfg s (stop_events s) = Some s' /\ cs_pc s' = ClDone r /\
    (cs_pc s = ClAccept -> r = None).
Proof.
  intros I. pose proof (ci_nodup _ _ I) as Hn. unfold stop_events. destruct (cs_pc s) as [|r|r] eqn:Hp.
  - cbn [app client_run client_step cs_pc cs_ctx cs_listener mbind option_bind]. rewrite Hp.
    cbn [errors_Is orb]. rewrite bool_decide_eq_true_2 by done. cbn [orb mbind option_bind].
    match goal with |- exists s' r, client_run cfg ?x _ = _ /\ _ => destruct (client_drains cfg x None) as (s' & E & Hd); [done|done|] end.
    exists s', None. done.
  - destruct (client_drains cfg s r Hn Hp) as (s' & E & Hd). by exists s', r.
  - by exists s, r.
Qed.
End invariant.

(** ** Properties *)

(** C20: the client process.  In every state [RunClient] can reach: the relay
    connection is cleartext only if that was allowed; the local connections that
    are open are exactly those with a running tunnel, so none leaks; with [Once] at
    most one is ever accepted; the gRPC connection outlives every tunnel; when
    [RunClient] has returned no tunnel runs and everything is closed.  And from
    every state it comes to an end by the context, the listener and the running
    tunnels alone, without an error if it was still accepting. *)
Theorem client_shutdown {X : X509} url d public cfg rd nc ln s0 evs s :
  client_start url d public cfg rd nc ln = Ok s0 -> client_run cfg s0 evs = Some s ->
  (cs_creds s = CredInsecure -> cl_AllowInsecure cfg = true) /\
  (cs_locals s = cs_tunnels s /\ NoDup (cs_tunnels s)) /\
  (cl_Once cfg = true -> (cs_accepted s <= 1)%nat) /\
  (cs_tunnels s <> [] -> cs_conn s = true) /\
  (forall r, cs_pc s = ClDone r -> cs_tunnels s = [] /\ cs_locals s = [] /\ cs_listener s = false /\ cs_conn s = false) /\
  (exists s' r, client_run cfg s (stop_events s) = Some s' /\ cs_pc s' = ClDone r /\ (cs_pc s = ClAccept -> r = None)).
Proof.
  intros Hs Hr. pose proof (client_run_inv _ _ _ _ (client_start_inv _ _ _ _ _ _ _ _ Hs) Hr) as I.
  pose proof I as [I1 I2 I3 I4 I5 I6 I7 I8]. split_and!; [done|done|done| | | |].
  - intros Ho. specialize (I5 Ho). destruct (cs_pc s); lia.
  - intros Ht. rewrite I6. destruct (cs_pc s) as [| |r] eqn:Hp; [done..|]. by destruct (I8 r eq_refl).
  - intros r Hp. rewrite I2, I6, Hp. by destruct (I8 r Hp) as [-> ->].
  - by apply client_stops.
Qed.

(** ** Witness *)

Module PlainX509.
#[global] Instance plain_x509 : X509 := {| Certificate := bytes; AppendCertsFromPEM := fun b => Some [b] |}.
End PlainX509.

#[local] Existing Instance PlainX509.plain_x509.

Definition demo_client_config : ClientConfig :=
  {| cl_Code := demo_code; cl_Listen := "127.0.0.1:0"; cl_Token := ""; cl_CAFile := ""; cl_AllowInsecure := false;
     cl_Once := false; cl_IdleTimeout := 0 |}.
Definition demo_client_start : client_state :=
  {| cs_pc := ClAccept; cs_ctx := false; cs_listener := true; cs_conn := true; cs_creds := CredTLS [[x01]];
     cs_accepted := O; cs_locals := []; cs_tunnels := [] |}.
(** Two connections, the first of which has ended. *)
Definition demo_two : client_state :=
  {| cs_pc := ClAccept; cs_ctx := false; cs_listener := true; cs_conn := true; cs_creds := CredTLS [[x01]];
     cs_accepted := 2%nat; cs_locals := [1%nat]; cs_tunnels := [1%nat] |}.

Lemma client_shutdown_witness :
  cs_conn demo_two = true /\
  exists s' r, client_run demo_client_config demo_two (stop_events demo_two) = Some s' /\ cs_pc s' = ClDone r /\
    (cs_pc demo_two = ClAccept -> r = None).
Proof.
  destruct (client_shutdown (X := PlainX509.plain_x509) demo_parse ∅ (Ok [[x01]]) demo_client_config None None None demo_client_start
    [CeAccept; CeAccept; CeTunnelEnd 0] demo_two) as (_ & _ & _ & Hc & _ & Hs);
    [vm_compute; reflexivity|vm_compute; reflexivity|].
  split; [apply Hc; discriminate|exact Hs].
Defined.
