(* ===== verification/Cli.v ===== *)
(** * The command line (internal/cli)

    [relaycat ssh]: how its input is resolved and how OpenSSH is called (ssh.go);
    the names and arguments the service commands accept (service.go); tokens
    (endpoint/grpc.go) and paths (root.go). *)

From S2P Require Import Prelude GoBase Utf8 GoStrings FilePath Os NetAddr AccessCode Systemd.

(** ** Paths and tokens *)

(** [os.UserHomeDir] is [None] when it fails. *)
Definition expandHome (home : option string) (path : string) : string :=
  match cut_prefix "~/" path with
  | Some rest => match home with
                 | Some h => go_string (Join (go_bytes h) (go_bytes rest))
                 | None => path
                 end
  | None => path
  end.

Definition ReadToken (d : fs) (getenv : string -> string) (fault : option goerr) (path envName : string)
  : result goerr string :=
  if bool_decide (path = "") then Ok (go_string (TrimSpace (go_bytes (getenv envName))))
  else match ReadFile d path fault with
  | Err e => Err (EWrap "reading token file" e)
  | Ok b => Ok (go_string (TrimSpace b))
  end.

Example expandHome_example : expandHome (Some "/home/u/") "~/.ssh/id" = "/home/u/.ssh/id".
Proof. vm_compute. reflexivity. Qed.

(** ** relaycat ssh *)

Record sshOptions := {
  o_codeFile : string;
  o_user : string;
  o_identityFile : string;
  o_tokenFile : string;
  o_caFile : string;
  o_sshOptions : list string;
  o_allowInsecure : bool;
  o_noAuth : bool;
  o_acceptNewHost : bool;
  o_idleTimeout : Z;
  o_connectionCode : string;
  o_remoteCommand : list string;
}.

Definition set_input (o : sshOptions) (user code : string) (remote : list string) : sshOptions :=
  {| o_codeFile := o_codeFile o; o_user := user; o_identityFile := o_identityFile o; o_tokenFile := o_tokenFile o;
     o_caFile := o_caFile o; o_sshOptions := o_sshOptions o; o_allowInsecure := o_allowInsecure o;
     o_noAuth := o_noAuth o; o_acceptNewHost := o_acceptNewHost o; o_idleTimeout := o_idleTimeout o;
     o_connectionCode := code; o_remoteCommand := remote |}.

Definition between (lo hi r : Z) : bool := (lo <=? r) && (r <=? hi).
Definition validSSHUserStart (r : Z) : bool :=
  between 97 122 r || between 65 90 r || between 48 57 r || (r =? 95).
(** Letters, digits and "._-". *)
Definition valid_user_rune (r : Z) : bool :=
  between 97 122 r || between 65 90 r || between 48 57 r || (r =? 46) || (r =? 95) || (r =? 45).
Definition validSSHUser (user : string) : bool :=
  match runes (go_bytes user) with
  | [] => false
  | r :: rs => validSSHUserStart r && forallb valid_user_rune (r :: rs)
  end.

(** What [resolveInput] reads besides its arguments. *)
Record ssh_env := {
  sh_windows : bool;
  sh_home : option string;
  sh_fs : fs;
  sh_stat : option goerr;
  sh_read : option goerr;
  sh_getenv : string -> string;
}.

(** The first argument: a code, a user and a code, or the command. *)
Definition resolve_args (o : sshOptions) (args : list string) : result goerr sshOptions :=
  let o := set_input o (o_user o) (o_connectionCode o) args in
  match args with
  | [] => Ok o
  | first :: rest =>
      let first := go_bytes first in
      let split :=
        match Index first (x40 :: go_bytes CodePrefix) with
        | Some i =>
            if negb (bool_decide (o_user o = "relaycat"))
            then Err (ENew "username cannot be specified both before the connection code and with --user")
            else Ok (go_string (take i first), drop (S i) first)
        | None => Ok (o_user o, first)
        end in
      result_bind split (fun '(user, candidate) =>
        if HasPrefix candidate (go_bytes CodePrefix)
        then Ok (set_input o user (go_string candidate) rest)
        else Ok (set_input o user (o_connectionCode o) args))
  end.

Definition resolveInput (env : ssh_env) (o : sshOptions) (args : list string) : result goerr sshOptions :=
  result_bind (resolve_args o args) (fun o =>
  if negb (bool_decide (o_connectionCode o = "")) && negb (bool_decide (o_codeFile o = ""))
  then Err (ENew "connection code cannot be specified both as an argument and with --code-file")
  else
  let from_file :=
    if bool_decide (o_connectionCode o = "") && negb (bool_decide (o_codeFile o = "")) then
      let path := expandHome (sh_home env) (o_codeFile o) in
      match CheckPrivateFile (sh_windows env) (sh_fs env) path (sh_stat env) with
      | Some e => Err e
      | None => match ReadFile (sh_fs env) path (sh_read env) with
                | Err e => Err (EWrap "reading connection code file" e)
                | Ok data => Ok (go_string (TrimSpace data))
                end
      end
    else Ok (o_connectionCode o) in
  result_bind from_file (fun code =>
  let code := if bool_decide (code = "") then go_string (TrimSpace (go_bytes (sh_getenv env "RELAYCAT_CODE"))) else code in
  if bool_decide (code = "")
  then Err (ENew "connection code is required as an argument, --code-file, or RELAYCAT_CODE")
  else if negb (validSSHUser (o_user o)) then Err (ENew "SSH username contains unsupported characters")
  else Ok (set_input o (o_user o) code (o_remoteCommand o)))).

(** [hex.EncodeToString] *)
Definition hex_encode (b : bytes) : bytes := flat_map (fun c => [hex_digit (bval c / 16); hex_digit (bval c mod 16)]) b.

(** The options before the destination. *)
Definition ssh_flags (home : option string) (port : bytes) (code : Code) (opts : sshOptions) : list string :=
  ["-p"; go_string port; "-o"; "HostKeyAlias=relaycat-" +:+ go_string (hex_encode (RouteID code))] ++
  (if bool_decide (o_identityFile opts = "") then [] else ["-i"; expandHome home (o_identityFile opts)]) ++
  (if o_noAuth opts then ["-o"; "PubkeyAuthentication=no"; "-o"; "PasswordAuthentication=no"] else []) ++
  (if o_acceptNewHost opts then ["-o"; "StrictHostKeyChecking=accept-new"] else []) ++
  flat_map (fun o => ["-o"; o]) (o_sshOptions opts).

Definition buildOpenSSHArgs (home : option string) (addr : string) (code : Code) (opts : sshOptions)
  : result goerr (list string) :=
  match SplitHostPort (go_bytes addr) with
  | Err e => Err (EWrap "reading temporary tunnel address" e)
  | Ok (_, port) => Ok (ssh_flags home port code opts ++ [o_user opts +:+ "@127.0.0.1"] ++ o_remoteCommand opts)
  end.

(** [strings.EqualFold] with an ASCII second argument: letters differ only in
    case, and the Kelvin sign and the long s fold to k and s. *)
Definition fold_rune (r c : Z) : bool :=
  (r =? c) || (between 65 90 c && (r =? c + 32)) || (between 97 122 c && (r =? c - 32)) ||
  (((c =? 75) || (c =? 107)) && (r =? 8490)) || (((c =? 83) || (c =? 115)) && (r =? 383)).
Fixpoint fold_runes (rs : list Z) (t : bytes) : bool :=
  match rs, t with
  | [], [] => true
  | r :: rs', c :: t' => fold_rune r (bval c) && fold_runes rs' t'
  | _, _ => false
  end.
Definition EqualFold (s t : bytes) : bool := fold_runes (runes s) t.

Definition withoutEnvironment (environment : list string) (names : list string) : list string :=
  List.filter (fun entry => let '(name, _, _) := Cut x3d (go_bytes entry) in
                       negb (existsb (fun sensitive => EqualFold name (go_bytes sensitive)) names)) environment.

(** The arguments and the environment [runOpenSSH] starts ssh with. *)
Definition runOpenSSH (home : option string) (environ : list string) (addr : string) (code : Code) (opts : sshOptions)
  : result goerr (list string * list string) :=
  result_bind (buildOpenSSHArgs home addr code opts) (fun args =>
    Ok (args, withoutEnvironment environ ["RELAYCAT_CODE"; "RELAYCAT_TOKEN"])).

(** ** relaycat service *)

Definition isServiceNameStart (value : byte) : bool :=
  in_range 97 122 value || in_range 65 90 value || in_range 48 57 value.
Definition service_name_error : goerr :=
  ENew "service name must be 1-256 characters using letters, digits, dot, underscore, at, or hyphen".
Definition service_name_char (c : byte) : bool :=
  isServiceNameStart c || bool_decide (c ∈ [x2e; x5f; x40; x2d]).
Definition validateServiceName (name : string) : option goerr :=
  match go_bytes name with
  | [] => Some service_name_error
  | c :: rest =>
      if (256 <? len (c :: rest)) || negb (isServiceNameStart c) then Some service_name_error
      else if forallb service_name_char rest then None else Some service_name_error
  end.

Definition parseStartup (value : string) : result goerr bool :=
  if bool_decide (value = "automatic") then Ok true
  else if bool_decide (value = "manual") then Ok false
  else Err (ENew "startup must be automatic or manual").

(** The arguments [service install] accepts; [dash] is the position of "--" (-1 when
    it is missing).  Cobra checks them before the configuration is applied, so
    [name] is the one of the command line. *)
Definition install_Args (dash : Z) (args : list string) (name : string) : option goerr :=
  if dash <? 0 then Some (ENew "service command must follow --")
  else match args with
  | [] => Some (ENew "a Relaycat command is required after --")
  | first :: _ =>
      if bool_decide (first = "service") then Some (ENew "a service cannot run another service command")
      else validateServiceName name
  end.

(** What it passes on; [executable] is the result of [os.Executable]. *)
Definition service_install (args : list string) (name displayName description startup : string)
    (executable : result goerr string) : result goerr InstallConfig :=
  match parseStartup startup with
  | Err e => Err e
  | Ok automatic =>
      match executable with
      | Err e => Err (EWrap "locating Relaycat executable" e)
      | Ok exe =>
          Ok {| ic_Name := name;
                ic_DisplayName := if bool_decide (displayName = "") then name else displayName;
                ic_Description := description; ic_Executable := exe; ic_Arguments := args;
                ic_Automatic := automatic |}
      end
  end.

(** ** Lemmas *)

Lemma between_spec lo hi r : between lo hi r = true <-> lo <= r <= hi.
Proof. unfold between. rewrite andb_true_iff, !Z.leb_le. done. Qed.

(** A user name ssh cannot take for anything else. *)
Definition user_char (b : byte) : Prop :=
  97 <= bval b <= 122 \/ 65 <= bval b <= 90 \/ 48 <= bval b <= 57 \/ b ∈ [x2e; x5f; x2d].
Definition user_start (b : byte) : Prop :=
  97 <= bval b <= 122 \/ 65 <= bval b <= 90 \/ 48 <= bval b <= 57 \/ b = x5f.

Lemma byte_is b c : bval b = bval c -> b = c.
Proof. apply bval_inj. Qed.

Lemma validSSHUser_spec user :
  validSSHUser user = true <->
  exists b rest, go_bytes user = b :: rest /\ user_start b /\ Forall user_char (b :: rest).
Proof.
  unfold validSSHUser.
  assert (Hc : forall b, valid_user_rune (bval b) = true <-> user_char b).
  { intros b. unfold valid_user_rune, user_char. rewrite !orb_true_iff, !between_spec, !Z.eqb_eq, !elem_of_cons.
    assert (H1 : bval b = 46 <-> b = x2e) by (split; [apply (byte_is b x2e)|by intros ->]).
    assert (H2 : bval b = 95 <-> b = x5f) by (split; [apply (byte_is b x5f)|by intros ->]).
    assert (H3 : bval b = 45 <-> b = x2d) by (split; [apply (byte_is b x2d)|by intros ->]).
    rewrite H1, H2, H3, elem_of_nil. tauto. }
  assert (Hs : forall b, validSSHUserStart (bval b) = true <-> user_start b).
  { intros b. unfold validSSHUserStart, user_start. rewrite !orb_true_iff, !between_spec, Z.eqb_eq.
    assert (H2 : bval b = 95 <-> b = x5f) by (split; [apply (byte_is b x5f)|by intros ->]). rewrite H2. tauto. }
  assert (Ha : forall s, forallb valid_user_rune (runes s) = true -> runes s = map bval s).
  { intros s H. apply runes_ascii, ascii_runes, Forall_forall. intros r Hr. rewrite forallb_forall in H.
    apply H in Hr. unfold valid_user_rune in Hr. rewrite !orb_true_iff, !between_spec, !Z.eqb_eq in Hr. lia. }
  split.
  - intros H. destruct (runes (go_bytes user)) as [|r rs] eqn:Hr; [done|]. apply andb_true_iff in H as [H1 H2].
    rewrite <- Hr in H2. pose proof (Ha _ H2) as E. rewrite E in H2. rewrite Hr in E.
    destruct (go_bytes user) as [|b rest]; [done|]. injection E as -> ->. exists b, rest. split_and!; [done|by apply Hs|].
    apply Forall_forall. intros c Hin. apply Hc. rewrite forallb_forall in H2. apply H2. by apply in_map.
  - intros (b & rest & -> & H1 & H2). rewrite runes_ascii.
    2: { eapply Forall_impl; [|done]. intros c Hcc. apply Hc in Hcc. unfold valid_user_rune in Hcc.
         rewrite !orb_true_iff, !between_spec, !Z.eqb_eq in Hcc. lia. }
    cbn [map]. apply andb_true_iff. split; [by apply Hs|]. change (bval b :: map bval rest) with (map bval (b :: rest)).
    apply forallb_forall. intros r Hin. apply in_map_iff in Hin as (c & <- & Hin). apply Hc.
    rewrite Forall_forall in H2. by apply H2.
Qed.

(** *** Removing variables *)

Definition lower (b : byte) : Z := if between 65 90 (bval b) then bval b + 32 else bval b.

Lemma fold_rune_lower b c :
  bval b < 128 -> bval c < 128 -> fold_rune (bval b) (bval c) = true <-> lower b = lower c.
Proof.
  intros Hb Hc. unfold fold_rune, lower. rewrite !orb_true_iff, !andb_true_iff, !orb_true_iff, !Z.eqb_eq, !between_spec.
  destruct (between 65 90 (bval b)) eqn:E1, (between 65 90 (bval c)) eqn:E2;
    rewrite ?between_spec in E1; rewrite ?between_spec in E2; rewrite <- ?not_true_iff_false, ?between_spec in *; lia.
Qed.

Lemma EqualFold_lower s t :
  Forall (fun b => bval b < 128) s -> Forall (fun b => bval b < 128) t ->
  EqualFold s t = true <-> map lower s = map lower t.
Proof.
  intros Hs. unfold EqualFold. rewrite runes_ascii by done. clear - Hs. revert t.
  induction Hs as [|b s Hb Hs IH]; intros [|c t] Ht; try done. inversion Ht as [|? ? Hc Ht']; subst.
  cbn [map fold_runes]. rewrite andb_true_iff, fold_rune_lower, IH by done. split; [by intros [-> ->]|by intros [= -> ->]].
Qed.

(** A name that is the given one up to the case of its letters is ASCII too. *)
Lemma lower_ascii s t :
  map lower s = map lower t -> Forall (fun b => bval b < 128) t -> Forall (fun b => bval b < 128) s.
Proof.
  revert t. induction s as [|b s IH]; intros [|c t] H Ht; try done. injection H as Hl H.
  inversion Ht; subst. constructor; [|by eapply IH]. unfold lower in Hl.
  destruct (between 65 90 (bval b)) eqn:E1, (between 65 90 (bval c)) eqn:E2; rewrite ?between_spec in *; lia.
Qed.

(** *** Input *)

Lemma resolve_args_Ok o args o' :
  resolve_args o args = Ok o' ->
  o_codeFile o' = o_codeFile o /\
  ((o_remoteCommand o' = args /\ o_connectionCode o' = o_connectionCode o) \/
   exists first rest, args = first :: rest /\ o_remoteCommand o' = rest /\ o_connectionCode o' <> "" /\
     (first = o_connectionCode o' \/ first = o_user o' +:+ "@" +:+ o_connectionCode o')).
Proof.
  unfold resolve_args. intros H. destruct args as [|first rest]; [by simplify_eq; split; [|left]|].
  apply result_bind_Ok in H as ([user cand] & Hs & H).
  destruct (HasPrefix cand (go_bytes CodePrefix)) eqn:Hp; simplify_eq; (split; [done|]); [right|by left].
  exists first, rest. apply HasPrefix_spec in Hp as [k Hk]. split_and!; [done|done| |].
  { simpl. intros E. rewrite <- (go_bytes_string cand), E in Hk. done. }
  simpl. destruct (Index _ _) as [i|] eqn:Hi.
  - case_match; [done|]. simplify_eq. right. apply go_bytes_inj. rewrite !go_bytes_app, !go_bytes_string.
    apply Index_split in Hi as [r Hr]. rewrite <- (take_drop i (go_bytes first)) at 1. f_equal.
    assert (E : drop (S i) (go_bytes first) = drop 1 (drop i (go_bytes first))) by (rewrite drop_drop; f_equal; lia).
    rewrite E, Hr in *. by simplify_eq/=.
  - injection Hs as <- <-. left. by rewrite go_string_bytes.
Qed.

Lemma resolveInput_Ok env o args o' :
  o_connectionCode o = "" -> resolveInput env o args = Ok o' ->
  validSSHUser (o_user o') = true /\ o_connectionCode o' <> "" /\
  (o_remoteCommand o' = args \/
   exists first rest, args = first :: rest /\ o_remoteCommand o' = rest /\
     (first = o_connectionCode o' \/ first = o_user o' +:+ "@" +:+ o_connectionCode o')).
Proof.
  unfold resolveInput. intros Ho H. apply result_bind_Ok in H as (o1 & H1 & H).
  apply resolve_args_Ok in H1 as [_ H1]. destruct (negb _ && negb _) in H; [done|]. apply result_bind_Ok in H as (code & Hc & H).
  cbn zeta in H. set (code' := if bool_decide (code = "") then _ else code) in H.
  destruct (bool_decide (code' = "")) eqn:Hne; [done|]. apply bool_decide_eq_false_1 in Hne.
  destruct (negb (validSSHUser (o_user o1))) eqn:Hu; [done|]. apply negb_false_iff in Hu. injection H as <-. cbn [set_input o_user o_connectionCode o_remoteCommand].
  split_and!; [done|done|]. destruct H1 as [[-> _]|(first & rest & -> & -> & Hcne & Hf)]; [by left|right].
  exists first, rest. split_and!; [done|done|].
  rewrite (bool_decide_eq_false_2 (o_connectionCode o1 = "")) in Hc by done. simpl in Hc. injection Hc as <-.
  assert (E : code' = o_connectionCode o1) by (unfold code'; by rewrite bool_decide_eq_false_2). by rewrite E.
Qed.

(** Pairs of an option and its value. *)
Inductive option_pairs : list string -> Prop :=
| pairs_nil : option_pairs []
| pairs_cons flag value l : flag ∈ ["-p"; "-o"; "-i"] -> option_pairs l -> option_pairs (flag :: value :: l).

Lemma option_pairs_app a b : option_pairs a -> option_pairs b -> option_pairs (a ++ b).
Proof. induction 1; [done|]. intros Hb. constructor; auto. Qed.

#[local] Hint Constructors option_pairs : relaycat.
#[local] Hint Extern 5 (_ ∈ _) => set_solver : relaycat.

Lemma buildOpenSSHArgs_Ok home addr code opts argv :
  buildOpenSSHArgs home addr code opts = Ok argv ->
  exists os, argv = os ++ (o_user opts +:+ "@127.0.0.1") :: o_remoteCommand opts /\ option_pairs os.
Proof.
  unfold buildOpenSSHArgs. intros H. destruct (SplitHostPort _) as [[h port]|]; [|done]. injection H as <-.
  exists (ssh_flags home port code opts). split; [done|]. unfold ssh_flags.
  repeat apply option_pairs_app; repeat case_match; eauto 6 with relaycat.
  induction (o_sshOptions opts); simpl; eauto with relaycat.
Qed.

(** ** Properties *)

Definition var_name (entry : string) : bytes := (Cut x3d (go_bytes entry)).1.1.

(** A variable with the name of a secret, in any mix of cases. *)
Definition secret_var (entry : string) : Prop :=
  exists n, n ∈ ["RELAYCAT_CODE"; "RELAYCAT_TOKEN"] /\ map lower (var_name entry) = map lower (go_bytes n).

Lemma secret_ascii n : n ∈ ["RELAYCAT_CODE"; "RELAYCAT_TOKEN"] -> Forall (fun b => bval b < 128) (go_bytes n).
Proof.
  intros H. apply Forall_forall. intros b Hb. apply Z.ltb_lt.
  assert (Ha : forallb (fun n => forallb (fun b => bval b <? 128) (go_bytes n)) ["RELAYCAT_CODE"; "RELAYCAT_TOKEN"] = true)
    by reflexivity.
  rewrite forallb_forall in Ha. apply list_elem_of_In in H. specialize (Ha n H). rewrite forallb_forall in Ha. by apply Ha.
Qed.

Lemma withoutEnvironment_secret entry environ :
  entry ∈ withoutEnvironment environ ["RELAYCAT_CODE"; "RELAYCAT_TOKEN"] -> entry ∈ environ /\ ~ secret_var entry.
Proof.
  unfold withoutEnvironment. rewrite list_elem_of_In, filter_In, <- list_elem_of_In. intros [Hin Hn]. split; [done|].
  intros (n & Hs & Hl). unfold var_name in Hl. destruct (Cut x3d (go_bytes entry)) as [[name v] ok]. simpl in Hl.
  apply negb_true_iff in Hn. apply not_true_iff_false in Hn. apply Hn. apply existsb_exists. exists n.
  split; [by apply list_elem_of_In|]. pose proof (secret_ascii n Hs) as Ha.
  apply EqualFold_lower; [by eapply lower_ascii|done|done].
Qed.

Lemma withoutEnvironment_keeps entry environ :
  entry ∈ environ -> Forall (fun b => bval b < 128) (var_name entry) -> ~ secret_var entry ->
  entry ∈ withoutEnvironment environ ["RELAYCAT_CODE"; "RELAYCAT_TOKEN"].
Proof.
  unfold withoutEnvironment, secret_var, var_name. intros Hin Ha Hs.
  rewrite list_elem_of_In, filter_In, <- list_elem_of_In. split; [done|].
  destruct (Cut x3d (go_bytes entry)) as [[name v] ok]. cbn [fst] in *.
  apply negb_true_iff, not_true_iff_false. intros He. apply Hs. apply existsb_exists in He as (n & Hn & He).
  apply list_elem_of_In in Hn. exists n. split; [done|]. apply EqualFold_lower; [done|by apply secret_ascii|done].
Qed.

(** C28: how ssh is called.  Before the destination there are only -p, -o and -i
    with their values; the destination is the validated user, an at sign and
    127.0.0.1, does not start with a hyphen or a dot and has no other at sign;
    after it comes the remote command, which is all the arguments or those after
    the one that carried the connection code.  The environment of ssh has no
    variable with the name of the code or token variable in any case, and keeps
    every other ASCII-named variable. *)
Theorem ssh_invocation env o args o' home environ addr code argv e :
  o_connectionCode o = "" -> resolveInput env o args = Ok o' ->
  runOpenSSH home environ addr code o' = Ok (argv, e) ->
  (exists os, argv = os ++ (o_user o' +:+ "@127.0.0.1") :: o_remoteCommand o' /\ option_pairs os) /\
  (exists b rest, go_bytes (o_user o') = b :: rest /\ user_start b /\ Forall user_char (b :: rest) /\
     Cut x40 (go_bytes (o_user o' +:+ "@127.0.0.1")) = (go_bytes (o_user o'), go_bytes "127.0.0.1", true)) /\
  (o_remoteCommand o' = args \/
   exists first rest, args = first :: rest /\ o_remoteCommand o' = rest /\
     (first = o_connectionCode o' \/ first = o_user o' +:+ "@" +:+ o_connectionCode o')) /\
  (forall entry, entry ∈ e -> entry ∈ environ /\ ~ secret_var entry) /\
  (forall entry, entry ∈ environ -> Forall (fun b => bval b < 128) (var_name entry) -> ~ secret_var entry -> entry ∈ e).
Proof.
  intros Ho Hr H. unfold runOpenSSH in H. apply result_bind_Ok in H as (argv' & Hb & H). injection H as <- <-.
  destruct (resolveInput_Ok _ _ _ _ Ho Hr) as (Hu & _ & Hc). apply validSSHUser_spec in Hu as (b & rest & Hg & Hs & Hf).
  split_and!; [by eapply buildOpenSSHArgs_Ok| |done| |].
  - exists b, rest. split_and!; [done|done|done|]. rewrite go_bytes_app. apply Cut_app. rewrite Hg.
    intros Hin. apply list_elem_of_In in Hin. rewrite Forall_forall in Hf. apply Hf in Hin.
    unfold user_char, bval in Hin. simpl in Hin. set_solver by lia.
  - intros entry. apply withoutEnvironment_secret.
  - intros entry. apply withoutEnvironment_keeps.
Qed.

Definition demo_options : sshOptions :=
  {| o_codeFile := ""; o_user := "relaycat"; o_identityFile := "~/.ssh/id"; o_tokenFile := ""; o_caFile := "";
     o_sshOptions := ["LogLevel=ERROR"]; o_allowInsecure := false; o_noAuth := true; o_acceptNewHost := true;
     o_idleTimeout := 0; o_connectionCode := ""; o_remoteCommand := [] |}.
Definition demo_ssh_env : ssh_env :=
  {| sh_windows := false; sh_home := Some "/home/u"; sh_fs := ∅; sh_stat := None; sh_read := None;
     sh_getenv := fun _ => "" |}.
Definition demo_resolved : sshOptions := set_input demo_options "alice" "rc1_abc" ["uname"; "-a"].
Definition demo_environ : list string := ["HOME=/home/u"; "relaycat_Token=s"; "RELAYCAT_CODE=x"; "LANG=C"].

Lemma ssh_invocation_witness :
  runOpenSSH (Some "/home/u") demo_environ "127.0.0.1:4000" demo_code demo_resolved
    = Ok (ssh_flags (Some "/home/u") (go_bytes "4000") demo_code demo_resolved ++ ["alice@127.0.0.1"; "uname"; "-a"],
          ["HOME=/home/u"; "LANG=C"]) /\
  (exists b rest, go_bytes "alice" = b :: rest /\ user_start b /\ Forall user_char (b :: rest) /\
     Cut x40 (go_bytes "alice@127.0.0.1") = (go_bytes "alice", go_bytes "127.0.0.1", true)).
Proof.
  assert (E : runOpenSSH (Some "/home/u") demo_environ "127.0.0.1:4000" demo_code demo_resolved
    = Ok (ssh_flags (Some "/home/u") (go_bytes "4000") demo_code demo_resolved ++ ["alice@127.0.0.1"; "uname"; "-a"],
          ["HOME=/home/u"; "LANG=C"])) by (vm_compute; reflexivity).
  split; [exact E|].
  exact (proj1 (proj2 (ssh_invocation demo_ssh_env demo_options ["alice@rc1_abc"; "uname"; "-a"] demo_resolved
    (Some "/home/u") demo_environ "127.0.0.1:4000" demo_code _ _ eq_refl ltac:(vm_compute; reflexivity) E))).
Defined.

(** A valid service name stays inside its directory and is never taken for an
    option. *)
Lemma service_name_plain name :
  validateServiceName name = None ->
  x2f ∉ go_bytes name /\ head (go_bytes name) <> Some x2d /\ head (go_bytes name) <> Some x2e /\ 1 <= len (go_bytes name) <= 256.
Proof.
  intros Hv. split_and!; unfold validateServiceName in Hv; destruct (go_bytes name) as [|c s]; try done;
    destruct (256 <? len (c :: s)) eqn:Hl; try done; destruct (isServiceNameStart c) eqn:Hc; try done; cbn in Hv.
  - destruct (forallb service_name_char s) eqn:Hf; [|done]. rewrite not_elem_of_cons. split; [by intros <-|].
    intros Hin. apply list_elem_of_In in Hin. rewrite forallb_forall in Hf. by apply Hf in Hin.
  - by intros [= ->].
  - by intros [= ->].
  - unfold len. simpl. lia.
  - apply Z.ltb_ge in Hl. unfold len in *. simpl in *. lia.
Qed.
