(* ===== verification/SshSession.v ===== *)
(** * Running a session's command (internal/sshserver/server.go, session_unix.go)

    [runWithPipes]: the command's two output streams are copied by two goroutines;
    the last one to end closes [done], and only then is the command waited for and
    its status sent.  The command, the pipes and the goroutines are interleaved
    freely.  [runWithPTY]: the terminal, its resize goroutine and the same end.
    [HandleConn]. *)

From S2P Require Import Prelude GoBase Os AccessCode Systemd Cli SshServer.

(** ** Pipes *)

Inductive stream := Stdout | Stderr.
#[global] Instance stream_eq_dec : EqDecision stream.
Proof. solve_decision. Defined.

(** An output stream: what the command wrote, what waits in the pipe, whether the
    command can still write, and what the session received. *)
Record pipe := { pi_written : bytes; pi_buffer : bytes; pi_open : bool; pi_received : bytes }.

Inductive copy_pc :=
| CopyRun                       (* io.Copy *)
| CopyDec                       (* streams.Add(-1) *)
| CopyTest (n : Z)              (* its result *)
| CopyEnd.
Record copier := { co_pc : copy_pc; co_failed : bool }.

(** Standard input: what the client sent and the command received, as a stream the
    other way round, and the goroutine that copies it and then closes the pipe. *)
Inductive feed_pc :=
| FeedCopy                      (* io.Copy(stdin, sess) *)
| FeedClose                     (* stdin.Close() *)
| FeedEnd.
Record feeder := { fd_pipe : pipe; fd_pc : feed_pc; fd_failed : bool }.

Inductive pipes_pc :=
| PwDone                        (* <-done *)
| PwWait                        (* cmd.Wait *)
| PwExited.

Record pipes_state := {
  pw_pc : pipes_pc;
  pw_pipe : stream -> pipe;
  pw_copy : stream -> copier;
  pw_in : feeder;
  pw_streams : Z;               (* the atomic.Int32 *)
  pw_done : bool;               (* done is closed *)
  pw_panic : bool;              (* done was closed twice *)
  pw_child : option (option cmd_error);  (* how the command ended *)
  pw_exits : list Z;            (* sess.Exit *)
}.

(** The int32 result of an addition. *)
Definition int32 (n : Z) : Z := (n + 2 ^ 31) mod 2 ^ 32 - 2 ^ 31.

Definition set {A} (f : stream -> A) (i : stream) (a : A) : stream -> A := fun j => if decide (j = i) then a else f j.

Definition new_pipe : pipe := {| pi_written := []; pi_buffer := []; pi_open := true; pi_received := [] |}.

(** After [cmd.Start]. *)
Definition pipes_start : pipes_state :=
  {| pw_pc := PwDone; pw_pipe := fun _ => new_pipe; pw_copy := fun _ => {| co_pc := CopyRun; co_failed := false |};
     pw_in := {| fd_pipe := new_pipe; fd_pc := FeedCopy; fd_failed := false |};
     pw_streams := 2; pw_done := false; pw_panic := false; pw_child := None; pw_exits := [] |}.

Inductive pipes_event :=
| PeWrite (i : stream) (b : bytes)       (* the command writes *)
| PeClose (i : stream)                   (* it, and every process it left, has closed a stream *)
| PeChild (r : option cmd_error)         (* it has ended *)
| PeCopy (i : stream) (n : nat)          (* io.Copy moves some bytes to the session *)
| PeCopyEOF (i : stream)                 (* it has met the end *)
| PeCopyErr (i : stream)                 (* the session is gone *)
| PeDec (i : stream)
| PeTest (i : stream)
| PeDone                                 (* <-done *)
| PeWait                                 (* cmd.Wait returns *)
| PeInput (b : bytes)                    (* the client sends *)
| PeInputEnd                             (* and ends its input *)
| PeFeed (n : nat)                       (* io.Copy moves some bytes to the command *)
| PeFeedEOF
| PeFeedErr                              (* the command reads no more, or the session is gone *)
| PeFeedClose.

Definition with_copy (i : stream) (c : copier) (s : pipes_state) : pipes_state :=
  {| pw_pc := pw_pc s; pw_pipe := pw_pipe s; pw_copy := set (pw_copy s) i c; pw_in := pw_in s; pw_streams := pw_streams s;
     pw_done := pw_done s; pw_panic := pw_panic s; pw_child := pw_child s; pw_exits := pw_exits s |}.
Definition with_pipe (i : stream) (p : pipe) (s : pipes_state) : pipes_state :=
  {| pw_pc := pw_pc s; pw_pipe := set (pw_pipe s) i p; pw_copy := pw_copy s; pw_in := pw_in s; pw_streams := pw_streams s;
     pw_done := pw_done s; pw_panic := pw_panic s; pw_child := pw_child s; pw_exits := pw_exits s |}.
Definition goto_copy (pc : copy_pc) (c : copier) : copier := {| co_pc := pc; co_failed := co_failed c |}.
Definition close_pipe (p : pipe) : pipe :=
  {| pi_written := pi_written p; pi_buffer := pi_buffer p; pi_open := false; pi_received := pi_received p |}.

Definition with_in (d : feeder) (s : pipes_state) : pipes_state :=
  {| pw_pc := pw_pc s; pw_pipe := pw_pipe s; pw_copy := pw_copy s; pw_in := d; pw_streams := pw_streams s;
     pw_done := pw_done s; pw_panic := pw_panic s; pw_child := pw_child s; pw_exits := pw_exits s |}.
Definition with_feed (p : pipe) (pc : feed_pc) (failed : bool) : feeder := {| fd_pipe := p; fd_pc := pc; fd_failed := failed |}.
Definition send (b : bytes) (p : pipe) : pipe :=
  {| pi_written := pi_written p ++ b; pi_buffer := pi_buffer p ++ b; pi_open := true; pi_received := pi_received p |}.
Definition move (n : nat) (p : pipe) : pipe :=
  {| pi_written := pi_written p; pi_buffer := drop n (pi_buffer p); pi_open := pi_open p;
     pi_received := pi_received p ++ take n (pi_buffer p) |}.

(** The goroutine of standard input and the client behind it. *)
Definition feed_step (d : feeder) (ev : pipes_event) : option feeder :=
  match ev, fd_pc d with
  | PeInput b, pc => if pi_open (fd_pipe d) then Some (with_feed (send b (fd_pipe d)) pc (fd_failed d)) else None
  | PeInputEnd, pc => if pi_open (fd_pipe d) then Some (with_feed (close_pipe (fd_pipe d)) pc (fd_failed d)) else None
  | PeFeed n, FeedCopy => Some (with_feed (move n (fd_pipe d)) FeedCopy (fd_failed d))
  | PeFeedEOF, FeedCopy =>
      match pi_buffer (fd_pipe d), pi_open (fd_pipe d) with
      | [], false => Some (with_feed (fd_pipe d) FeedClose (fd_failed d))
      | _, _ => None
      end
  | PeFeedErr, FeedCopy => Some (with_feed (fd_pipe d) FeedClose true)
  | PeFeedClose, FeedClose => Some (with_feed (fd_pipe d) FeedEnd (fd_failed d))
  | _, _ => None
  end.

(** [copyOutput], the end of [runWithPipes], and the command they serve. *)
Definition pipes_step (s : pipes_state) (ev : pipes_event) : option pipes_state :=
  match ev with
  | PeWrite i b =>
      let p := pw_pipe s i in
      if pi_open p then Some (with_pipe i (send b p) s) else None
  | PeClose i => if pi_open (pw_pipe s i) then Some (with_pipe i (close_pipe (pw_pipe s i)) s) else None
  | PeChild r =>
      match pw_child s with
      | Some _ => None
      | None =>
          Some {| pw_pc := pw_pc s; pw_pipe := pw_pipe s; pw_copy := pw_copy s; pw_in := pw_in s; pw_streams := pw_streams s;
                  pw_done := pw_done s; pw_panic := pw_panic s; pw_child := Some r; pw_exits := pw_exits s |}
      end
  | PeCopy i n =>
      match co_pc (pw_copy s i) with
      | CopyRun =>
          Some (with_pipe i (move n (pw_pipe s i)) s)
      | _ => None
      end
  | PeCopyEOF i =>
      match co_pc (pw_copy s i), pi_buffer (pw_pipe s i), pi_open (pw_pipe s i) with
      | CopyRun, [], false => Some (with_copy i (goto_copy CopyDec (pw_copy s i)) s)
      | _, _, _ => None
      end
  | PeCopyErr i =>
      match co_pc (pw_copy s i) with
      | CopyRun => Some (with_copy i {| co_pc := CopyDec; co_failed := true |} s)
      | _ => None
      end
  | PeDec i =>
      match co_pc (pw_copy s i) with
      | CopyDec =>
          let n := int32 (pw_streams s - 1) in
          Some {| pw_pc := pw_pc s; pw_pipe := pw_pipe s;
                  pw_copy := set (pw_copy s) i (goto_copy (CopyTest n) (pw_copy s i)); pw_in := pw_in s; pw_streams := n;
                  pw_done := pw_done s; pw_panic := pw_panic s; pw_child := pw_child s; pw_exits := pw_exits s |}
      | _ => None
      end
  | PeTest i =>
      match co_pc (pw_copy s i) with
      | CopyTest n =>
          Some {| pw_pc := pw_pc s; pw_pipe := pw_pipe s; pw_copy := set (pw_copy s) i (goto_copy CopyEnd (pw_copy s i)); pw_in := pw_in s;
                  pw_streams := pw_streams s; pw_done := if n =? 0 then true else pw_done s;
                  pw_panic := if n =? 0 then pw_panic s || pw_done s else pw_panic s;
                  pw_child := pw_child s; pw_exits := pw_exits s |}
      | _ => None
      end
  | PeDone =>
      match pw_pc s, pw_done s with
      | PwDone, true =>
          Some {| pw_pc := PwWait; pw_pipe := pw_pipe s; pw_copy := pw_copy s; pw_in := pw_in s; pw_streams := pw_streams s;
                  pw_done := true; pw_panic := pw_panic s; pw_child := pw_child s; pw_exits := pw_exits s |}
      | _, _ => None
      end
  | PeWait =>
      match pw_pc s, pw_child s with
      | PwWait, Some r =>
          Some {| pw_pc := PwExited; pw_pipe := pw_pipe s; pw_copy := pw_copy s; pw_in := pw_in s; pw_streams := pw_streams s;
                  pw_done := pw_done s; pw_panic := pw_panic s; pw_child := Some r; pw_exits := pw_exits s ++ [exitSession r] |}
      | _, _ => None
      end
  | _ => d ← feed_step (pw_in s) ev; Some (with_in d s)
  end.

Fixpoint pipes_run (s : pipes_state) (evs : list pipes_event) : option pipes_state :=
  match evs with
  | [] => Some s
  | ev :: evs' => s' ← pipes_step s ev; pipes_run s' evs'
  end.

(** [runWithPipes] up to there: each call can fail, and then the session ends. *)
Definition runWithPipes (stdin stdout stderr start : option goerr) : Z + pipes_state :=
  match stdin, stdout, stderr, start with
  | Some e, _, _, _ | None, Some e, _, _ | None, None, Some e, _ | None, None, None, Some e =>
      inl (exitSession (Some (OtherError e)))
  | None, None, None, None => inr pipes_start
  end.

(** ** Terminals *)

Inductive pty_action :=
| PtyStart (rows cols : Z)               (* pty.StartWithSize: the command runs *)
| PtyResize (rows cols : Z)
| PtyCopied                              (* io.Copy to the session has ended *)
| PtyWait                                (* cmd.Wait *)
| PtyExit (code : Z)
| PtyClose.                              (* ptmx.Close *)

(** The answers: of the start, of [unix.Dup], the windows that arrive before the
    copying ends, and the result of the command. *)
Record pty_env := {
  py_start : option cmd_error;
  py_dup : option goerr;
  py_windows : list (Z * Z);             (* height and width *)
  py_wait : option cmd_error;
}.

Definition runWithPTY_run (env : pty_env) (request : Pty) : list pty_action :=
  match py_start env with
  | Some e => [PtyExit (exitSession (Some e))]
  | None =>
      PtyStart (terminalDimension (Height request)) (terminalDimension (Width request)) ::
      match py_dup env with
      | Some e => [PtyExit (exitSession (Some (OtherError e))); PtyClose]
      | None =>
          map (fun w => PtyResize (terminalDimension w.1) (terminalDimension w.2)) (py_windows env) ++
          [PtyCopied; PtyWait; PtyExit (exitSession (py_wait env)); PtyClose]
      end
  end.

(** On Windows a terminal request is served with pipes. *)
Definition windows_runWithPTY := runWithPipes.

(** ** HandleConn *)

(** The library serves the connection until it ends; a context that is done
    before that closes it. *)
Inductive conn_event := CnCtxDone | CnServed.
Record conn_state := { cn_closed : bool; cn_returned : option (option goerr) }.
Definition HandleConn_step (s : conn_state) (ev : conn_event) : option conn_state :=
  match ev, cn_returned s with
  | CnCtxDone, None => Some {| cn_closed := true; cn_returned := None |}
  | CnServed, None => Some {| cn_closed := cn_closed s; cn_returned := Some None |}
  | _, _ => None
  end.

(** It reports no error, and a connection whose context ended first is closed. *)
Lemma HandleConn_closes s ev s' :
  HandleConn_step s ev = Some s' ->
  (forall r, cn_returned s = None -> cn_returned s' = Some r -> r = None) /\ (cn_closed s = true \/ ev = CnCtxDone -> cn_closed s' = true).
Proof. unfold HandleConn_step. intros H. destruct ev, (cn_returned s); simplify_eq/=; naive_solver. Qed.

(** ** What the session receives *)

Definition live (pc : copy_pc) : Z := match pc with CopyRun | CopyDec => 1 | _ => 0 end.
(** The last goroutine to leave has seen zero and is about to close [done]. *)
Definition closing (pc : copy_pc) : bool := match pc with CopyTest n => n =? 0 | _ => false end.

Definition feed_ok (d : feeder) : Prop :=
  pi_written (fd_pipe d) = pi_received (fd_pipe d) ++ pi_buffer (fd_pipe d) /\
  (fd_pc d <> FeedCopy -> fd_failed d = false -> pi_open (fd_pipe d) = false /\ pi_buffer (fd_pipe d) = []).

Lemma feed_step_ok d ev d' : feed_ok d -> feed_step d ev = Some d' -> feed_ok d'.
Proof.
  intros [H1 H2] H. unfold feed_step in H. destruct ev; try done; destruct (fd_pc d) eqn:Hp; try done;
    repeat case_match; simplify_eq; split; simpl; try done.
  all: try (rewrite ?H1, <- ?app_assoc, ?take_drop; done).
  all: try congruence; intros Hn Hf; (destruct H2 as [Ho Hb]; [congruence|done|]; first [congruence|done]).
Qed.

Record pipes_inv (s : pipes_state) : Prop := {
  pv_panic : pw_panic s = false;
  pv_streams : pw_streams s = live (co_pc (pw_copy s Stdout)) + live (co_pc (pw_copy s Stderr));
  pv_done : pw_done s = (pw_streams s =? 0) && negb (closing (co_pc (pw_copy s Stdout))) && negb (closing (co_pc (pw_copy s Stderr)));
  pv_closing : closing (co_pc (pw_copy s Stdout)) || closing (co_pc (pw_copy s Stderr)) = true ->
    pw_streams s = 0 /\ closing (co_pc (pw_copy s Stdout)) && closing (co_pc (pw_copy s Stderr)) = false;
  pv_pipe i : pi_written (pw_pipe s i) = pi_received (pw_pipe s i) ++ pi_buffer (pw_pipe s i);
  pv_in : feed_ok (pw_in s);
  pv_copied i : co_pc (pw_copy s i) <> CopyRun -> co_failed (pw_copy s i) = false ->
    pi_open (pw_pipe s i) = false /\ pi_buffer (pw_pipe s i) = [];
  pv_pc : match pw_pc s with
    | PwDone => pw_exits s = []
    | PwWait => pw_done s = true /\ pw_exits s = []
    | PwExited => pw_done s = true /\ exists r, pw_child s = Some r /\ pw_exits s = [exitSession r]
    end;
}.

Lemma set_same {A} (f : stream -> A) i a : set f i a i = a.
Proof. unfold set. by rewrite decide_True. Qed.
Lemma set_other {A} (f : stream -> A) i j a : j <> i -> set f i a j = f j.
Proof. intros H. unfold set. by rewrite decide_False. Qed.

Lemma pipes_start_inv : pipes_inv pipes_start.
Proof. split; try done. Qed.

(** A step of the command or of the copying itself. *)
Lemma with_pipe_inv s i p :
  pipes_inv s -> pi_written p = pi_received p ++ pi_buffer p ->
  (co_pc (pw_copy s i) <> CopyRun -> co_failed (pw_copy s i) = false -> pi_open p = false /\ pi_buffer p = []) ->
  pipes_inv (with_pipe i p s).
Proof.
  intros [I1 I2 I3 I4 I5 IF I6 I7] Hp Hc. split; cbn [with_pipe pw_panic pw_streams pw_done pw_copy pw_pc pw_exits pw_child pw_pipe pw_in]; try done.
  - intros j. destruct (decide (j = i)) as [->|Hj]; [by rewrite set_same|by rewrite set_other].
  - intros j. destruct (decide (j = i)) as [->|Hj]; [by rewrite set_same|by rewrite set_other; auto].
Qed.

(** Leaving [io.Copy]. *)
Lemma with_copy_inv s i c :
  pipes_inv s -> co_pc (pw_copy s i) = CopyRun -> co_pc c = CopyDec ->
  (co_failed c = false -> pi_open (pw_pipe s i) = false /\ pi_buffer (pw_pipe s i) = []) ->
  pipes_inv (with_copy i c s).
Proof.
  intros [I1 I2 I3 I4 I5 IF I6 I7] Hr Hc Hf. split; cbn [with_copy pw_panic pw_streams pw_done pw_copy pw_pc pw_exits pw_child pw_pipe pw_in]; try done.
  1-3: destruct i; rewrite ?set_same, ?set_other by done; rewrite ?Hc; rewrite Hr in *; done.
  intros j. destruct (decide (j = i)) as [->|Hj]; [by rewrite set_same|by rewrite set_other; auto].
Qed.

(** The counter: leaving it and closing [done]. *)
Lemma counter_inv s i pc n d w :
  pipes_inv s -> co_pc (pw_copy s i) <> CopyRun ->
  (forall j, j <> i -> let o := co_pc (pw_copy s j) in
     n = live pc + live o /\ d = (n =? 0) && negb (closing pc) && negb (closing o) /\
     (closing pc || closing o = true -> n = 0 /\ closing pc && closing o = false)) ->
  w = false -> pc <> CopyRun -> (pw_done s = true -> d = true) ->
  pipes_inv {| pw_pc := pw_pc s; pw_pipe := pw_pipe s; pw_copy := set (pw_copy s) i (goto_copy pc (pw_copy s i)); pw_in := pw_in s;
               pw_streams := n; pw_done := d; pw_panic := w; pw_child := pw_child s; pw_exits := pw_exits s |}.
Proof.
  intros [I1 I2 I3 I4 I5 IF I6 I7] Hr Hc Hw Hpc Hd. split; cbn [pw_panic pw_streams pw_done pw_copy pw_pc pw_exits pw_child pw_pipe pw_in]; try done.
  1-3: destruct i; rewrite ?set_same, ?set_other by done; cbn [goto_copy co_pc];
    [destruct (Hc Stderr) as (H1 & H2 & H3)|destruct (Hc Stdout) as (H1 & H2 & H3)]; try done.
  1: lia. 1: by rewrite H2, <- !andb_assoc, (andb_comm (negb (closing pc))). 1: rewrite orb_comm, andb_comm; done.
  - intros j. destruct (decide (j = i)) as [->|Hj]; [rewrite set_same; intros _; by apply I6|by rewrite set_other; auto].
  - destruct (pw_pc s); [done|naive_solver..].
Qed.

Lemma other_pc s i j : pipes_inv s -> j <> i ->
  pw_streams s = live (co_pc (pw_copy s i)) + live (co_pc (pw_copy s j)) /\
  pw_done s = (pw_streams s =? 0) && negb (closing (co_pc (pw_copy s i))) && negb (closing (co_pc (pw_copy s j))) /\
  (closing (co_pc (pw_copy s i)) || closing (co_pc (pw_copy s j)) = true ->
     pw_streams s = 0 /\ closing (co_pc (pw_copy s i)) && closing (co_pc (pw_copy s j)) = false).
Proof.
  intros [I1 I2 I3 I4 I5 IF I6 I7] Hj. destruct i, j; try done. split_and!; [lia| |].
  - by rewrite I3, <- !andb_assoc, (andb_comm (negb (closing (co_pc (pw_copy s Stdout))))).
  - by rewrite orb_comm, andb_comm.
Qed.

Lemma pipes_step_inv s ev s' : pipes_inv s -> pipes_step s ev = Some s' -> pipes_inv s'.
Proof.
  intros I H. pose proof I as [I1 I2 I3 I4 I5 IF I6 I7]. unfold pipes_step in H. destruct ev as [i b|i|r|i n|i|i|i|i| | |b| |n| | |].
  11-16: match type of H with context [feed_step ?d ?ev] => pose proof (feed_step_ok d ev) as Hfd; destruct (feed_step d ev) end; [|done];
    simplify_eq/=; split; try done; by apply Hfd.
  - destruct (pi_open (pw_pipe s i)) eqn:Ho; [|done]. simplify_eq. apply with_pipe_inv; [done| |]; simpl.
    + by rewrite I5, app_assoc.
    + intros H1 H2. destruct (I6 i H1 H2). congruence.
  - destruct (pi_open (pw_pipe s i)); [|done]. simplify_eq. apply with_pipe_inv; [done|apply I5|].
    intros H1 H2. split; [done|]. by destruct (I6 i H1 H2).
  - destruct (pw_child s) eqn:Hc; [done|]. simplify_eq. split; simpl; try done.
    destruct (pw_pc s); [done|done|]. destruct I7 as (_ & r' & ? & _). congruence.
  - destruct (co_pc (pw_copy s i)) eqn:Hp; try done. simplify_eq. apply with_pipe_inv; [done| |by rewrite Hp]; simpl.
    by rewrite <- app_assoc, take_drop.
  - destruct (co_pc (pw_copy s i)) eqn:Hp; try done. destruct (pi_buffer (pw_pipe s i)) eqn:Hb; [|done].
    destruct (pi_open (pw_pipe s i)) eqn:Ho; [done|]. simplify_eq. apply with_copy_inv; done.
  - destruct (co_pc (pw_copy s i)) eqn:Hp; try done. simplify_eq. by apply with_copy_inv.
  - destruct (co_pc (pw_copy s i)) eqn:Hp; try done. simplify_eq. set (j := match i with Stdout => Stderr | Stderr => Stdout end).
    assert (Hj : j <> i) by (by destruct i). destruct (other_pc s i j I Hj) as (O1 & O2 & O3). rewrite Hp in *.
    cbn [live closing negb andb orb] in *.
    assert (Hd : pw_done s = false) by (rewrite O2, O1; by destruct (co_pc (pw_copy s j))).
    apply counter_inv; [done|by rewrite Hp| |done|done|by rewrite Hd].
    + intros k Hk. assert (k = j) as -> by (by destruct i, k). rewrite O1, Hd.
      destruct (co_pc (pw_copy s j)) as [| |m|] eqn:Ho; cbn [live closing] in *;
        [by split_and!; vm_compute| by split_and!; vm_compute| |by split_and!; vm_compute].
      destruct (Z.eqb_spec m 0); [destruct (O3 eq_refl); lia|]. by split_and!; vm_compute.
  - destruct (co_pc (pw_copy s i)) as [| |n|] eqn:Hp; try done. simplify_eq.
    set (j := match i with Stdout => Stderr | Stderr => Stdout end).
    assert (Hj : j <> i) by (by destruct i). destruct (other_pc s i j I Hj) as (O1 & O2 & O3). rewrite Hp in *.
    cbn [live closing negb andb orb] in *. apply counter_inv; [done|by rewrite Hp| | |done|by destruct (n =? 0)].
    + intros k Hk. assert (k = j) as -> by (by destruct i, k). split_and!; [done| |].
      * destruct (n =? 0) eqn:Hn; [|done]. destruct (O3 eq_refl) as [E1 E2]. rewrite E1. simpl in E2. by rewrite E2.
      * simpl. intros Hc. destruct (O3 ltac:(rewrite Hc; apply orb_true_r)). done.
    + destruct (n =? 0) eqn:Hn; [|done]. rewrite I1, O2. simpl. by rewrite andb_false_r.
  - destruct (pw_pc s) eqn:Hp; try done. destruct (pw_done s) eqn:Hd; [|done]. simplify_eq. split; simpl; try done.
  - destruct (pw_pc s) eqn:Hp; try done. destruct (pw_child s) as [r|] eqn:Hc; [|done]. simplify_eq. split; simpl; try done.
    destruct I7 as [? ->]. split; [done|]. by exists r.
Qed.

Lemma pipes_run_inv s evs s' : pipes_inv s -> pipes_run s evs = Some s' -> pipes_inv s'.
Proof.
  revert s. induction evs as [|ev evs IH]; intros s Hi H; simpl in H; [by simplify_eq|].
  destruct (pipes_step s ev) as [s1|] eqn:E; [|done]. eapply IH; [|exact H]. by eapply pipes_step_inv.
Qed.
Lemma pipes_run_app s a b : pipes_run s (a ++ b) = s' ← pipes_run s a; pipes_run s' b.
Proof. revert s. induction a as [|ev a IH]; intros s; simpl; [done|]. destruct (pipes_step s ev); simpl; [apply IH|done]. Qed.

(** *** Ending *)

(** What a goroutine still has to do once its stream is closed. *)
Definition drain (s : pipes_state) (i : stream) : list pipes_event :=
  match co_pc (pw_copy s i) with
  | CopyRun => [PeCopy i (length (pi_buffer (pw_pipe s i))); PeCopyEOF i; PeDec i; PeTest i]
  | CopyDec => [PeDec i; PeTest i]
  | CopyTest _ => [PeTest i]
  | CopyEnd => []
  end.

Lemma stream_drains s i :
  pi_open (pw_pipe s i) = false ->
  exists s', pipes_run s (drain s i) = Some s' /\ co_pc (pw_copy s' i) = CopyEnd /\
    (forall j, j <> i -> pw_copy s' j = pw_copy s j /\ pw_pipe s' j = pw_pipe s j) /\
    pw_child s' = pw_child s /\ pw_pc s' = pw_pc s.
Proof.
  intros Ho. unfold drain. destruct (co_pc (pw_copy s i)) eqn:Hp.
  - cbn [pipes_run pipes_step]. rewrite Hp. cbn [mbind option_bind]. cbn [pipes_step with_pipe pw_copy pw_pipe].
    rewrite Hp, set_same. cbn [move pi_buffer pi_open]. rewrite drop_all, Ho. cbn [mbind option_bind pipes_step with_copy pw_copy].
    rewrite set_same. cbn [goto_copy co_pc mbind option_bind pipes_step pw_copy]. rewrite set_same. cbn [goto_copy co_pc mbind option_bind].
    eexists. split; [done|]. cbn [pw_copy pw_pipe pw_child pw_pc]. rewrite set_same.
    split_and!; [done| |done|done]. intros j Hj. rewrite !set_other by done.
    cbn [with_copy with_pipe pw_copy pw_pipe]. by rewrite ?set_other.
  - cbn [pipes_run pipes_step]. rewrite Hp. cbn [mbind option_bind pipes_step pw_copy]. rewrite set_same.
    cbn [goto_copy co_pc mbind option_bind]. eexists. split; [done|]. cbn [pw_copy pw_pipe pw_child pw_pc]. rewrite set_same.
    split_and!; [done| |done|done]. intros j Hj. rewrite !set_other by done.
    cbn [with_copy with_pipe pw_copy pw_pipe]. by rewrite ?set_other.
  - cbn [pipes_run pipes_step]. rewrite Hp. cbn [mbind option_bind].
    eexists. split; [done|]. cbn [pw_copy pw_pipe pw_child pw_pc]. rewrite set_same.
    split_and!; [done| |done|done]. intros j Hj. rewrite !set_other by done.
    cbn [with_copy with_pipe pw_copy pw_pipe]. by rewrite ?set_other.
  - exists s. done.
Qed.

Definition main_events (s : pipes_state) : list pipes_event :=
  match pw_pc s with PwDone => [PeDone; PeWait] | PwWait => [PeWait] | PwExited => [] end.
Definition end_events (s : pipes_state) : list pipes_event := drain s Stdout ++ drain s Stderr ++ main_events s.

Lemma session_ends s r :
  pipes_inv s -> pw_child s = Some r -> (forall i, pi_open (pw_pipe s i) = false) ->
  exists s', pipes_run s (end_events s) = Some s' /\ pw_pc s' = PwExited /\ pw_child s' = Some r.
Proof.
  intros I Hc Ho. unfold end_events. rewrite pipes_run_app.
  destruct (stream_drains s Stdout (Ho Stdout)) as (s1 & E1 & P1 & K1 & C1 & M1). rewrite E1. cbn [mbind option_bind].
  destruct (K1 Stderr ltac:(done)) as [Q1 Q2]. assert (D : drain s Stderr = drain s1 Stderr) by (unfold drain; by rewrite Q1, Q2).
  rewrite D, pipes_run_app. destruct (stream_drains s1 Stderr) as (s2 & E2 & P2 & K2 & C2 & M2); [by rewrite Q2|].
  rewrite E2. cbn [mbind option_bind]. destruct (K2 Stdout ltac:(done)) as [R1 _].
  pose proof (pipes_run_inv _ _ _ I E1) as J1. pose proof (pipes_run_inv _ _ _ J1 E2) as J2.
  assert (Hd : pw_done s2 = true).
  { rewrite (pv_done _ J2), (pv_streams _ J2), P2, R1, P1. done. }
  unfold main_events. rewrite <- M1, <- M2. destruct (pw_pc s2) eqn:Hp; cbn [pipes_run pipes_step].
  - rewrite Hp, Hd. cbn [mbind option_bind pipes_step pw_pc pw_child]. rewrite C2, C1, Hc. by eexists.
  - rewrite Hp, C2, C1, Hc. by eexists.
  - exists s2. by rewrite C2, C1.
Qed.

(** ** Properties *)

(** C29: a session's output is complete before its status.  However the command,
    the two copying goroutines and [runWithPipes] interleave: [done] is never
    closed twice; the session sees, on each stream, a prefix of what the command
    wrote, and the command a prefix of what the client sent, all of it once standard
    input is closed without a fault; the exit status is sent at most once, it is the command's, and by then
    each stream has been delivered in full unless writing to the session failed.
    And once the command has ended and its streams are closed, the session comes to
    its end by the steps of the server alone. *)
Theorem session_output_complete evs s :
  pipes_run pipes_start evs = Some s ->
  pw_panic s = false /\
  (forall i, pi_received (pw_pipe s i) `prefix_of` pi_written (pw_pipe s i)) /\
  (let d := pw_in s in pi_received (fd_pipe d) `prefix_of` pi_written (fd_pipe d) /\
     (fd_pc d = FeedEnd -> fd_failed d = false -> pi_received (fd_pipe d) = pi_written (fd_pipe d))) /\
  (forall c, c ∈ pw_exits s -> pw_exits s = [c] /\
     (exists r, pw_child s = Some r /\ c = exitSession r) /\
     forall i, co_failed (pw_copy s i) = false -> pi_received (pw_pipe s i) = pi_written (pw_pipe s i)) /\
  (forall r, pw_child s = Some r -> (forall i, pi_open (pw_pipe s i) = false) ->
     exists s', pipes_run s (end_events s) = Some s' /\ pw_exits s' = [exitSession r]).
Proof.
  intros H. pose proof (pipes_run_inv _ _ _ pipes_start_inv H) as I. pose proof I as [I1 I2 I3 I4 I5 IF I6 I7]. split_and!; [done| | | |].
  - intros i. rewrite I5. by eexists.
  - destruct IF as [F1 F2]. cbn zeta. rewrite F1. split; [by eexists|]. intros Hp Hf. destruct F2 as [_ ->]; [by rewrite Hp|done|].
    by rewrite app_nil_r.
  - intros c Hc. destruct (pw_pc s) eqn:Hp; [rewrite I7 in Hc; by apply not_elem_of_nil in Hc|
      destruct I7 as [_ Hx]; rewrite Hx in Hc; by apply not_elem_of_nil in Hc|].
    destruct I7 as (Hd & r & Hr & Hx). rewrite Hx in Hc. apply list_elem_of_singleton in Hc as ->. split_and!; [done|by exists r|].
    intros i Hf. destruct (I6 i) as [_ Hb]; [|done|by rewrite I5, Hb, app_nil_r].
    rewrite Hd, I2 in I3. intros Hrun. destruct i; rewrite Hrun in I3; cbn [live] in I3;
      [destruct (co_pc (pw_copy s Stderr))|destruct (co_pc (pw_copy s Stdout))]; done.
  - intros r Hr Ho. destruct (session_ends s r I Hr Ho) as (s' & E & Hp & Hc). exists s'. split; [done|].
    pose proof (pipes_run_inv _ _ _ I E) as J. pose proof (pv_pc _ J) as P. rewrite Hp in P. destruct P as (_ & r' & Hr' & ->).
    congruence.
Qed.

(** A command on a terminal: one status is sent, every size is in range, the
    terminal is closed.  The command is waited for unless the terminal could not be
    duplicated: then it was started and is left behind. *)
Lemma pty_session_steps env request :
  let acts := runWithPTY_run env request in
  length (List.filter (fun a => match a with PtyExit _ => true | _ => false end) acts) = 1%nat /\
  (forall rows cols, PtyStart rows cols ∈ acts \/ PtyResize rows cols ∈ acts -> 1 <= rows <= 65535 /\ 1 <= cols <= 65535) /\
  (py_start env = None -> list.last acts = Some PtyClose) /\
  (PtyWait ∈ acts <-> py_start env = None /\ py_dup env = None).
Proof.
  cbn zeta. unfold runWithPTY_run. destruct (py_start env) as [e|].
  { split_and!; [done| |done|]; [intros rows cols [Hi|Hi]|split; [intros Hi|by intros [? _]]]; set_solver. }
  destruct (py_dup env) as [e|].
  { split_and!; [done| |done|].
    - intros rows cols [Hi|Hi]; [|set_solver]. assert (E : rows = terminalDimension (Height request) /\ cols = terminalDimension (Width request)) by set_solver.
      destruct E as [-> ->]. split; apply terminalDimension_bounds.
    - split; [set_solver|by intros [_ ?]]. }
  split_and!.
  - cbn [List.filter]. rewrite List.filter_app, length_app. simpl.
    assert (E : List.filter (fun a => match a with PtyExit _ => true | _ => false end)
      (map (fun w => PtyResize (terminalDimension w.1) (terminalDimension w.2)) (py_windows env)) = [])
      by (induction (py_windows env); done). by rewrite E.
  - intros rows cols Hi. destruct Hi as [Hi|Hi]; apply elem_of_cons in Hi as [Hi|Hi]; simplify_eq;
      [split; apply terminalDimension_bounds|..]; apply elem_of_app in Hi as [Hi|Hi]; try set_solver;
      apply list_elem_of_In, in_map_iff in Hi as (w & Hw & _); simplify_eq; split; apply terminalDimension_bounds.
  - intros _. rewrite app_comm_cons. by rewrite last_app.
  - split; [done|]. intros _. apply elem_of_cons. right. apply elem_of_app. right. set_solver.
Qed.

(** ** Witness *)

(** The command writes on both streams and ends; the slower stream is drained
    before the status is sent. *)
Definition demo_session : list pipes_event :=
  [PeWrite Stdout [x61; x62]; PeWrite Stderr [x63]; PeChild (Some (ExitError 3)); PeCopy Stdout 1; PeClose Stdout; PeClose Stderr;
   PeCopy Stderr 1; PeCopyEOF Stderr; PeDec Stderr; PeTest Stderr].

Lemma session_output_complete_witness :
  exists s, pipes_run pipes_start demo_session = Some s /\ pw_done s = false /\ pi_received (pw_pipe s Stdout) = [x61] /\
    exists s', pipes_run s (end_events s) = Some s' /\ pw_exits s' = [3].
Proof.
  destruct (pipes_run pipes_start demo_session) as [s|] eqn:E; [|vm_compute in E; discriminate E]. exists s. split; [reflexivity|].
  assert (Hs : pw_done s = false /\ pi_received (pw_pipe s Stdout) = [x61] /\ pw_child s = Some (Some (ExitError 3)) /\
    forall i, pi_open (pw_pipe s i) = false).
  { vm_compute in E. injection E as <-. split; [reflexivity|]. split; [reflexivity|]. split; [reflexivity|]. intros []; reflexivity. }
  destruct Hs as (H1 & H2 & H3 & H4). split; [exact H1|]. split; [exact H2|].
  destruct (session_output_complete demo_session s E) as (_ & _ & _ & _ & H). exact (H _ H3 H4).
Defined.
