(* ===== verification/Bridge.v ===== *)
(** * The tunnel bridge (internal/endpoint/bridge.go)

    [Bridge] couples a TCP connection with an encrypted stream: one goroutine
    reads the connection and sends frames ([sendLoop]), one receives frames and
    writes the connection ([recvLoop]), and the function waits for both.  The
    three run as an executable transition function; what the connection and the
    stream answer is chosen by the environment.

    The codec of frames and the cipher library are parameters. *)

From S2P Require Import Prelude GoBase Proto Noise.

Definition chunkSize : Z := 32768.

Definition isNormalClose (e : goerr) : bool :=
  errors_Is e (ECtx CtxCanceled) || errors_Is e EEOF || errors_Is e ENetClosed.

(** The value [Bridge] returns for the errors of its two goroutines, in the
    order they arrived. *)
Definition bridge_result (first second : option goerr) : option goerr :=
  match first with
  | Some e => if negb (isNormalClose e) then Some e else
      match second with Some e' => if negb (isNormalClose e') then Some e' else None | None => None end
  | None => match second with Some e' => if negb (isNormalClose e') then Some e' else None | None => None end
  end.

(** ** Where the goroutines are *)

Inductive send_pc :=
| SRead                                        (* conn.Read *)
| SData (d : bytes) (err : option goerr)       (* sendPlain of what was read; err came with it *)
| SHalf                                        (* sendPlain of HalfClose *)
| SWait                                        (* select on remoteEOF and ctx *)
| SClose                                       (* sendPlain of Close NORMAL *)
| SDone.

Inductive recv_pc :=
| RRecv                                        (* stream.RecvCiphertext *)
| RWrite (d : bytes)                           (* conn.Write *)
| RCheck                                       (* select on ctx, with default *)
| RDone.

Inductive main_pc :=
| MFirst                                       (* first := <-errCh *)
| MSecond (first : option goerr)               (* second := <-errCh *)
| MRet (r : option goerr).

(** What the environment answers in one step. *)
Inductive bchoice :=
| BRead (d : bytes) (err : option goerr)       (* conn.Read returned these bytes and error *)
| BSent (r : option goerr)                     (* stream.SendCiphertext *)
| BRecv (r : result goerr bytes)               (* stream.RecvCiphertext *)
| BWrote (n : nat) (err : option goerr)        (* conn.Write *)
| BRemoteEOF                                   (* the receive on remoteEOF is chosen *)
| BCtxDone                                     (* the receive on ctx.Done() is chosen *)
| BRun.

Definition data_frame (d : bytes) : PlainFrame := {| pf_Body := Some (PlainFrame_Data d) |}.
Definition half_close : PlainFrame := {| pf_Body := Some (PlainFrame_HalfClose mkHalfClose) |}.
Definition close_frame (code : Z) (msg : string) : PlainFrame :=
  {| pf_Body := Some (PlainFrame_Close {| close_Code := code; close_Message := msg |}) |}.
Definition close_normal : PlainFrame := close_frame CLOSE_CODE_NORMAL "".

Section bridge.
Context {FC : Codec PlainFrame} {NL : NoiseLib}.

(** The state of [sendLoop]; the last three fields are ghost: the bytes read
    from the connection, the frames sent and their ciphertexts. *)
Record sender := {
  bs_pc : send_pc;
  bs_read : bytes;
  bs_frames : list PlainFrame;
  bs_sent : list bytes;
}.

(** The state of [recvLoop]: [sync.Once] and, ghost, the ciphertexts received,
    the frames they opened to, the bytes written and the calls of CloseWrite. *)
Record receiver := {
  br_pc : recv_pc;
  br_once : bool;
  br_got : list bytes;
  br_frames : list PlainFrame;
  br_written : bytes;
  br_closeWrites : nat;
}.

Record bridge := {
  b_ctx : option ctx_err;
  b_localEOF : bool;              (* the channel is closed *)
  b_remoteEOF : bool;
  b_crypt : Transport;
  b_sender : sender;
  b_receiver : receiver;
  b_errCh : list (option goerr);  (* capacity 2 *)
  b_main : main_pc;
  b_connClosed : bool;
  b_sendClosed : bool;
  b_panic : bool;                 (* a closed channel was closed again *)
}.

(** ** sendPlain *)

Definition seal (t : Transport) (frame : PlainFrame) : result goerr bytes * Transport :=
  match Marshal frame with
  | Err e => (Err (EWrap "encoding frame" e), t)
  | Ok b => Encrypt t b
  end.

(** The error it returns, the transport it leaves, and the ciphertext the stream
    accepted, when [SendCiphertext] answers [sent]. *)
Definition sendPlain (t : Transport) (frame : PlainFrame) (sent : option goerr)
  : option goerr * Transport * option bytes :=
  match seal t frame with
  | (Err e, t') => (Some e, t', None)
  | (Ok c, t') => match sent with Some e => (Some e, t', None) | None => (None, t', Some c) end
  end.

Definition SendClose (t : Transport) (code : Z) (msg : string) (sent : option goerr) :=
  sendPlain t (close_frame code msg) sent.

(** ** sendLoop *)

Definition set_sender (f : sender -> sender) (b : bridge) : bridge :=
  {| b_ctx := b_ctx b; b_localEOF := b_localEOF b; b_remoteEOF := b_remoteEOF b; b_crypt := b_crypt b;
     b_sender := f (b_sender b); b_receiver := b_receiver b; b_errCh := b_errCh b; b_main := b_main b;
     b_connClosed := b_connClosed b; b_sendClosed := b_sendClosed b; b_panic := b_panic b |}.
Definition set_receiver (f : receiver -> receiver) (b : bridge) : bridge :=
  {| b_ctx := b_ctx b; b_localEOF := b_localEOF b; b_remoteEOF := b_remoteEOF b; b_crypt := b_crypt b;
     b_sender := b_sender b; b_receiver := f (b_receiver b); b_errCh := b_errCh b; b_main := b_main b;
     b_connClosed := b_connClosed b; b_sendClosed := b_sendClosed b; b_panic := b_panic b |}.
Definition set_crypt (t : Transport) (b : bridge) : bridge :=
  {| b_ctx := b_ctx b; b_localEOF := b_localEOF b; b_remoteEOF := b_remoteEOF b; b_crypt := t;
     b_sender := b_sender b; b_receiver := b_receiver b; b_errCh := b_errCh b; b_main := b_main b;
     b_connClosed := b_connClosed b; b_sendClosed := b_sendClosed b; b_panic := b_panic b |}.
Definition report (r : option goerr) (b : bridge) : bridge :=
  {| b_ctx := b_ctx b; b_localEOF := b_localEOF b; b_remoteEOF := b_remoteEOF b; b_crypt := b_crypt b;
     b_sender := b_sender b; b_receiver := b_receiver b; b_errCh := b_errCh b ++ [r]; b_main := b_main b;
     b_connClosed := b_connClosed b; b_sendClosed := b_sendClosed b; b_panic := b_panic b |}.
Definition close_localEOF (b : bridge) : bridge :=
  {| b_ctx := b_ctx b; b_localEOF := true; b_remoteEOF := b_remoteEOF b; b_crypt := b_crypt b;
     b_sender := b_sender b; b_receiver := b_receiver b; b_errCh := b_errCh b; b_main := b_main b;
     b_connClosed := b_connClosed b; b_sendClosed := b_sendClosed b; b_panic := b_panic b || b_localEOF b |}.
Definition close_remoteEOF (b : bridge) : bridge :=
  {| b_ctx := b_ctx b; b_localEOF := b_localEOF b; b_remoteEOF := true; b_crypt := b_crypt b;
     b_sender := b_sender b; b_receiver := b_receiver b; b_errCh := b_errCh b; b_main := b_main b;
     b_connClosed := b_connClosed b; b_sendClosed := b_sendClosed b; b_panic := b_panic b || b_remoteEOF b |}.
Definition cancel (e : ctx_err) (b : bridge) : bridge :=
  {| b_ctx := match b_ctx b with None => Some e | c => c end; b_localEOF := b_localEOF b;
     b_remoteEOF := b_remoteEOF b; b_crypt := b_crypt b;
     b_sender := b_sender b; b_receiver := b_receiver b; b_errCh := b_errCh b; b_main := b_main b;
     b_connClosed := b_connClosed b; b_sendClosed := b_sendClosed b; b_panic := b_panic b |}.

Definition send_goto (k : send_pc) (s : sender) : sender :=
  {| bs_pc := k; bs_read := bs_read s; bs_frames := bs_frames s; bs_sent := bs_sent s |}.
Definition log_read (d : bytes) (s : sender) : sender :=
  {| bs_pc := bs_pc s; bs_read := bs_read s ++ d; bs_frames := bs_frames s; bs_sent := bs_sent s |}.
Definition log_sent (f : PlainFrame) (c : bytes) (s : sender) : sender :=
  {| bs_pc := bs_pc s; bs_read := bs_read s; bs_frames := bs_frames s ++ [f]; bs_sent := bs_sent s ++ [c] |}.

(** The goroutine ends: [errCh <- sendLoop(...)]. *)
Definition send_return (r : option goerr) (b : bridge) : bridge :=
  report r (set_sender (send_goto SDone) b).

(** After a read whose bytes, if any, have been sent. *)
Definition after_read (err : option goerr) (b : bridge) : bridge :=
  match err with
  | None => set_sender (send_goto SRead) b
  | Some e =>
      if negb (errors_Is e EEOF) then send_return (Some (EWrap "reading TCP connection" e)) b
      else set_sender (send_goto SHalf) b
  end.

(** [if err := sendPlain(...); err != nil { return err }], then [k]. *)
Definition send_then (f : PlainFrame) (sent : option goerr) (k : bridge -> bridge) (b : bridge) : bridge :=
  match sendPlain (b_crypt b) f sent with
  | (Some e, t', _) => send_return (Some e) (set_crypt t' b)
  | (None, t', Some c) => k (set_sender (log_sent f c) (set_crypt t' b))
  | (None, t', None) => k (set_crypt t' b)
  end.

Definition step_send (b : bridge) (c : bchoice) : option bridge :=
  match bs_pc (b_sender b), c with
  | SRead, BRead d err =>
      if len d <=? chunkSize then
        let b1 := set_sender (log_read d) b in
        Some (match d with [] => after_read err b1 | _ => set_sender (send_goto (SData d err)) b1 end)
      else None
  | SData d err, BSent r => Some (send_then (data_frame d) r (after_read err) b)
  | SHalf, BSent r =>
      Some (send_then half_close r (fun b => set_sender (send_goto SWait) (close_localEOF b)) b)
  | SWait, BRemoteEOF => if b_remoteEOF b then Some (set_sender (send_goto SClose) b) else None
  | SWait, BCtxDone => e ← b_ctx b; Some (send_return (Some (ECtx e)) b)
  | SClose, BSent r => Some (send_then close_normal r (send_return None) b)
  | _, _ => None
  end.

(** ** recvLoop *)

Definition recv_goto (k : recv_pc) (r : receiver) : receiver :=
  {| br_pc := k; br_once := br_once r; br_got := br_got r; br_frames := br_frames r;
     br_written := br_written r; br_closeWrites := br_closeWrites r |}.
Definition log_got (c : bytes) (r : receiver) : receiver :=
  {| br_pc := br_pc r; br_once := br_once r; br_got := br_got r ++ [c]; br_frames := br_frames r;
     br_written := br_written r; br_closeWrites := br_closeWrites r |}.
Definition log_frame (f : PlainFrame) (r : receiver) : receiver :=
  {| br_pc := br_pc r; br_once := br_once r; br_got := br_got r; br_frames := br_frames r ++ [f];
     br_written := br_written r; br_closeWrites := br_closeWrites r |}.
Definition log_written (d : bytes) (r : receiver) : receiver :=
  {| br_pc := br_pc r; br_once := br_once r; br_got := br_got r; br_frames := br_frames r;
     br_written := br_written r ++ d; br_closeWrites := br_closeWrites r |}.
Definition close_write (r : receiver) : receiver :=
  {| br_pc := br_pc r; br_once := br_once r; br_got := br_got r; br_frames := br_frames r;
     br_written := br_written r; br_closeWrites := S (br_closeWrites r) |}.
Definition set_once (r : receiver) : receiver :=
  {| br_pc := br_pc r; br_once := true; br_got := br_got r; br_frames := br_frames r;
     br_written := br_written r; br_closeWrites := br_closeWrites r |}.

Definition recv_return (r : option goerr) (b : bridge) : bridge :=
  report r (set_receiver (recv_goto RDone) b).

(** [once.Do(func() { close(remoteEOF) })] *)
Definition once_close_remoteEOF (b : bridge) : bridge :=
  if br_once (b_receiver b) then b else close_remoteEOF (set_receiver set_once b).

(** The [switch] on the body of a frame. *)
Definition handle_frame (f : PlainFrame) (b : bridge) : bridge :=
  match pf_Body f with
  | Some (PlainFrame_Data []) => set_receiver (recv_goto RRecv) b
  | Some (PlainFrame_Data d) => set_receiver (recv_goto (RWrite d)) b
  | Some (PlainFrame_HalfClose _) =>
      set_receiver (recv_goto RCheck) (once_close_remoteEOF (set_receiver close_write b))
  | Some (PlainFrame_Close c) =>
      recv_return (if close_Code c =? CLOSE_CODE_NORMAL then None
                   else Some (ENew ("remote closed tunnel: " +:+ close_Message c)))
        (once_close_remoteEOF b)
  | None => recv_return (Some (ENew "empty encrypted frame")) b
  end.

Definition step_recv (b : bridge) (c : bchoice) : option bridge :=
  match br_pc (b_receiver b), c with
  | RRecv, BRecv (Err e) => Some (recv_return (Some e) b)
  | RRecv, BRecv (Ok ct) =>
      let b1 := set_receiver (log_got ct) b in
      Some (match Decrypt (b_crypt b) ct with
            | (Err e, t') => recv_return (Some e) (set_crypt t' b1)
            | (Ok plain, t') =>
                match (Unmarshal plain : result goerr PlainFrame) with
                | Err _ => recv_return (Some (ENew "invalid encrypted frame")) (set_crypt t' b1)
                | Ok f => handle_frame f (set_receiver (log_frame f) (set_crypt t' b1))
                end
            end)
  | RWrite d, BWrote n err =>
      Some (match err with
            | Some e => recv_return (Some (EWrap "writing TCP connection" e))
                          (set_receiver (log_written (firstn n d)) b)
            | None => set_receiver (recv_goto RCheck) (set_receiver (log_written d) b)
            end)
  | RCheck, BCtxDone => e ← b_ctx b; Some (recv_return (Some (ECtx e)) b)
  | RCheck, BRun => match b_ctx b with None => Some (set_receiver (recv_goto RRecv) b) | Some _ => None end
  | _, _ => None
  end.

(** ** Bridge *)

Definition take_err (rest : list (option goerr)) (k : main_pc) (b : bridge) : bridge :=
  {| b_ctx := b_ctx b; b_localEOF := b_localEOF b; b_remoteEOF := b_remoteEOF b; b_crypt := b_crypt b;
     b_sender := b_sender b; b_receiver := b_receiver b; b_errCh := rest; b_main := k;
     b_connClosed := b_connClosed b; b_sendClosed := b_sendClosed b; b_panic := b_panic b |}.
Definition close_both (b : bridge) : bridge :=
  {| b_ctx := b_ctx b; b_localEOF := b_localEOF b; b_remoteEOF := b_remoteEOF b; b_crypt := b_crypt b;
     b_sender := b_sender b; b_receiver := b_receiver b; b_errCh := b_errCh b; b_main := b_main b;
     b_connClosed := true; b_sendClosed := true; b_panic := b_panic b |}.

Definition step_main (b : bridge) : option bridge :=
  match b_main b, b_errCh b with
  | MFirst, r :: rest => Some (close_both (cancel CtxCanceled (take_err rest (MSecond r) b)))
  | MSecond first, r :: rest => Some (take_err rest (MRet (bridge_result first r)) b)
  | _, _ => None
  end.

Inductive bevent :=
| BevCancel (e : ctx_err)      (* the caller's context ends *)
| BevSend (c : bchoice)
| BevRecv (c : bchoice)
| BevMain.

Definition bstep (b : bridge) (ev : bevent) : option bridge :=
  match ev with
  | BevCancel e => Some (cancel e b)
  | BevSend c => step_send b c
  | BevRecv c => step_recv b c
  | BevMain => step_main b
  end.

Definition Bridge_start (t : Transport) : bridge :=
  {| b_ctx := None; b_localEOF := false; b_remoteEOF := false; b_crypt := t;
     b_sender := {| bs_pc := SRead; bs_read := []; bs_frames := []; bs_sent := [] |};
     b_receiver := {| br_pc := RRecv; br_once := false; br_got := []; br_frames := [];
                      br_written := []; br_closeWrites := 0 |};
     b_errCh := []; b_main := MFirst; b_connClosed := false; b_sendClosed := false; b_panic := false |}.

Fixpoint brun (b : bridge) (evs : list bevent) : option bridge :=
  match evs with
  | [] => Some b
  | ev :: evs' => b' ← bstep b ev; brun b' evs'
  end.

(** The states of a bridge over the transport [t]. *)
Inductive breach (t : Transport) : bridge -> Prop :=
| breach_start : breach t (Bridge_start t)
| breach_step b ev b' : breach t b -> bstep b ev = Some b' -> breach t b'.
End bridge.
