(* ===== verification/BridgeInv.v ===== *)
(** * Invariants of the bridge

    One invariant per goroutine: [sender_inv] relates the bytes read from the
    connection, the frames and the ciphertexts sent; [receiver_inv] relates the
    ciphertexts received, the frames they open to and the bytes written;
    [main_inv] counts the results on [errCh].  [breach_inv]: every reachable
    bridge satisfies them. *)

From S2P Require Import Prelude GoBase Proto Noise Bridge.

(** ** Frames *)

Definition frame_data (f : PlainFrame) : bytes :=
  match pf_Body f with Some (PlainFrame_Data d) => d | _ => [] end.
Definition data_of (fs : list PlainFrame) : bytes := flat_map frame_data fs.

(** The frames [sendLoop] makes of what it reads: a non-empty chunk. *)
Definition chunk (f : PlainFrame) : Prop := exists d, f = data_frame d /\ d <> [] /\ len d <= chunkSize.

Definition is_half_close (f : PlainFrame) : bool :=
  match pf_Body f with Some (PlainFrame_HalfClose _) => true | _ => false end.
Definition is_close (f : PlainFrame) : bool :=
  match pf_Body f with Some (PlainFrame_Close _) => true | _ => false end.

Lemma data_of_app fs gs : data_of (fs ++ gs) = data_of fs ++ data_of gs.
Proof. apply flat_map_app. Qed.

(** What a sender can have sent: chunks, then possibly [HalfClose] once all the
    input is sent, then possibly [Close] once the other side has ended. *)
Definition sent_shape (fs : list PlainFrame) (read : bytes) (remoteEOF : bool) : Prop :=
  exists g, Forall chunk g /\
    ((fs = g /\ data_of g `prefix_of` read) \/
     (fs = g ++ [half_close] /\ data_of g = read) \/
     (fs = g ++ [half_close; close_normal] /\ data_of g = read /\ remoteEOF = true)).

Section streams.
Context {FC : Codec PlainFrame} {NL : NoiseLib}.

(** [sealed t0 fs cs t]: from [t0], sending [fs] in order produces [cs] and
    leaves a transport that sends like [t]. *)
Inductive sealed (t0 : Transport) : list PlainFrame -> list bytes -> Transport -> Prop :=
| sealed_nil t : t_send t = t_send t0 -> sealed t0 [] [] t
| sealed_snoc fs cs t t1 f c t' :
    sealed t0 fs cs t -> t_send t1 = t_send t -> seal t1 f = (Ok c, t') -> sealed t0 (fs ++ [f]) (cs ++ [c]) t'.

(** [opened t0 cs fs t]: from [t0], receiving [cs] in order gives [fs]. *)
Inductive opened (t0 : Transport) : list bytes -> list PlainFrame -> Transport -> Prop :=
| opened_nil t : t_recv t = t_recv t0 -> opened t0 [] [] t
| opened_snoc cs fs t t1 c plain f t' :
    opened t0 cs fs t -> t_recv t1 = t_recv t -> Decrypt t1 c = (Ok plain, t') -> Unmarshal plain = Ok f ->
    opened t0 (cs ++ [c]) (fs ++ [f]) t'.

Lemma seal_recv t f r t' : seal t f = (r, t') -> t_recv t' = t_recv t.
Proof. unfold seal. destruct (Marshal f); intros E; simplify_eq; [by eapply Encrypt_recv|done]. Qed.

(** ** The sender *)

Record sender_inv (t0 crypt : Transport) (s : sender) (remoteEOF localEOF : bool) : Prop := {
  si_sealed : exists t, sealed t0 (bs_frames s) (bs_sent s) t /\
    (bs_pc s <> SDone -> t_send crypt = t_send t);
  si_shape : sent_shape (bs_frames s) (bs_read s) remoteEOF;
  si_pc : match bs_pc s with
    | SRead | SHalf => Forall chunk (bs_frames s) /\ data_of (bs_frames s) = bs_read s
    | SData d _ => Forall chunk (bs_frames s) /\ data_of (bs_frames s) ++ d = bs_read s /\ d <> [] /\ len d <= chunkSize
    | SWait => exists g, Forall chunk g /\ bs_frames s = g ++ [half_close] /\ data_of g = bs_read s
    | SClose => remoteEOF = true /\
        exists g, Forall chunk g /\ bs_frames s = g ++ [half_close] /\ data_of g = bs_read s
    | SDone => True
    end;
  si_local : localEOF = true -> match bs_pc s with SWait | SClose | SDone => True | _ => False end;
}.

Lemma sent_shape_mono fs read e e' :
  (e = true -> e' = true) -> sent_shape fs read e -> sent_shape fs read e'.
Proof. intros He (g & Hg & [H|[H|(H1 & H2 & H3)]]); exists g; naive_solver. Qed.

Lemma sender_inv_frame t0 crypt crypt' s e e' l :
  t_send crypt' = t_send crypt -> (e = true -> e' = true) ->
  sender_inv t0 crypt s e l -> sender_inv t0 crypt' s e' l.
Proof.
  intros Ht He [H1 H2 H3 H4]. split; [|by eapply sent_shape_mono| |done].
  - destruct H1 as (t & Hs & Hc). exists t. split; [done|]. intros Hp. rewrite Ht. auto.
  - destruct (bs_pc s); naive_solver.
Qed.

(** ** The receiver *)

Record receiver_inv (t0 crypt : Transport) (r : receiver) (remoteEOF : bool) : Prop := {
  ri_opened : exists t, opened t0 (firstn (length (br_frames r)) (br_got r)) (br_frames r) t /\
    (length (br_frames r) <= length (br_got r))%nat /\
    (br_pc r <> RDone -> length (br_frames r) = length (br_got r) /\ t_recv crypt = t_recv t);
  ri_written : match br_pc r with
    | RRecv | RCheck => br_written r = data_of (br_frames r)
    | RWrite d => exists g, br_frames r = g ++ [data_frame d] /\ br_written r = data_of g
    | RDone => br_written r = data_of (br_frames r) \/
        exists g d, br_frames r = g ++ [data_frame d] /\ br_written r `prefix_of` data_of (br_frames r)
    end;
  ri_once : br_once r = remoteEOF;
  ri_eof : remoteEOF = true -> exists f, f ∈ br_frames r /\ (is_half_close f || is_close f) = true;
}.

Lemma receiver_inv_frame t0 crypt crypt' r e :
  t_recv crypt' = t_recv crypt -> receiver_inv t0 crypt r e -> receiver_inv t0 crypt' r e.
Proof.
  intros Ht [H1 H2 H3 H4]. split; [|done..]. destruct H1 as (t & Ho & Hl & Hc). exists t.
  rewrite Ht. auto.
Qed.

(** ** The results *)

Definition consumed (k : main_pc) : nat :=
  match k with MFirst => 0 | MSecond _ => 1 | MRet _ => 2 end.
Definition send_over (k : send_pc) : nat := match k with SDone => 1 | _ => 0 end.
Definition recv_over (k : recv_pc) : nat := match k with RDone => 1 | _ => 0 end.

Record main_inv (b : bridge) : Prop := {
  mi_count : (length (b_errCh b) + consumed (b_main b)
              = send_over (bs_pc (b_sender b)) + recv_over (br_pc (b_receiver b)))%nat;
  mi_closed : b_main b <> MFirst -> is_Some (b_ctx b) /\ b_connClosed b = true /\ b_sendClosed b = true;
  mi_panic : b_panic b = false;
}.

Record bridge_inv (t0 : Transport) (b : bridge) : Prop := {
  bi_send : sender_inv t0 (b_crypt b) (b_sender b) (b_remoteEOF b) (b_localEOF b);
  bi_recv : receiver_inv t0 (b_crypt b) (b_receiver b) (b_remoteEOF b);
  bi_main : main_inv b;
}.

Lemma start_inv t : bridge_inv t (Bridge_start t).
Proof.
  split; [split|split|split]; simpl; try done.
  - exists t. split; [by constructor|done].
  - exists []. split; [constructor|]. left. done.
  - exists t. split; [by constructor|done].
Qed.

(** ** sendLoop keeps the invariant *)

(** The sender stops after having sent [fs]. *)
Lemma sender_stop t0 crypt crypt' s e l :
  sender_inv t0 crypt s e l -> sender_inv t0 crypt' (send_goto SDone s) e l.
Proof.
  intros [(t & Hs & _) H2 _ _]. split; simpl; [|done..]. exists t. by split.
Qed.

Lemma send_return_inv t0 b t' r :
  bridge_inv t0 b -> bs_pc (b_sender b) <> SDone -> t_recv t' = t_recv (b_crypt b) ->
  bridge_inv t0 (send_return r (set_crypt t' b)).
Proof.
  intros [Hs Hr Hm] Hp Ht. split; simpl.
  - by eapply sender_stop.
  - by eapply receiver_inv_frame.
  - destruct Hm as [Hc Hcl Hpn]. split; [|done|done]. simpl. rewrite length_app. simpl.
    destruct (bs_pc (b_sender b)); try done; simpl in *; lia.
Qed.

Lemma set_crypt_same b : set_crypt (b_crypt b) b = b.
Proof. by destruct b. Qed.

Lemma send_return_inv' t0 b r :
  bridge_inv t0 b -> bs_pc (b_sender b) <> SDone -> bridge_inv t0 (send_return r b).
Proof. intros Hb Hp. rewrite <- (set_crypt_same b). by apply send_return_inv. Qed.

(** The sender moves to another point, with the facts of that point. *)
Lemma send_goto_inv t0 b k :
  bridge_inv t0 b -> bs_pc (b_sender b) <> SDone -> k <> SDone ->
  match k with
    | SRead | SHalf => Forall chunk (bs_frames (b_sender b)) /\ data_of (bs_frames (b_sender b)) = bs_read (b_sender b)
    | SData d _ => Forall chunk (bs_frames (b_sender b)) /\
        data_of (bs_frames (b_sender b)) ++ d = bs_read (b_sender b) /\ d <> [] /\ len d <= chunkSize
    | SWait => exists g, Forall chunk g /\ bs_frames (b_sender b) = g ++ [half_close] /\ data_of g = bs_read (b_sender b)
    | SClose => b_remoteEOF b = true /\
        exists g, Forall chunk g /\ bs_frames (b_sender b) = g ++ [half_close] /\ data_of g = bs_read (b_sender b)
    | SDone => True
    end ->
  (b_localEOF b = true -> match k with SWait | SClose | SDone => True | _ => False end) ->
  bridge_inv t0 (set_sender (send_goto k) b).
Proof.
  intros [[(t & Hs & Hc) H2 H3 H4] Hr [Hm Hcl Hpn]] Hp Hk Hf Hl. split; [|done|].
  - split; simpl; [|done|done|done]. exists t. split; [done|]. auto.
  - split; simpl; [|done|done]. destruct (bs_pc (b_sender b)); try done; by destruct k.
Qed.

(** A frame goes out and the sender moves on to [k]. *)
Lemma send_advance t0 b f c t' k :
  bridge_inv t0 b -> bs_pc (b_sender b) <> SDone -> k <> SDone ->
  seal (b_crypt b) f = (Ok c, t') ->
  sent_shape (bs_frames (b_sender b) ++ [f]) (bs_read (b_sender b)) (b_remoteEOF b) ->
  match k with
    | SRead | SHalf => Forall chunk (bs_frames (b_sender b) ++ [f]) /\
        data_of (bs_frames (b_sender b) ++ [f]) = bs_read (b_sender b)
    | SWait => exists g, Forall chunk g /\ bs_frames (b_sender b) ++ [f] = g ++ [half_close] /\
        data_of g = bs_read (b_sender b)
    | _ => False
    end ->
  (b_localEOF b = true -> match k with SWait | SClose | SDone => True | _ => False end) ->
  bridge_inv t0 (set_sender (send_goto k) (set_sender (log_sent f c) (set_crypt t' b))).
Proof.
  intros [[(t & Hs & Hc) H2 H3 H4] Hr [Hm Hcl Hpn]] Hp Hk Hseal Hshape Hf Hl. split.
  - split; simpl; [|done|by destruct k|done]. exists t'. split; [|done].
    econstructor; [exact Hs|by apply Hc|exact Hseal].
  - simpl. eapply receiver_inv_frame; [|done]. by eapply seal_recv.
  - split; simpl; [|done|done]. destruct (bs_pc (b_sender b)); try done; by destruct k.
Qed.

(** The last frame goes out and the sender returns. *)
Lemma send_last t0 b f c t' r :
  bridge_inv t0 b -> bs_pc (b_sender b) <> SDone ->
  seal (b_crypt b) f = (Ok c, t') ->
  sent_shape (bs_frames (b_sender b) ++ [f]) (bs_read (b_sender b)) (b_remoteEOF b) ->
  bridge_inv t0 (send_return r (set_sender (log_sent f c) (set_crypt t' b))).
Proof.
  intros [[(t & Hs & Hc) H2 H3 H4] Hr [Hm Hcl Hpn]] Hp Hseal Hshape. split.
  - split; simpl; [|done|done|done]. exists t'. split; [|done].
    econstructor; [exact Hs|by apply Hc|exact Hseal].
  - simpl. eapply receiver_inv_frame; [|done]. by eapply seal_recv.
  - split; simpl; [|done|done]. rewrite length_app. simpl.
    destruct (bs_pc (b_sender b)); try done; simpl in *; lia.
Qed.

(** The two outcomes of a send. *)
Lemma send_then_cases f sent k b :
  (exists e t', send_then f sent k b = send_return (Some e) (set_crypt t' b) /\ t_recv t' = t_recv (b_crypt b)) \/
  (exists c t', send_then f sent k b = k (set_sender (log_sent f c) (set_crypt t' b)) /\
     seal (b_crypt b) f = (Ok c, t')).
Proof.
  unfold send_then, sendPlain. destruct (seal (b_crypt b) f) as [[c|e] t'] eqn:E.
  - destruct sent as [e|]; [left|right]; eauto. exists e, t'. split; [done|]. by eapply seal_recv.
  - left. exists e, t'. split; [done|]. by eapply seal_recv.
Qed.

Lemma after_read_inv t0 b err :
  bridge_inv t0 b -> bs_pc (b_sender b) = SRead -> bridge_inv t0 (after_read err b).
Proof.
  intros Hb Hp. pose proof (bi_send _ _ Hb) as HS. pose proof (si_pc _ _ _ _ _ HS) as Hf. rewrite Hp in Hf.
  assert (Hl : b_localEOF b = true -> False).
  { intros E. pose proof (si_local _ _ _ _ _ HS E) as HF. by rewrite Hp in HF. }
  destruct err as [e|]; cbn [after_read]; [destruct (errors_Is e EEOF); cbn [negb]|].
  - apply send_goto_inv; [done|by rewrite Hp|done|done|intros E; by destruct (Hl E)].
  - apply send_return_inv'; [done|]. by rewrite Hp.
  - apply send_goto_inv; [done|by rewrite Hp|done|done|intros E; by destruct (Hl E)].
Qed.

Lemma after_read_goto err k b : after_read err (set_sender (send_goto k) b) = after_read err b.
Proof. destruct err as [e|]; simpl; [|done]. by destruct (errors_Is e EEOF). Qed.

Lemma chunk_snoc g d : Forall chunk g -> d <> [] -> len d <= chunkSize -> Forall chunk (g ++ [data_frame d]).
Proof. intros Hg Hd Hl. apply Forall_app. split; [done|]. constructor; [by exists d|constructor]. Qed.

Lemma data_of_snoc g d : data_of (g ++ [data_frame d]) = data_of g ++ d.
Proof. rewrite data_of_app. simpl. by rewrite app_nil_r. Qed.

Lemma read_inv t0 b d err :
  bridge_inv t0 b -> bs_pc (b_sender b) = SRead -> d <> [] -> len d <= chunkSize ->
  bridge_inv t0 (set_sender (send_goto (SData d err)) (set_sender (log_read d) b)).
Proof.
  intros [[(t & Hs & Hc) H2 H3 H4] Hr [Hm Hcl Hpn]] Hp Hd Hl. rewrite Hp in *. destruct H3 as [Hg Hdata]. split.
  - split; simpl.
    + exists t. split; [done|]. intros _. by apply Hc.
    + exists (bs_frames (b_sender b)). split; [done|]. left. split; [done|]. rewrite Hdata. by apply prefix_app_r.
    + split; [done|]. by rewrite Hdata.
    + done.
  - done.
  - split; simpl; [|done|done]. by rewrite Hm.
Qed.

Lemma close_localEOF_inv t0 b :
  bridge_inv t0 b -> bs_pc (b_sender b) = SWait -> b_localEOF b = false -> bridge_inv t0 (close_localEOF b).
Proof.
  intros [[H1 H2 H3 H4] Hr [Hm Hcl Hpn]] Hp Hl. split.
  - split; simpl; [done|done|done|]. by rewrite Hp.
  - done.
  - split; simpl; [done|done|]. by rewrite Hpn, Hl.
Qed.

Lemma bridge_send_inv t0 b c b' : bridge_inv t0 b -> step_send b c = Some b' -> bridge_inv t0 b'.
Proof.
  intros Hb Hs. unfold step_send in Hs. pose proof (bi_send _ _ Hb) as HS.
  pose proof (si_pc _ _ _ _ _ HS) as Hf. pose proof (si_local _ _ _ _ _ HS) as Hl.
  destruct (bs_pc (b_sender b)) as [|d err| | | |] eqn:Hp; try done; destruct c as [d' err'|r| | | | |]; try done.
  - destruct (Z.leb_spec (len d') chunkSize); [|done]. destruct d' as [|x d']; simplify_eq.
    + replace (set_sender (log_read []) b) with b; [by apply after_read_inv|].
      destruct b as [? ? ? ? []]; unfold set_sender, log_read; simpl. by rewrite app_nil_r.
    + apply read_inv; [done|done|done|lia].
  - simplify_eq. destruct Hf as (Hg & Hd & Hne & Hlen).
    destruct (send_then_cases (data_frame d) r (after_read err) b) as [(e & t' & -> & Ht)|(c & t' & -> & Hseal)].
    + apply send_return_inv; [done|by rewrite Hp|done].
    + rewrite <- (after_read_goto err SRead). apply after_read_inv; [|done].
      apply send_advance; [done|by rewrite Hp|done|done| | |done].
      * exists (bs_frames (b_sender b) ++ [data_frame d]). split; [by apply chunk_snoc|]. left.
        split; [done|]. rewrite data_of_snoc, Hd. done.
      * split; [by apply chunk_snoc|]. by rewrite data_of_snoc.
  - simplify_eq. destruct Hf as (Hg & Hd).
    destruct (send_then_cases half_close r (fun b => set_sender (send_goto SWait) (close_localEOF b)) b)
      as [(e & t' & -> & Ht)|(c & t' & -> & Hseal)].
    + apply send_return_inv; [done|by rewrite Hp|done].
    + apply (close_localEOF_inv t0 (set_sender (send_goto SWait) (set_sender (log_sent half_close c) (set_crypt t' b))));
        [|done|simpl; by destruct (b_localEOF b); [destruct Hl|]].
      apply send_advance; [done|by rewrite Hp|done|done| |by exists (bs_frames (b_sender b))|done].
      exists (bs_frames (b_sender b)). auto 10.
  - destruct (b_remoteEOF b) eqn:He; simplify_eq. apply send_goto_inv; try done; by rewrite Hp.
  - destruct (b_ctx b); simplify_eq/=. apply send_return_inv'; [done|]. by rewrite Hp.
  - simplify_eq. destruct Hf as (He & g & Hg & HF & Hd).
    destruct (send_then_cases close_normal r (send_return None) b) as [(e & t' & -> & Ht)|(c & t' & -> & Hseal)].
    + apply send_return_inv; [done|by rewrite Hp|done].
    + apply send_last; try done; [by rewrite Hp|]. exists g. split; [done|]. right. right.
      rewrite HF, <- app_assoc. done.
Qed.
(** ** recvLoop keeps the invariant *)

(** One more ciphertext, opened or not. *)
Lemma open_next t0 crypt r e ct plain f t' :
  receiver_inv t0 crypt r e -> br_pc r = RRecv ->
  Decrypt crypt ct = (Ok plain, t') -> Unmarshal plain = Ok f ->
  opened t0 (firstn (length (br_frames r ++ [f])) (br_got r ++ [ct])) (br_frames r ++ [f]) t' /\
  length (br_frames r ++ [f]) = length (br_got r ++ [ct]).
Proof.
  intros [(t & Ho & _ & Hc) _ _ _] Hp Hd Hu. destruct Hc as [Hlen Ht]; [by rewrite Hp|].
  assert (Hl : length (br_frames r ++ [f]) = length (br_got r ++ [ct])) by (rewrite !length_app; simpl; lia).
  split; [|done]. rewrite Hl, firstn_all. rewrite Hlen, firstn_all in Ho. by econstructor.
Qed.

Lemma open_fails t0 crypt r e ct :
  receiver_inv t0 crypt r e -> br_pc r = RRecv ->
  exists t, opened t0 (firstn (length (br_frames r)) (br_got r ++ [ct])) (br_frames r) t /\
    (length (br_frames r) <= length (br_got r ++ [ct]))%nat.
Proof.
  intros [(t & Ho & _ & Hc) _ _ _] Hp. destruct Hc as [Hlen Ht]; [by rewrite Hp|]. exists t.
  rewrite length_app. split; [|lia]. by rewrite firstn_app, Hlen, Nat.sub_diag, app_nil_r, <- Hlen.
Qed.

(** The receiver's step changes nothing the sender relies on. *)
Lemma recv_step_inv t0 b b' :
  bridge_inv t0 b -> br_pc (b_receiver b) <> RDone ->
  b_sender b' = b_sender b -> b_localEOF b' = b_localEOF b -> t_send (b_crypt b') = t_send (b_crypt b) ->
  (b_remoteEOF b = true -> b_remoteEOF b' = true) ->
  receiver_inv t0 (b_crypt b') (b_receiver b') (b_remoteEOF b') ->
  b_main b' = b_main b -> b_ctx b' = b_ctx b -> b_connClosed b' = b_connClosed b ->
  b_sendClosed b' = b_sendClosed b -> b_panic b' = false ->
  length (b_errCh b') = (length (b_errCh b) + recv_over (br_pc (b_receiver b')))%nat ->
  bridge_inv t0 b'.
Proof.
  intros [Hs Hr [Hm Hcl Hpn]] Hp Es El Ec Ee HR Em Ex Ek El2 Epn Ech. split; [|done|].
  - rewrite Es, El. by eapply sender_inv_frame.
  - split; [|rewrite Em, Ex, Ek, El2; done|done]. rewrite Em, Es, Ech.
    destruct (br_pc (b_receiver b)); try done; simpl in Hm; lia.
Qed.

Lemma once_close_fields b :
  b_sender (once_close_remoteEOF b) = b_sender b /\ b_localEOF (once_close_remoteEOF b) = b_localEOF b /\
  b_crypt (once_close_remoteEOF b) = b_crypt b /\ b_main (once_close_remoteEOF b) = b_main b /\
  b_ctx (once_close_remoteEOF b) = b_ctx b /\ b_connClosed (once_close_remoteEOF b) = b_connClosed b /\
  b_sendClosed (once_close_remoteEOF b) = b_sendClosed b /\ b_errCh (once_close_remoteEOF b) = b_errCh b /\
  br_got (b_receiver (once_close_remoteEOF b)) = br_got (b_receiver b) /\
  br_frames (b_receiver (once_close_remoteEOF b)) = br_frames (b_receiver b) /\
  br_written (b_receiver (once_close_remoteEOF b)) = br_written (b_receiver b).
Proof. unfold once_close_remoteEOF. by destruct (br_once (b_receiver b)). Qed.

Lemma once_close_flags b :
  br_once (b_receiver b) = b_remoteEOF b -> b_panic b = false ->
  b_remoteEOF (once_close_remoteEOF b) = true /\ br_once (b_receiver (once_close_remoteEOF b)) = true /\
  b_panic (once_close_remoteEOF b) = false.
Proof.
  intros Ho Hp. unfold once_close_remoteEOF. destruct (br_once (b_receiver b)) eqn:E; simpl; [auto|].
  by rewrite Hp, <- Ho.
Qed.

Lemma data_of_plain g f : (forall d, pf_Body f <> Some (PlainFrame_Data d)) -> data_of (g ++ [f]) = data_of g.
Proof.
  intros Hf. rewrite data_of_app. simpl. unfold frame_data.
  destruct (pf_Body f) as [[d|m|m]|]; rewrite ?app_nil_r; try done. by destruct (Hf d).
Qed.

Lemma handle_frame_inv t0 b ct plain f t' :
  bridge_inv t0 b -> br_pc (b_receiver b) = RRecv ->
  Decrypt (b_crypt b) ct = (Ok plain, t') -> Unmarshal plain = Ok f ->
  bridge_inv t0 (handle_frame f (set_receiver (log_frame f) (set_crypt t' (set_receiver (log_got ct) b)))).
Proof.
  intros Hb Hp Hd Hu. pose proof (bi_recv _ _ Hb) as HR. pose proof (mi_panic _ (bi_main _ _ Hb)) as Hpn.
  destruct (open_next _ _ _ _ _ _ _ _ HR Hp Hd Hu) as [Ho Hlen].
  pose proof (Decrypt_send _ _ _ _ Hd) as Hsend. destruct HR as [_ Hw Honce Heof]. rewrite Hp in Hw.
  assert (Hpd : br_pc (b_receiver b) <> RDone) by (by rewrite Hp).
  assert (Heof' : forall g, b_remoteEOF b = true ->
    exists f', f' ∈ br_frames (b_receiver b) ++ [g] /\ (is_half_close f' || is_close f') = true).
  { intros g E. destruct (Heof E) as (f' & Hin & Hf'). exists f'. split; [set_solver|done]. }
  assert (Hlast : f ∈ br_frames (b_receiver b) ++ [f]) by set_solver.
  set (b1 := set_receiver (log_frame f) (set_crypt t' (set_receiver (log_got ct) b))).
  unfold handle_frame. destruct (pf_Body f) as [[d|m|m]|] eqn:Hf.
  - assert (f = data_frame d) as -> by (destruct f; simpl in Hf; by subst).
    destruct d as [|x d]; (apply (recv_step_inv t0 b); [done|done|done|done|done|done| |done|done|done|done|done|simpl; lia]);
      (split; simpl; [exists t'; split_and!; [done|lia|done]| |done|auto]).
    + by rewrite data_of_snoc, app_nil_r.
    + by exists (br_frames (b_receiver b)).
  - destruct (once_close_fields (set_receiver close_write b1)) as (E1 & E2 & E3 & E4 & E5 & E6 & E7 & E8 & E9 & E10 & E11).
    destruct (once_close_flags (set_receiver close_write b1)) as (F1 & F2 & F3); [done|done|].
    apply (recv_step_inv t0 b); simpl; rewrite ?E1, ?E2, ?E3, ?E4, ?E5, ?E6, ?E7, ?E8; try done; try (simpl; lia).
    split; simpl; rewrite ?E9, ?E10, ?E11, ?F1, ?F2; [exists t'; split_and!; [done|simpl; lia|done]| |done|].
    + simpl. rewrite data_of_plain; [done|]. intros d. by rewrite Hf.
    + intros _. exists f. split; [done|]. unfold is_half_close. by rewrite Hf.
  - destruct (once_close_fields b1) as (E1 & E2 & E3 & E4 & E5 & E6 & E7 & E8 & E9 & E10 & E11).
    destruct (once_close_flags b1) as (F1 & F2 & F3); [done|done|].
    apply (recv_step_inv t0 b); simpl; rewrite ?E1, ?E2, ?E3, ?E4, ?E5, ?E6, ?E7, ?E8, ?length_app; try done.
    split; simpl; rewrite ?E9, ?E10, ?E11, ?F1, ?F2; [exists t'; split_and!; [done|simpl; lia|done]| |done|].
    + left. simpl. rewrite data_of_plain; [done|]. intros d. by rewrite Hf.
    + intros _. exists f. split; [done|]. unfold is_half_close, is_close. by rewrite Hf.
  - apply (recv_step_inv t0 b); simpl; rewrite ?length_app; try done.
    split; simpl; [exists t'; split_and!; [done|lia|done]| |done|auto].
    left. rewrite data_of_plain; [done|]. intros d. by rewrite Hf.
Qed.

Lemma bridge_recv_inv t0 b c b' : bridge_inv t0 b -> step_recv b c = Some b' -> bridge_inv t0 b'.
Proof.
  intros Hb Hs. unfold step_recv in Hs. pose proof (bi_recv _ _ Hb) as HR.
  pose proof (mi_panic _ (bi_main _ _ Hb)) as Hpn.
  destruct (br_pc (b_receiver b)) as [|d| |] eqn:Hp; destruct c as [| |[ct|e]|n [e|]| | |]; try done.
  - destruct (Decrypt (b_crypt b) ct) as [[plain|e] t'] eqn:Hd;
      [destruct (Unmarshal plain) as [f|e] eqn:Hu|]; simplify_eq;
      [by eapply handle_frame_inv| |];
      (apply (recv_step_inv t0 b); simpl; rewrite ?length_app; try done; [by rewrite Hp|by eapply Decrypt_send|]);
      destruct (open_fails _ _ _ _ ct HR Hp) as (t & Ho & Hl); destruct HR as [_ Hw H3 H4]; rewrite Hp in Hw;
      (split; simpl; [exists t; split_and!; done|by left|done|done]).
  - simplify_eq. apply (recv_step_inv t0 b); simpl; rewrite ?length_app; try done; [by rewrite Hp|].
    destruct HR as [(t & Ho & Hl & _) Hw H3 H4]. rewrite Hp in Hw.
    split; simpl; [exists t; split_and!; done|by left|done|done].
  - simplify_eq. apply (recv_step_inv t0 b); simpl; rewrite ?length_app; try done; [by rewrite Hp|].
    destruct HR as [(t & Ho & Hl & _) Hw H3 H4]. rewrite Hp in Hw. destruct Hw as (g & HF & Hw).
    split; simpl; [exists t; split_and!; done| |done|done]. right. exists g, d. split; [done|].
    rewrite HF, data_of_snoc, Hw. apply prefix_app. exists (skipn n d). by rewrite firstn_skipn.
  - simplify_eq. apply (recv_step_inv t0 b); simpl; try done; try lia; [by rewrite Hp|].
    destruct HR as [(t & Ho & Hl & Hc) Hw H3 H4]. rewrite Hp in Hw, Hc. destruct Hw as (g & HF & Hw).
    split; simpl; [exists t; split_and!; auto| |done|done]. by rewrite HF, data_of_snoc, Hw.
  - destruct (b_ctx b); simplify_eq/=. apply (recv_step_inv t0 b); simpl; rewrite ?length_app; try done; [by rewrite Hp|].
    destruct HR as [(t & Ho & Hl & _) Hw H3 H4]. rewrite Hp in Hw.
    split; simpl; [exists t; split_and!; done|by left|done|done].
  - destruct (b_ctx b); simplify_eq/=. apply (recv_step_inv t0 b); simpl; try done; try lia; [by rewrite Hp|].
    destruct HR as [(t & Ho & Hl & Hc) Hw H3 H4]. rewrite Hp in Hw, Hc.
    split; simpl; [exists t; split_and!; auto|done|done|done].
Qed.

(** ** Every reachable bridge *)

Lemma cancel_inv t0 e b : bridge_inv t0 b -> bridge_inv t0 (cancel e b).
Proof.
  intros [Hs Hr [Hm Hcl Hpn]]. split; [done|done|]. split; simpl; [done| |done].
  intros Hk. destruct (Hcl Hk) as ([x ->] & H1 & H2). eauto.
Qed.

Lemma bridge_main_inv t0 b b' : bridge_inv t0 b -> step_main b = Some b' -> bridge_inv t0 b'.
Proof.
  intros [Hs Hr [Hm Hcl Hpn]] H. unfold step_main in H.
  destruct (b_main b) as [|fst'|] eqn:Em, (b_errCh b) as [|r' rest] eqn:Ee; simplify_eq; (split; [done|done|]).
  - split; simpl in *; [lia| |done]. intros _. destruct (b_ctx b); eauto.
  - split; simpl in *; [lia| |done]. intros _. by apply Hcl.
Qed.

Lemma bstep_inv t0 b ev b' : bridge_inv t0 b -> bstep b ev = Some b' -> bridge_inv t0 b'.
Proof.
  intros Hb. destruct ev as [e|c|c|]; simpl; intros Hs; simplify_eq.
  - by apply cancel_inv.
  - by eapply bridge_send_inv.
  - by eapply bridge_recv_inv.
  - by eapply bridge_main_inv.
Qed.

Lemma breach_inv t b : breach t b -> bridge_inv t b.
Proof. induction 1; [apply start_inv|by eapply bstep_inv]. Qed.

Lemma brun_breach t b evs b' : breach t b -> brun b evs = Some b' -> breach t b'.
Proof.
  revert b. induction evs as [|ev evs IH]; intros b Hb Hr; simplify_eq/=; [done|].
  destruct (bstep b ev) as [b1|] eqn:E; simplify_eq/=. eapply IH; [|done]. by eapply breach_step.
Qed.
End streams.
