(* ===== verification/BridgeProps.v ===== *)
(** * What the bridge guarantees

    Two bridges whose transports are linked and whose streams deliver a prefix of
    what was sent (which the relay guarantees) form a pair of byte streams with
    an orderly shutdown. *)

From S2P Require Import Prelude GoBase Proto Noise Bridge BridgeInv.

(** ** From ciphertexts back to frames *)

Section streams.
Context {FC : Codec PlainFrame} {FS : CodecSpec PlainFrame} {NL : NoiseLib} {NS : NoiseSpec}.

Lemma sealed_prefix t0 fs cs t cs' :
  sealed t0 fs cs t -> cs' `prefix_of` cs -> exists fs' t', sealed t0 fs' cs' t' /\ fs' `prefix_of` fs.
Proof.
  induction 1 as [t Ht|fs cs t t1 f c t' Hs IH H1 H2]; intros Hp.
  - apply prefix_nil_inv in Hp as ->. exists [], t. split; [by constructor|done].
  - apply prefix_snoc in Hp as [Hp| ->].
    + destruct (IH Hp) as (fs' & t2 & Hs' & Hf). exists fs', t2. split; [done|]. by apply prefix_app_r.
    + exists (fs ++ [f]), t'. split; [by econstructor|done].
Qed.

Lemma sealed_opened ta tb fs cs t :
  sealed ta fs cs t -> linked ta tb -> Forall (fun f => go_typed f = true) fs ->
  exists u, opened tb cs fs u /\ linked t u.
Proof.
  induction 1 as [t Ht|fs cs t t1 f c t' Hs IH H1 H2]; intros Hl Hf.
  - exists tb. split; [by constructor|]. by eapply linked_send.
  - apply Forall_app in Hf as [Hf Hf1]. apply Forall_cons_iff in Hf1 as [Hf1 _].
    destruct (IH Hl Hf) as (u & Ho & Hl'). unfold seal in H2.
    destruct (Marshal f) as [b|] eqn:Hm; [|done].
    destruct (linked_message t1 u b c t' (linked_send _ _ _ Hl' H1) H2) as (_ & u' & Hd & Hl2).
    exists u'. split; [|done]. econstructor; [exact Ho|done|exact Hd|]. by apply unmarshal_marshal.
Qed.

Lemma opened_fun t0 cs fs t fs' t' :
  opened t0 cs fs t -> opened t0 cs fs' t' -> fs' = fs /\ t_recv t' = t_recv t.
Proof.
  intros H1. revert fs' t'. induction H1 as [t Ht|cs fs t t1 c plain f t2 H1 IH Ht Hd Hu]; intros fs' t' H2.
  - inversion H2 as [|cs1 fs1 s s1 c' p' f' s' Ho Hs Hd' Hu' Ecs]; subst; [split; congruence|].
    by destruct cs1.
  - inversion H2 as [|cs1 fs1 s s1 c' p' f' s' Ho Hs Hd' Hu' Ecs]; subst; [by destruct cs|].
    apply app_inj_tail in Ecs as [-> ->]. destruct (IH _ _ Ho) as [-> Hr].
    unfold Decrypt in *. rewrite Hs, Hr, <- Ht in Hd'. destruct (t_recv t1) as [k|]; [|done].
    destruct (cs_Decrypt k c) as [[p|] k']; simplify_eq/=. rewrite Hu in Hu'. by simplify_eq.
Qed.

Lemma opened_prefix ta tb fs cs t cs' fs' u :
  sealed ta fs cs t -> linked ta tb -> Forall (fun f => go_typed f = true) fs ->
  cs' `prefix_of` cs -> opened tb cs' fs' u -> fs' `prefix_of` fs.
Proof.
  intros Hs Hl Hf Hp Ho. destruct (sealed_prefix _ _ _ _ _ Hs Hp) as (fs1 & t1 & Hs1 & Hp1).
  assert (Hf1 : Forall (fun f => go_typed f = true) fs1).
  { destruct Hp1 as [k ->]. by apply Forall_app in Hf as [? _]. }
  destruct (sealed_opened _ _ _ _ _ Hs1 Hl Hf1) as (u1 & Ho1 & _).
  by destruct (opened_fun _ _ _ _ _ _ Ho1 Ho) as [-> _].
Qed.

(** What a linked transport adds to the frames it seals. *)
Lemma sealed_lengths ta tb fs cs t c :
  sealed ta fs cs t -> linked ta tb -> Forall (fun f => go_typed f = true) fs -> c ∈ cs ->
  exists f b, f ∈ fs /\ Marshal f = Ok b /\ len c = len b + 16.
Proof.
  induction 1 as [t Ht|fs cs t t1 f c' t' Hs IH H1 H2]; intros Hl Hf Hin; [by apply not_elem_of_nil in Hin|].
  pose proof (proj1 (proj1 (Forall_app _ _ _) Hf)) as Hf0.
  apply elem_of_app in Hin as [Hin|Hin].
  - destruct (IH Hl Hf0 Hin) as (g & b & Hg & Hm). exists g, b. split; [set_solver|done].
  - apply list_elem_of_singleton in Hin as ->. destruct (sealed_opened _ _ _ _ _ Hs Hl Hf0) as (u & _ & Hl').
    unfold seal in H2. destruct (Marshal f) as [b|] eqn:Hm; [|done].
    destruct (linked_message t1 u b c' t' (linked_send _ _ _ Hl' H1) H2) as [Hlen _].
    exists f, b. split; [set_solver|done].
Qed.

(** ** The shape of what was sent *)

Lemma chunk_typed f : chunk f -> go_typed f = true.
Proof.
  intros (d & -> & _ & Hd). unfold go_typed, PlainFrame_typed, small. simpl. apply Z.ltb_lt.
  unfold chunkSize in Hd. assert (32768 < 2 ^ 30) by reflexivity. lia.
Qed.

Lemma sent_typed fs read e : sent_shape fs read e -> Forall (fun f => go_typed f = true) fs.
Proof.
  intros (g & Hg & H).
  assert (Hg' : Forall (fun f => go_typed f = true) g) by (eapply Forall_impl; [|exact Hg]; apply chunk_typed).
  destruct H as [[-> _]|[[-> _]|(-> & _)]]; [done| |]; apply Forall_app; (split; [done|]); repeat constructor.
Qed.

Lemma sent_payload fs read e f : sent_shape fs read e -> f ∈ fs -> len (frame_payload f) <= chunkSize.
Proof.
  intros (g & Hg & H) Hf.
  assert (Hc : forall h, chunk h -> len (frame_payload h) <= chunkSize) by (by intros h (d & -> & _ & Hd)).
  assert (Hin : f ∈ g \/ f = half_close \/ f = close_normal) by (destruct H as [[-> _]|[[-> _]|(-> & _)]]; set_solver).
  destruct Hin as [Hin|[-> | ->]]; [|done|done]. rewrite Forall_forall in Hg. apply Hc, Hg. by apply list_elem_of_In.
Qed.

Lemma chunks_no_end g : Forall chunk g -> forall f, f ∈ g -> is_half_close f = false /\ is_close f = false.
Proof. rewrite Forall_forall. intros Hg f Hf. apply list_elem_of_In in Hf. by destruct (Hg f Hf) as (d & -> & _). Qed.

(** A prefix of what was sent that has a [HalfClose] has all the data; one that
    has a [Close] has a [HalfClose], and its sender saw the other side end. *)
Lemma shape_half_close fs read e p :
  sent_shape fs read e -> p `prefix_of` fs -> existsb is_half_close p = true ->
  data_of p = read /\ (forall g d, p <> g ++ [data_frame d]).
Proof.
  intros (g & Hg & H) Hp Hh. apply existsb_exists in Hh as (f & Hin & Hf).
  assert (Hno : forall q, q `prefix_of` g -> f ∈ q -> False).
  { intros q [k ->] Hq. destruct (chunks_no_end _ Hg f) as [Hff _]; [set_solver|congruence]. }
  apply list_elem_of_In in Hin.
  assert (Hcases : data_of g = read /\ (p = g ++ [half_close] \/ p = g ++ [half_close; close_normal])).
  { destruct H as [[-> _]|[[-> Hd]|(-> & Hd & _)]].
    - by destruct (Hno p Hp Hin).
    - apply prefix_snoc in Hp as [Hp| ->]; [by destruct (Hno p Hp Hin)|auto].
    - change [half_close; close_normal] with ([half_close] ++ [close_normal]) in Hp. rewrite app_assoc in Hp.
      apply prefix_snoc in Hp as [Hp| ->]; [|split; [done|right; by rewrite <- app_assoc]].
      apply prefix_snoc in Hp as [Hp| ->]; [by destruct (Hno p Hp Hin)|auto]. }
  destruct Hcases as [Hd Hc]. split.
  - destruct Hc as [-> | ->]; rewrite data_of_app; simpl; by rewrite app_nil_r.
  - intros g' d E. destruct Hc as [-> | ->].
    + by apply app_inj_tail in E as [_ ?].
    + change [half_close; close_normal] with ([half_close] ++ [close_normal]) in E. rewrite app_assoc in E.
      by apply app_inj_tail in E as [_ ?].
Qed.

Lemma shape_close fs read e p :
  sent_shape fs read e -> p `prefix_of` fs -> existsb is_close p = true ->
  existsb is_half_close p = true /\ e = true.
Proof.
  intros (g & Hg & H) Hp Hh. apply existsb_exists in Hh as (f & Hin & Hf). apply list_elem_of_In in Hin.
  assert (Hno : forall q, q `prefix_of` g -> f ∈ q -> False).
  { intros q [k ->] Hq. destruct (chunks_no_end _ Hg f) as [_ Hff]; [set_solver|congruence]. }
  assert (Hhc : forall q, q `prefix_of` g ++ [half_close] -> f ∈ q -> False).
  { intros q Hq Hfq. apply prefix_snoc in Hq as [Hq| ->]; [by eapply Hno|].
    apply elem_of_app in Hfq as [Hfq|Hfq]; [by apply (Hno g)|]. apply list_elem_of_singleton in Hfq. by subst. }
  destruct H as [[-> _]|[[-> Hd]|(-> & Hd & He)]].
  - by destruct (Hno p Hp Hin).
  - by destruct (Hhc p Hp Hin).
  - split; [|done]. change [half_close; close_normal] with ([half_close] ++ [close_normal]) in Hp. rewrite app_assoc in Hp.
    apply prefix_snoc in Hp as [Hp| ->]; [by destruct (Hhc p Hp Hin)|].
    rewrite <- app_assoc, existsb_app. simpl. apply orb_true_r.
Qed.

(** ** Two linked bridges *)

Lemma received_frames ta tb a b :
  breach ta a -> breach tb b -> linked ta tb -> br_got (b_receiver b) `prefix_of` bs_sent (b_sender a) ->
  br_frames (b_receiver b) `prefix_of` bs_frames (b_sender a).
Proof.
  intros Ha Hb Hl Hp. destruct (breach_inv _ _ Ha) as [Hs _ _]. destruct (breach_inv _ _ Hb) as [_ Hr _].
  destruct (si_sealed _ _ _ _ _ Hs) as (t & Hse & _). destruct (ri_opened _ _ _ _ Hr) as (u & Ho & _).
  eapply opened_prefix; [exact Hse|exact Hl|by eapply sent_typed, si_shape|etrans; [|exact Hp]|exact Ho].
  exists (skipn (length (br_frames (b_receiver b))) (br_got (b_receiver b))). by rewrite firstn_skipn.
Qed.

Lemma received_all ta tb a b :
  breach ta a -> breach tb b -> linked ta tb -> br_got (b_receiver b) `prefix_of` bs_sent (b_sender a) ->
  existsb is_half_close (br_frames (b_receiver b)) = true -> br_written (b_receiver b) = bs_read (b_sender a).
Proof.
  intros Ha Hb Hl Hp Hh. pose proof (received_frames _ _ _ _ Ha Hb Hl Hp) as Hf.
  destruct (breach_inv _ _ Ha) as [Hs _ _]. destruct (breach_inv _ _ Hb) as [_ Hr _].
  destruct (shape_half_close _ _ _ _ (si_shape _ _ _ _ _ Hs) Hf Hh) as [<- Hno].
  pose proof (ri_written _ _ _ _ Hr) as Hw.
  destruct (br_pc (b_receiver b)); [done| |done|].
  - destruct Hw as (g & Hg & _). by destruct (Hno _ _ Hg).
  - destruct Hw as [Hw|(g & d & Hg & _)]; [done|]. by destruct (Hno _ _ Hg).
Qed.

Lemma written_data t b : breach t b -> br_written (b_receiver b) `prefix_of` data_of (br_frames (b_receiver b)).
Proof.
  intros Hb. destruct (breach_inv _ _ Hb) as [_ Hr _]. pose proof (ri_written _ _ _ _ Hr) as Hw.
  destruct (br_pc (b_receiver b)); [by rewrite Hw| |by rewrite Hw|].
  - destruct Hw as (g & -> & ->). rewrite data_of_app. by apply prefix_app_r.
  - destruct Hw as [->|(g & d & -> & Hw)]; [done|done].
Qed.

Lemma sent_data t a : breach t a -> data_of (bs_frames (b_sender a)) `prefix_of` bs_read (b_sender a).
Proof.
  intros Ha. destruct (breach_inv _ _ Ha) as [Hs _ _].
  destruct (si_shape _ _ _ _ _ Hs) as (g & _ & [[-> Hp]|[[-> <-]|(-> & <- & _)]]); [done| |];
    rewrite data_of_app; simpl; by rewrite app_nil_r.
Qed.

Lemma data_of_prefix p q : p `prefix_of` q -> data_of p `prefix_of` data_of q.
Proof. intros [k ->]. rewrite data_of_app. by apply prefix_app_r. Qed.

Lemma stream_prefix ta tb a b :
  breach ta a -> breach tb b -> linked ta tb -> br_got (b_receiver b) `prefix_of` bs_sent (b_sender a) ->
  br_written (b_receiver b) `prefix_of` bs_read (b_sender a).
Proof.
  intros Ha Hb Hl Hp. etrans; [by eapply written_data|]. etrans; [|by eapply sent_data].
  apply data_of_prefix. by eapply received_frames.
Qed.
End streams.

(** ** Properties *)

Section properties.
Context {FC : Codec PlainFrame} {FS : CodecSpec PlainFrame} {NL : NoiseLib} {NS : NoiseSpec}.

Lemma close_complete ta tb a b :
  breach ta a -> breach tb b -> linked ta tb -> linked tb ta ->
  br_got (b_receiver b) `prefix_of` bs_sent (b_sender a) ->
  br_got (b_receiver a) `prefix_of` bs_sent (b_sender b) ->
  existsb is_close (br_frames (b_receiver b)) = true ->
  br_written (b_receiver b) = bs_read (b_sender a) /\ br_written (b_receiver a) = bs_read (b_sender b).
Proof.
  intros Ha Hb Hl Hl' Hp Hp' Hc. destruct (breach_inv _ _ Ha) as [Hs Hr _]. destruct (breach_inv _ _ Hb) as [Hs' _ _].
  destruct (shape_close _ _ _ _ (si_shape _ _ _ _ _ Hs) (received_frames _ _ _ _ Ha Hb Hl Hp) Hc) as [Hh He].
  split; [by eapply received_all|]. eapply received_all; [exact Hb|exact Ha|done|done|].
  destruct (ri_eof _ _ _ _ Hr He) as (f & Hin & Hf). apply list_elem_of_In in Hin.
  apply orb_true_iff in Hf as [Hf|Hf]; [apply existsb_exists; eauto|].
  eapply (shape_close _ _ _ _ (si_shape _ _ _ _ _ Hs')); [by eapply received_frames|].
  apply existsb_exists. eauto.
Qed.

(** C13: the tunnel is a byte stream.  When the ciphertexts that reached [b] are
    a prefix of those [a] sent, the frames [b] decrypts are a prefix of the
    frames [a] sent, the bytes written to [b]'s connection are a prefix of those
    read from [a]'s, and from the moment [b] has the half-close they are all of
    them.  When the same holds in the other direction and [b] receives a [Close] from
    [a]'s bridge, both byte streams have been delivered completely: nothing is cut off
    by an orderly shutdown. *)
Theorem bridge_stream_integrity ta tb a b :
  breach ta a -> breach tb b -> linked ta tb -> br_got (b_receiver b) `prefix_of` bs_sent (b_sender a) ->
  br_frames (b_receiver b) `prefix_of` bs_frames (b_sender a) /\
  br_written (b_receiver b) `prefix_of` bs_read (b_sender a) /\
  (existsb is_half_close (br_frames (b_receiver b)) = true -> br_written (b_receiver b) = bs_read (b_sender a)) /\
  (linked tb ta -> br_got (b_receiver a) `prefix_of` bs_sent (b_sender b) -> existsb is_close (br_frames (b_receiver b)) = true ->
     br_written (b_receiver b) = bs_read (b_sender a) /\ br_written (b_receiver a) = bs_read (b_sender b)).
Proof.
  intros Ha Hb Hl Hp.
  split_and!; [by eapply received_frames|by eapply stream_prefix|by eapply received_all|].
  intros Hl' Hp' Hc. by apply (close_complete ta tb).
Qed.

(** C14: frames fit.  Every ciphertext a bridge sends fits in a gRPC message of
    128 KiB, with room for its envelope. *)
Theorem bridge_frames_bounded {FO : FrameOverhead} t u b c :
  breach t b -> linked t u -> c ∈ bs_sent (b_sender b) -> 16 <= len c <= 32 * 1024 + 80.
Proof.
  intros Hb Hl Hc. destruct (breach_inv _ _ Hb) as [Hs _ _]. pose proof (si_shape _ _ _ _ _ Hs) as Hsh.
  destruct (si_sealed _ _ _ _ _ Hs) as (t' & Hse & _).
  destruct (sealed_lengths _ _ _ _ _ c Hse Hl (sent_typed _ _ _ Hsh) Hc) as (f & p & Hf & Hm & Hlen).
  pose proof (sent_payload _ _ _ f Hsh Hf). pose proof (frame_overhead f p Hm).
  unfold chunkSize in *. assert (0 <= len p) by (unfold len; lia). lia.
Qed.

(** C15: no goroutine misbehaves.  No channel is closed twice; each of the two
    goroutines reports exactly one result on [errCh], so neither blocks and none
    is lost; and once [Bridge] has taken a result the context is cancelled, the
    connection closed and the stream's send side closed. *)
Theorem bridge_orderly t b :
  breach t b ->
  b_panic b = false /\
  (length (b_errCh b) + consumed (b_main b)
    = send_over (bs_pc (b_sender b)) + recv_over (br_pc (b_receiver b)))%nat /\
  (b_main b <> MFirst -> is_Some (b_ctx b) /\ b_connClosed b = true /\ b_sendClosed b = true) /\
  (b_remoteEOF b = true -> exists f, f ∈ br_frames (b_receiver b) /\ (is_half_close f || is_close f) = true).
Proof.
  intros Hb. destruct (breach_inv _ _ Hb) as [_ Hr [Hm Hc Hp]]. split_and!; [done|done|done|]. apply Hr.
Qed.
(** *** Shutting down *)

(** The step each goroutine takes when the connection and the stream only fail
    and the context is done. *)
Definition fail_send (k : send_pc) : list bevent :=
  match k with
  | SRead => [BevSend (BRead [] (Some ENetClosed))]
  | SData _ _ | SHalf | SClose => [BevSend (BSent (Some EEOF))]
  | SWait => [BevSend BCtxDone]
  | SDone => []
  end.
Definition fail_recv (k : recv_pc) : list bevent :=
  match k with
  | RRecv => [BevRecv (BRecv (Err EEOF))]
  | RWrite _ => [BevRecv (BWrote 0 (Some ENetClosed))]
  | RCheck => [BevRecv BCtxDone]
  | RDone => []
  end.
Definition wait_main (k : main_pc) : list bevent :=
  match k with MFirst => [BevMain; BevMain] | MSecond _ => [BevMain] | MRet _ => [] end.

Lemma brun_app b l l' : brun b (l ++ l') = (b' ← brun b l; brun b' l').
Proof. revert b. induction l as [|ev l IH]; intros b; [done|]. simpl. destruct (bstep b ev); [apply IH|done]. Qed.

Lemma fail_send_run b :
  is_Some (b_ctx b) -> exists b', brun b (fail_send (bs_pc (b_sender b))) = Some b' /\
    bs_pc (b_sender b') = SDone /\ b_ctx b' = b_ctx b /\ b_receiver b' = b_receiver b /\ b_main b' = b_main b.
Proof.
  intros [e He]. destruct (bs_pc (b_sender b)) eqn:Hp; cbn [fail_send brun bstep]; unfold step_send; rewrite ?Hp.
  - eexists. split; [reflexivity|]. done.
  - unfold send_then, sendPlain. destruct (seal _ _) as [[c|e'] t']; eexists; (split; [reflexivity|done]).
  - unfold send_then, sendPlain. destruct (seal _ _) as [[c|e'] t']; eexists; (split; [reflexivity|done]).
  - rewrite He. eexists. split; [reflexivity|]. simpl. auto.
  - unfold send_then, sendPlain. destruct (seal _ _) as [[c|e'] t']; eexists; (split; [reflexivity|done]).
  - exists b. done.
Qed.

Lemma fail_recv_run b :
  is_Some (b_ctx b) -> exists b', brun b (fail_recv (br_pc (b_receiver b))) = Some b' /\
    br_pc (b_receiver b') = RDone /\ bs_pc (b_sender b') = bs_pc (b_sender b) /\ b_main b' = b_main b.
Proof.
  intros [e He]. destruct (br_pc (b_receiver b)) eqn:Hp; cbn [fail_recv brun bstep]; unfold step_recv; rewrite ?Hp, ?He;
    (eexists; split; [reflexivity|done]).
Qed.

Lemma wait_main_run t b :
  breach t b -> bs_pc (b_sender b) = SDone -> br_pc (b_receiver b) = RDone ->
  exists b' r, brun b (wait_main (b_main b)) = Some b' /\ b_main b' = MRet r.
Proof.
  intros Hb Hs Hr. destruct (breach_inv _ _ Hb) as [_ _ [Hm _ _]]. rewrite Hs, Hr in Hm. simpl in Hm.
  destruct (b_main b) eqn:Em; simpl in Hm; cbn [wait_main brun bstep]; unfold step_main; rewrite ?Em.
  - destruct (b_errCh b) as [|r1 [|r2 l]]; simpl in Hm; try lia. simpl. eauto.
  - destruct (b_errCh b) as [|r1 l]; simpl in Hm; try lia. simpl. eauto.
  - eauto.
Qed.

(** C16: [Bridge] always returns.  From any state, once its context is done and
    the connection and the stream fail the calls in progress, both goroutines end
    at their next step and [Bridge] returns, whatever either was doing: no wait
    in the code is left without a way out. *)
Theorem bridge_returns t b :
  breach t b ->
  exists b' r, brun b (BevCancel CtxCanceled :: fail_send (bs_pc (b_sender b)) ++
                       fail_recv (br_pc (b_receiver b)) ++ wait_main (b_main b)) = Some b' /\ b_main b' = MRet r.
Proof.
  intros Hb. assert (H0 : bstep b (BevCancel CtxCanceled) = Some (cancel CtxCanceled b)) by done.
  pose proof (breach_step _ _ _ _ Hb H0) as Hb0.
  destruct (fail_send_run (cancel CtxCanceled b)) as (b1 & E1 & S1 & C1 & R1 & M1); [simpl; destruct (b_ctx b); eauto|].
  destruct (fail_recv_run b1) as (b2 & E2 & R2 & S2 & M2); [rewrite C1; simpl; destruct (b_ctx b); eauto|].
  pose proof (brun_breach _ _ _ _ (brun_breach _ _ _ _ Hb0 E1) E2) as Hb2.
  destruct (wait_main_run t b2 Hb2) as (b3 & r & E3 & Hr); [congruence|done|].
  exists b3, r. split; [|done]. cbn [brun]. rewrite H0. cbn [mbind option_bind].
  change (bs_pc (b_sender b)) with (bs_pc (b_sender (cancel CtxCanceled b))).
  rewrite brun_app, E1. cbn [mbind option_bind]. rewrite R1 in E2. simpl in E2.
  rewrite brun_app, E2. cbn [mbind option_bind]. rewrite M1 in M2. simpl in M2. by rewrite <- M2.
Qed.
End properties.

(** ** Runs, for the witnesses *)

#[local] Existing Instances Wire.frame_codec Wire.frame_codec_spec Wire.frame_codec_overhead
  ClearNoise.clear_noise ClearNoise.clear_noise_spec.

Definition demo_transport : Transport (NL := ClearNoise.clear_noise) :=
  {| t_send := Some 0; t_recv := Some 0 |}.
Definition demo_bridge (evs : list bevent) : bridge :=
  default (Bridge_start demo_transport) (brun (Bridge_start demo_transport) evs).
Definition demo_ct (b : bridge (NL := ClearNoise.clear_noise)) (i : nat) : bchoice :=
  BRecv (Ok (default [] (bs_sent (b_sender b) !! i))).

(** The server side has nothing to say and half-closes at once. *)
Definition demo_half : list bevent := [BevSend (BRead [] (Some EEOF)); BevSend (BSent None)].
(** The client side says two bytes, half-closes, sees the other half-close and closes. *)
Definition demo_client : bridge :=
  demo_bridge [BevSend (BRead [x68] None); BevSend (BSent None); BevSend (BRead [x69] (Some EEOF)); BevSend (BSent None);
    BevSend (BSent None); BevRecv (demo_ct (demo_bridge demo_half) 0); BevRecv BRun;
    BevSend BRemoteEOF; BevSend (BSent None)].
Definition demo_server : bridge :=
  demo_bridge (demo_half ++ [BevRecv (demo_ct demo_client 0); BevRecv (BWrote 1 None); BevRecv BRun;
    BevRecv (demo_ct demo_client 1); BevRecv (BWrote 1 None); BevRecv BRun;
    BevRecv (demo_ct demo_client 2); BevRecv BRun; BevRecv (demo_ct demo_client 3)]).
(** The stream ends after the first byte. *)
Definition demo_truncated : bridge :=
  demo_bridge [BevRecv (demo_ct demo_client 0); BevRecv (BWrote 1 None); BevRecv BRun;
    BevRecv (BRecv (Err EEOF)); BevMain; BevSend (BRead [] (Some ENetClosed)); BevMain].

Lemma demo_breach evs :
  match brun (Bridge_start demo_transport) evs with Some _ => true | None => false end = true ->
  breach demo_transport (demo_bridge evs).
Proof.
  unfold demo_bridge. destruct (brun _ _) as [b|] eqn:Hb; [|done]. intros _.
  eapply brun_breach; [apply breach_start|exact Hb].
Qed.

Lemma demo_linked : linked demo_transport demo_transport.
Proof. by exists 0, 0. Qed.

(** A reachable run, its prefix condition, decided by computation. *)
Ltac demo_run := apply demo_breach; vm_compute; reflexivity.
Ltac demo_prefix := refine (bool_decide_unpack _ _); vm_compute; exact I.

Lemma bridge_stream_integrity_witness :
  br_written (b_receiver demo_server) = bs_read (b_sender demo_client) /\
  br_written (b_receiver demo_client) = bs_read (b_sender demo_server) /\
  bs_read (b_sender demo_client) = [x68; x69] /\ br_pc (b_receiver demo_server) = RDone.
Proof.
  destruct (bridge_stream_integrity demo_transport demo_transport demo_client demo_server) as (_ & _ & H1 & H2);
    [demo_run|demo_run|exact demo_linked|demo_prefix|].
  split; [apply H1; vm_compute; reflexivity|]. split; [|split; vm_compute; reflexivity].
  refine (proj2 (H2 _ _ _)); [exact demo_linked|demo_prefix|vm_compute; reflexivity].
Defined.

Lemma bridge_frames_bounded_witness :
  exists c, c ∈ bs_sent (b_sender demo_client) /\ 16 <= len c <= 32 * 1024 + 80.
Proof.
  set (c := default [] (bs_sent (b_sender demo_client) !! 0%nat)).
  assert (Hc : c ∈ bs_sent (b_sender demo_client)) by demo_prefix. exists c. split; [exact Hc|].
  refine (bridge_frames_bounded demo_transport demo_transport demo_client c _ demo_linked Hc). demo_run.
Defined.

Lemma bridge_orderly_witness :
  b_panic demo_truncated = false /\ b_main demo_truncated = MRet None.
Proof.
  split; [|vm_compute; reflexivity].
  refine (proj1 (bridge_orderly demo_transport demo_truncated _)). demo_run.
Defined.

Lemma bridge_returns_witness :
  exists b' r, brun demo_client (BevCancel CtxCanceled :: fail_send (bs_pc (b_sender demo_client)) ++
    fail_recv (br_pc (b_receiver demo_client)) ++ wait_main (b_main demo_client)) = Some b' /\ b_main b' = MRet r.
Proof. refine (bridge_returns demo_transport demo_client _). demo_run. Defined.

(** C39: truncation is silent.  Not every end is an orderly one: there is a run in
    which the stream ends before the half-close, part of the bytes is missing,
    and [Bridge] still returns no error, because a bare [io.EOF] of the stream
    counts as a normal close. *)
Theorem bridge_truncation_silent :
  exists a b : bridge (NL := ClearNoise.clear_noise),
    breach demo_transport a /\ breach demo_transport b /\ linked demo_transport demo_transport /\
    br_got (b_receiver b) `prefix_of` bs_sent (b_sender a) /\
    b_main b = MRet None /\ existsb is_half_close (br_frames (b_receiver b)) = false /\
    br_written (b_receiver b) <> bs_read (b_sender a).
Proof.
  exists demo_client, demo_truncated.
  split_and!; [demo_run|demo_run|exact demo_linked|demo_prefix|vm_compute; reflexivity..|vm_compute; discriminate].
Qed.
