(* ===== verification/Endpoint.v ===== *)
(** * The endpoints (internal/endpoint/agent.go, client.go)

    The scripts of the two endpoints up to the point where they start [Bridge]:
    what they send, what they accept, and with which transport the bridge runs;
    the agent's registration loop with its tunnel semaphore and its backoff.

    The answers of the network are arguments; the cipher library and the frame
    codec are parameters. *)

From S2P Require Import Prelude GoBase Proto Noise AccessCode Bridge.

Definition Second_ns : Z := 1000000000.

(** ** The cipher streams *)

Definition client_SendCiphertext (b : bytes) : ConnectRequest :=
  {| creq_Body := Some (ConnectRequest_Ciphertext {| ct_Payload := b |}) |}.
Definition client_RecvCiphertext (r : result goerr ConnectResponse) : result goerr bytes :=
  match r with
  | Err e => Err e
  | Ok f => match ConnectResponse_GetCiphertext f with
            | None => Err EUnexpectedEOF
            | Some c => Ok (ct_Payload c)
            end
  end.

Definition agent_SendCiphertext (b : bytes) : AcceptRequest :=
  {| areq_Body := Some (AcceptRequest_Ciphertext {| ct_Payload := b |}) |}.
Definition agent_RecvCiphertext (r : result goerr AcceptResponse) : result goerr bytes :=
  match r with
  | Err e => Err e
  | Ok f => match AcceptResponse_GetCiphertext f with
            | None => Err EUnexpectedEOF
            | Some c => Ok (ct_Payload c)
            end
  end.

Definition client_open (route : bytes) : ConnectRequest :=
  {| creq_Body := Some (ConnectRequest_ClientOpen {| co_ProtocolVersion := ProtocolVersion; co_RouteId := route |}) |}.
Definition client_handshake (hello : bytes) : ConnectRequest :=
  {| creq_Body := Some (ConnectRequest_ClientHandshake {| ch_ClientHello := hello |}) |}.
Definition agent_accept (sid hello : bytes) : AcceptRequest :=
  {| areq_Body := Some (AcceptRequest_AgentAccept
       {| aa_ProtocolVersion := ProtocolVersion; aa_SessionId := sid; aa_AgentHello := hello |}) |}.

Section endpoint.
Context {FC : Codec PlainFrame} {NL : NoiseLib}.

(** ** The client *)

(** What the stream and the random source answer during one tunnel. *)
Record client_env := {
  ce_connect : option goerr;
  ce_send_open : option goerr;
  ce_assigned : result goerr ConnectResponse;
  ce_rnd : bytes;
  ce_send_handshake : option goerr;
  ce_accept : result goerr ConnectResponse;
}.

(** [handleClientTunnel] up to [Bridge]: an error, or the transport the bridge
    runs over; with the frames sent so far. *)
Definition handleClientTunnel (env : client_env) (code : Code) : result goerr Transport * list ConnectRequest :=
  match ce_connect env with
  | Some e => (Err (EWrap "opening tunnel" e), [])
  | None =>
  let open := client_open (RouteID code) in
  match ce_send_open env with
  | Some e => (Err e, [])
  | None =>
  match ce_assigned env with
  | Err e => (Err (EWrap "allocating session" e), [open])
  | Ok f =>
  match ConnectResponse_GetSessionAssigned f with
  | None => (Err (ENew "relay returned invalid session"), [open])
  | Some assigned =>
  if negb (len (sa_SessionId assigned) =? 16) then (Err (ENew "relay returned invalid session"), [open])
  else match StartInitiator (PSK code) (RouteID code) (sa_SessionId assigned) (ce_rnd env) with
  | Err e => (Err e, [open])
  | Ok (clientHello, initiator) =>
  match ce_send_handshake env with
  | Some e => (Err e, [open])
  | None =>
  let sent := [open; client_handshake clientHello] in
  match ce_accept env with
  | Err e => (Err (EWrap "waiting for agent" e), sent)
  | Ok f =>
  match ConnectResponse_GetAgentAccept f with
  | None => (Err (ENew "relay returned invalid agent handshake"), sent)
  | Some accept => ((Finish initiator (aa_AgentHello accept)).1, sent)
  end end end end end end end end.

(** ** The agent *)

Record AgentConfig := {
  ac_Code : Code;
  ac_Target : string;
  ac_Token : string;
  ac_CAFile : string;
  ac_AllowInsecure : bool;
  ac_Handler : bool;          (* a connection handler is configured *)
  ac_MaxTunnels : Z;
  ac_DialTimeout : Z;
  ac_IdleTimeout : Z;
}.

(** [openTarget]: the answers of the dialer and the listener, and what stays
    open when it returns. *)
Record target_env := {
  te_dial : option goerr;         (* the target, when there is no handler *)
  te_listen : option goerr;
  te_dial_handler : option goerr;
  te_accept : option goerr;
}.

Inductive resource := TargetConn | Listener | HandlerConn | BridgeConn.
#[global] Instance resource_eq_dec : EqDecision resource.
Proof. solve_decision. Defined.

(** [Ok true] when a handler goroutine was started, which owns [HandlerConn]. *)
Definition openTarget (cfg : AgentConfig) (env : target_env) : result goerr bool * list resource :=
  if negb (ac_Handler cfg) then
    match te_dial env with
    | Some e => (Err (EWrap "dialing target" e), [])
    | None => (Ok false, [TargetConn])
    end
  else match te_listen env with
  | Some e => (Err (EWrap "creating handler bridge" e), [])
  | None =>
      let open := [Listener] in
      match te_dial_handler env with
      | Some e => (Err (EWrap "dialing handler bridge" e), remove resource_eq_dec Listener open)
      | None =>
          let open := HandlerConn :: open in
          match te_accept env with
          | Some e =>
              let open := remove resource_eq_dec Listener open in
              (Err (EWrap "accepting handler bridge" e), remove resource_eq_dec HandlerConn open)
          | None =>
              let open := remove resource_eq_dec Listener (BridgeConn :: open) in (Ok true, open)
          end
      end
  end.

Record agent_env := {
  ae_rnd : bytes;
  ae_accept : option goerr;       (* client.Accept *)
  ae_send_accept : option goerr;
  ae_target : target_env;
  ae_send_close : option goerr;
}.

(** How [handleAgentTunnel] goes on after its handshake: it has failed, or it
    runs [Bridge] over a transport, with or without a handler to wait for. *)
Inductive agent_outcome :=
| AgentErr (e : goerr)
| AgentBridge (t : Transport) (handler : bool).

Definition handleAgentTunnel (env : agent_env) (cfg : AgentConfig) (incoming : RegisterAgentResponse)
  : agent_outcome * list AcceptRequest :=
  if negb (ras_ProtocolVersion incoming =? ProtocolVersion) || negb (len (ras_SessionId incoming) =? 16)
  then (AgentErr (ENew "invalid incoming tunnel notification"), [])
  else match Respond (PSK (ac_Code cfg)) (RouteID (ac_Code cfg)) (ras_SessionId incoming)
               (ras_ClientHello incoming) (ae_rnd env) with
  | Err e => (AgentErr e, [])
  | Ok (agentHello, crypt) =>
      match ae_accept env with
      | Some e => (AgentErr (EWrap "opening accept stream" e), [])
      | None =>
          match ae_send_accept env with
          | Some e => (AgentErr (EWrap "accepting tunnel" e), [])
          | None =>
              let sent := [agent_accept (ras_SessionId incoming) agentHello] in
              match openTarget cfg (ae_target env) with
              | (Err e, _) =>
                  let '(_, _, c) := SendClose crypt CLOSE_CODE_TARGET_UNREACHABLE "target is unreachable" (ae_send_close env) in
                  (AgentErr e, sent ++ option_list (agent_SendCiphertext <$> c))
              | (Ok handler, _) => (AgentBridge crypt handler, sent)
              end
          end
      end
  end.

(** What [handleAgentTunnel] returns once the bridge and, if any, the handler
    have ended. *)
Definition agent_result (bridgeErr : option goerr) (handlerDone : option (option goerr)) : option goerr :=
  match handlerDone with
  | None => bridgeErr
  | Some h => errors_Join bridgeErr h
  end.
End endpoint.

(** ** RunAgent *)

(** The checks and defaults at the start. *)
Definition agent_defaults (cfg : AgentConfig) : result goerr AgentConfig :=
  if eqb (bool_decide (ac_Target cfg = "")) (negb (ac_Handler cfg))
  then Err (ENew "exactly one target or connection handler is required")
  else Ok {| ac_Code := ac_Code cfg; ac_Target := ac_Target cfg; ac_Token := ac_Token cfg;
             ac_CAFile := ac_CAFile cfg; ac_AllowInsecure := ac_AllowInsecure cfg; ac_Handler := ac_Handler cfg;
             ac_MaxTunnels := if ac_MaxTunnels cfg <=? 0 then 128 else ac_MaxTunnels cfg;
             ac_DialTimeout := if ac_DialTimeout cfg <=? 0 then 10 * Second_ns else ac_DialTimeout cfg;
             ac_IdleTimeout := if ac_IdleTimeout cfg <=? 0 then 30 * 60 * Second_ns else ac_IdleTimeout cfg |}.

(** One turn of the loop: whether the context is done when [registerOnce] has
    returned, and whether it ends during the wait. *)
Record turn := { tn_done : bool; tn_done_waiting : bool }.

Definition next_backoff (backoff : Z) : Z :=
  if 30 * Second_ns <? backoff * 2 then 30 * Second_ns else backoff * 2.

(** The waits between registrations, and whether [RunAgent] returned (nil). *)
Fixpoint agent_turns (backoff : Z) (ts : list turn) : list Z * bool :=
  match ts with
  | [] => ([], false)
  | t :: ts' =>
      if tn_done t then ([], true)
      else if tn_done_waiting t then ([backoff], true)
      else let '(ws, r) := agent_turns (next_backoff backoff) ts' in (backoff :: ws, r)
  end.
Definition agent_waits (ts : list turn) : list Z * bool := agent_turns Second_ns ts.

(** [RunAgent]: what it returns, if it does within the turns, and its waits.
    [dial] is the error of [Dial], if any. *)
Definition RunAgent (cfg : AgentConfig) (dial : option goerr) (ts : list turn) : option (option goerr) * list Z :=
  match agent_defaults cfg with
  | Err e => (Some (Some e), [])
  | Ok _ =>
      match dial with
      | Some e => (Some (Some e), [])
      | None => let '(ws, r) := agent_waits ts in ((if r then Some None else None), ws)
      end
  end.

(** *** The tunnel semaphore

    [sem] is the buffered channel of capacity [MaxTunnels] that RunAgent shares
    between its registrations. *)

Inductive reg_pc :=
| RgRecv                                  (* stream.Recv *)
| RgSem (incoming : RegisterAgentResponse) (* sem <- struct{}{} *)
| RgWait                                  (* registerOnce has returned *)
| RgOver.                                 (* RunAgent has returned *)

Record agent_state := {
  as_pc : reg_pc;
  as_sem : Z;                              (* the elements in sem *)
  as_tunnels : list RegisterAgentResponse; (* the goroutines running handleAgentTunnel *)
}.

Inductive agent_event :=
| AeRecv (r : result goerr RegisterAgentResponse)
| AeAcquire
| AeCtxDone
| AeRegister                               (* the next registerOnce has opened its stream *)
| AeTunnelEnd (i : nat).                   (* the i-th goroutine ends: <-sem *)

Definition agent_step (max : Z) (s : agent_state) (ev : agent_event) : option agent_state :=
  match as_pc s, ev with
  | RgRecv, AeRecv (Err _) => Some {| as_pc := RgWait; as_sem := as_sem s; as_tunnels := as_tunnels s |}
  | RgRecv, AeRecv (Ok m) => Some {| as_pc := RgSem m; as_sem := as_sem s; as_tunnels := as_tunnels s |}
  | RgSem m, AeAcquire =>
      if as_sem s <? max
      then Some {| as_pc := RgRecv; as_sem := as_sem s + 1; as_tunnels := m :: as_tunnels s |}
      else None
  | RgSem _, AeCtxDone => Some {| as_pc := RgOver; as_sem := as_sem s; as_tunnels := as_tunnels s |}
  | RgWait, AeRegister => Some {| as_pc := RgRecv; as_sem := as_sem s; as_tunnels := as_tunnels s |}
  | RgWait, AeCtxDone => Some {| as_pc := RgOver; as_sem := as_sem s; as_tunnels := as_tunnels s |}
  | k, AeTunnelEnd i =>
      _ ← as_tunnels s !! i;
      Some {| as_pc := k; as_sem := as_sem s - 1; as_tunnels := delete i (as_tunnels s) |}
  | _, _ => None
  end.

Definition agent_init : agent_state := {| as_pc := RgWait; as_sem := 0; as_tunnels := [] |}.

Inductive agent_reach (max : Z) : agent_state -> Prop :=
| areach_init : agent_reach max agent_init
| areach_step s ev s' : agent_reach max s -> agent_step max s ev = Some s' -> agent_reach max s'.
