(* ===== verification/Sha256.v ===== *)
(** * crypto/sha256

    SHA-256 on bytes (FIPS 180-4), the hash the relay compares tokens by. *)

From S2P Require Import Prelude.

Definition w32 (x : Z) : Z := x mod 2 ^ 32.
Definition rotr (n x : Z) : Z := Z.lor (Z.shiftr x n) (w32 (Z.shiftl x (32 - n))).

(** *** The constants

    The initial state and the round constants are the first 32 bits of the
    fractional parts of the square roots of the first 8 primes and of the cube
    roots of the first 64. *)

Definition is_prime (n : Z) : bool :=
  forallb (fun d => negb (n mod d =? 0)) (map Z.of_nat (seq 2 (Z.to_nat (n - 2)))).
Definition primes : list Z := filter (fun n => is_prime n = true) (map Z.of_nat (seq 2 310)).

(** The integer cube root of [n], from bit [fuel - 1] down. *)
Fixpoint icbrt (fuel : nat) (r n : Z) : Z :=
  match fuel with
  | O => r
  | S b => let r' := r + 2 ^ Z.of_nat b in icbrt b (if r' ^ 3 <=? n then r' else r) n
  end.

Definition K : list Z := Eval vm_compute in map (fun p => w32 (icbrt 36 0 (p * 2 ^ 96))) (firstn 64 primes).
Definition H0 : list Z := Eval vm_compute in map (fun p => w32 (Z.sqrt (p * 2 ^ 64))) (firstn 8 primes).

(** Big-endian words. *)
Definition be32 (x : Z) : bytes :=
  [to_byte (Z.shiftr x 24); to_byte (Z.shiftr x 16); to_byte (Z.shiftr x 8); to_byte x].
Fixpoint words (b : bytes) : list Z :=
  match b with
  | b0 :: b1 :: b2 :: b3 :: r =>
      (bval b0 * 2 ^ 24 + bval b1 * 2 ^ 16 + bval b2 * 2 ^ 8 + bval b3) :: words r
  | _ => []
  end.

(** The message, 0x80, zeros up to 8 bytes before a multiple of 64, and the
    length in bits. *)
Definition pad (m : bytes) : bytes :=
  let n := len m in
  m ++ [x80] ++ repeat x00 (Z.to_nat ((55 - n) mod 64)) ++
  be32 (Z.shiftr (n * 8) 32 mod 2 ^ 32) ++ be32 (w32 (n * 8)).

(** The message schedule, most recent word first: [fuel] more words. *)
Fixpoint schedule (fuel : nat) (rev_ws : list Z) : list Z :=
  match fuel with
  | O => rev rev_ws
  | S fuel' =>
      let w i := nth i rev_ws 0 in
      let s0 := let x := w 14%nat in Z.lxor (Z.lxor (rotr 7 x) (rotr 18 x)) (Z.shiftr x 3) in
      let s1 := let x := w 1%nat in Z.lxor (Z.lxor (rotr 17 x) (rotr 19 x)) (Z.shiftr x 10) in
      schedule fuel' (w32 (w 15%nat + s0 + w 6%nat + s1) :: rev_ws)
  end.

Definition round (st : list Z) (kw : Z * Z) : list Z :=
  match st with
  | [a; b; c; d; e; f; g; h] =>
      let s1 := Z.lxor (Z.lxor (rotr 6 e) (rotr 11 e)) (rotr 25 e) in
      let ch := Z.lxor (Z.land e f) (Z.land (2 ^ 32 - 1 - e) g) in
      let t1 := w32 (h + s1 + ch + fst kw + snd kw) in
      let s0 := Z.lxor (Z.lxor (rotr 2 a) (rotr 13 a)) (rotr 22 a) in
      let maj := Z.lxor (Z.lxor (Z.land a b) (Z.land a c)) (Z.land b c) in
      let t2 := w32 (s0 + maj) in
      [w32 (t1 + t2); a; b; c; w32 (d + t1); e; f; g]
  | _ => st
  end.

Definition block (h : list Z) (ws : list Z) : list Z :=
  zip_with (fun x y => w32 (x + y)) h (fold_left round (zip K (schedule 48 (rev ws))) h).

Fixpoint blocks (fuel : nat) (h : list Z) (ws : list Z) : list Z :=
  match fuel, ws with
  | S fuel', _ :: _ => blocks fuel' (block h (firstn 16 ws)) (skipn 16 ws)
  | _, _ => h
  end.

(** [sha256.Sum256]; the padded message has at most [length m / 4 + 32] words,
    so the fuel is enough for all the blocks. *)
Definition Sum256 (m : bytes) : bytes :=
  let ws := words (pad m) in flat_map be32 (blocks (length ws) H0 ws).

(** The test vectors of FIPS 180-4: "" and "abc", and a message of two blocks. *)
Definition hex (l : list Z) : bytes := map to_byte l.

Example sum256_empty : Sum256 [] = hex [
  0xe3;0xb0;0xc4;0x42;0x98;0xfc;0x1c;0x14;0x9a;0xfb;0xf4;0xc8;0x99;0x6f;0xb9;0x24;
  0x27;0xae;0x41;0xe4;0x64;0x9b;0x93;0x4c;0xa4;0x95;0x99;0x1b;0x78;0x52;0xb8;0x55].
Proof. vm_compute. reflexivity. Qed.

Example sum256_abc : Sum256 (go_bytes "abc") = hex [
  0xba;0x78;0x16;0xbf;0x8f;0x01;0xcf;0xea;0x41;0x41;0x40;0xde;0x5d;0xae;0x22;0x23;
  0xb0;0x03;0x61;0xa3;0x96;0x17;0x7a;0x9c;0xb4;0x10;0xff;0x61;0xf2;0x00;0x15;0xad].
Proof. vm_compute. reflexivity. Qed.

Example sum256_two_blocks : Sum256 (go_bytes "abcdbcdecdefdefgefghfghighijhijkijkljklmklmnlmnomnopnopq") = hex [
  0x24;0x8d;0x6a;0x61;0xd2;0x06;0x38;0xb8;0xe5;0xc0;0x26;0x93;0x0c;0x3e;0x60;0x39;
  0xa3;0x3c;0xe4;0x59;0x64;0xff;0x21;0x67;0xf6;0xec;0xed;0xd4;0x19;0xdb;0x06;0xc1].
Proof. vm_compute. reflexivity. Qed.
