(* ===== verification/Auth.v ===== *)
(** * Token authentication

    The two interceptors of internal/relay/auth.go, and [AuthContext] of
    internal/endpoint/grpc.go, which makes the header they look for. *)

From S2P Require Import Prelude GoBase Sha256 AccessCode.

(** [metadata.MD]: lower-case keys, each with its values in order. *)
Notation MD := (gmap string (list string)).

(** ** crypto/subtle *)

(** [int((uint32(x^y) - 1) >> 31)] *)
Definition ConstantTimeByteEq (x y : Z) : Z := Z.shiftr ((Z.lxor x y - 1) mod 2 ^ 32) 31.

Fixpoint xor_all (v : Z) (x y : bytes) : Z :=
  match x, y with
  | a :: x', b :: y' => xor_all (Z.lor v (Z.lxor (bval a) (bval b))) x' y'
  | _, _ => v
  end.

Definition ConstantTimeCompare (x y : bytes) : Z :=
  if negb (len x =? len y) then 0 else ConstantTimeByteEq (xor_all 0 x y) 0.

(** ** The interceptors *)

Definition missing_authorization : goerr := EStatus Unauthenticated "missing authorization".
Definition invalid_authorization : goerr := EStatus Unauthenticated "invalid authorization".

(** A state [S] is what the wrapped handler may change; the number is the
    [AuthRejects] counter. *)
Definition StreamAuthInterceptor {S} (expected : string) (noAuth : bool) (md : option MD)
    (handler : S -> option goerr * S) (st : S * Z) : option goerr * (S * Z) :=
  let want := Sum256 (go_bytes expected) in
  let run := let '(r, s') := handler st.1 in (r, (s', st.2)) in
  let reject e := (Some e, (st.1, st.2 + 1)) in
  if noAuth || bool_decide (expected = "") then run
  else match md with
  | None => reject missing_authorization
  | Some md =>
      match default [] (md !! "authorization") with
      | [value] =>
          match cut_prefix "Bearer " value with
          | Some token =>
              let got := Sum256 (go_bytes token) in
              if negb (ConstantTimeCompare got want =? 1) then reject invalid_authorization else run
          | None => reject invalid_authorization
          end
      | _ => reject invalid_authorization
      end
  end.

Definition UnaryAuthInterceptor {S R} (expected : string) (noAuth : bool) (md : option MD)
    (handler : S -> result goerr R * S) (st : S * Z) : result goerr R * (S * Z) :=
  let want := Sum256 (go_bytes expected) in
  let run := let '(r, s') := handler st.1 in (r, (s', st.2)) in
  let reject e := (Err e, (st.1, st.2 + 1)) in
  if noAuth || bool_decide (expected = "") then run
  else match md with
  | None => reject missing_authorization
  | Some md =>
      match default [] (md !! "authorization") with
      | [value] =>
          match cut_prefix "Bearer " value with
          | Some token =>
              let got := Sum256 (go_bytes token) in
              if negb (ConstantTimeCompare got want =? 1) then reject invalid_authorization else run
          | None => reject invalid_authorization
          end
      | _ => reject invalid_authorization
      end
  end.

(** ** The client's side *)

(** [AuthContext]: the outgoing metadata of the context it returns. *)
Definition AuthContext (md : MD) (token : string) : MD :=
  if bool_decide (token = "") then md
  else <["authorization" := default [] (md !! "authorization") ++ ["Bearer " +:+ token]]> md.

(** ** Comparing digests *)

Lemma ByteEq_spec v : 0 <= v < 256 -> ConstantTimeByteEq v 0 = if v =? 0 then 1 else 0.
Proof.
  intros Hv. unfold ConstantTimeByteEq. rewrite Z.lxor_0_r, Z.shiftr_div_pow2 by lia.
  change (2 ^ 32) with 4294967296. change (2 ^ 31) with 2147483648.
  destruct (Z.eqb_spec v 0) as [->|]; [reflexivity|]. euclid.
Qed.

Lemma lxor_byte a b : 0 <= Z.lxor (bval a) (bval b) < 256 /\ (Z.lxor (bval a) (bval b) = 0 <-> a = b).
Proof.
  pose proof (bval_range a). pose proof (bval_range b). split.
  - split; [apply Z.lxor_nonneg; lia|]. destruct (decide (Z.lxor (bval a) (bval b) = 0)) as [->|Hne]; [lia|].
    apply Z.log2_lt_cancel. eapply Z.le_lt_trans; [apply Z.log2_lxor; lia|].
    assert (Z.log2 (bval a) <= Z.log2 255) by (apply Z.log2_le_mono; lia).
    assert (Z.log2 (bval b) <= Z.log2 255) by (apply Z.log2_le_mono; lia).
    change (Z.log2 255) with 7 in *. change (Z.log2 256) with 8. lia.
  - rewrite Z.lxor_eq_0_iff. split; [apply bval_inj|congruence].
Qed.

Lemma lor_byte a b : 0 <= a < 256 -> 0 <= b < 256 -> 0 <= Z.lor a b < 256.
Proof.
  intros Ha Hb. split; [apply Z.lor_nonneg; lia|].
  destruct (decide (Z.lor a b = 0)) as [->|Hne]; [lia|].
  assert (0 < Z.lor a b) by (assert (0 <= Z.lor a b) by (apply Z.lor_nonneg; lia); lia).
  apply Z.log2_lt_cancel. rewrite Z.log2_lor by lia. change (Z.log2 256) with 8.
  assert (Z.log2 a <= Z.log2 255) by (apply Z.log2_le_mono; lia).
  assert (Z.log2 b <= Z.log2 255) by (apply Z.log2_le_mono; lia). change (Z.log2 255) with 7 in *. lia.
Qed.

Lemma xor_all_spec x y v :
  length x = length y -> 0 <= v < 256 ->
  0 <= xor_all v x y < 256 /\ (xor_all v x y = 0 <-> v = 0 /\ x = y).
Proof.
  revert y v. induction x as [|a x IH]; intros [|b y] v Hl Hv; simplify_eq/=; [naive_solver|].
  destruct (lxor_byte a b) as [Hr Hz]. destruct (IH y (Z.lor v (Z.lxor (bval a) (bval b)))) as [H1 H2];
    [lia|by apply lor_byte|]. split; [done|]. rewrite H2, Z.lor_eq_0_iff, Hz. naive_solver.
Qed.

Lemma ConstantTimeCompare_spec x y : ConstantTimeCompare x y = if bool_decide (x = y) then 1 else 0.
Proof.
  unfold ConstantTimeCompare. destruct (Z.eqb_spec (len x) (len y)) as [Hl|Hl]; simpl.
  - destruct (xor_all_spec x y 0) as [Hr Hz]; [unfold len in Hl; lia|lia|].
    rewrite ByteEq_spec by done. destruct (Z.eqb_spec (xor_all 0 x y) 0) as [E|E].
    + rewrite bool_decide_eq_true_2; [done|]. by apply Hz.
    + rewrite bool_decide_eq_false_2; [done|]. intros ->. apply E. by apply Hz.
  - rewrite bool_decide_eq_false_2; [done|]. by intros ->.
Qed.

(** ** The decision *)

(** The policy: authentication is off, or exactly one authorization value is a
    bearer token with the hash of the configured one. *)
Definition authorized (expected : string) (noAuth : bool) (md : option MD) : Prop :=
  noAuth = true \/ expected = "" \/
  exists m token, md = Some m /\ m !! "authorization" = Some ["Bearer " +:+ token] /\
    Sum256 (go_bytes token) = Sum256 (go_bytes expected).

(** The checks both interceptors make, and the error of the first that fails. *)
Definition auth_check (expected : string) (noAuth : bool) (md : option MD) : option goerr :=
  if noAuth || bool_decide (expected = "") then None
  else match md with
  | None => Some missing_authorization
  | Some md =>
      match default [] (md !! "authorization") with
      | [value] =>
          match cut_prefix "Bearer " value with
          | Some token =>
              if bool_decide (Sum256 (go_bytes token) = Sum256 (go_bytes expected)) then None
              else Some invalid_authorization
          | None => Some invalid_authorization
          end
      | _ => Some invalid_authorization
      end
  end.

Section interceptors.
Context {S R : Type}.

Lemma stream_check expected noAuth md (h : S -> option goerr * S) st :
  StreamAuthInterceptor expected noAuth md h st =
  match auth_check expected noAuth md with
  | None => ((h st.1).1, ((h st.1).2, st.2))
  | Some e => (Some e, (st.1, st.2 + 1))
  end.
Proof.
  unfold StreamAuthInterceptor, auth_check. destruct (h st.1) as [r s'].
  destruct (noAuth || _); [done|]. destruct md as [m|]; [|done].
  destruct (default [] _) as [|v [|v' vs]]; try done. destruct (cut_prefix _ _) as [tok|]; [|done].
  rewrite ConstantTimeCompare_spec. by case_bool_decide.
Qed.

Lemma unary_check expected noAuth md (h : S -> result goerr R * S) st :
  UnaryAuthInterceptor expected noAuth md h st =
  match auth_check expected noAuth md with
  | None => ((h st.1).1, ((h st.1).2, st.2))
  | Some e => (Err e, (st.1, st.2 + 1))
  end.
Proof.
  unfold UnaryAuthInterceptor, auth_check. destruct (h st.1) as [r s'].
  destruct (noAuth || _); [done|]. destruct md as [m|]; [|done].
  destruct (default [] _) as [|v [|v' vs]]; try done. destruct (cut_prefix _ _) as [tok|]; [|done].
  rewrite ConstantTimeCompare_spec. by case_bool_decide.
Qed.
End interceptors.

Lemma auth_check_spec expected noAuth md :
  auth_check expected noAuth md = None <-> authorized expected noAuth md.
Proof.
  unfold auth_check, authorized. split.
  - destruct noAuth; [by left|]. cbn [orb]. case_bool_decide; [right; by left|].
    destruct md as [m|]; [|done]. destruct (m !! "authorization") as [[|v [|v' vs]]|] eqn:Hm; try done.
    cbn [default from_option id]. destruct (cut_prefix "Bearer " v) as [tok|] eqn:Hc; [|done].
    case_bool_decide; [|done]. intros _. right. right. exists m, tok. apply cut_prefix_Some in Hc as ->. done.
  - intros [->|[->|(m & tok & -> & Hm & E)]]; [done|by destruct noAuth|].
    destruct (noAuth || _); [done|]. rewrite Hm. cbn [default from_option id].
    rewrite cut_prefix_app. by rewrite bool_decide_eq_true_2.
Qed.

Lemma auth_check_unauthenticated expected noAuth md e :
  auth_check expected noAuth md = Some e -> exists msg, e = EStatus Unauthenticated msg.
Proof.
  unfold auth_check, missing_authorization, invalid_authorization. intros H. repeat case_match; simplify_eq; eauto.
Qed.

(** A call without credentials: no metadata, or none under "authorization". *)
Definition no_credentials (md : option MD) : Prop :=
  match md with None => True | Some m => default [] (m !! "authorization") = [] end.

Lemma auth_check_no_credentials expected noAuth md :
  no_credentials md ->
  if noAuth || bool_decide (expected = "") then auth_check expected noAuth md = None
  else exists msg, auth_check expected noAuth md = Some (EStatus Unauthenticated msg).
Proof.
  intros Hmd. unfold auth_check. destruct (noAuth || bool_decide (expected = "")); [done|].
  destruct md as [m|]; simpl in Hmd; [rewrite Hmd|]; unfold missing_authorization, invalid_authorization; eauto.
Qed.

(** Endpoints and relay agree on the header. *)
Lemma auth_context_agrees token expected :
  authorized token false (Some (AuthContext ∅ token)) /\
  (expected <> "" -> authorized expected false (Some (AuthContext ∅ token)) ->
     Sum256 (go_bytes token) = Sum256 (go_bytes expected)).
Proof.
  unfold AuthContext. split.
  - case_bool_decide as Ht; [right; by left|]. right. right. eexists _, token.
    split_and!; [reflexivity| |reflexivity]. by rewrite lookup_insert_eq.
  - intros Hne [?|[?|(m & tok & Hm & Ha & E)]]; [done|done|].
    case_bool_decide as Ht; injection Hm as <-; [by rewrite lookup_empty in Ha|].
    rewrite lookup_insert_eq in Ha. rewrite lookup_empty in Ha. injection Ha as Ha.
    assert (Hc : cut_prefix "Bearer " ("Bearer " +:+ token) = Some tok) by (cbn [cut_prefix]; simpl; by rewrite Ha).
    rewrite cut_prefix_app in Hc. by injection Hc as ->.
Qed.

(** ** Properties *)

(** C21: the interceptors enforce the policy.  A call reaches its handler exactly
    when it is authorized, and then the interceptor adds nothing; otherwise the
    handler is not run, its state is untouched, the call fails with
    [Unauthenticated] and is counted once.  The stream and the unary interceptor
    decide alike.  And the endpoints agree: the context [AuthContext] makes with the
    relay's token is authorized, and what is authorized there has the hash of the
    relay's token. *)
Theorem auth_enforced {S R : Type} expected noAuth md (h : S -> option goerr * S) (g : S -> result goerr R * S) s n :
  (authorized expected noAuth md ->
     StreamAuthInterceptor expected noAuth md h (s, n) = ((h s).1, ((h s).2, n)) /\
     UnaryAuthInterceptor expected noAuth md g (s, n) = ((g s).1, ((g s).2, n))) /\
  (~ authorized expected noAuth md -> exists msg,
     StreamAuthInterceptor expected noAuth md h (s, n) = (Some (EStatus Unauthenticated msg), (s, n + 1)) /\
     UnaryAuthInterceptor expected noAuth md g (s, n) = (Err (EStatus Unauthenticated msg), (s, n + 1))) /\
  (forall token, authorized token false (Some (AuthContext ∅ token)) /\
     (expected <> "" -> authorized expected false (Some (AuthContext ∅ token)) ->
        Sum256 (go_bytes token) = Sum256 (go_bytes expected))).
Proof.
  rewrite <- auth_check_spec, stream_check, unary_check. split_and!; [| |intros token; apply auth_context_agrees].
  all: destruct (auth_check expected noAuth md) as [e|] eqn:E; try done.
  intros _. destruct (auth_check_unauthenticated _ _ _ _ E) as [msg ->]. by exists msg.
Qed.

(** The token "secret", as the tests of the program use it. *)
Definition demo_md : MD := {["authorization" := ["Bearer secret"]]}.

Lemma auth_enforced_witness :
  StreamAuthInterceptor "secret" false (Some demo_md) (fun s : Z => (None, s + 1)) (0, 0) = (None, (1, 0)) /\
  exists msg, StreamAuthInterceptor "secret" false (Some ∅) (fun s : Z => (None, s + 1)) (0, 0)
    = (Some (EStatus Unauthenticated msg), (0, 1)).
Proof.
  split.
  - refine (proj1 (proj1 (auth_enforced (R := unit) "secret" false (Some demo_md) (fun s : Z => (None, s + 1))
      (fun s => (Ok tt, s)) 0 0) _)).
    right. right. exists demo_md, "secret". split_and!; reflexivity.
  - destruct (proj1 (proj2 (auth_enforced (R := unit) "secret" false (Some ∅) (fun s : Z => (None, s + 1))
      (fun s => (Ok tt, s)) 0 0))) as (msg & Hmsg & _); [|by exists msg].
    intros [?|[?|(m & tok & Hm & Ha & _)]]; [done|done|]. injection Hm as <-. by rewrite lookup_empty in Ha.
Defined.

