(* ===== verification/RelayService.v ===== *)
(** * The relay service (internal/relay/service.go)

    The shared state of [Service], its critical sections as functions on that
    state, and the goroutines of the three RPC handlers as an executable
    transition function over a world in which they interleave.

    Pointers are addresses.  Each [RegisterAgent] call allocates one [agent] and
    each [Connect] call one [session]; the object's address is the number of the
    call that allocated it, so two objects never share an address.  The
    unbuffered channels ([incoming], [clientToAgent], [agentToClient]) carry a
    value only in a step that moves the sender and the receiver together.  The
    fields marked ghost are logs that no code reads. *)

From stdpp Require Import pretty.
From S2P Require Import Prelude GoBase.

Notation addr := nat (only parsing).

Record Config := {
  MaxAgents : Z;
  MaxTunnelsPerAgent : Z;
  HandshakeTimeout : Z;   (* time.Duration: nanoseconds *)
}.

Record agent := {
  ag_route : string;
  ag_done : bool;         (* done is closed *)
  ag_active : Z;
}.

Record session := {
  s_id : string;
  s_agent : addr;
  s_ctx : option ctx_err; (* ctx.Err() *)
  s_once : bool;          (* readyOnce has run *)
  s_ready : bool;         (* ready is closed *)
  s_agentHello : bytes;
  s_c2a : list (addr * bytes); (* ghost: payloads taken from clientToAgent, with the Accept call *)
  s_a2c : list (addr * bytes); (* ghost: payloads taken from agentToClient, with the Accept call that sent them *)
}.

(** The gauges and counters of internal/observability that the service moves; the
    interceptors count [AuthRejects], in Auth.v. *)
Record metrics := {
  m_Agents : Z;
  m_Tunnels : Z;
  m_TunnelOpens_rejected : Z;
  m_TunnelOpens_accepted : Z;
  m_Bytes_client_to_agent : Z;
  m_Bytes_agent_to_client : Z;
}.

Record Service := {
  cfg : Config;
  agents : gmap string addr;
  sessions : gmap string addr;
  aheap : gmap nat agent;
  sheap : gmap nat session;
  obs : metrics;
  panicked : bool;        (* a closed channel was closed again *)
}.

(** ** Field updates *)

Definition set_obs (f : metrics -> metrics) (s : Service) : Service :=
  {| cfg := cfg s; agents := agents s; sessions := sessions s; aheap := aheap s;
     sheap := sheap s; obs := f (obs s); panicked := panicked s |}.
Definition set_agents (f : gmap string addr -> gmap string addr) (s : Service) : Service :=
  {| cfg := cfg s; agents := f (agents s); sessions := sessions s; aheap := aheap s;
     sheap := sheap s; obs := obs s; panicked := panicked s |}.
Definition set_sessions (f : gmap string addr -> gmap string addr) (s : Service) : Service :=
  {| cfg := cfg s; agents := agents s; sessions := f (sessions s); aheap := aheap s;
     sheap := sheap s; obs := obs s; panicked := panicked s |}.
Definition set_aheap (f : gmap nat agent -> gmap nat agent) (s : Service) : Service :=
  {| cfg := cfg s; agents := agents s; sessions := sessions s; aheap := f (aheap s);
     sheap := sheap s; obs := obs s; panicked := panicked s |}.
Definition set_sheap (f : gmap nat session -> gmap nat session) (s : Service) : Service :=
  {| cfg := cfg s; agents := agents s; sessions := sessions s; aheap := aheap s;
     sheap := f (sheap s); obs := obs s; panicked := panicked s |}.
Definition set_panicked (b : bool) (s : Service) : Service :=
  {| cfg := cfg s; agents := agents s; sessions := sessions s; aheap := aheap s;
     sheap := sheap s; obs := obs s; panicked := b |}.

Definition Agents_add (d : Z) (m : metrics) : metrics :=
  {| m_Agents := m_Agents m + d; m_Tunnels := m_Tunnels m;
     m_TunnelOpens_rejected := m_TunnelOpens_rejected m;
     m_TunnelOpens_accepted := m_TunnelOpens_accepted m;
     m_Bytes_client_to_agent := m_Bytes_client_to_agent m;
     m_Bytes_agent_to_client := m_Bytes_agent_to_client m |}.
Definition Tunnels_add (d : Z) (m : metrics) : metrics :=
  {| m_Agents := m_Agents m; m_Tunnels := m_Tunnels m + d;
     m_TunnelOpens_rejected := m_TunnelOpens_rejected m;
     m_TunnelOpens_accepted := m_TunnelOpens_accepted m;
     m_Bytes_client_to_agent := m_Bytes_client_to_agent m;
     m_Bytes_agent_to_client := m_Bytes_agent_to_client m |}.
Definition TunnelOpens_inc (accepted : bool) (m : metrics) : metrics :=
  {| m_Agents := m_Agents m; m_Tunnels := m_Tunnels m;
     m_TunnelOpens_rejected := m_TunnelOpens_rejected m + (if accepted then 0 else 1);
     m_TunnelOpens_accepted := m_TunnelOpens_accepted m + (if accepted then 1 else 0);
     m_Bytes_client_to_agent := m_Bytes_client_to_agent m;
     m_Bytes_agent_to_client := m_Bytes_agent_to_client m |}.
Definition Bytes_add (c2a a2c : Z) (m : metrics) : metrics :=
  {| m_Agents := m_Agents m; m_Tunnels := m_Tunnels m;
     m_TunnelOpens_rejected := m_TunnelOpens_rejected m;
     m_TunnelOpens_accepted := m_TunnelOpens_accepted m;
     m_Bytes_client_to_agent := m_Bytes_client_to_agent m + c2a;
     m_Bytes_agent_to_client := m_Bytes_agent_to_client m + a2c |}.

Definition set_active (f : Z -> Z) (a : agent) : agent :=
  {| ag_route := ag_route a; ag_done := ag_done a; ag_active := f (ag_active a) |}.
Definition set_done (a : agent) : agent :=
  {| ag_route := ag_route a; ag_done := true; ag_active := ag_active a |}.

(** The context of a session: the first cause to end it stays its error. *)
Definition ctx_cancel (e : ctx_err) (s : session) : session :=
  {| s_id := s_id s; s_agent := s_agent s;
     s_ctx := match s_ctx s with None => Some e | Some e' => Some e' end;
     s_once := s_once s; s_ready := s_ready s; s_agentHello := s_agentHello s;
     s_c2a := s_c2a s; s_a2c := s_a2c s |}.
Definition set_ready (hello : bytes) (s : session) : session :=
  {| s_id := s_id s; s_agent := s_agent s; s_ctx := s_ctx s; s_once := true; s_ready := true;
     s_agentHello := hello; s_c2a := s_c2a s; s_a2c := s_a2c s |}.
Definition log_c2a (q : addr) (b : bytes) (s : session) : session :=
  {| s_id := s_id s; s_agent := s_agent s; s_ctx := s_ctx s; s_once := s_once s;
     s_ready := s_ready s; s_agentHello := s_agentHello s;
     s_c2a := s_c2a s ++ [(q, b)]; s_a2c := s_a2c s |}.
Definition log_a2c (q : addr) (b : bytes) (s : session) : session :=
  {| s_id := s_id s; s_agent := s_agent s; s_ctx := s_ctx s; s_once := s_once s;
     s_ready := s_ready s; s_agentHello := s_agentHello s;
     s_c2a := s_c2a s; s_a2c := s_a2c s ++ [(q, b)] |}.

(** ** NewService *)

Definition Second : Z := 1000000000.

Definition zero_metrics : metrics :=
  {| m_Agents := 0; m_Tunnels := 0; m_TunnelOpens_rejected := 0; m_TunnelOpens_accepted := 0;
     m_Bytes_client_to_agent := 0; m_Bytes_agent_to_client := 0 |}.

Definition NewService (c : Config) : Service :=
  {| cfg := {|
       MaxAgents := if MaxAgents c <=? 0 then 1000 else MaxAgents c;
       MaxTunnelsPerAgent := if MaxTunnelsPerAgent c <=? 0 then 128 else MaxTunnelsPerAgent c;
       HandshakeTimeout := if HandshakeTimeout c <=? 0 then 10 * Second else HandshakeTimeout c |};
     agents := ∅; sessions := ∅; aheap := ∅; sheap := ∅; obs := zero_metrics; panicked := false |}.

(** ** Critical sections of s.mu *)

(** [RegisterAgent], lines 76-87: [a] is the address of the new agent. *)
Definition register (s : Service) (key : string) (a : addr) : result goerr Service :=
  if MaxAgents (cfg s) <=? Z.of_nat (size (agents s)) then
    Err (EStatus ResourceExhausted "agent capacity reached")
  else match agents s !! key with
  | Some _ => Err (EStatus AlreadyExists "route is already registered")
  | None =>
      Ok (set_obs (Agents_add 1)
           (set_agents (<[key := a]>)
             (set_aheap (<[a := {| ag_route := key; ag_done := false; ag_active := 0 |}]>) s)))
  end.

(** [for _, sess := range s.sessions { if sess.agent == a { sess.cancel() } }] *)
Definition cancel_sessions_of (a : addr) (ss : gmap string addr) (h : gmap nat session)
  : gmap nat session :=
  map_fold (fun _ sp h =>
    match h !! sp with
    | Some sess => if decide (s_agent sess = a) then <[sp := ctx_cancel CtxCanceled sess]> h else h
    | None => h
    end) h ss.

(** The deferred function of [RegisterAgent], lines 89-103. *)
Definition unregister (s : Service) (key : string) (a : addr) : option Service :=
  ag ← aheap s !! a;
  let s1 :=
    if decide (agents s !! key = Some a)
    then set_obs (Agents_add (-1)) (set_agents (delete key) s) else s in
  let s2 := (* close(a.done) *)
    if ag_done ag then set_panicked true s1 else set_aheap (<[a := set_done ag]>) s1 in
  Some (set_sheap (cancel_sessions_of a (sessions s2)) s2).

Definition reserveAgent (s : Service) (route : bytes) : result goerr (addr * Service) :=
  match agents s !! go_string route with
  | None => Err (EStatus Unavailable "agent is offline")
  | Some a =>
      match aheap s !! a with
      | None => Err (EStatus Unavailable "agent is offline")
      | Some ag =>
          if MaxTunnelsPerAgent (cfg s) <=? ag_active ag
          then Err (EStatus ResourceExhausted "route tunnel capacity reached")
          else Ok (a, set_aheap (<[a := set_active (fun n => n + 1) ag]>) s)
      end
  end.

Definition releaseAgent (s : Service) (a : addr) : option Service :=
  ag ← aheap s !! a;
  Some (set_aheap (<[a := set_active (fun n => n - 1) ag]>) s).

(** [Accept], lines 206-211: the pending session, its hello set once. *)
Definition accept_lookup (s : Service) (accept : AgentAccept) : option (addr * Service) :=
  sp ← sessions s !! go_string (aa_SessionId accept);
  sess ← sheap s !! sp;
  Some (sp,
    if s_once sess then s
    else if s_ready sess then set_panicked true s
    else set_sheap (<[sp := set_ready (aa_AgentHello accept) sess]>) s).

(** ** Goroutines *)

Inductive deferred :=
| DTunnelsDec                          (* observability.Tunnels.Dec() *)
| DReleaseAgent (a : addr)             (* s.releaseAgent(a) *)
| DCancelSession (sp : addr)           (* sess.cancel() *)
| DDeleteSession (sid : string)        (* delete(s.sessions, sess.id) *)
| DTimerStop                           (* timer.Stop() *)
| DUnregister (key : string) (a : addr). (* RegisterAgent's deferred function *)

#[global] Instance deferred_eq_dec : EqDecision deferred.
Proof. solve_decision. Defined.

(** Where a handler is in its body.  The session of a [Connect] call is at the
    call's own address; its agent is [a]. *)
Inductive pc :=
| RegCall (req : RegisterAgentRequest)
| RegLoop (a : addr)
| RegSend (a : addr) (msg : RegisterAgentResponse)
| ConRecvOpen
| ConReserve (route : bytes)
| ConSendAssigned (a : addr)
| ConRecvHandshake (a : addr)
| ConPublish (a : addr) (hello : bytes)
| ConNotify (a : addr) (notify : RegisterAgentResponse) (deadline : Z)
| ConWaitReady (deadline : Z)
| ConSendAccept
| ConLoop
| ConSend (payload : bytes)
| AccRecvFirst
| AccLookup (accept : AgentAccept)
| AccLoop (sp : addr)
| AccSend (sp : addr) (payload : bytes)
| Ret (r : option goerr).

Record handler := { h_pc : pc; h_defers : list deferred }.

(** The goroutine started by [go func() { errCh <- recvClient(...) }()] (or
    [recvAgent]): waiting in [stream.Recv], or holding a payload in its
    [select]. *)
Inductive receiver :=
| RecvClient (held : option bytes)
| RecvAgent (sp : addr) (held : option bytes).

(** What a handler has sent on its stream (ghost). *)
Inductive outmsg :=
| OutRegister (m : RegisterAgentResponse)
| OutConnect (m : ConnectResponse)
| OutAccept (m : AcceptResponse).

Record world := {
  w_svc : Service;
  w_now : Z;
  w_next : addr;
  w_main : gmap nat handler;
  w_recv : gmap nat receiver;
  w_errch : gmap nat goerr;             (* the buffered errCh of each call *)
  w_sctx : gmap nat ctx_err;            (* the streams whose context is done *)
  w_out : gmap nat (list outmsg);       (* ghost *)
  w_rx : gmap nat (list bytes);         (* ghost: ciphertexts received on each stream *)
  w_att : gmap nat nat;                 (* ghost: the session each Accept call attached to *)
  w_ret : gmap nat (option goerr);      (* ghost: what each finished call returned *)
}.

Definition set_svc (f : Service -> Service) (w : world) : world :=
  {| w_svc := f (w_svc w); w_now := w_now w; w_next := w_next w; w_main := w_main w;
     w_recv := w_recv w; w_errch := w_errch w; w_sctx := w_sctx w; w_out := w_out w;
     w_rx := w_rx w; w_att := w_att w; w_ret := w_ret w |}.
Definition set_main (f : gmap nat handler -> gmap nat handler) (w : world) : world :=
  {| w_svc := w_svc w; w_now := w_now w; w_next := w_next w; w_main := f (w_main w);
     w_recv := w_recv w; w_errch := w_errch w; w_sctx := w_sctx w; w_out := w_out w;
     w_rx := w_rx w; w_att := w_att w; w_ret := w_ret w |}.
Definition set_recv (f : gmap nat receiver -> gmap nat receiver) (w : world) : world :=
  {| w_svc := w_svc w; w_now := w_now w; w_next := w_next w; w_main := w_main w;
     w_recv := f (w_recv w); w_errch := w_errch w; w_sctx := w_sctx w; w_out := w_out w;
     w_rx := w_rx w; w_att := w_att w; w_ret := w_ret w |}.
Definition set_errch (f : gmap nat goerr -> gmap nat goerr) (w : world) : world :=
  {| w_svc := w_svc w; w_now := w_now w; w_next := w_next w; w_main := w_main w;
     w_recv := w_recv w; w_errch := f (w_errch w); w_sctx := w_sctx w; w_out := w_out w;
     w_rx := w_rx w; w_att := w_att w; w_ret := w_ret w |}.
Definition set_sctx (f : gmap nat ctx_err -> gmap nat ctx_err) (w : world) : world :=
  {| w_svc := w_svc w; w_now := w_now w; w_next := w_next w; w_main := w_main w;
     w_recv := w_recv w; w_errch := w_errch w; w_sctx := f (w_sctx w); w_out := w_out w;
     w_rx := w_rx w; w_att := w_att w; w_ret := w_ret w |}.
Definition log_out (p : addr) (m : outmsg) (w : world) : world :=
  {| w_svc := w_svc w; w_now := w_now w; w_next := w_next w; w_main := w_main w;
     w_recv := w_recv w; w_errch := w_errch w; w_sctx := w_sctx w;
     w_out := <[p := default [] (w_out w !! p) ++ [m]]> (w_out w);
     w_rx := w_rx w; w_att := w_att w; w_ret := w_ret w |}.
Definition log_rx (p : addr) (b : bytes) (w : world) : world :=
  {| w_svc := w_svc w; w_now := w_now w; w_next := w_next w; w_main := w_main w;
     w_recv := w_recv w; w_errch := w_errch w; w_sctx := w_sctx w; w_out := w_out w;
     w_rx := <[p := default [] (w_rx w !! p) ++ [b]]> (w_rx w);
     w_att := w_att w; w_ret := w_ret w |}.
Definition log_att (p sp : addr) (w : world) : world :=
  {| w_svc := w_svc w; w_now := w_now w; w_next := w_next w; w_main := w_main w;
     w_recv := w_recv w; w_errch := w_errch w; w_sctx := w_sctx w; w_out := w_out w;
     w_rx := w_rx w; w_att := <[p := sp]> (w_att w); w_ret := w_ret w |}.
Definition log_ret (p : addr) (r : option goerr) (w : world) : world :=
  {| w_svc := w_svc w; w_now := w_now w; w_next := w_next w; w_main := w_main w;
     w_recv := w_recv w; w_errch := w_errch w; w_sctx := w_sctx w; w_out := w_out w;
     w_rx := w_rx w; w_att := w_att w; w_ret := <[p := r]> (w_ret w) |}.
Definition set_now (t : Z) (w : world) : world :=
  {| w_svc := w_svc w; w_now := t; w_next := w_next w; w_main := w_main w;
     w_recv := w_recv w; w_errch := w_errch w; w_sctx := w_sctx w; w_out := w_out w;
     w_rx := w_rx w; w_att := w_att w; w_ret := w_ret w |}.
Definition set_next (n : addr) (w : world) : world :=
  {| w_svc := w_svc w; w_now := w_now w; w_next := n; w_main := w_main w;
     w_recv := w_recv w; w_errch := w_errch w; w_sctx := w_sctx w; w_out := w_out w;
     w_rx := w_rx w; w_att := w_att w; w_ret := w_ret w |}.

Definition init_world (c : Config) : world :=
  {| w_svc := NewService c; w_now := 0; w_next := 0%nat; w_main := ∅; w_recv := ∅;
     w_errch := ∅; w_sctx := ∅; w_out := ∅; w_rx := ∅; w_att := ∅; w_ret := ∅ |}.

(** What the environment, the scheduler and [select] decide in one step. *)
Inductive choice :=
| ChRun                                      (* run to the next shared action *)
| ChRand (r : option bytes)                  (* rand.Read: the 16 bytes, or a failure *)
| ChRecvConnect (r : result goerr ConnectRequest)
| ChRecvAccept (r : result goerr AcceptRequest)
| ChSent (r : option goerr)                  (* the result of stream.Send *)
| ChCtxDone
| ChAgentDone
| ChTimeout
| ChReady
| ChErrCh
| ChComm (q : addr).                         (* hand a value to the goroutine of call q *)

(** Moving a handler: [goto] keeps its deferred calls, [push] adds one. *)
Definition goto (p : addr) (h : handler) (k : pc) (w : world) : world :=
  set_main (<[p := {| h_pc := k; h_defers := h_defers h |}]>) w.
Definition push (p : addr) (h : handler) (ds : list deferred) (k : pc) (w : world) : world :=
  set_main (<[p := {| h_pc := k; h_defers := ds ++ h_defers h |}]>) w.

Definition msg_assigned (sid : string) : outmsg :=
  OutConnect {| cres_Body := Some (ConnectResponse_SessionAssigned {| sa_SessionId := go_bytes sid |}) |}.
Definition msg_accepted (sess : session) : outmsg :=
  OutConnect {| cres_Body := Some (ConnectResponse_AgentAccept
    {| aa_ProtocolVersion := ProtocolVersion; aa_SessionId := go_bytes (s_id sess);
       aa_AgentHello := s_agentHello sess |}) |}.
Definition connectCiphertext (b : bytes) : ConnectResponse :=
  {| cres_Body := Some (ConnectResponse_Ciphertext {| ct_Payload := b |}) |}.
Definition acceptCiphertext (b : bytes) : AcceptResponse :=
  {| ares_Body := Some (AcceptResponse_Ciphertext {| ct_Payload := b |}) |}.

(** *** RegisterAgent *)
Definition step_register (w : world) (p : addr) (h : handler) (c : choice) : option world :=
  match h_pc h, c with
  | RegCall req, ChRun =>
      if negb (rar_ProtocolVersion req =? ProtocolVersion) then
        Some (goto p h (Ret (Some (EStatus FailedPrecondition
          ("unsupported protocol version " +:+ pretty (rar_ProtocolVersion req))))) w)
      else if negb (len (rar_RouteId req) =? RouteIDSize) then
        Some (goto p h (Ret (Some (EStatus InvalidArgument "invalid route ID"))) w)
      else
        let key := go_string (rar_RouteId req) in
        match register (w_svc w) key p with
        | Err e => Some (goto p h (Ret (Some e)) w)
        | Ok s' => Some (push p h [DUnregister key p] (RegLoop p) (set_svc (fun _ => s') w))
        end
  | RegLoop a, ChCtxDone =>
      e ← w_sctx w !! p; Some (goto p h (Ret (Some (EFromContext e))) w)
  | RegSend a msg, ChSent None => Some (log_out p (OutRegister msg) (goto p h (RegLoop a) w))
  | RegSend a msg, ChSent (Some e) => Some (goto p h (Ret (Some e)) w)
  | _, _ => None
  end.

(** *** Connect *)
Definition valid_open (o : option ClientOpen) : option bytes :=
  match o with
  | Some m => if (co_ProtocolVersion m =? ProtocolVersion) && (len (co_RouteId m) =? RouteIDSize)
              then Some (co_RouteId m) else None
  | None => None
  end.

Definition valid_handshake (o : option ClientHandshake) : option bytes :=
  match o with
  | Some m => if len (ch_ClientHello m) =? 0 then None else Some (ch_ClientHello m)
  | None => None
  end.

(** Lines 125-140: the reservation, the counters, the session ID and the session. *)
Definition connect_reserve (w : world) (p : addr) (h : handler) (route : bytes) (rnd : option bytes)
  : option world :=
  match reserveAgent (w_svc w) route with
  | Err e => Some (goto p h (Ret (Some e)) (set_svc (set_obs (TunnelOpens_inc false)) w))
  | Ok (a, s') =>
      let s'' := set_obs (fun m => Tunnels_add 1 (TunnelOpens_inc true m)) s' in
      match rnd with
      | None => Some (push p h [DReleaseAgent a; DTunnelsDec]
                   (Ret (Some (EStatus Internal "could not allocate session"))) (set_svc (fun _ => s'') w))
      | Some sid =>
          if len sid =? 16 then
            let sess := {| s_id := go_string sid; s_agent := a; s_ctx := w_sctx w !! p;
                           s_once := false; s_ready := false; s_agentHello := [];
                           s_c2a := []; s_a2c := [] |} in
            Some (push p h [DCancelSession p; DReleaseAgent a; DTunnelsDec] (ConSendAssigned a)
                   (set_svc (fun _ => set_sheap (<[p := sess]>) s'') w))
          else None
      end
  end.

Definition step_connect (w : world) (p : addr) (h : handler) (c : choice) : option world :=
  match h_pc h, c with
  | ConRecvOpen, ChRecvConnect (Err e) => Some (goto p h (Ret (Some e)) w)
  | ConRecvOpen, ChRecvConnect (Ok f) =>
      match valid_open (ConnectRequest_GetClientOpen f) with
      | None => Some (goto p h (Ret (Some (EStatus InvalidArgument "first frame must be a valid client open"))) w)
      | Some route => Some (goto p h (ConReserve route) w)
      end
  | ConReserve route, ChRand rnd => connect_reserve w p h route rnd
  | ConSendAssigned a, ChSent (Some e) => Some (goto p h (Ret (Some e)) w)
  | ConSendAssigned a, ChSent None =>
      sess ← sheap (w_svc w) !! p;
      Some (log_out p (msg_assigned (s_id sess)) (goto p h (ConRecvHandshake a) w))
  | ConRecvHandshake a, ChRecvConnect (Err e) => Some (goto p h (Ret (Some e)) w)
  | ConRecvHandshake a, ChRecvConnect (Ok f) =>
      match valid_handshake (ConnectRequest_GetClientHandshake f) with
      | None => Some (goto p h (Ret (Some (EStatus InvalidArgument "second frame must be a client handshake"))) w)
      | Some hello => Some (goto p h (ConPublish a hello) w)
      end
  | ConPublish a hello, ChRun =>
      sess ← sheap (w_svc w) !! p;
      let notify := {| ras_ProtocolVersion := ProtocolVersion; ras_SessionId := go_bytes (s_id sess);
                       ras_ClientHello := hello |} in
      Some (push p h [DDeleteSession (s_id sess)]
             (ConNotify a notify (w_now w + HandshakeTimeout (cfg (w_svc w))))
             (set_svc (set_sessions (<[s_id sess := p]>)) w))
  | ConNotify a notify _, ChComm q =>
      hq ← w_main w !! q;
      match h_pc hq with
      | RegLoop a' =>
          if decide (a' = a) then
            Some (goto q hq (RegSend a notify)
                   (push p h [DTimerStop] (ConWaitReady (w_now w + HandshakeTimeout (cfg (w_svc w)))) w))
          else None
      | _ => None
      end
  | ConNotify a _ _, ChAgentDone =>
      ag ← aheap (w_svc w) !! a;
      if ag_done ag then Some (goto p h (Ret (Some (EStatus Unavailable "agent is offline"))) w) else None
  | ConNotify _ _ _, ChCtxDone =>
      sess ← sheap (w_svc w) !! p; e ← s_ctx sess;
      Some (goto p h (Ret (Some (EFromContext e))) w)
  | ConNotify _ _ deadline, ChTimeout =>
      if deadline <=? w_now w
      then Some (goto p h (Ret (Some (EStatus DeadlineExceeded "agent notification timed out"))) w) else None
  | ConWaitReady _, ChReady =>
      sess ← sheap (w_svc w) !! p;
      if s_ready sess then Some (goto p h ConSendAccept w) else None
  | ConWaitReady _, ChCtxDone =>
      sess ← sheap (w_svc w) !! p; e ← s_ctx sess;
      Some (goto p h (Ret (Some (EFromContext e))) w)
  | ConWaitReady deadline, ChTimeout =>
      if deadline <=? w_now w
      then Some (goto p h (Ret (Some (EStatus DeadlineExceeded "agent handshake timed out"))) w) else None
  | ConSendAccept, ChSent (Some e) => Some (goto p h (Ret (Some e)) w)
  | ConSendAccept, ChSent None =>
      sess ← sheap (w_svc w) !! p;
      Some (log_out p (msg_accepted sess)
             (set_recv (<[p := RecvClient None]>) (goto p h ConLoop w)))
  | ConLoop, ChErrCh =>
      e ← w_errch w !! p;
      Some (goto p h (Ret (if errors_Is e EEOF then None else Some e)) (set_errch (delete p) w))
  | ConLoop, ChCtxDone =>
      sess ← sheap (w_svc w) !! p; e ← s_ctx sess;
      Some (goto p h (Ret (Some (EFromContext e))) w)
  | ConSend payload, ChSent None =>
      Some (log_out p (OutConnect (connectCiphertext payload)) (goto p h ConLoop w))
  | ConSend payload, ChSent (Some e) => Some (goto p h (Ret (Some e)) w)
  | _, _ => None
  end.

(** *** Accept *)
Definition valid_accept (o : option AgentAccept) : option AgentAccept :=
  match o with
  | Some m => if (aa_ProtocolVersion m =? ProtocolVersion) && (len (aa_SessionId m) =? 16)
                 && negb (len (aa_AgentHello m) =? 0)
              then Some m else None
  | None => None
  end.

Definition step_accept (w : world) (p : addr) (h : handler) (c : choice) : option world :=
  match h_pc h, c with
  | AccRecvFirst, ChRecvAccept (Err e) => Some (goto p h (Ret (Some e)) w)
  | AccRecvFirst, ChRecvAccept (Ok f) =>
      match valid_accept (AcceptRequest_GetAgentAccept f) with
      | None => Some (goto p h (Ret (Some (EStatus InvalidArgument "first frame must be a valid agent accept"))) w)
      | Some accept => Some (goto p h (AccLookup accept) w)
      end
  | AccLookup accept, ChRun =>
      match accept_lookup (w_svc w) accept with
      | None => Some (goto p h (Ret (Some (EStatus NotFound "session is not pending"))) w)
      | Some (sp, s') =>
          Some (log_att p sp (set_recv (<[p := RecvAgent sp None]>)
                 (push p h [DCancelSession sp] (AccLoop sp) (set_svc (fun _ => s') w))))
      end
  | AccLoop sp, ChErrCh =>
      e ← w_errch w !! p;
      Some (goto p h (Ret (if errors_Is e EEOF then None else Some e)) (set_errch (delete p) w))
  | AccLoop sp, ChCtxDone =>
      sess ← sheap (w_svc w) !! sp; e ← s_ctx sess;
      Some (goto p h (Ret None) w)
  | AccSend sp payload, ChSent None =>
      Some (log_out p (OutAccept (acceptCiphertext payload)) (goto p h (AccLoop sp) w))
  | AccSend sp payload, ChSent (Some e) => Some (goto p h (Ret (Some e)) w)
  | _, _ => None
  end.

(** *** Returning: the deferred calls run last-in first-out, each on its own

    A deferred call takes the service's mutex, changes the maps and counters and
    releases it.  Between taking and releasing it no critical section of the service
    waits for anything, so each is one step.  A call that panics (a channel closed
    twice) leaves the flag [panicked], after which no step of the process is left. *)
Definition run_deferred (d : deferred) (s : Service) (p : addr) : option Service :=
  match d with
  | DTunnelsDec => Some (set_obs (Tunnels_add (-1)) s)
  | DReleaseAgent a => releaseAgent s a
  | DCancelSession sp =>
      sess ← sheap s !! sp; Some (set_sheap (<[sp := ctx_cancel CtxCanceled sess]>) s)
  | DDeleteSession sid => Some (set_sessions (delete sid) s)
  | DTimerStop => Some s
  | DUnregister key a => unregister s key a
  end.

Definition step_return (w : world) (p : addr) (h : handler) (c : choice) : option world :=
  match h_pc h, c, h_defers h with
  | Ret r, ChRun, d :: ds =>
      s' ← run_deferred d (w_svc w) p;
      Some (set_main (<[p := {| h_pc := Ret r; h_defers := ds |}]>) (set_svc (fun _ => s') w))
  | Ret r, ChRun, [] => Some (log_ret p r (set_main (delete p) w))
  | _, _, _ => None
  end.

Definition step_main (w : world) (p : addr) (h : handler) (c : choice) : option world :=
  match h_pc h with
  | RegCall _ | RegLoop _ | RegSend _ _ => step_register w p h c
  | AccRecvFirst | AccLookup _ | AccLoop _ | AccSend _ _ => step_accept w p h c
  | Ret _ => step_return w p h c
  | _ => step_connect w p h c
  end.

(** *** recvClient and recvAgent *)

(** [errCh <- err]: the goroutine ends. *)
Definition recv_finish (p : addr) (e : goerr) (w : world) : world :=
  set_errch (<[p := e]>) (set_recv (delete p) w).

Definition expected_ciphertext : goerr := EStatus InvalidArgument "expected ciphertext frame".

Definition step_recv (w : world) (p : addr) (r : receiver) (c : choice) : option world :=
  match r, c with
  | RecvClient None, ChRecvConnect (Err e) => Some (recv_finish p e w)
  | RecvClient None, ChRecvConnect (Ok f) =>
      match ConnectRequest_GetCiphertext f with
      | None => Some (recv_finish p expected_ciphertext w)
      | Some ct => Some (log_rx p (ct_Payload ct) (set_recv (<[p := RecvClient (Some (ct_Payload ct))]>) w))
      end
  | RecvClient (Some b), ChComm q =>
      hq ← w_main w !! q;
      match h_pc hq with
      | AccLoop sp =>
          if decide (sp = p) then
            Some (goto q hq (AccSend sp b)
                   (set_recv (<[p := RecvClient None]>)
                     (set_svc (fun s => set_obs (Bytes_add (len b) 0) (set_sheap (alter (log_c2a q b) p) s)) w)))
          else None
      | _ => None
      end
  | RecvClient (Some _), ChCtxDone =>
      sess ← sheap (w_svc w) !! p; e ← s_ctx sess; Some (recv_finish p (ECtx e) w)
  | RecvAgent sp None, ChRecvAccept (Err e) => Some (recv_finish p e w)
  | RecvAgent sp None, ChRecvAccept (Ok f) =>
      match AcceptRequest_GetCiphertext f with
      | None => Some (recv_finish p expected_ciphertext w)
      | Some ct => Some (log_rx p (ct_Payload ct) (set_recv (<[p := RecvAgent sp (Some (ct_Payload ct))]>) w))
      end
  | RecvAgent sp (Some b), ChComm q =>
      hq ← w_main w !! q;
      match h_pc hq with
      | ConLoop =>
          if decide (sp = q) then
            Some (goto q hq (ConSend b)
                   (set_recv (<[p := RecvAgent sp None]>)
                     (set_svc (fun s => set_obs (Bytes_add 0 (len b)) (set_sheap (alter (log_a2c p b) sp) s)) w)))
          else None
      | _ => None
      end
  | RecvAgent sp (Some _), ChCtxDone =>
      sess ← sheap (w_svc w) !! sp; e ← s_ctx sess; Some (recv_finish p (ECtx e) w)
  | _, _ => None
  end.

(** ** The world *)

Inductive event :=
| EvTick (d : Z)                              (* time passes *)
| EvStreamDone (p : addr) (e : ctx_err)       (* the context of call p's stream ends *)
| EvRegister (req : RegisterAgentRequest)     (* gRPC calls RegisterAgent *)
| EvConnect
| EvAccept
| EvMain (p : addr) (c : choice)              (* the handler of call p takes a step *)
| EvRecv (p : addr) (c : choice).             (* its receiving goroutine does *)

Definition spawn (k : pc) (w : world) : world :=
  set_next (S (w_next w)) (set_main (<[w_next w := {| h_pc := k; h_defers := [] |}]>) w).

Definition exec (w : world) (ev : event) : option world :=
  match ev with
  | EvTick d => if 0 <=? d then Some (set_now (w_now w + d) w) else None
  | EvStreamDone p e =>
      if decide ((p < w_next w)%nat /\ w_sctx w !! p = None) then
        Some (set_sctx (<[p := e]>) (set_svc (set_sheap (alter (ctx_cancel e) p)) w))
      else None
  | EvRegister req => Some (spawn (RegCall req) w)
  | EvConnect => Some (spawn ConRecvOpen w)
  | EvAccept => Some (spawn AccRecvFirst w)
  | EvMain p c => h ← w_main w !! p; step_main w p h c
  | EvRecv p c => r ← w_recv w !! p; step_recv w p r c
  end.

(** A panic ends the process: nothing runs after it, not even the remaining deferred
    calls, and what they owe stays. *)
Definition step (w : world) (ev : event) : option world :=
  if panicked (w_svc w) then None else exec w ev.

Lemma step_exec w ev w' : step w ev = Some w' -> panicked (w_svc w) = false /\ exec w ev = Some w'.
Proof. unfold step. by destruct (panicked (w_svc w)). Qed.
Lemma step_running w ev : panicked (w_svc w) = false -> step w ev = exec w ev.
Proof. unfold step. by intros ->. Qed.

Fixpoint run (w : world) (evs : list event) : option world :=
  match evs with
  | [] => Some w
  | ev :: evs' => w' ← step w ev; run w' evs'
  end.

(** The worlds the relay can reach from a fresh [NewService]. *)
Inductive reachable (c : Config) : world -> Prop :=
| reach_init : reachable c (init_world c)
| reach_step w ev w' : reachable c w -> step w ev = Some w' -> reachable c w'.
