(* ===== verification/Server.v ===== *)
(** * The relay process (internal/relay/server.go)

    [RunServer]: the checks on its configuration, what it starts to listen on and
    how it stops.  The libraries it hands over to (gRPC, HTTP, TLS) appear as the
    actions it takes on them; their answers are arguments. *)

From S2P Require Import Prelude GoBase NetAddr RelayService.

Record ServerConfig := {
  Listen : string;
  TLSCert : string;
  TLSKey : string;
  H2C : bool;
  AllowPublicH2C : bool;
  Token : string;
  NoAuth : bool;
  Reflection : bool;
  MetricsListen : string;
  Pprof : bool;
  ShutdownTimeout : Z;          (* nanoseconds *)
  ServiceConfig : Config;
}.

Inductive action :=
| AListen (addr : string)                        (* net.Listen *)
| AServe (tls : bool) (token : string) (noAuth reflection : bool) (svc : Config)
                                                 (* grpc.NewServer and Serve, with the interceptors' arguments *)
| AMetrics (addr : string) (pprof : bool)        (* the HTTP listener *)
| AReady                                         (* ready(lis.Addr()) *)
| ANotServing                                    (* healthServer.SetServingStatus *)
| AMetricsShutdown
| AGracefulStop
| AStop
| ACloseListener.                                (* the deferred lis.Close() *)

(** Why the process ends: [Serve] has returned, or the context is done and the
    metrics server and [GracefulStop] take some time, or for ever.  When
    [GracefulStop] ends exactly at the timeout, the timer wins. *)
Inductive server_end :=
| ServeReturned (e : option goerr)
| CtxDone (metrics graceful : option Z).

Record server_env := { se_listen : option goerr; se_tls : option goerr; se_end : server_end }.

(** The time of a wait that is given up after [limit]. *)
Definition wait_limit (limit : Z) (t : option Z) : Z :=
  match t with Some t => Z.min limit t | None => limit end.
Definition in_time (limit : Z) (t : option Z) : bool :=
  match t with Some t => t <? limit | None => false end.

Definition shutdown_timeout (cfg : ServerConfig) : Z :=
  if ShutdownTimeout cfg <=? 0 then 15 * 1000000000 else ShutdownTimeout cfg.

(** The end of [RunServer]: its result, what it does, and how long it takes. *)
Definition server_shutdown (cfg : ServerConfig) (e : server_end) : option goerr * list action * Z :=
  match e with
  | ServeReturned err => (err, [], 0)
  | CtxDone metrics graceful =>
      let limit := shutdown_timeout cfg in
      let with_metrics := negb (bool_decide (MetricsListen cfg = "")) in
      (None,
       [ANotServing] ++ (if with_metrics then [AMetricsShutdown] else []) ++ [AGracefulStop] ++
         (if in_time limit graceful then [] else [AStop]),
       (if with_metrics then wait_limit limit metrics else 0) + wait_limit limit graceful)
  end.

Definition RunServer (cfg : ServerConfig) (env : server_env) : option goerr * list action * Z :=
  if H2C cfg && negb (AllowPublicH2C cfg) && negb (isLoopbackListen (Listen cfg))
  then (Some (ENew "h2c may only bind loopback unless --allow-public-h2c is set"), [], 0)
  else if negb (H2C cfg) && (bool_decide (TLSCert cfg = "") || bool_decide (TLSKey cfg = ""))
  then (Some (ENew "--tls-cert and --tls-key are required unless --h2c is set"), [], 0)
  else if Pprof cfg && (bool_decide (MetricsListen cfg = "") || negb (isLoopbackListen (MetricsListen cfg)))
  then (Some (ENew "pprof requires a loopback --metrics-listen address"), [], 0)
  else match se_listen env with
  | Some e => (Some (EWrap "listening" e), [], 0)
  | None =>
      let opened := [AListen (Listen cfg)] in
      match (if H2C cfg then None else se_tls env) with
      | Some e => (Some (EWrap "loading TLS certificate" e), opened ++ [ACloseListener], 0)
      | None =>
          let metrics := if bool_decide (MetricsListen cfg = "") then [] else [AMetrics (MetricsListen cfg) (Pprof cfg)] in
          let serve := [AServe (negb (H2C cfg)) (Token cfg) (NoAuth cfg) (Reflection cfg) (ServiceConfig cfg)] in
          let '(r, ending, t) := server_shutdown cfg (se_end env) in
          (r, opened ++ metrics ++ serve ++ [AReady] ++ ending ++ [ACloseListener], t)
      end
  end.

(** ** Lemmas *)

(** An address that names a loopback host. *)
Definition loopback_addr (addr : string) : Prop :=
  exists host port, loopback_host host /\
    (go_bytes addr = host ++ x3a :: port \/ go_bytes addr = x5b :: host ++ x5d :: x3a :: port).

Lemma wait_limit_le limit t : 0 <= limit -> wait_limit limit t <= limit.
Proof. destruct t; simpl; lia. Qed.

Lemma shutdown_bounded cfg e r acts t :
  server_shutdown cfg e = (r, acts, t) ->
  t <= 2 * shutdown_timeout cfg /\ (forall a, a ∈ acts -> a ∈ [ANotServing; AMetricsShutdown; AGracefulStop; AStop]).
Proof.
  assert (Hpos : 0 < shutdown_timeout cfg) by (unfold shutdown_timeout; case_match; lia).
  destruct e as [err|m g]; simpl; intros [= <- <- <-].
  - split; [lia|]. intros a Ha. by apply not_elem_of_nil in Ha.
  - pose proof (wait_limit_le (shutdown_timeout cfg) m ltac:(lia)).
    pose proof (wait_limit_le (shutdown_timeout cfg) g ltac:(lia)). split; [case_match; lia|].
    intros a. repeat case_match; set_solver.
Qed.

(** [RunServer] once its checks have passed. *)
Definition server_checks (cfg : ServerConfig) : Prop :=
  (H2C cfg = true -> AllowPublicH2C cfg = true \/ isLoopbackListen (Listen cfg) = true) /\
  (Pprof cfg = true -> isLoopbackListen (MetricsListen cfg) = true).

Lemma RunServer_cases cfg env r acts t :
  RunServer cfg env = (r, acts, t) ->
  (acts = [] /\ t = 0) \/
  (server_checks cfg /\ se_listen env = None /\
    ((acts = [AListen (Listen cfg); ACloseListener] /\ t = 0) \/
     exists metrics ending,
      acts = (AListen (Listen cfg) :: metrics) ++
        [AServe (negb (H2C cfg)) (Token cfg) (NoAuth cfg) (Reflection cfg) (ServiceConfig cfg)] ++
        [AReady] ++ ending ++ [ACloseListener] /\
      (metrics = [] \/ metrics = [AMetrics (MetricsListen cfg) (Pprof cfg)]) /\
      server_shutdown cfg (se_end env) = (r, ending, t))).
Proof.
  unfold RunServer. intros H.
  destruct (H2C cfg && _ && _) eqn:G1; [left; by simplify_eq|].
  destruct (negb (H2C cfg) && _); [left; by simplify_eq|].
  destruct (Pprof cfg && _) eqn:G3; [left; by simplify_eq|].
  destruct (se_listen env); [left; by simplify_eq|]. right.
  split_and!; [|done|].
  { split; intros E; rewrite E in *; simpl in *.
    - destruct (AllowPublicH2C cfg); [by left|]. right. by apply negb_false_iff in G1.
    - apply orb_false_iff in G3 as [_ G3]. by apply negb_false_iff in G3. }
  destruct (if H2C cfg then None else se_tls env); [left; by simplify_eq|]. right.
  destruct (server_shutdown cfg (se_end env)) as [[r' ending] t'] eqn:Hs. simplify_eq.
  eexists _, ending. split_and!; [reflexivity| |done]. case_bool_decide; auto.
Qed.

Lemma RunServer_actions cfg env r acts t a :
  RunServer cfg env = (r, acts, t) -> a ∈ acts ->
  server_checks cfg /\ list.last acts = Some ACloseListener /\
  match a with
  | AListen addr => addr = Listen cfg
  | AServe tls tok na refl svc =>
      tls = negb (H2C cfg) /\ tok = Token cfg /\ na = NoAuth cfg /\ refl = Reflection cfg /\ svc = ServiceConfig cfg
  | AMetrics addr pprof => addr = MetricsListen cfg /\ pprof = Pprof cfg
  | _ => True
  end.
Proof.
  intros H Hin.
  destruct (RunServer_cases _ _ _ _ _ H) as [[-> _]|(C & _ & [[-> _]|(ms & en & -> & Hms & Hs)])];
    [by apply not_elem_of_nil in Hin|split_and!; [done..|]; clear H; set_solver|].
  apply shutdown_bounded in Hs as [_ He]. clear H. split_and!; [done|by rewrite !app_assoc, last_snoc|].
  rewrite !elem_of_app, elem_of_cons, !list_elem_of_singleton in Hin.
  destruct Hin as [[->|Hin]|[->|[->|[Hin| ->]]]]; [done| |done..| |done].
  - destruct Hms as [->| ->]; [by apply not_elem_of_nil in Hin|]. by apply list_elem_of_singleton in Hin as ->.
  - apply He in Hin. set_solver.
Qed.

Lemma RunServer_time cfg env r acts t : RunServer cfg env = (r, acts, t) -> t <= 2 * shutdown_timeout cfg.
Proof.
  intros H. assert (Hpos : 0 < shutdown_timeout cfg) by (unfold shutdown_timeout; case_match; lia).
  destruct (RunServer_cases _ _ _ _ _ H) as [[_ ->]|(_ & _ & [[_ ->]|(ms & en & _ & _ & Hs)])]; [lia..|].
  by apply shutdown_bounded in Hs as [Ht _].
Qed.

(** ** Properties *)

(** C32: what the relay exposes.  It serves cleartext only when that was allowed
    or its address names a loopback host ("localhost", 127.b.c.d in decimal, or an
    IPv6 text of ::1 or of a mapped 127 address), and pprof only on such an
    address; it serves with the configured token, authentication mode and limits,
    and with TLS unless H2C is set; it closes the listener on every path; and once
    its context is done it ends within twice the shutdown timeout.  A cleartext
    relay on any 127.b.c.d address with a plain port is not refused. *)
Theorem server_exposure cfg env r acts t :
  RunServer cfg env = (r, acts, t) ->
  (forall tls tok na refl svc, AServe tls tok na refl svc ∈ acts ->
     (tls = false -> AllowPublicH2C cfg = true \/ loopback_addr (Listen cfg)) /\
     tok = Token cfg /\ na = NoAuth cfg /\ svc = ServiceConfig cfg /\ tls = negb (H2C cfg)) /\
  (forall addr, AMetrics addr true ∈ acts -> loopback_addr addr) /\
  (forall addr, AListen addr ∈ acts -> addr = Listen cfg /\ list.last acts = Some ACloseListener) /\
  t <= 2 * shutdown_timeout cfg /\
  (forall b c d port, octet b -> octet c -> octet d -> Forall plain_char port ->
     Listen cfg = go_string (dotted [127; b; c; d] ++ x3a :: port) -> H2C cfg = true -> Pprof cfg = false ->
     se_listen env = None -> AListen (Listen cfg) ∈ acts).
Proof.
  intros H. split_and!.
  - intros tls tok na refl svc Hin. destruct (RunServer_actions _ _ _ _ _ _ H Hin) as ([C _] & _ & -> & -> & -> & -> & ->).
    split_and!; [|done..]. intros E. apply negb_false_iff in E. destruct (C E); [by left|]. right. by apply loopback_sound.
  - intros addr Hin. destruct (RunServer_actions _ _ _ _ _ _ H Hin) as ([_ C] & _ & -> & E). by apply loopback_sound, C.
  - intros addr Hin. by destruct (RunServer_actions _ _ _ _ _ _ H Hin) as (_ & E & ->).
  - by eapply RunServer_time.
  - intros b c d port Hb Hc Hd Hp Hl Hh Hpp Hse.
    unfold RunServer in H. rewrite Hh, Hpp, Hse, Hl, (loopback_v4 b c d port) in H by done.
    rewrite andb_false_r in H. simpl in H. destruct (server_shutdown _ _) as [[r' en] t']. simplify_eq. rewrite Hl. left.
Qed.

Definition demo_server_config : ServerConfig :=
  {| Listen := "127.0.0.1:8080"; TLSCert := ""; TLSKey := ""; H2C := true; AllowPublicH2C := false; Token := "secret";
     NoAuth := false; Reflection := false; MetricsListen := "[::1]:9090"; Pprof := true; ShutdownTimeout := 0;
     ServiceConfig := {| MaxAgents := 10; MaxTunnelsPerAgent := 4; HandshakeTimeout := 10000000000 |} |}.
Definition demo_server_env : server_env :=
  {| se_listen := None; se_tls := None; se_end := CtxDone (Some 1) None |}.

Lemma server_exposure_witness :
  AMetrics "[::1]:9090" true ∈ (RunServer demo_server_config demo_server_env).1.2 /\ loopback_addr "[::1]:9090".
Proof.
  assert (Hin : AMetrics "[::1]:9090" true ∈ (RunServer demo_server_config demo_server_env).1.2).
  { vm_compute. right. left. }
  split; [exact Hin|].
  exact (proj1 (proj2 (server_exposure demo_server_config demo_server_env None
    (RunServer demo_server_config demo_server_env).1.2 15000000001 ltac:(vm_compute; reflexivity))) _ Hin).
Defined.
