(* ===== verification/RelayLease.v ===== *)
(** * The lease discipline of the relay

    The relay's shared tables are governed by the deferred calls its handlers
    still owe: an entry of [s.agents] is owed a removal by exactly the handler
    that made it, [agent.active] counts the handlers that owe a [releaseAgent],
    an entry of [s.sessions] is owed a [delete].  [lease_inv] states this for the
    shared state and the stacks of deferred calls alone; the lemmas below are the
    moves the handlers make on that pair. *)

From S2P Require Import Prelude GoBase RelayService.

(** ** The view of a world: the stacks of deferred calls *)

Definition stacks (w : world) : gmap nat (list deferred) := h_defers <$> w_main w.

Definition is_release (a : addr) (d : deferred) : bool :=
  match d with DReleaseAgent a' => bool_decide (a' = a) | _ => false end.
Definition is_tunnels_dec (d : deferred) : bool :=
  match d with DTunnelsDec => true | _ => false end.

(** The number of calls that still hold a tunnel of the agent at [a], and the
    number of calls counted in the [Tunnels] gauge. *)
Definition leases (a : addr) (st : gmap nat (list deferred)) : Z :=
  msum (count_list (is_release a)) st.
Definition open_tunnels (st : gmap nat (list deferred)) : Z :=
  msum (count_list is_tunnels_dec) st.

(** The stacks of deferred calls a handler at address [p] can have. *)
Inductive stack_ok (p : addr) : list deferred -> Prop :=
| so_nil : stack_ok p []
| so_reg k : stack_ok p [DUnregister k p]
| so_acc sp : stack_ok p [DCancelSession sp]
| so_con1 : stack_ok p [DTunnelsDec]
| so_con2 a : stack_ok p [DReleaseAgent a; DTunnelsDec]
| so_con3 a : stack_ok p [DCancelSession p; DReleaseAgent a; DTunnelsDec]
| so_con4 k a : stack_ok p [DDeleteSession k; DCancelSession p; DReleaseAgent a; DTunnelsDec]
| so_con5 k a :
    stack_ok p [DTimerStop; DDeleteSession k; DCancelSession p; DReleaseAgent a; DTunnelsDec].

(** What a pending deferred call of handler [p] may rely on. *)
Definition deferred_ok (s : Service) (p : addr) (d : deferred) : Prop :=
  match d with
  | DUnregister k a =>
      agents s !! k = Some a /\
      exists ag, aheap s !! a = Some ag /\ ag_route ag = k /\ ag_done ag = false
  | DReleaseAgent a => is_Some (aheap s !! a)
  | DCancelSession sp => is_Some (sheap s !! sp)
  | DDeleteSession k => exists sess, sheap s !! p = Some sess /\ s_id sess = k
  | DTunnelsDec | DTimerStop => True
  end.

Record lease_inv (s : Service) (st : gmap nat (list deferred)) : Prop := {
  li_cap : Z.of_nat (size (agents s)) <= MaxAgents (cfg s);
  li_reg : forall k a, agents s !! k = Some a ->
             exists ds, st !! a = Some ds /\ DUnregister k a ∈ ds;
  li_active : forall a ag, aheap s !! a = Some ag ->
             ag_active ag = leases a st /\ ag_active ag <= MaxTunnelsPerAgent (cfg s);
  li_sess : forall k sp, sessions s !! k = Some sp ->
             exists ds, st !! sp = Some ds /\ DDeleteSession k ∈ ds;
  li_stack : forall p ds, st !! p = Some ds -> stack_ok p ds /\ Forall (deferred_ok s p) ds;
  li_gauge_agents : m_Agents (obs s) = Z.of_nat (size (agents s));
  li_gauge_tunnels : m_Tunnels (obs s) = open_tunnels st;
  li_once : forall sp sess, sheap s !! sp = Some sess ->
             s_once sess = s_ready sess /\ is_Some (aheap s !! s_agent sess);
  li_panic : panicked s = false;
  li_limits : 0 < MaxAgents (cfg s) /\ 0 < MaxTunnelsPerAgent (cfg s);
}.

(** ** Frames: changes the lease discipline does not see *)

Definition sess_frame (s1 s2 : session) : Prop :=
  s_id s2 = s_id s1 /\ s_agent s2 = s_agent s1 /\
  (s_once s1 = s_ready s1 -> s_once s2 = s_ready s2).

Definition svc_frame (s s' : Service) : Prop :=
  cfg s' = cfg s /\ agents s' = agents s /\ sessions s' = sessions s /\ aheap s' = aheap s /\
  m_Agents (obs s') = m_Agents (obs s) /\ m_Tunnels (obs s') = m_Tunnels (obs s) /\
  panicked s' = panicked s /\
  forall sp, option_Forall2 sess_frame (sheap s !! sp) (sheap s' !! sp).

#[export] Instance sess_frame_refl : Reflexive sess_frame.
Proof. by intros s. Qed.

#[export] Instance svc_frame_refl : Reflexive svc_frame.
Proof. intros s. repeat split. intros sp. destruct (sheap s !! sp); by constructor. Qed.

Lemma sess_frame_lookup (h h' : gmap nat session) sp :
  option_Forall2 sess_frame (h !! sp) (h' !! sp) ->
  (forall s', h' !! sp = Some s' -> exists s, h !! sp = Some s /\ sess_frame s s') /\
  (forall s, h !! sp = Some s -> exists s', h' !! sp = Some s' /\ sess_frame s s').
Proof. intros H. inversion H; split; intros; simplify_eq; eauto. Qed.

Lemma deferred_ok_frame s s' p d : svc_frame s s' -> deferred_ok s p d -> deferred_ok s' p d.
Proof.
  intros (_ & Ha & _ & Hh & _ & _ & _ & Hs). destruct d as [|a|sp|k| |k a]; simpl; rewrite ?Ha, ?Hh; auto.
  - intros [x Hx]. destruct (proj2 (sess_frame_lookup _ _ _ (Hs sp)) _ Hx) as (y & Hy & _). by rewrite Hy.
  - intros (x & Hx & Hk). destruct (proj2 (sess_frame_lookup _ _ _ (Hs p)) _ Hx) as (y & Hy & Hid & _).
    exists y. by rewrite Hid.
Qed.

Lemma lease_inv_frame s s' st : svc_frame s s' -> lease_inv s st -> lease_inv s' st.
Proof.
  intros HF HI. pose proof HF as (Hc & Ha & Hss & Hh & HmA & HmT & Hp & Hs). destruct HI.
  split; rewrite ?Hc, ?Ha, ?Hss, ?Hh, ?HmA, ?HmT, ?Hp; auto.
  - intros p ds Hds. destruct (li_stack0 p ds Hds) as [Hok Hall]. split; [done|].
    eapply Forall_impl; [|exact Hall]. intros d. by apply deferred_ok_frame.
  - intros sp sess Hsess. destruct (proj1 (sess_frame_lookup _ _ _ (Hs sp)) _ Hsess) as (x & Hx & _ & Hag & Hon).
    destruct (li_once0 sp x Hx). rewrite Hag. auto.
Qed.

Lemma svc_frame_obs f s :
  m_Agents (f (obs s)) = m_Agents (obs s) -> m_Tunnels (f (obs s)) = m_Tunnels (obs s) ->
  svc_frame s (set_obs f s).
Proof.
  intros H1 H2. by repeat split.
Qed.

Lemma svc_frame_alter f sp s :
  (forall x, sess_frame x (f x)) -> svc_frame s (set_sheap (alter f sp) s).
Proof.
  intros Hf. repeat split; try done. intros sp'. simpl.
  rewrite lookup_alter. destruct (sheap s !! sp') eqn:E; case_decide; subst; rewrite ?E; simpl;
    try constructor; auto; done.
Qed.

(** A payload handed over: the session's log and the byte counters move. *)
Lemma svc_frame_handover f a b sp s :
  (forall x, sess_frame x (f x)) ->
  svc_frame s (set_obs (Bytes_add a b) (set_sheap (alter f sp) s)).
Proof. intros Hf. exact (svc_frame_alter f sp s Hf). Qed.

Lemma svc_frame_insert sp x y s :
  sheap s !! sp = Some x -> sess_frame x y -> svc_frame s (set_sheap (<[sp := y]>) s).
Proof.
  intros Hx Hxy. repeat split; try done. intros sp'. simpl. rewrite lookup_insert.
  case_decide; subst; [rewrite Hx; by constructor|]. by destruct (sheap s !! sp'); constructor.
Qed.

Lemma sess_frame_cancel e x : sess_frame x (ctx_cancel e x).
Proof. by repeat split. Qed.
Lemma sess_frame_ready b x : sess_frame x (set_ready b x).
Proof. by repeat split. Qed.
Lemma sess_frame_c2a q b x : sess_frame x (log_c2a q b x).
Proof. by repeat split. Qed.
Lemma sess_frame_a2c q b x : sess_frame x (log_a2c q b x).
Proof. by repeat split. Qed.
#[export] Hint Resolve sess_frame_cancel sess_frame_ready sess_frame_c2a sess_frame_a2c : relaycat.

(** ** Stacks under one change *)

Lemma leases_insert a st p ds ds' :
  st !! p = Some ds ->
  leases a (<[p := ds']> st)
  = leases a st - count_list (is_release a) ds + count_list (is_release a) ds'.
Proof. intros. unfold leases. by rewrite (msum_insert _ _ _ ds). Qed.

Lemma open_tunnels_insert st p ds ds' :
  st !! p = Some ds ->
  open_tunnels (<[p := ds']> st)
  = open_tunnels st - count_list is_tunnels_dec ds + count_list is_tunnels_dec ds'.
Proof. intros. unfold open_tunnels. by rewrite (msum_insert _ _ _ ds). Qed.

(** An obligation stays owed when the stack of [p] keeps it. *)
Lemma owed_insert (st : gmap nat (list deferred)) p ds ds' d a :
  st !! p = Some ds -> (d ∈ ds -> d ∈ ds') ->
  (exists x, st !! a = Some x /\ d ∈ x) -> exists x, <[p := ds']> st !! a = Some x /\ d ∈ x.
Proof.
  intros Hp Hd (x & Hx & Hin). destruct (decide (p = a)) as [->|Hne].
  - exists ds'. rewrite lookup_insert_eq. simplify_eq. auto.
  - exists x. by rewrite lookup_insert_ne.
Qed.

(** What the other handlers rely on survives additions to the tables. *)
Definition svc_grows (s s' : Service) : Prop :=
  (forall k a, agents s !! k = Some a -> agents s' !! k = Some a) /\
  (forall a ag, aheap s !! a = Some ag -> exists ag', aheap s' !! a = Some ag' /\
     ag_route ag' = ag_route ag /\ ag_done ag' = ag_done ag) /\
  (forall sp x, sheap s !! sp = Some x -> exists x', sheap s' !! sp = Some x' /\ s_id x' = s_id x).

Lemma deferred_ok_grows s s' p d : svc_grows s s' -> deferred_ok s p d -> deferred_ok s' p d.
Proof.
  intros (Hag & Hah & Hsh). destruct d as [|a|sp|k| |k a]; simpl; auto.
  - intros [ag Ha]. destruct (Hah a ag Ha) as (x & -> & _). eauto.
  - intros [x Hx]. destruct (Hsh sp x Hx) as (y & -> & _). eauto.
  - intros (x & Hx & Hk). destruct (Hsh p x Hx) as (y & Hy & Hid). exists y. by rewrite Hid.
  - intros (Hk & ag & Ha & Hr & Hd). destruct (Hah a ag Ha) as (x & Hx & Hr' & Hd').
    split; [auto|]. exists x. by rewrite Hr', Hd'.
Qed.

(** The stacks stay well formed when the tables grow and [p] changes its own. *)
Lemma li_stack_insert s s' st p ds' :
  lease_inv s st -> svc_grows s s' -> stack_ok p ds' -> Forall (deferred_ok s' p) ds' ->
  forall q ds, <[p := ds']> st !! q = Some ds -> stack_ok q ds /\ Forall (deferred_ok s' q) ds.
Proof.
  intros HI Hg Hok Hall q ds. rewrite lookup_insert. case_decide; intros Hq; simplify_eq; [done|].
  destruct (li_stack _ _ HI q ds Hq) as [H1 H2]. split; [done|].
  eapply Forall_impl; [|exact H2]. intros d. by apply deferred_ok_grows.
Qed.

#[export] Instance svc_grows_refl : Reflexive svc_grows.
Proof. intros s. repeat split; eauto. Qed.


(** ** The moves *)

Lemma lease_spawn s st n : st !! n = None -> lease_inv s st -> lease_inv s (<[n := []]> st).
Proof.
  intros Hn HI. pose proof HI as []. split; auto.
  - intros k a Hk. destruct (li_reg0 k a Hk) as (x & Hx & Hin). exists x.
    rewrite lookup_insert_ne by congruence. done.
  - intros a ag Ha. unfold leases. rewrite msum_insert_None by done. simpl. by apply li_active0.
  - intros k sp Hk. destruct (li_sess0 k sp Hk) as (x & Hx & Hin). exists x.
    rewrite lookup_insert_ne by congruence. done.
  - by apply (li_stack_insert s); [done..|constructor|].
  - unfold open_tunnels. rewrite msum_insert_None by done. done.
Qed.

Lemma lease_remove s st p : st !! p = Some [] -> lease_inv s st -> lease_inv s (delete p st).
Proof.
  intros Hp HI. pose proof HI as []. split; auto.
  - intros k a Hk. destruct (li_reg0 k a Hk) as (x & Hx & Hin). exists x. split; [|done].
    rewrite lookup_delete_ne; [done|]. intros <-. simplify_eq. by apply not_elem_of_nil in Hin.
  - intros a ag Ha. unfold leases. rewrite (msum_delete _ _ _ []) by done. simpl.
    destruct (li_active0 a ag Ha). rewrite Z.sub_0_r. done.
  - intros k sp Hk. destruct (li_sess0 k sp Hk) as (x & Hx & Hin). exists x. split; [|done].
    rewrite lookup_delete_ne; [done|]. intros <-. simplify_eq. by apply not_elem_of_nil in Hin.
  - intros q ds Hq. apply lookup_delete_Some in Hq as [_ Hq]. by apply li_stack0.
  - unfold open_tunnels. rewrite (msum_delete _ _ _ []) by done. simpl. by rewrite Z.sub_0_r.
Qed.

(** A deferred call that touches no table. *)
Definition neutral (d : deferred) : bool :=
  match d with DCancelSession _ | DTimerStop => true | _ => false end.

Lemma neutral_counts d ds : neutral d = true ->
  (forall a, count_list (is_release a) (d :: ds) = count_list (is_release a) ds) /\
  count_list is_tunnels_dec (d :: ds) = count_list is_tunnels_dec ds.
Proof. by destruct d. Qed.

Lemma lease_push_neutral s st p ds d :
  lease_inv s st -> st !! p = Some ds -> neutral d = true ->
  stack_ok p (d :: ds) -> deferred_ok s p d -> lease_inv s (<[p := d :: ds]> st).
Proof.
  intros HI Hp Hd Hok Hdok. pose proof HI as []. destruct (neutral_counts d ds Hd) as [Hc1 Hc2].
  split; auto.
  - intros k a Hk. eapply owed_insert; eauto. intros ?. by apply list_elem_of_further.
  - intros a ag Ha. rewrite (leases_insert _ _ _ ds), Hc1 by done.
    destruct (li_active0 a ag Ha). lia.
  - intros k sp Hk. eapply owed_insert; eauto. intros ?. by apply list_elem_of_further.
  - apply (li_stack_insert s); [done..|]. constructor; [done|]. by apply (li_stack0 p).
  - rewrite (open_tunnels_insert _ _ ds), Hc2 by done. lia.
Qed.

Lemma lease_pop_neutral s st p ds d :
  lease_inv s st -> st !! p = Some (d :: ds) -> neutral d = true ->
  lease_inv s (<[p := ds]> st).
Proof.
  intros HI Hp Hd. pose proof HI as []. destruct (neutral_counts d ds Hd) as [Hc1 Hc2].
  destruct (li_stack0 p _ Hp) as [Hok Hall].
  assert (Hk : forall x, x ∈ d :: ds -> neutral x = false -> x ∈ ds).
  { intros x Hx Hn. apply elem_of_cons in Hx as [->|]; congruence. }
  split; auto.
  - intros k a Hka. eapply owed_insert; eauto.
  - intros a ag Ha. rewrite (leases_insert _ _ _ (d :: ds)), Hc1 by done.
    destruct (li_active0 a ag Ha). lia.
  - intros k sp Hks. eapply owed_insert; eauto.
  - apply (li_stack_insert s); [done..| |by inversion Hall].
    inversion Hok; subst; try constructor; done.
  - rewrite (open_tunnels_insert _ _ (d :: ds)), Hc2 by done. lia.
Qed.

(** No call holds a tunnel of an agent that does not exist yet. *)
Lemma leases_none s st a : lease_inv s st -> aheap s !! a = None -> leases a st = 0.
Proof.
  intros HI Ha. apply msum_zero. intros p ds Hp. apply count_list_zero. intros d Hd.
  destruct (li_stack _ _ HI p ds Hp) as [_ Hall].
  rewrite Forall_forall in Hall. apply list_elem_of_In in Hd. specialize (Hall d Hd).
  destruct d; try done. simpl in *. case_bool_decide; [|done]. subst.
  rewrite Ha in Hall. by destruct Hall.
Qed.

Lemma lease_register s st p k s' :
  lease_inv s st -> st !! p = Some [] -> aheap s !! p = None ->
  register s k p = Ok s' -> lease_inv s' (<[p := [DUnregister k p]]> st).
Proof.
  intros HI Hp Ha Hr. pose proof HI as []. unfold register in Hr. crush_match Hr.
  apply Z.leb_gt in Heqb.
  assert (Hsize : size (<[k:=p]> (agents s)) = S (size (agents s))) by by apply map_size_insert_None.
  split; simpl; auto.
  - rewrite Hsize. lia.
  - intros k' a. rewrite lookup_insert. case_decide; intros Hk; simplify_eq.
    + exists [DUnregister k' a]. rewrite lookup_insert_eq. split; [done|]. apply list_elem_of_here.
    + eapply owed_insert; eauto. intros Hin. by apply not_elem_of_nil in Hin.
  - intros a ag. rewrite (leases_insert _ _ _ []) by done. simpl. rewrite lookup_insert.
    case_decide; intros Hag; simplify_eq/=.
    + rewrite (leases_none s) by done. lia.
    + rewrite Z.sub_0_r, Z.add_0_r. by apply li_active0.
  - intros k' sp Hk'. eapply owed_insert; eauto. intros Hin. by apply not_elem_of_nil in Hin.
  - apply (li_stack_insert s); [done| |constructor|].
    + repeat split; simpl; eauto.
      * intros k' a Hk'. rewrite lookup_insert_ne by congruence. done.
      * intros a ag Hag. rewrite lookup_insert_ne by congruence. eauto.
    + repeat constructor; simpl; rewrite ?lookup_insert_eq; eauto.
  - rewrite Hsize. lia.
  - rewrite (open_tunnels_insert _ _ []) by done. simpl. lia.
  - intros sp sess Hs. destruct (li_once0 sp sess Hs) as [H1 [ag H2]]. split; [done|].
    rewrite lookup_insert_ne by congruence. eauto.
Qed.

Lemma lease_reserve s st p route a s' :
  lease_inv s st -> st !! p = Some [] -> reserveAgent s route = Ok (a, s') ->
  lease_inv (set_obs (fun m => Tunnels_add 1 (TunnelOpens_inc true m)) s')
            (<[p := [DReleaseAgent a; DTunnelsDec]]> st).
Proof.
  intros HI Hp Hr. pose proof HI as []. unfold reserveAgent in Hr. crush_match Hr.
  apply Z.leb_gt in Heqb. split; simpl; auto.
  - intros k a' Hk. eapply owed_insert; eauto. intros Hin. by apply not_elem_of_nil in Hin.
  - intros a' ag. rewrite (leases_insert _ _ _ []) by done. simpl. rewrite lookup_insert.
    case_decide; intros Hag; simplify_eq/=.
    + rewrite bool_decide_eq_true_2 by done. destruct (li_active0 a' _ Heqo0). lia.
    + rewrite bool_decide_eq_false_2 by done. destruct (li_active0 a' _ Hag). lia.
  - intros k' sp Hk'. eapply owed_insert; eauto. intros Hin. by apply not_elem_of_nil in Hin.
  - apply (li_stack_insert s); [done| |constructor|].
    + repeat split; simpl; eauto. intros a' ag Hag. rewrite lookup_insert.
      case_decide; simplify_eq; eauto.
    + repeat constructor. simpl. rewrite lookup_insert_eq. eauto.
  - rewrite (open_tunnels_insert _ _ []) by done. simpl. lia.
  - intros sp sess Hs. destruct (li_once0 sp sess Hs) as [H1 [ag H2]]. split; [done|].
    rewrite lookup_insert. case_decide; eauto.
Qed.

Lemma lease_new_session s st p sess :
  lease_inv s st -> sheap s !! p = None -> is_Some (aheap s !! s_agent sess) ->
  s_once sess = s_ready sess -> lease_inv (set_sheap (<[p := sess]>) s) st.
Proof.
  intros HI Hp Hag Hon. pose proof HI as []. split; simpl; auto.
  - intros q ds Hq. destruct (li_stack0 q ds Hq) as [H1 H2]. split; [done|].
    eapply Forall_impl; [|exact H2]. intros d. apply deferred_ok_grows.
    repeat split; simpl; eauto. intros sp x Hx. rewrite lookup_insert_ne by congruence. eauto.
  - intros sp x. rewrite lookup_insert. case_decide; intros Hx; simplify_eq; eauto.
Qed.

Lemma lease_publish s st p a sess :
  lease_inv s st -> st !! p = Some [DCancelSession p; DReleaseAgent a; DTunnelsDec] ->
  sheap s !! p = Some sess ->
  lease_inv (set_sessions (<[s_id sess := p]>) s)
    (<[p := [DDeleteSession (s_id sess); DCancelSession p; DReleaseAgent a; DTunnelsDec]]> st).
Proof.
  intros HI Hp Hs. pose proof HI as []. destruct (li_stack0 p _ Hp) as [_ Hall].
  split; simpl; auto.
  - intros k a' Hk. eapply owed_insert; eauto. intros ?. by apply list_elem_of_further.
  - intros a' ag Hag. rewrite (leases_insert _ _ _ _ _ Hp). simpl.
    destruct (li_active0 a' ag Hag). lia.
  - intros k sp. rewrite lookup_insert. case_decide; intros Hk; simplify_eq.
    + eexists. rewrite lookup_insert_eq. split; [done|]. apply list_elem_of_here.
    + eapply owed_insert; eauto. intros ?. by apply list_elem_of_further.
  - apply (li_stack_insert s); [done|repeat split; eauto|constructor|].
    constructor; [simpl; eauto|]. done.
  - rewrite (open_tunnels_insert _ _ _ _ Hp). simpl. lia.
Qed.

(** ** Running the deferred calls *)

(** [cancel_sessions_of] ends the contexts of the listed sessions of [a] and
    touches nothing else. *)
Lemma cancel_sessions_of_step a ss h :
  (forall sp, option_Forall2 (fun x y => y = x \/ y = ctx_cancel CtxCanceled x /\ s_agent x = a)
     (h !! sp) (cancel_sessions_of a ss h !! sp)) /\
  (forall k sp x, ss !! k = Some sp -> h !! sp = Some x -> s_agent x = a ->
     cancel_sessions_of a ss h !! sp = Some (ctx_cancel CtxCanceled x)).
Proof.
  unfold cancel_sessions_of.
  apply (map_fold_weak_ind (fun h' m =>
    (forall sp, option_Forall2 (fun x y => y = x \/ y = ctx_cancel CtxCanceled x /\ s_agent x = a)
       (h !! sp) (h' !! sp)) /\
    (forall k sp x, m !! k = Some sp -> h !! sp = Some x -> s_agent x = a ->
       h' !! sp = Some (ctx_cancel CtxCanceled x)))).
  - split; [intros sp; destruct (h !! sp); constructor; auto|]. intros k sp x Hk. by rewrite lookup_empty in Hk.
  - intros k sp0 m h' Hm [IH1 IH2]. pose proof (IH1 sp0) as H0.
    assert (Hidem : forall x, ctx_cancel CtxCanceled (ctx_cancel CtxCanceled x) = ctx_cancel CtxCanceled x)
      by (intros []; unfold ctx_cancel; simpl; by destruct s_ctx).
    destruct (h' !! sp0) as [x'|] eqn:Hx'; [|inversion H0; subst; split; [done|]].
    + inversion H0 as [x y Hxy Hx Hy|]; subst.
      assert (Hag : s_agent x' = s_agent x) by (destruct Hxy as [->|[-> _]]; done).
      assert (Hcc : ctx_cancel CtxCanceled x' = ctx_cancel CtxCanceled x)
        by (destruct Hxy as [->|[-> _]]; rewrite ?Hidem; done).
      split.
      * intros sp. case_decide as Hd; [|apply IH1]. rewrite lookup_insert.
        case_decide; subst; [|apply IH1]. rewrite <- Hx. constructor. right. split; congruence.
      * intros k' sp x1 Hk' Hx1 Ha1. apply lookup_insert_Some in Hk' as [[<- <-]|[Hne Hk']].
        -- rewrite decide_True by congruence. rewrite lookup_insert_eq. congruence.
        -- specialize (IH2 k' sp x1 Hk' Hx1 Ha1). case_decide; [|done].
           rewrite lookup_insert. case_decide; [subst; congruence|done].
    + intros k' sp x1 Hk' Hx1 Ha1. apply lookup_insert_Some in Hk' as [[<- <-]|[Hne Hk']]; [congruence|].
      by apply (IH2 k').
Qed.

Lemma cancel_sessions_of_frame a ss h sp :
  option_Forall2 sess_frame (h !! sp) (cancel_sessions_of a ss h !! sp).
Proof.
  destruct (cancel_sessions_of_step a ss h) as [H _]. specialize (H sp).
  inversion H as [x y Hxy|]; constructor. destruct Hxy as [->|[-> _]]; auto with relaycat. done.
Qed.

(** A stack whose head is [d] has one obligation of that kind only. *)
Lemma stack_pop_unique p d ds :
  stack_ok p (d :: ds) ->
  stack_ok p ds /\ (neutral d = false -> forall k a, d = DUnregister k a \/ d = DDeleteSession k \/
                     d = DReleaseAgent a \/ d = DTunnelsDec -> d ∉ ds).
Proof.
  intros H. split.
  - inversion H; subst; try constructor. 
  - intros Hn k a Hd Hin. inversion H; subst; try done;
      repeat (apply elem_of_cons in Hin as [Hin|Hin]; [discriminate|]); by apply not_elem_of_nil in Hin.
Qed.

Lemma stack_unregister p ds k a :
  stack_ok p ds -> DUnregister k a ∈ ds -> a = p /\ ds = [DUnregister k p].
Proof.
  intros H Hin. inversion H; subst;
    repeat (apply elem_of_cons in Hin as [Hin|Hin]; [simplify_eq; auto|]); by apply not_elem_of_nil in Hin.
Qed.


Lemma owed_pop (st : gmap nat (list deferred)) p ds d x a :
  st !! p = Some (d :: ds) -> x <> d ->
  (exists y, st !! a = Some y /\ x ∈ y) -> exists y, <[p := ds]> st !! a = Some y /\ x ∈ y.
Proof. intros Hp Hne. apply (owed_insert st p (d :: ds)); [done|]. intros Hx. by apply elem_of_cons in Hx as [|]. Qed.

Lemma lease_pop_tunnels s st p ds :
  lease_inv s st -> st !! p = Some (DTunnelsDec :: ds) ->
  lease_inv (set_obs (Tunnels_add (-1)) s) (<[p := ds]> st).
Proof.
  intros HI Hp. pose proof HI as []. destruct (li_stack0 p _ Hp) as [Hok Hall].
  split; simpl; auto.
  - intros k a Hk. by eapply owed_pop; eauto.
  - intros a ag Ha. rewrite (leases_insert _ _ _ _ _ Hp). simpl. destruct (li_active0 a ag Ha). lia.
  - intros k sp Hk. by eapply owed_pop; eauto.
  - apply (li_stack_insert s); [done|repeat split; eauto|by apply stack_pop_unique in Hok as []|by inversion Hall].
  - rewrite (open_tunnels_insert _ _ _ _ Hp). simpl. lia.
Qed.

Lemma lease_pop_release s st p ds a s' :
  lease_inv s st -> st !! p = Some (DReleaseAgent a :: ds) -> releaseAgent s a = Some s' ->
  lease_inv s' (<[p := ds]> st).
Proof.
  intros HI Hp Hr. pose proof HI as []. destruct (li_stack0 p _ Hp) as [Hok Hall].
  unfold releaseAgent in Hr. destruct (aheap s !! a) as [ag0|] eqn:Ha0; simplify_eq/=.
  split; simpl; auto.
  - intros k a' Hk. by eapply owed_pop; eauto.
  - intros a' ag. rewrite (leases_insert _ _ _ _ _ Hp). simpl. rewrite lookup_insert.
    case_decide; intros Hag; simplify_eq/=.
    + rewrite bool_decide_eq_true_2 by done. destruct (li_active0 a' _ Ha0). lia.
    + rewrite bool_decide_eq_false_2 by done. destruct (li_active0 a' _ Hag). lia.
  - intros k sp Hk. by eapply owed_pop; eauto.
  - assert (Hg : svc_grows s (set_aheap (<[a:=set_active (fun n => n - 1) ag0]>) s)).
    { repeat split; simpl; eauto. intros a' ag Hag. rewrite lookup_insert. case_decide; simplify_eq; eauto. }
    apply (li_stack_insert s); [done|done|by apply stack_pop_unique in Hok as []|].
    inversion Hall; subst. eapply Forall_impl; [|done]. intros d. by apply deferred_ok_grows.
  - rewrite (open_tunnels_insert _ _ _ _ Hp). simpl. lia.
  - intros sp sess Hs. destruct (li_once0 sp sess Hs) as [H1 [x H2]]. split; [done|].
    rewrite lookup_insert. case_decide; eauto.
Qed.

Lemma lease_pop_delete s st p ds k :
  lease_inv s st -> st !! p = Some (DDeleteSession k :: ds) ->
  lease_inv (set_sessions (delete k) s) (<[p := ds]> st).
Proof.
  intros HI Hp. pose proof HI as []. destruct (li_stack0 p _ Hp) as [Hok Hall].
  split; simpl; auto.
  - intros k' a Hk. by eapply owed_pop; eauto.
  - intros a ag Ha. rewrite (leases_insert _ _ _ _ _ Hp). simpl. destruct (li_active0 a ag Ha). lia.
  - intros k' sp Hk. apply lookup_delete_Some in Hk as [Hne Hk]. eapply owed_pop; eauto. congruence.
  - apply (li_stack_insert s); [done|repeat split; eauto|by apply stack_pop_unique in Hok as []|by inversion Hall].
  - rewrite (open_tunnels_insert _ _ _ _ Hp). simpl. lia.
Qed.

Lemma lease_pop_unregister s st p k s' :
  lease_inv s st -> st !! p = Some [DUnregister k p] -> unregister s k p = Some s' ->
  lease_inv s' (<[p := []]> st).
Proof.
  intros HI Hp Hu. pose proof HI as []. destruct (li_stack0 p _ Hp) as [Hok Hall].
  apply Forall_cons_iff in Hall as [Hd _]. destruct Hd as (Hk & ag & Hag & Hrt & Hdn). subst k.
  unfold unregister in Hu. rewrite Hag in Hu. simpl in Hu.
  rewrite decide_True, Hdn in Hu by done. simplify_eq/=.
  assert (Hsize : Z.of_nat (size (delete (ag_route ag) (agents s))) = Z.of_nat (size (agents s)) - 1).
  { rewrite <- (insert_delete_id (agents s) (ag_route ag) p Hk) at 2.
    rewrite map_size_insert_None by apply lookup_delete_eq. lia. }
  split; simpl; auto.
  - lia.
  - intros k' a Hk'. apply lookup_delete_Some in Hk' as [Hne Hk']. eapply owed_pop; eauto. congruence.
  - intros a ag'. rewrite (leases_insert _ _ _ _ _ Hp). simpl. rewrite lookup_insert.
    case_decide; intros Hx; simplify_eq/=; [destruct (li_active0 _ _ Hag)|destruct (li_active0 _ _ Hx)]; lia.
  - intros k' sp Hk'. by eapply owed_pop; eauto.
  - intros q ds. rewrite lookup_insert. case_decide; intros Hq; simplify_eq; [repeat constructor|].
    destruct (li_stack0 q ds Hq) as [H1 H2]. split; [done|]. 
    apply Forall_forall. intros d Hd. rewrite Forall_forall in H2. specialize (H2 d Hd).
    destruct d as [|a|sp|k'| |k' a]; simpl in *; auto.
    + rewrite lookup_insert. case_decide; eauto.
    + destruct H2 as [x Hx]. destruct (proj2 (sess_frame_lookup _ _ _ (cancel_sessions_of_frame p (sessions s) _ sp)) x Hx) as (y & -> & _). eauto.
    + destruct H2 as (x & Hx & Hid). destruct (proj2 (sess_frame_lookup _ _ _ (cancel_sessions_of_frame p (sessions s) _ q)) x Hx) as (y & -> & Hid' & _). eauto with congruence.
    + destruct H2 as (Hk' & ag' & Hag' & Hr' & Hd').
      apply list_elem_of_In in Hd.
      destruct (stack_unregister q ds k' a H1 Hd) as [-> _].
      rewrite lookup_insert_ne by congruence.
      rewrite lookup_delete_ne by congruence. eauto.
  - lia.
  - rewrite (open_tunnels_insert _ _ _ _ Hp). simpl. lia.
  - intros sp y Hy. destruct (proj1 (sess_frame_lookup _ _ _ (cancel_sessions_of_frame p (sessions s) _ sp)) y Hy) as (x & Hx & _ & Ha & Ho).
    destruct (li_once0 sp x Hx) as [Ho' [z Hz]]. split; [auto|]. rewrite Ha, lookup_insert. case_decide; eauto.
Qed.

(** Every deferred call a handler owes can run, and running it keeps the
    discipline. *)
Lemma lease_run_deferred s st p d ds :
  lease_inv s st -> st !! p = Some (d :: ds) ->
  exists s', run_deferred d s p = Some s' /\ lease_inv s' (<[p := ds]> st).
Proof.
  intros HI Hp. destruct (li_stack _ _ HI p _ Hp) as [Hok Hall].
  apply Forall_cons_iff in Hall as [Hd _]. destruct d as [|a|sp|k| |k a]; simpl in *.
  - eexists. split; [done|]. by apply lease_pop_tunnels.
  - destruct Hd as [ag Hag]. unfold releaseAgent at 1. rewrite Hag. eexists. split; [done|].
    eapply lease_pop_release; eauto. unfold releaseAgent. by rewrite Hag.
  - destruct Hd as [x Hx]. rewrite Hx. eexists. split; [done|].
    eapply (lease_inv_frame s); [|by eapply lease_pop_neutral].
    eapply svc_frame_insert; [exact Hx|auto with relaycat].
  - eexists. split; [done|]. by apply lease_pop_delete.
  - eexists. split; [done|]. by eapply lease_pop_neutral.
  - destruct Hd as (Hk & ag & Hag & _ & _).
    assert (a = p /\ ds = []) as [-> ->] by by inversion Hok.
    destruct (unregister s k p) as [s'|] eqn:Hu.
    + exists s'. split; [done|]. by eapply lease_pop_unregister.
    + unfold unregister in Hu. by rewrite Hag in Hu.
Qed.
