(* ===== verification/RelayInv.v ===== *)
(** * The invariant of the relay

    Every reachable world satisfies [core_inv]: the lease discipline of
    [RelayLease], the shape of each handler's stack at each point of its body,
    and the freshness of the addresses the next calls will use. *)

From S2P Require Import Prelude GoBase RelayService RelayLease.

(** The deferred calls of a handler are determined by where it is. *)
Definition handler_ok (s : Service) (p : addr) (h : handler) : Prop :=
  match h_pc h with
  | RegCall _ => h_defers h = [] /\ aheap s !! p = None
  | RegLoop a | RegSend a _ => a = p /\ exists k, h_defers h = [DUnregister k p]
  | ConRecvOpen | ConReserve _ => h_defers h = [] /\ sheap s !! p = None
  | ConSendAssigned a | ConRecvHandshake a | ConPublish a _ =>
      h_defers h = [DCancelSession p; DReleaseAgent a; DTunnelsDec]
  | ConNotify a _ _ =>
      exists k, h_defers h = [DDeleteSession k; DCancelSession p; DReleaseAgent a; DTunnelsDec]
  | ConWaitReady _ | ConSendAccept | ConLoop | ConSend _ =>
      exists k a, h_defers h = [DTimerStop; DDeleteSession k; DCancelSession p; DReleaseAgent a; DTunnelsDec]
  | AccRecvFirst | AccLookup _ => h_defers h = []
  | AccLoop sp | AccSend sp _ => h_defers h = [DCancelSession sp]
  | Ret _ => True
  end.

Record core_inv (s : Service) (m : gmap nat handler) (n : addr) : Prop := {
  ci_lease : lease_inv s (h_defers <$> m);
  ci_handler : forall p h, m !! p = Some h -> handler_ok s p h /\ (p < n)%nat;
  ci_aheap : forall a, is_Some (aheap s !! a) -> (a < n)%nat;
  ci_sheap : forall a, is_Some (sheap s !! a) -> (a < n)%nat;
}.

Definition world_inv (w : world) : Prop := core_inv (w_svc w) (w_main w) (w_next w).

Section core.
Implicit Types (s : Service) (m : gmap nat handler) (n p : addr) (h : handler).

Lemma stack_of m p h : m !! p = Some h -> (h_defers <$> m) !! p = Some (h_defers h).
Proof. intros H. by rewrite lookup_fmap, H. Qed.

(** Two services with the same free addresses judge handlers alike. *)
Lemma handler_ok_alloc s s' p h :
  (aheap s !! p = None -> aheap s' !! p = None) -> (sheap s !! p = None -> sheap s' !! p = None) ->
  handler_ok s p h -> handler_ok s' p h.
Proof. unfold handler_ok. destruct (h_pc h); naive_solver. Qed.

Lemma core_goto s m n p h k :
  core_inv s m n -> m !! p = Some h -> handler_ok s p {| h_pc := k; h_defers := h_defers h |} ->
  core_inv s (<[p := {| h_pc := k; h_defers := h_defers h |}]> m) n.
Proof.
  intros HI Hp Hk. destruct HI. split; auto.
  - rewrite fmap_insert. simpl. rewrite insert_id; [done|]. by apply stack_of.
  - intros q hq. rewrite lookup_insert. case_decide; intros Hq; simplify_eq.
    + split; [done|]. by apply ci_handler0 in Hp as [].
    + by apply ci_handler0.
Qed.

Lemma frame_None s s' :
  svc_frame s s' -> aheap s' = aheap s /\ forall p, sheap s !! p = None <-> sheap s' !! p = None.
Proof.
  intros (_ & _ & _ & Hh & _ & _ & _ & Hs). split; [done|]. intros p. specialize (Hs p).
  by inversion Hs.
Qed.

Lemma core_frame s s' m n : svc_frame s s' -> core_inv s m n -> core_inv s' m n.
Proof.
  intros HF HI. destruct (frame_None s s' HF) as [Ha Hs]. destruct HI. split.
  - by eapply lease_inv_frame.
  - intros p h Hp. destruct (ci_handler0 p h Hp). split; [|done].
    eapply handler_ok_alloc; [| |done]; [by rewrite Ha|apply Hs].
  - by rewrite Ha.
  - intros a [x Hx]. apply ci_sheap0. destruct (sheap s !! a) eqn:E; [eauto|].
    apply Hs in E. congruence.
Qed.

(** [p] changes its stack together with the service. *)
Lemma core_stack s s' m n p h k ds :
  core_inv s m n -> m !! p = Some h ->
  lease_inv s' (<[p := ds]> (h_defers <$> m)) ->
  handler_ok s' p {| h_pc := k; h_defers := ds |} ->
  (forall q, q <> p -> aheap s !! q = None -> aheap s' !! q = None) ->
  (forall q, q <> p -> sheap s !! q = None -> sheap s' !! q = None) ->
  core_inv s' (<[p := {| h_pc := k; h_defers := ds |}]> m) n.
Proof.
  intros HI Hp Hl Hk Ha Hs. destruct HI. destruct (ci_handler0 p h Hp) as [_ Hpn]. split.
  - by rewrite fmap_insert.
  - intros q hq. rewrite lookup_insert. case_decide; intros Hq; simplify_eq; [done|].
    destruct (ci_handler0 q hq Hq). split; [|done].
    eapply handler_ok_alloc; [intros ?; by apply Ha|intros ?; by apply Hs|done].
  - intros a Hx. destruct (decide (a = p)) as [->|]; [done|]. apply ci_aheap0.
    destruct (aheap s !! a) eqn:E; [eauto|]. rewrite Ha in Hx by done. by destruct Hx.
  - intros a Hx. destruct (decide (a = p)) as [->|]; [done|]. apply ci_sheap0.
    destruct (sheap s !! a) eqn:E; [eauto|]. rewrite Hs in Hx by done. by destruct Hx.
Qed.

Lemma core_spawn s m n k :
  core_inv s m n ->
  match k with RegCall _ | ConRecvOpen | AccRecvFirst => True | _ => False end ->
  core_inv s (<[n := {| h_pc := k; h_defers := [] |}]> m) (S n).
Proof.
  intros HI Hk. destruct HI.
  assert (Hn : m !! n = None).
  { destruct (m !! n) eqn:E; [|done]. apply ci_handler0 in E as [_ E]. lia. }
  assert (Hnone : aheap s !! n = None /\ sheap s !! n = None).
  { split; [destruct (aheap s !! n) eqn:E|destruct (sheap s !! n) eqn:E]; try done.
    - assert (n < n)%nat by eauto. lia.
    - assert (n < n)%nat by eauto. lia. }
  split.
  - rewrite fmap_insert. apply lease_spawn; [|done]. by rewrite lookup_fmap, Hn.
  - intros p h. rewrite lookup_insert. case_decide; intros Hp; simplify_eq.
    + split; [|lia]. unfold handler_ok; simpl. destruct k; naive_solver.
    + destruct (ci_handler0 p h Hp). split; [done|lia].
  - intros a Ha. specialize (ci_aheap0 a Ha). lia.
  - intros a Ha. specialize (ci_sheap0 a Ha). lia.
Qed.

Lemma core_remove s m n p r :
  core_inv s m n -> m !! p = Some {| h_pc := Ret r; h_defers := [] |} -> core_inv s (delete p m) n.
Proof.
  intros HI Hp. destruct HI. split; auto.
  - rewrite fmap_delete. apply lease_remove; [|done]. by rewrite lookup_fmap, Hp.
  - intros q h Hq. apply lookup_delete_Some in Hq as [_ Hq]. by apply ci_handler0.
Qed.

(** Dropping entries of the session heap's contents keeps free addresses free. *)
Lemma run_deferred_alloc d s p s' :
  run_deferred d s p = Some s' ->
  (forall q, aheap s !! q = None -> aheap s' !! q = None) /\
  (forall q, sheap s !! q = None -> sheap s' !! q = None).
Proof.
  destruct d as [|a|sp|k| |k a]; simpl; intros H; simplify_eq; try done.
  - unfold releaseAgent in H. destruct (aheap s !! a) eqn:E; simplify_eq/=. split; [|done].
    intros q Hq. rewrite lookup_insert_ne; congruence.
  - destruct (sheap s !! sp) eqn:E; simplify_eq/=. split; [done|].
    intros q Hq. rewrite lookup_insert_ne; congruence.
  - unfold unregister in H. destruct (aheap s !! a) as [ag|] eqn:E; simplify_eq/=.
    split; intros q Hq.
    + destruct (ag_done ag); case_decide; simpl; try done; rewrite lookup_insert_ne; congruence.
    + match goal with |- cancel_sessions_of ?a ?ss ?h !! ?q = None =>
        pose proof (cancel_sessions_of_frame a ss h q) as HF end.
      revert HF. destruct (ag_done ag); case_decide; simpl; rewrite Hq; by inversion 1.
Qed.

End core.

(** ** Every step keeps the invariant *)

(** A move that keeps the stack: the new point of the body has the same shape. *)
Ltac solve_goto :=
  unfold world_inv; simpl;
  eapply core_goto; [eassumption|eassumption|unfold handler_ok in *; simpl in *; naive_solver].

Lemma step_register_inv w p h c w' :
  world_inv w -> w_main w !! p = Some h -> step_register w p h c = Some w' -> world_inv w'.
Proof.
  intros HI Hp Hs. pose proof (ci_handler _ _ _ HI p h Hp) as [Hok _].
  unfold handler_ok in Hok. unfold step_register in Hs.
  destruct (h_pc h) eqn:Hpc; try done; destruct c as [| | | |[e|]| | | | | |]; try done.
  - crush_match Hs; [solve_goto|solve_goto| |solve_goto].
    destruct Hok as [Hds Ha]. unfold world_inv; simpl. rewrite Hds. simpl.
    unfold register in Heqr. pose proof (ci_lease _ _ _ HI) as HL.
    eapply core_stack; [done|done|eapply lease_register; eauto|..].
    + by rewrite (stack_of _ _ h), Hds.
    + unfold handler_ok. simpl. eauto.
    + intros q Hq. crush_match Heqr. by rewrite lookup_insert_ne.
    + intros q Hq. by crush_match Heqr.
  - destruct (w_sctx w !! p); simplify_eq/=. solve_goto.
  - simplify_eq. solve_goto.
  - simplify_eq. solve_goto.
Qed.

Lemma connect_reserve_inv w p h route rnd w' :
  world_inv w -> w_main w !! p = Some h -> h_pc h = ConReserve route ->
  connect_reserve w p h route rnd = Some w' -> world_inv w'.
Proof.
  intros HI Hp Hpc Hs. pose proof (ci_handler _ _ _ HI p h Hp) as [Hok _].
  unfold handler_ok in Hok. rewrite Hpc in Hok. destruct Hok as [Hds Hsn].
  unfold connect_reserve in Hs.
  destruct (reserveAgent (w_svc w) route) as [[a s']|e] eqn:Hr.
  - assert (HL : lease_inv (set_obs (fun m => Tunnels_add 1 (TunnelOpens_inc true m)) s')
                  (<[p := [DReleaseAgent a; DTunnelsDec]]> (h_defers <$> w_main w))).
    { eapply lease_reserve; [apply HI| |done]. by rewrite (stack_of _ _ h), Hds. }
    assert (Hal : (forall q, aheap (w_svc w) !! q = None -> aheap s' !! q = None) /\
                  sheap s' = sheap (w_svc w) /\ is_Some (aheap s' !! a)).
    { unfold reserveAgent in Hr. crush_match Hr. rewrite lookup_insert_eq. repeat split; eauto.
      intros q Hq. rewrite lookup_insert_ne; congruence. }
    destruct Hal as (Ha & Hsh & Hag). crush_match Hs; unfold world_inv; simpl; rewrite Hds; simpl.
    + eapply core_stack; simpl; eauto; [|by unfold handler_ok; simpl|].
      * rewrite <- (insert_insert_eq _ p _ [DReleaseAgent a; DTunnelsDec]).
        apply lease_push_neutral; [|apply lookup_insert_eq|done|constructor|simpl; rewrite lookup_insert_eq; eauto].
        apply lease_new_session; [done| |done|done]. simpl. by rewrite Hsh.
      * intros q Hq Hn. rewrite lookup_insert_ne by done. by rewrite Hsh.
    + eapply core_stack; simpl; eauto; [by unfold handler_ok; simpl|]. intros q _ Hn. by rewrite Hsh.
  - simplify_eq. unfold world_inv; simpl. eapply (core_frame (w_svc w)); [by apply svc_frame_obs|].
    solve_goto.
Qed.

(** Pushing a deferred call that touches no table. *)
Lemma core_push_neutral w p h d k :
  world_inv w -> w_main w !! p = Some h -> neutral d = true ->
  stack_ok p (d :: h_defers h) -> deferred_ok (w_svc w) p d ->
  handler_ok (w_svc w) p {| h_pc := k; h_defers := d :: h_defers h |} ->
  world_inv (push p h [d] k w).
Proof.
  intros HI Hp Hn Hst Hd Hk. unfold world_inv; simpl.
  eapply core_stack; [exact HI|exact Hp| |done|done|done].
  apply lease_push_neutral; [apply HI|by apply stack_of|done|done|done].
Qed.

Lemma connect_notify_inv w p h q hq a notify dl dl' :
  world_inv w -> w_main w !! p = Some h -> h_pc h = ConNotify a notify dl ->
  w_main w !! q = Some hq -> h_pc hq = RegLoop a ->
  world_inv (goto q hq (RegSend a notify) (push p h [DTimerStop] (ConWaitReady dl') w)).
Proof.
  intros HI Hp Hpc Hq Hqc. pose proof (ci_handler _ _ _ HI p h Hp) as [Hok _].
  unfold handler_ok in Hok. rewrite Hpc in Hok. destruct Hok as [k Hds].
  assert (q <> p) by congruence.
  assert (HI' : world_inv (push p h [DTimerStop] (ConWaitReady dl') w)).
  { apply core_push_neutral; try done; rewrite Hds; [constructor|]. unfold handler_ok; simpl; eauto. }
  assert (Hq' : w_main (push p h [DTimerStop] (ConWaitReady dl') w) !! q = Some hq)
    by (simpl; by rewrite lookup_insert_ne).
  pose proof (ci_handler _ _ _ HI' q hq Hq') as [Hok' _]. unfold handler_ok in Hok'. rewrite Hqc in Hok'.
  unfold goto. unfold world_inv; simpl. apply core_goto; [exact HI'|exact Hq'|].
  unfold handler_ok; simpl. done.
Qed.

Lemma connect_publish_inv w p h a hello sess notify dl :
  world_inv w -> w_main w !! p = Some h -> h_pc h = ConPublish a hello ->
  sheap (w_svc w) !! p = Some sess ->
  world_inv (push p h [DDeleteSession (s_id sess)] (ConNotify a notify dl)
    (set_svc (set_sessions (<[s_id sess := p]>)) w)).
Proof.
  intros HI Hp Hpc Hs. pose proof (ci_handler _ _ _ HI p h Hp) as [Hok _].
  unfold handler_ok in Hok. rewrite Hpc in Hok. unfold world_inv; simpl. rewrite Hok.
  eapply core_stack; [exact HI|exact Hp| |unfold handler_ok; simpl; eauto|done|done].
  apply lease_publish; [apply HI| |done]. by rewrite (stack_of _ _ h), Hok.
Qed.

Lemma step_connect_inv w p h c w' :
  world_inv w -> w_main w !! p = Some h -> step_connect w p h c = Some w' -> world_inv w'.
Proof.
  intros HI Hp Hs. pose proof (ci_handler _ _ _ HI p h Hp) as [Hok _].
  unfold handler_ok in Hok. unfold step_connect in Hs.
  destruct (h_pc h) eqn:Hpc; try done; destruct c as [| |[f|e]| |[e|]| | | | | |q]; try done;
    try (simplify_eq; solve_goto);
    try (crush_match Hs; solve_goto);
    try (destruct (sheap (w_svc w) !! p) as [sess|] eqn:Hsess; simplify_eq/=;
         try (destruct (s_ctx sess); simplify_eq/=);
         try (destruct (s_ready sess); simplify_eq/=); solve_goto).
  - by eapply connect_reserve_inv.
  - destruct (sheap (w_svc w) !! p) as [sess|] eqn:Hsess; simplify_eq/=. by eapply connect_publish_inv.
  - destruct (aheap (w_svc w) !! a) as [ag|] eqn:Hag; simplify_eq/=.
    destruct (ag_done ag); simplify_eq/=. solve_goto.
  - destruct (w_main w !! q) as [hq|] eqn:Hq; simplify_eq/=. crush_match Hs.
    by eapply connect_notify_inv.
  - destruct (w_errch w !! p) eqn:He; simplify_eq/=. solve_goto.
Qed.

Lemma accept_lookup_frame s accept sp s' :
  panicked s = false ->
  (forall x sess, sheap s !! x = Some sess -> s_once sess = s_ready sess) ->
  accept_lookup s accept = Some (sp, s') -> svc_frame s s' /\ is_Some (sheap s !! sp) /\
  sessions s !! go_string (aa_SessionId accept) = Some sp.
Proof.
  intros Hp Ho H. unfold accept_lookup in H.
  destruct (sessions s !! _) as [x|] eqn:Hx; simplify_eq/=.
  destruct (sheap s !! x) as [sess|] eqn:Hsess; simplify_eq/=.
  split; [|eauto]. specialize (Ho sp sess Hsess).
  destruct (s_once sess) eqn:E1; [done|]. rewrite <- Ho. eapply svc_frame_insert; [done|auto with relaycat].
Qed.

Lemma step_accept_inv w p h c w' :
  world_inv w -> w_main w !! p = Some h -> step_accept w p h c = Some w' -> world_inv w'.
Proof.
  intros HI Hp Hs. pose proof (ci_handler _ _ _ HI p h Hp) as [Hok _].
  unfold handler_ok in Hok. unfold step_accept in Hs.
  destruct (h_pc h) eqn:Hpc; try done; destruct c as [| | |[f|e]|[e|]| | | | | |q]; try done;
    try (simplify_eq; solve_goto); try (crush_match Hs; solve_goto).
  - destruct (accept_lookup (w_svc w) accept) as [[sp s']|] eqn:Ha; simplify_eq; [|solve_goto].
    pose proof (ci_lease _ _ _ HI) as HL.
    apply accept_lookup_frame in Ha as (HF & Hsp & _);
      [|apply HL|intros x sess Hx; by apply (li_once _ _ HL x)].
    change (world_inv (push p h [DCancelSession sp] (AccLoop sp) (set_svc (fun _ => s') w))).
    apply core_push_neutral; try done; simpl.
    + by eapply core_frame.
    + rewrite Hok. constructor.
    + apply (deferred_ok_frame (w_svc w) s' p (DCancelSession sp)); done.
    + unfold handler_ok; simpl. by rewrite Hok.
  - destruct (sheap (w_svc w) !! sp) as [sess|]; simplify_eq/=.
    destruct (s_ctx sess); simplify_eq/=. solve_goto.
  - destruct (w_errch w !! p) eqn:He; simplify_eq/=. solve_goto.
Qed.

Lemma step_return_inv w p h c w' :
  world_inv w -> w_main w !! p = Some h -> step_return w p h c = Some w' -> world_inv w'.
Proof.
  intros HI Hp Hs. unfold step_return in Hs. destruct h as [k ds]; simpl in *.
  destruct k; try done; destruct c; try done; destruct ds as [|d ds]; simplify_eq/=.
  - unfold world_inv; simpl. by eapply core_remove.
  - destruct (run_deferred d (w_svc w) p) as [s'|] eqn:Hd; simplify_eq/=.
    destruct (lease_run_deferred (w_svc w) (h_defers <$> w_main w) p d ds) as (s'' & Hd' & HL).
    + apply HI.
    + by rewrite (stack_of _ _ _ Hp).
    + destruct (run_deferred_alloc _ _ _ _ Hd) as [Ha Hs]. simplify_eq.
      unfold world_inv; simpl. eapply core_stack; [exact HI|exact Hp|done|done|auto..].
Qed.

Lemma step_recv_inv w p r c w' :
  world_inv w -> w_recv w !! p = Some r -> step_recv w p r c = Some w' -> world_inv w'.
Proof.
  intros HI Hp Hs. unfold step_recv in Hs.
  destruct r as [[b|]|sp [b|]]; destruct c as [| |[f|e]|[f|e]| | | | | | |q]; try done;
    try (crush_match Hs; exact HI).
  - destruct (sheap (w_svc w) !! p) as [sess|]; simplify_eq/=. destruct (s_ctx sess); simplify_eq/=. exact HI.
  - destruct (w_main w !! q) as [hq|] eqn:Hq; simplify_eq/=. crush_match Hs.
    pose proof (ci_handler _ _ _ HI q hq Hq) as [Hok _]. unfold handler_ok in Hok. rewrite Heqp0 in Hok.
    unfold world_inv; simpl. eapply (core_frame (w_svc w)); [|solve_goto].
    apply svc_frame_handover. auto with relaycat.
  - destruct (sheap (w_svc w) !! sp) as [sess|]; simplify_eq/=. destruct (s_ctx sess); simplify_eq/=. exact HI.
  - destruct (w_main w !! q) as [hq|] eqn:Hq; simplify_eq/=. crush_match Hs.
    pose proof (ci_handler _ _ _ HI q hq Hq) as [Hok _]. unfold handler_ok in Hok. rewrite Heqp0 in Hok.
    unfold world_inv; simpl. eapply (core_frame (w_svc w)); [|solve_goto].
    apply svc_frame_handover. auto with relaycat.
Qed.

Lemma step_main_inv w p h c w' :
  world_inv w -> w_main w !! p = Some h -> step_main w p h c = Some w' -> world_inv w'.
Proof.
  intros HI Hp Hs. unfold step_main in Hs.
  destruct (h_pc h); eauto using step_register_inv, step_connect_inv, step_accept_inv, step_return_inv.
Qed.

Lemma step_inv w ev w' : world_inv w -> step w ev = Some w' -> world_inv w'.
Proof.
  intros HI [_ Hs]%step_exec. destruct ev as [d|p e|req| | |p c|p c]; simpl in Hs.
  - crush_match Hs. exact HI.
  - case_decide; simplify_eq. unfold world_inv; simpl. eapply (core_frame (w_svc w)); [|exact HI].
    apply svc_frame_alter. auto with relaycat.
  - simplify_eq. by apply core_spawn.
  - simplify_eq. by apply core_spawn.
  - simplify_eq. by apply core_spawn.
  - destruct (w_main w !! p) as [h|] eqn:Hp; simplify_eq/=. by eapply step_main_inv.
  - destruct (w_recv w !! p) as [r|] eqn:Hp; simplify_eq/=. by eapply step_recv_inv.
Qed.

Lemma init_inv c : world_inv (init_world c).
Proof.
  split; simpl.
  - rewrite fmap_empty.
    assert (Hc : 0 < (if MaxAgents c <=? 0 then 1000 else MaxAgents c) /\
                 0 < (if MaxTunnelsPerAgent c <=? 0 then 128 else MaxTunnelsPerAgent c)).
    { split; [destruct (Z.leb_spec (MaxAgents c) 0)|destruct (Z.leb_spec (MaxTunnelsPerAgent c) 0)]; lia. }
    split; simpl; try done; try (intros *; by rewrite lookup_empty). rewrite map_size_empty. lia.
  - intros *. by rewrite lookup_empty.
  - intros a. rewrite lookup_empty. by intros [].
  - intros a. rewrite lookup_empty. by intros [].
Qed.

Lemma reachable_inv c w : reachable c w -> world_inv w.
Proof. induction 1; eauto using init_inv, step_inv. Qed.
