(* ===== verification/RelayFifo.v ===== *)
(** * The relay forwards ciphertexts in order

    Every payload a stream delivers to the relay is handed over once, in order,
    to the other side of its session.  The ghost logs of [RelayService] record
    what each stream received ([w_rx]), what was handed over ([s_c2a], [s_a2c])
    and what each stream was sent ([w_out]); [fifo_inv] relates them. *)

From S2P Require Import Prelude GoBase RelayService RelayLease RelayInv.

(** ** Reading the logs *)

Definition payload_of (m : outmsg) : option bytes :=
  match m with
  | OutRegister _ => None
  | OutConnect r => ct_Payload <$> ConnectResponse_GetCiphertext r
  | OutAccept r => ct_Payload <$> AcceptResponse_GetCiphertext r
  end.

Definition payloads (l : list outmsg) : list bytes := omap payload_of l.

(** The ciphertexts received on, and sent to, the stream of call [p]. *)
Definition rx_of (m : gmap nat (list bytes)) (p : addr) : list bytes := default [] (m !! p).
Definition tx_of (m : gmap nat (list outmsg)) (p : addr) : list bytes := payloads (default [] (m !! p)).

(** The entries of a session's log that belong to the Accept call [q]. *)
Definition from (q : addr) (l : list (addr * bytes)) : list bytes :=
  (filter (fun y => y.1 = q) l).*2.

(** ** The invariant, per address *)

(** A handler that has not started to relay. *)
Definition early (k : pc) : bool :=
  match k with
  | ConRecvOpen | ConReserve _ | ConSendAssigned _ | ConRecvHandshake _ | ConPublish _ _
  | ConNotify _ _ _ | ConWaitReady _ | ConSendAccept | AccRecvFirst | AccLookup _ => true
  | _ => false
  end.

(** An Accept call that has not found its session. *)
Definition accepting (k : pc) : bool :=
  match k with AccRecvFirst | AccLookup _ => true | _ => false end.

(** The session an Accept call relays for, and a Connect call that relays. *)
Definition acc_session (k : pc) : option addr :=
  match k with AccLoop sp | AccSend sp _ => Some sp | _ => None end.
Definition con_relaying (k : pc) : bool :=
  match k with ConLoop | ConSend _ => true | _ => false end.

(** [relayed live passed got]: what was received is what was passed on, then
    what is still held; once the goroutine is gone, what was passed on is a
    prefix. *)
Definition relayed (live : option (option bytes)) (passed got : list bytes) : Prop :=
  match live with
  | Some held => got = passed ++ option_list held
  | None => passed `prefix_of` got
  end.

Definition client_receiver (r : option receiver) : option (option bytes) :=
  match r with Some (RecvClient held) => Some held | _ => None end.
Definition agent_receiver (r : option receiver) : option (option bytes) :=
  match r with Some (RecvAgent _ held) => Some held | _ => None end.
Definition connect_sender (h : option handler) : option (option bytes) :=
  match h_pc <$> h with Some ConLoop => Some None | Some (ConSend b) => Some (Some b) | _ => None end.
Definition accept_sender (h : option handler) : option (option bytes) :=
  match h_pc <$> h with Some (AccLoop _) => Some None | Some (AccSend _ b) => Some (Some b) | _ => None end.

Record fifo_inv (m : gmap nat handler) (sh : gmap nat session) (rv : gmap nat receiver)
    (rx : gmap nat (list bytes)) (out : gmap nat (list outmsg)) (att : gmap nat nat) (n : addr) : Prop := {
  f_crecv : forall p s, sh !! p = Some s ->
    relayed (client_receiver (rv !! p)) (s_c2a s).*2 (rx_of rx p);
  f_csend : forall p s, sh !! p = Some s ->
    relayed (connect_sender (m !! p)) (tx_of out p) (s_a2c s).*2;
  f_arecv : forall q p s, att !! q = Some p -> sh !! p = Some s ->
    relayed (agent_receiver (rv !! q)) (from q (s_a2c s)) (rx_of rx q);
  f_asend : forall q p s, att !! q = Some p -> sh !! p = Some s ->
    relayed (accept_sender (m !! q)) (tx_of out q) (from q (s_c2a s));
  f_tags : forall p s q b, sh !! p = Some s -> (q, b) ∈ s_c2a s \/ (q, b) ∈ s_a2c s -> att !! q = Some p;
  f_accpc : forall q h sp, m !! q = Some h -> acc_session (h_pc h) = Some sp -> att !! q = Some sp;
  f_ragent : forall q sp held, rv !! q = Some (RecvAgent sp held) -> att !! q = Some sp;
  f_rclient : forall p held, rv !! p = Some (RecvClient held) -> is_Some (sh !! p);
  f_att : forall q p, att !! q = Some p -> is_Some (sh !! p);
  f_conpc : forall p h, m !! p = Some h -> con_relaying (h_pc h) = true -> att !! p = None;
  f_nosess : forall q, is_Some (att !! q) \/
    (exists h, m !! q = Some h /\ accepting (h_pc h) = true) -> sh !! q = None;
  f_early : forall p h, m !! p = Some h -> early (h_pc h) = true ->
    rv !! p = None /\ rx_of rx p = [] /\ tx_of out p = [] /\ att !! p = None /\
    (forall s, sh !! p = Some s -> s_c2a s = [] /\ s_a2c s = []);
  f_fresh : forall p, (n <= p)%nat ->
    rv !! p = None /\ rx_of rx p = [] /\ tx_of out p = [] /\ att !! p = None /\ m !! p = None /\ sh !! p = None;
}.

Definition world_fifo (w : world) : Prop :=
  fifo_inv (w_main w) (sheap (w_svc w)) (w_recv w) (w_rx w) (w_out w) (w_att w) (w_next w).

(** ** Logs under one change *)

Lemma relayed_prefix live passed got : relayed live passed got -> passed `prefix_of` got.
Proof. destruct live as [held|]; simpl; [intros ->; by apply prefix_app_r|done]. Qed.


Lemma rx_log rx p b q :
  rx_of (<[p := default [] (rx !! p) ++ [b]]> rx) q
  = if decide (p = q) then rx_of rx q ++ [b] else rx_of rx q.
Proof. unfold rx_of. rewrite lookup_insert. case_decide; by subst. Qed.

Lemma payloads_snoc l m : payloads (l ++ [m]) = payloads l ++ option_list (payload_of m).
Proof. unfold payloads. rewrite omap_app. simpl. by destruct (payload_of m). Qed.

Lemma tx_log out p m q :
  tx_of (<[p := default [] (out !! p) ++ [m]]> out) q
  = if decide (p = q) then tx_of out q ++ option_list (payload_of m) else tx_of out q.
Proof. unfold tx_of. rewrite lookup_insert. case_decide; subst; [|done]. simpl. apply payloads_snoc. Qed.

Lemma from_snoc q p b l : from q (l ++ [(p, b)]) = from q l ++ (if decide (p = q) then [b] else []).
Proof. apply filter_fst_snoc. Qed.

Lemma from_none q l : (forall b, (q, b) ∉ l) -> from q l = [].
Proof.
  unfold from. induction l as [|[a b] l IH]; intros Hn; [done|].
  assert (a <> q). { intros ->. apply (Hn b). apply list_elem_of_here. }
  rewrite filter_cons_False by done. apply IH. intros b' Hb. apply (Hn b'). by apply list_elem_of_further.
Qed.

(** ** Moves that leave the logs alone *)

Section moves.
Context (m : gmap nat handler) (sh : gmap nat session) (rv : gmap nat receiver)
  (rx : gmap nat (list bytes)) (out : gmap nat (list outmsg)) (att : gmap nat nat) (n : addr).
Hypothesis HI : fifo_inv m sh rv rx out att n.

Definition same_logs (x y : session) : Prop := s_c2a y = s_c2a x /\ s_a2c y = s_a2c x.

Lemma fifo_sheap sh' :
  (forall p, option_Forall2 same_logs (sh !! p) (sh' !! p)) -> fifo_inv m sh' rv rx out att n.
Proof.
  intros Hl.
  assert (Hback : forall p y, sh' !! p = Some y -> exists x, sh !! p = Some x /\ s_c2a y = s_c2a x /\ s_a2c y = s_a2c x).
  { intros p y Hy. specialize (Hl p). rewrite Hy in Hl. inversion Hl as [x ? [H1 H2] Hx|]; subst. eauto. }
  assert (Hdom : forall p, is_Some (sh !! p) -> is_Some (sh' !! p)).
  { intros p [x Hx]. specialize (Hl p). rewrite Hx in Hl. inversion Hl; eauto. }
  destruct HI. split; eauto.
  - intros p y Hy. destruct (Hback p y Hy) as (x & Hx & -> & _). eauto.
  - intros p y Hy. destruct (Hback p y Hy) as (x & Hx & _ & ->). eauto.
  - intros q p y Hq Hy. destruct (Hback p y Hy) as (x & Hx & _ & ->). eauto.
  - intros q p y Hq Hy. destruct (Hback p y Hy) as (x & Hx & -> & _). eauto.
  - intros p y q b Hy. destruct (Hback p y Hy) as (x & Hx & -> & ->). eauto.
  - intros q Hq. specialize (Hl q). rewrite (f_nosess0 q Hq) in Hl. by inversion Hl.
  - intros p h Hp He. destruct (f_early0 p h Hp He) as (? & ? & ? & ? & Hs). split_and!; try done.
    intros y Hy. destruct (Hback p y Hy) as (x & Hx & -> & ->). eauto.
  - intros p Hp. destruct (f_fresh0 p Hp) as (? & ? & ? & ? & ? & Hs). split_and!; try done.
    specialize (Hl p). rewrite Hs in Hl. by inversion Hl.
Qed.

Lemma fifo_bound p h : m !! p = Some h -> (p < n)%nat.
Proof.
  intros Hp. destruct (decide (n <= p)%nat) as [Hle|]; [|lia].
  destruct (f_fresh _ _ _ _ _ _ _ HI p Hle) as (_ & _ & _ & _ & Hm & _). congruence.
Qed.

(** A handler moves to a point where it is neither relaying nor early, or
    between early points. *)
Definition plain (k : pc) : bool :=
  match k with ConLoop | ConSend _ | AccLoop _ | AccSend _ _ => false | _ => true end.

Lemma plain_senders k ds : plain k = true ->
  connect_sender (Some {| h_pc := k; h_defers := ds |}) = None /\
  accept_sender (Some {| h_pc := k; h_defers := ds |}) = None.
Proof. by destruct k. Qed.

Lemma fifo_goto p h k ds :
  m !! p = Some h -> plain k = true -> (early k = true -> early (h_pc h) = true) ->
  (accepting k = true -> accepting (h_pc h) = true) ->
  fifo_inv (<[p := {| h_pc := k; h_defers := ds |}]> m) sh rv rx out att n.
Proof.
  intros Hp Hpl Hea Hacc. pose proof (fifo_bound p h Hp). destruct HI. split; eauto.
  - intros q s Hs. rewrite lookup_insert. case_decide; [|eauto]. subst.
    rewrite (proj1 (plain_senders k ds Hpl)). eapply relayed_prefix; eauto.
  - intros q x s Hq Hs. rewrite lookup_insert. case_decide; [|eauto]. subst.
    rewrite (proj2 (plain_senders k ds Hpl)). eapply relayed_prefix; eauto.
  - intros q h' sp. rewrite lookup_insert. case_decide; intros Hq Hk; simplify_eq/=; [|eauto].
    by destruct k.
  - intros q h'. rewrite lookup_insert. case_decide; intros Hq Hk; simplify_eq/=; [|eauto].
    by destruct k.
  - intros q [Ha|(h' & Hq & Hk)]; [eauto|]. revert Hq. rewrite lookup_insert.
    case_decide; intros Hq; simplify_eq/=; eauto 10.
  - intros q h'. rewrite lookup_insert. case_decide; intros Hq He; simplify_eq/=; eauto.
  - intros q Hq. rewrite lookup_insert_ne by lia. eauto.
Qed.

Lemma fifo_out p h x :
  m !! p = Some h -> payload_of x = None ->
  fifo_inv m sh rv rx (<[p := default [] (out !! p) ++ [x]]> out) att n.
Proof.
  intros Hp Hx. destruct HI.
  assert (Htx : forall q, tx_of (<[p := default [] (out !! p) ++ [x]]> out) q = tx_of out q).
  { intros q. rewrite tx_log, Hx. case_decide; [apply app_nil_r|done]. }
  split; eauto; intros *; rewrite ?Htx; eauto.
Qed.

Lemma fifo_delete p : fifo_inv (delete p m) sh rv rx out att n.
Proof.
  destruct HI. split; eauto.
  - intros q s Hs. rewrite lookup_delete. case_decide; eauto using relayed_prefix.
    eapply relayed_prefix; eauto.
  - intros q x s Hq Hs. rewrite lookup_delete. case_decide; eauto. eapply relayed_prefix; eauto.
  - intros q h sp Hq. apply lookup_delete_Some in Hq as [_ Hq]. eauto 10.
  - intros q h Hq. apply lookup_delete_Some in Hq as [_ Hq]. eauto.
  - intros q [Ha|(h & Hq & Hk)]; [eauto|]. apply lookup_delete_Some in Hq as [_ Hq]. eauto 10.
  - intros q h Hq. apply lookup_delete_Some in Hq as [_ Hq]. eauto.
  - intros q Hq. destruct (f_fresh0 q Hq) as (? & ? & ? & ? & Hm & ?). split_and!; try done.
    by apply lookup_delete_None; right.
Qed.

Lemma fifo_spawn k :
  plain k = true -> fifo_inv (<[n := {| h_pc := k; h_defers := [] |}]> m) sh rv rx out att (S n).
Proof.
  intros Hpl. destruct HI. destruct (f_fresh0 n (le_n n)) as (Hrv & Hrx & Htx & Hat & Hm & Hsh).
  split; eauto.
  - intros q s Hs. rewrite lookup_insert. case_decide; [|eauto]. congruence.
  - intros q x s Hq Hs. rewrite lookup_insert. case_decide; [|eauto]. congruence.
  - intros q h sp. rewrite lookup_insert. case_decide; intros Hq Hk; simplify_eq/=; [|eauto].
    by destruct k.
  - intros q h. rewrite lookup_insert. case_decide; intros Hq Hk; simplify_eq/=; [|eauto].
    by destruct k.
  - intros q [Ha|(h & Hq & Hk)]; [eauto|]. revert Hq. rewrite lookup_insert.
    case_decide; intros Hq; simplify_eq/=; eauto 10.
  - intros q h. rewrite lookup_insert. case_decide; intros Hq He; simplify_eq/=; [|eauto].
    split_and!; try done. congruence.
  - intros q Hq. rewrite lookup_insert_ne by lia. apply f_fresh0. lia.
Qed.

Lemma fifo_new_session p h sess :
  m !! p = Some h -> early (h_pc h) = true -> accepting (h_pc h) = false ->
  sh !! p = None -> s_c2a sess = [] -> s_a2c sess = [] ->
  fifo_inv m (<[p := sess]> sh) rv rx out att n.
Proof.
  intros Hp He Hac Hn H1 H2. pose proof (fifo_bound p h Hp).
  pose proof (f_early _ _ _ _ _ _ _ HI p h Hp He) as (Hrv & Hrx & Htx & Hat & _). 
  destruct HI. split; eauto.
  - intros q s. rewrite lookup_insert. case_decide; intros Hs; simplify_eq; [|eauto].
    rewrite Hrv, Hrx, H1. simpl. done.
  - intros q s. rewrite lookup_insert. case_decide; intros Hs; simplify_eq; [|eauto].
    rewrite Hp, Htx, H2. unfold connect_sender; simpl. destruct (h_pc h); done.
  - intros q x s Hq. rewrite lookup_insert. case_decide; intros Hs; simplify_eq; [|eauto].
    destruct (f_att0 q x Hq). congruence.
  - intros q x s Hq. rewrite lookup_insert. case_decide; intros Hs; simplify_eq; [|eauto].
    destruct (f_att0 q x Hq). congruence.
  - intros q s x b. rewrite lookup_insert. case_decide; intros Hs; simplify_eq; [|eauto].
    rewrite H1, H2. intros [Hx|Hx]; by apply not_elem_of_nil in Hx.
  - intros q held Hq. rewrite lookup_insert. case_decide; eauto.
  - intros q x Hq. rewrite lookup_insert. case_decide; eauto.
  - intros q Hq. rewrite lookup_insert. case_decide; [|eauto]. subst.
    destruct Hq as [[? ?]|(? & ? & ?)]; congruence.
  - intros q h' Hq He'. destruct (f_early0 q h' Hq He') as (? & ? & ? & ? & Hs). split_and!; try done.
    intros s. rewrite lookup_insert. case_decide; intros ?; simplify_eq; eauto.
  - intros q Hq. rewrite lookup_insert_ne by lia. eauto.
Qed.

(** ** Moves that relay *)

(** Lookups in updated maps, by cases on the address. *)
Local Ltac at_addr :=
  rewrite ?lookup_insert, ?lookup_delete, ?lookup_alter; repeat case_decide; intros; simplify_eq/=;
  try done; try congruence; eauto 6.

Lemma fifo_con_start p h ds :
  m !! p = Some h -> h_pc h = ConSendAccept -> is_Some (sh !! p) ->
  fifo_inv (<[p := {| h_pc := ConLoop; h_defers := ds |}]> m) sh (<[p := RecvClient None]> rv) rx out att n.
Proof.
  intros Hp Hpc Hsp. pose proof (fifo_bound p h Hp).
  assert (He : early (h_pc h) = true) by by rewrite Hpc.
  pose proof (f_early _ _ _ _ _ _ _ HI p h Hp He) as (Hrv & Hrx & Htx & Hat & Hlog).
  destruct HI. split; eauto.
  - intros q s Hs. at_addr. destruct (Hlog s Hs) as [-> _]. simpl. by rewrite Hrx.
  - intros q s Hs. at_addr. destruct (Hlog s Hs) as [_ ->]. simpl. by rewrite Htx.
  - intros q x s Hq Hs. at_addr.
  - intros q x s Hq Hs. at_addr.
  - intros q h' sp. at_addr.
  - intros q sp held. at_addr.
  - intros q held. at_addr.
  - intros q h'. at_addr.
  - intros q [Ha|(h' & Hq & Hk)]; [eauto|]. revert Hq. at_addr.
  - intros q h'. at_addr.
  - intros q Hq. rewrite !lookup_insert_ne by lia. eauto.
Qed.

Lemma fifo_attach q h sp ds :
  m !! q = Some h -> early (h_pc h) = true -> accepting (h_pc h) = true -> is_Some (sh !! sp) ->
  fifo_inv (<[q := {| h_pc := AccLoop sp; h_defers := ds |}]> m) sh
    (<[q := RecvAgent sp None]> rv) rx out (<[q := sp]> att) n.
Proof.
  intros Hq He Hac Hsp. pose proof (fifo_bound q h Hq).
  pose proof (f_early _ _ _ _ _ _ _ HI q h Hq He) as (Hrv & Hrx & Htx & Hat & Hlog).
  pose proof (f_nosess _ _ _ _ _ _ _ HI q (or_intror (ex_intro _ h (conj Hq Hac)))) as Hns.
  assert (Hfrom : forall p s, sh !! p = Some s -> from q (s_c2a s) = [] /\ from q (s_a2c s) = []).
  { intros p s Hs. pose proof (f_tags _ _ _ _ _ _ _ HI p s q) as Ht.
    split; apply from_none; intros b Hb; specialize (Ht b Hs); rewrite Hat in Ht; naive_solver. }
  destruct HI. split; eauto.
  - intros p s Hs. at_addr.
  - intros p s Hs. at_addr.
  - intros q' x s. at_addr. rewrite (proj2 (Hfrom x s ltac:(done))). simpl. by rewrite Hrx.
  - intros q' x s. at_addr. rewrite (proj1 (Hfrom x s ltac:(done))). simpl. by rewrite Htx.
  - intros p s q' b Hs Hb. at_addr. exfalso. specialize (f_tags0 p s q' b Hs Hb). congruence.
  - intros q' h' sp'. at_addr.
  - intros q' sp' held. at_addr.
  - intros q' held. at_addr.
  - intros q' p. at_addr.
  - intros q' h'. at_addr.
  - intros q'. at_addr.
  - intros q' h'. at_addr.
  - intros q' Hq'. rewrite !lookup_insert_ne by lia. eauto.
Qed.

(** A payload was sent on the stream of [p]: [ConSend b] goes back to the loop,
    and the same for [AccSend]. *)
Lemma fifo_con_sent p h b x ds :
  m !! p = Some h -> h_pc h = ConSend b -> payload_of x = Some b ->
  fifo_inv (<[p := {| h_pc := ConLoop; h_defers := ds |}]> m) sh rv rx
    (<[p := default [] (out !! p) ++ [x]]> out) att n.
Proof.
  intros Hp Hpc Hx. pose proof (fifo_bound p h Hp).
  assert (Hat : att !! p = None) by (eapply (f_conpc _ _ _ _ _ _ _ HI); [done|by rewrite Hpc]).
  destruct HI. split; eauto; intros *; rewrite ?tx_log, ?Hx.
  - intros Hs. at_addr. specialize (f_csend0 _ _ Hs). rewrite Hp in f_csend0.
    unfold connect_sender in f_csend0; simpl in *. rewrite Hpc in f_csend0. simpl in *. by rewrite app_nil_r.
  - intros Hq Hs. at_addr.
  - at_addr.
  - at_addr.
  - intros [Ha|(h' & Hq & Hk)]; [eauto|]. revert Hq. at_addr.
  - at_addr.
  - intros Hq. rewrite !lookup_insert_ne by lia. rewrite decide_False by lia. eauto.
Qed.

Lemma fifo_acc_sent q h sp b x ds :
  m !! q = Some h -> h_pc h = AccSend sp b -> payload_of x = Some b ->
  fifo_inv (<[q := {| h_pc := AccLoop sp; h_defers := ds |}]> m) sh rv rx
    (<[q := default [] (out !! q) ++ [x]]> out) att n.
Proof.
  intros Hq Hpc Hx. pose proof (fifo_bound q h Hq).
  assert (Hat : att !! q = Some sp) by (eapply (f_accpc _ _ _ _ _ _ _ HI); [done|by rewrite Hpc]).
  assert (Hns : sh !! q = None) by (eapply (f_nosess _ _ _ _ _ _ _ HI); eauto).
  destruct HI. split; eauto; intros *; rewrite ?tx_log, ?Hx.
  - intros Hs. at_addr.
  - intros Ha Hs. pose proof (f_asend0 _ _ _ Ha Hs) as Hb. at_addr. rewrite Hq in Hb.
    unfold accept_sender in Hb; simpl in *. rewrite Hpc in Hb. simpl in *. by rewrite app_nil_r.
  - at_addr.
  - at_addr.
  - intros [Ha|(h' & Hq' & Hk)]; [eauto|]. revert Hq'. at_addr.
  - at_addr.
  - intros Hq'. rewrite !lookup_insert_ne by lia. rewrite decide_False by lia. eauto.
Qed.

(** A receiving goroutine ends, dropping what it holds. *)
Lemma fifo_finish p : fifo_inv m sh (delete p rv) rx out att n.
Proof.
  destruct HI. split; eauto.
  - intros q s Hs. at_addr. eapply relayed_prefix; eauto.
  - intros q x s Hq Hs. at_addr. eapply relayed_prefix; eauto.
  - intros q sp held Hq. apply lookup_delete_Some in Hq as [_ Hq]. eauto.
  - intros q held Hq. apply lookup_delete_Some in Hq as [_ Hq]. eauto.
  - intros q h Hq He. destruct (f_early0 q h Hq He) as (Hr & ?). split; [|done].
    apply lookup_delete_None; auto.
  - intros q Hq. destruct (f_fresh0 q Hq) as (Hr & ?). split; [|done].
    apply lookup_delete_None; auto.
Qed.

(** A live receiving goroutine belongs to a call in progress. *)
Lemma fifo_recv_bound p r : rv !! p = Some r -> (p < n)%nat.
Proof.
  intros Hp. destruct (decide (n <= p)%nat) as [Hle|]; [|lia].
  destruct (f_fresh _ _ _ _ _ _ _ HI p Hle) as (Hr & _). congruence.
Qed.

Lemma fifo_recv_not_early p r h : rv !! p = Some r -> m !! p = Some h -> early (h_pc h) = false.
Proof.
  intros Hp Hm. destruct (early (h_pc h)) eqn:He; [|done].
  destruct (f_early _ _ _ _ _ _ _ HI p h Hm He) as (Hr & _). congruence.
Qed.

Lemma fifo_rx_client p b :
  rv !! p = Some (RecvClient None) ->
  fifo_inv m sh (<[p := RecvClient (Some b)]> rv) (<[p := default [] (rx !! p) ++ [b]]> rx) out att n.
Proof.
  intros Hp. pose proof (fifo_recv_bound _ _ Hp) as Hlt. pose proof fifo_recv_not_early as Hne.
  destruct HI. split; eauto; intros *; rewrite ?rx_log.
  - intros Hs. at_addr. specialize (f_crecv0 _ _ Hs). rewrite Hp in f_crecv0. simpl in *.
    by rewrite f_crecv0, app_nil_r.
  - intros Hq Hs. at_addr. apply prefix_app_r. eapply relayed_prefix; eauto.
  - at_addr.
  - at_addr.
  - intros Hh He. case_decide; subst; [specialize (Hne _ _ _ Hp Hh); congruence|].
    rewrite lookup_insert_ne by done. eauto.
  - intros Hq. rewrite lookup_insert_ne by lia. rewrite decide_False by lia. eauto.
Qed.

Lemma fifo_rx_agent q sp b :
  rv !! q = Some (RecvAgent sp None) ->
  fifo_inv m sh (<[q := RecvAgent sp (Some b)]> rv) (<[q := default [] (rx !! q) ++ [b]]> rx) out att n.
Proof.
  intros Hp. pose proof (fifo_recv_bound _ _ Hp) as Hlt. pose proof fifo_recv_not_early as Hne.
  destruct HI. split; eauto; intros *; rewrite ?rx_log.
  - intros Hs. at_addr. apply prefix_app_r. eapply relayed_prefix; eauto.
  - intros Hq Hs. pose proof (f_arecv0 _ _ _ Hq Hs) as Hb. at_addr. rewrite Hp in Hb. simpl in *.
    by rewrite Hb, app_nil_r.
  - at_addr.
  - at_addr.
  - intros Hh He. case_decide; subst; [specialize (Hne _ _ _ Hp Hh); congruence|].
    rewrite lookup_insert_ne by done. eauto.
  - intros Hq. rewrite lookup_insert_ne by lia. rewrite decide_False by lia. eauto.
Qed.

(** The session heap after a payload is logged. *)
Lemma alter_dom (f : session -> session) p x :
  (is_Some (sh !! x) -> is_Some (alter f p sh !! x)) /\ (sh !! x = None -> alter f p sh !! x = None).
Proof. rewrite lookup_alter. case_decide; subst; destruct (sh !! _) eqn:E; simpl; by split; eauto. Qed.

Lemma alter_c2a q b p x y :
  alter (log_c2a q b) p sh !! x = Some y ->
  exists s, sh !! x = Some s /\ s_a2c y = s_a2c s /\
    s_c2a y = s_c2a s ++ (if decide (p = x) then [(q, b)] else []).
Proof.
  rewrite lookup_alter. case_decide; subst.
  - destruct (sh !! x); simpl; intros; simplify_eq; eauto.
  - intros ->. exists y. by rewrite app_nil_r.
Qed.

Lemma alter_a2c q b p x y :
  alter (log_a2c q b) p sh !! x = Some y ->
  exists s, sh !! x = Some s /\ s_c2a y = s_c2a s /\
    s_a2c y = s_a2c s ++ (if decide (p = x) then [(q, b)] else []).
Proof.
  rewrite lookup_alter. case_decide; subst.
  - destruct (sh !! x); simpl; intros; simplify_eq; eauto.
  - intros ->. exists y. by rewrite app_nil_r.
Qed.

(** The rendezvous on [clientToAgent] and on [agentToClient]. *)
Lemma fifo_c2a p b q h ds :
  rv !! p = Some (RecvClient (Some b)) -> m !! q = Some h -> h_pc h = AccLoop p ->
  fifo_inv (<[q := {| h_pc := AccSend p b; h_defers := ds |}]> m) (alter (log_c2a q b) p sh)
    (<[p := RecvClient None]> rv) rx out att n.
Proof.
  intros Hp Hq Hpc. pose proof (fifo_recv_bound _ _ Hp) as Hlt. pose proof (fifo_bound q h Hq).
  pose proof fifo_recv_not_early as Hne. pose proof (alter_dom (log_c2a q b) p) as Hdom.
  assert (Hat : att !! q = Some p) by (eapply (f_accpc _ _ _ _ _ _ _ HI); [done|by rewrite Hpc]).
  assert (Hns : sh !! q = None) by (eapply (f_nosess _ _ _ _ _ _ _ HI); eauto).
  destruct HI. split; eauto.
  - intros x y Hy. destruct (alter_c2a _ _ _ _ _ Hy) as (s & Hs & _ & ->). specialize (f_crecv0 _ _ Hs).
    rewrite fmap_app, lookup_insert. case_decide; subst; simpl; rewrite ?app_nil_r; [|done].
    rewrite Hp in f_crecv0. simpl in f_crecv0. by rewrite f_crecv0.
  - intros x y Hy. destruct (alter_c2a _ _ _ _ _ Hy) as (s & Hs & -> & _). specialize (f_csend0 _ _ Hs).
    rewrite lookup_insert. case_decide; subst; congruence.
  - intros q' x y Ha Hy. destruct (alter_c2a _ _ _ _ _ Hy) as (s & Hs & -> & _). rewrite lookup_insert.
    case_decide; subst; [|eauto]. specialize (f_arecv0 _ _ _ Ha Hs). by rewrite Hp in f_arecv0.
  - intros q' x y Ha Hy. destruct (alter_c2a _ _ _ _ _ Hy) as (s & Hs & _ & ->). specialize (f_asend0 _ _ _ Ha Hs).
    rewrite lookup_insert. case_decide; simplify_eq.
    + rewrite decide_True, from_snoc, decide_True by done. rewrite Hq in f_asend0.
      unfold accept_sender in f_asend0. simpl in f_asend0. rewrite Hpc in f_asend0. simpl in *.
      by rewrite f_asend0, app_nil_r.
    + case_decide; subst; [rewrite from_snoc, decide_False by done|]; by rewrite app_nil_r.
  - intros x y q' b' Hy. destruct (alter_c2a _ _ _ _ _ Hy) as (s & Hs & -> & ->).
    rewrite elem_of_app. intros [[Hb|Hb]|Hb]; [eauto| |eauto].
    case_decide; [|by apply not_elem_of_nil in Hb]. apply list_elem_of_singleton in Hb. congruence.
  - intros q' h' sp. at_addr.
  - intros q' sp held. at_addr.
  - intros x held. rewrite lookup_insert. case_decide; intros; simplify_eq; apply Hdom; eauto.
  - intros q' x Ha. apply Hdom. eauto.
  - intros q' h'. at_addr.
  - intros q' Hx. apply Hdom, f_nosess0. destruct Hx as [Ha|(h' & Hq' & Hk)]; [auto|].
    revert Hq'. at_addr.
  - intros q' h'. rewrite lookup_insert. case_decide; intros Hq' He; simplify_eq/=.
    destruct (f_early0 _ _ Hq' He) as (Hr & ? & ? & ? & Hl). split_and!; try done.
    + rewrite lookup_insert_ne; [done|congruence].
    + intros y Hy. destruct (alter_c2a _ _ _ _ _ Hy) as (s & Hs & -> & ->).
      rewrite decide_False by congruence. rewrite app_nil_r. eauto.
  - intros q' Hq'. destruct (f_fresh0 q' Hq') as (? & ? & ? & ? & ? & Hs).
    rewrite !lookup_insert_ne by lia. split_and!; try done. by apply Hdom.
Qed.

Lemma fifo_a2c q sp b h ds :
  rv !! q = Some (RecvAgent sp (Some b)) -> m !! sp = Some h -> h_pc h = ConLoop ->
  fifo_inv (<[sp := {| h_pc := ConSend b; h_defers := ds |}]> m) (alter (log_a2c q b) sp sh)
    (<[q := RecvAgent sp None]> rv) rx out att n.
Proof.
  intros Hp Hq Hpc. pose proof (fifo_recv_bound _ _ Hp) as Hlt. pose proof (fifo_bound sp h Hq).
  pose proof fifo_recv_not_early as Hne. pose proof (alter_dom (log_a2c q b) sp) as Hdom.
  assert (Hat : att !! q = Some sp) by (eapply (f_ragent _ _ _ _ _ _ _ HI); done).
  assert (Hns : sh !! q = None) by (eapply (f_nosess _ _ _ _ _ _ _ HI); eauto).
  assert (Hatn : att !! sp = None) by (eapply (f_conpc _ _ _ _ _ _ _ HI); [done|by rewrite Hpc]).
  destruct HI. split; eauto.
  - intros x y Hy. destruct (alter_a2c _ _ _ _ _ Hy) as (s & Hs & -> & _). specialize (f_crecv0 _ _ Hs).
    rewrite lookup_insert. case_decide; subst; congruence.
  - intros x y Hy. destruct (alter_a2c _ _ _ _ _ Hy) as (s & Hs & _ & ->). specialize (f_csend0 _ _ Hs).
    rewrite fmap_app, lookup_insert. case_decide; subst; simpl; rewrite ?app_nil_r; [|done].
    rewrite Hq in f_csend0. unfold connect_sender in f_csend0. simpl in f_csend0. rewrite Hpc in f_csend0.
    simpl in *. by rewrite f_csend0, app_nil_r.
  - intros q' x y Ha Hy. destruct (alter_a2c _ _ _ _ _ Hy) as (s & Hs & _ & ->). specialize (f_arecv0 _ _ _ Ha Hs).
    rewrite lookup_insert. case_decide; simplify_eq.
    + rewrite decide_True, from_snoc, decide_True by done. rewrite Hp in f_arecv0. simpl in *.
      by rewrite app_nil_r.
    + case_decide; subst; [rewrite from_snoc, decide_False by done|]; by rewrite app_nil_r.
  - intros q' x y Ha Hy. destruct (alter_a2c _ _ _ _ _ Hy) as (s & Hs & -> & _). rewrite lookup_insert.
    case_decide; subst; [congruence|eauto].
  - intros x y q' b' Hy. destruct (alter_a2c _ _ _ _ _ Hy) as (s & Hs & -> & ->).
    rewrite elem_of_app. intros [Hb|[Hb|Hb]]; [eauto|eauto|].
    case_decide; [|by apply not_elem_of_nil in Hb]. apply list_elem_of_singleton in Hb. congruence.
  - intros q' h' sp'. at_addr.
  - intros q' sp' held. at_addr.
  - intros x held. rewrite lookup_insert. case_decide; intros; simplify_eq; apply Hdom; eauto.
  - intros q' x Ha. apply Hdom. eauto.
  - intros q' h'. at_addr.
  - intros q' Hx. apply Hdom, f_nosess0. destruct Hx as [Ha|(h' & Hq' & Hk)]; [auto|].
    revert Hq'. at_addr.
  - intros q' h'. rewrite lookup_insert. case_decide; intros Hq' He; simplify_eq/=.
    destruct (f_early0 _ _ Hq' He) as (Hr & ? & ? & ? & Hl). split_and!; try done.
    + rewrite lookup_insert_ne; [done|congruence].
    + intros y Hy. destruct (alter_a2c _ _ _ _ _ Hy) as (s & Hs & -> & ->).
      rewrite decide_False by congruence. rewrite app_nil_r. eauto.
  - intros q' Hq'. destruct (f_fresh0 q' Hq') as (? & ? & ? & ? & ? & Hs).
    rewrite !lookup_insert_ne by lia. split_and!; try done. by apply Hdom.
Qed.

End moves.

(** ** Every step keeps the invariant *)

Lemma same_logs_frame (sh : gmap nat session) p f :
  (forall x, same_logs x (f x)) -> forall q, option_Forall2 same_logs (sh !! q) (alter f p sh !! q).
Proof.
  intros Hf q. rewrite lookup_alter. case_decide; subst; destruct (sh !! _); simpl; constructor; auto; done.
Qed.

Lemma same_logs_insert (sh : gmap nat session) p x y :
  sh !! p = Some x -> same_logs x y -> forall q, option_Forall2 same_logs (sh !! q) (<[p := y]> sh !! q).
Proof.
  intros Hx Hy q. rewrite lookup_insert. case_decide; subst; [rewrite Hx; by constructor|].
  destruct (sh !! q); by constructor.
Qed.

Lemma same_logs_refl (sh : gmap nat session) q : option_Forall2 same_logs (sh !! q) (sh !! q).
Proof. destruct (sh !! q); by constructor. Qed.

Lemma run_deferred_logs d s p s' :
  run_deferred d s p = Some s' -> forall q, option_Forall2 same_logs (sheap s !! q) (sheap s' !! q).
Proof.
  destruct d as [|a|sp|k| |k a]; simpl; intros H; simplify_eq; try apply same_logs_refl.
  - unfold releaseAgent in H. destruct (aheap s !! a); simplify_eq/=. apply same_logs_refl.
  - destruct (sheap s !! sp) eqn:E; simplify_eq/=. by eapply same_logs_insert.
  - unfold unregister in H. destruct (aheap s !! a) as [ag|]; simplify_eq/=. intros q.
    match goal with |- context [cancel_sessions_of ?a ?ss ?h] =>
      destruct (cancel_sessions_of_step a ss h) as [Hs _] end.
    specialize (Hs q).
    destruct (ag_done ag); case_decide; simpl in *; inversion Hs as [x y Hxy|]; constructor;
      destruct Hxy as [->|[-> _]]; done.
Qed.

Ltac fifo_goto_tac :=
  unfold world_fifo; simpl; eapply fifo_goto;
  [eassumption|eassumption|done|
   let H := fresh in intros H; first
     [discriminate H
     |match goal with E : h_pc ?h = _ |- _ (h_pc ?h) = true => rewrite E; reflexivity end]..].

Lemma step_register_fifo w p h c w' :
  world_fifo w -> w_main w !! p = Some h -> step_register w p h c = Some w' -> world_fifo w'.
Proof.
  intros HI Hp Hs. unfold step_register in Hs.
  destruct (h_pc h) eqn:Hpc; try done; destruct c as [| | | |[e|]| | | | | |]; try done.
  - crush_match Hs; try fifo_goto_tac.
    unfold world_fifo; simpl.
    match goal with H : register _ _ _ = Ok ?s |- _ =>
      replace (sheap s) with (sheap (w_svc w)) by (unfold register in H; by crush_match H) end.
    fifo_goto_tac.
  - destruct (w_sctx w !! p); simplify_eq/=. fifo_goto_tac.
  - simplify_eq. fifo_goto_tac.
  - simplify_eq. unfold world_fifo; simpl. eapply fifo_out; [fifo_goto_tac|apply lookup_insert_eq|done].
Qed.

Lemma connect_reserve_fifo w p h route rnd w' :
  world_inv w -> world_fifo w -> w_main w !! p = Some h -> h_pc h = ConReserve route ->
  connect_reserve w p h route rnd = Some w' -> world_fifo w'.
Proof.
  intros HC HI Hp Hpc Hs. pose proof (ci_handler _ _ _ HC p h Hp) as [Hok _].
  unfold handler_ok in Hok. rewrite Hpc in Hok. destruct Hok as [_ Hsn].
  unfold connect_reserve in Hs. destruct (reserveAgent (w_svc w) route) as [[a s']|e] eqn:Hr.
  - assert (Hsh : sheap s' = sheap (w_svc w)) by (unfold reserveAgent in Hr; by crush_match Hr).
    crush_match Hs; unfold world_fifo; simpl; rewrite Hsh; [|fifo_goto_tac].
    eapply fifo_goto; [|eassumption|done|by rewrite Hpc|done].
    eapply fifo_new_session; [eassumption|eassumption|by rewrite Hpc|by rewrite Hpc|done|done|done].
  - simplify_eq. fifo_goto_tac.
Qed.

Lemma step_connect_fifo w p h c w' :
  world_inv w -> world_fifo w -> w_main w !! p = Some h -> step_connect w p h c = Some w' -> world_fifo w'.
Proof.
  intros HC HI Hp Hs. unfold step_connect in Hs.
  destruct (h_pc h) eqn:Hpc; try done; destruct c as [| |[f|e]| |[e|]| | | | | |q]; try done;
    try (simplify_eq; fifo_goto_tac);
    try (crush_match Hs; fifo_goto_tac);
    try (destruct (sheap (w_svc w) !! p) as [sess|] eqn:Hsess; simplify_eq/=;
         try (destruct (s_ctx sess); simplify_eq/=);
         try (destruct (s_ready sess); simplify_eq/=); fifo_goto_tac).
  - by eapply connect_reserve_fifo.
  - destruct (sheap (w_svc w) !! p) as [sess|] eqn:Hsess; simplify_eq/=. unfold world_fifo; simpl.
    eapply fifo_out; [fifo_goto_tac|apply lookup_insert_eq|done].
  - destruct (aheap (w_svc w) !! a) as [ag|] eqn:Hag; simplify_eq/=.
    destruct (ag_done ag); simplify_eq/=. fifo_goto_tac.
  - destruct (w_main w !! q) as [hq|] eqn:Hq; simplify_eq/=. crush_match Hs.
    unfold world_fifo; simpl. assert (q <> p) by congruence.
    eapply fifo_goto with (h := hq); [fifo_goto_tac| |done|done|done].
    by rewrite lookup_insert_ne.
  - destruct (sheap (w_svc w) !! p) as [sess|] eqn:Hsess; simplify_eq/=. unfold world_fifo; simpl.
    eapply fifo_out; [|apply lookup_insert_eq|done].
    eapply fifo_con_start; eauto.
  - destruct (w_errch w !! p) eqn:He; simplify_eq/=. fifo_goto_tac.
  - simplify_eq. unfold world_fifo; simpl. eapply fifo_con_sent; eauto.
Qed.

Lemma step_accept_fifo w p h c w' :
  world_inv w -> world_fifo w -> w_main w !! p = Some h -> step_accept w p h c = Some w' -> world_fifo w'.
Proof.
  intros HC HI Hp Hs. unfold step_accept in Hs.
  destruct (h_pc h) eqn:Hpc; try done; destruct c as [| | |[f|e]|[e|]| | | | | |q]; try done;
    try (simplify_eq; fifo_goto_tac); try (crush_match Hs; fifo_goto_tac).
  - destruct (accept_lookup (w_svc w) accept) as [[sp s']|] eqn:Ha; simplify_eq; [|fifo_goto_tac].
    unfold world_fifo; simpl. unfold accept_lookup in Ha.
    destruct (sessions (w_svc w) !! _) as [x|] eqn:Hx; simplify_eq/=.
    destruct (sheap (w_svc w) !! x) as [sess|] eqn:Hsess; simplify_eq/=.
    apply (fifo_sheap _ (sheap (w_svc w))).
    + eapply fifo_attach; [exact HI|eassumption|by rewrite Hpc|by rewrite Hpc|eauto].
    + destruct (s_once sess); [apply same_logs_refl|]. destruct (s_ready sess); [apply same_logs_refl|].
      by eapply same_logs_insert.
  - destruct (sheap (w_svc w) !! sp) as [sess|]; simplify_eq/=.
    destruct (s_ctx sess); simplify_eq/=. fifo_goto_tac.
  - destruct (w_errch w !! p) eqn:He; simplify_eq/=. fifo_goto_tac.
  - simplify_eq. unfold world_fifo; simpl. eapply fifo_acc_sent; eauto.
Qed.

Lemma step_return_fifo w p h c w' :
  world_fifo w -> w_main w !! p = Some h -> step_return w p h c = Some w' -> world_fifo w'.
Proof.
  intros HI Hp Hs. unfold step_return in Hs.
  destruct (h_pc h) eqn:Hpc; try done; destruct c; try done; destruct (h_defers h) as [|d ds]; simplify_eq/=.
  - unfold world_fifo; simpl. by apply fifo_delete.
  - destruct (run_deferred d (w_svc w) p) as [s'|] eqn:Hd; simplify_eq/=. unfold world_fifo; simpl.
    apply (fifo_sheap _ (sheap (w_svc w))); [fifo_goto_tac|by eapply run_deferred_logs].
Qed.

Lemma step_recv_fifo w p r c w' :
  world_fifo w -> w_recv w !! p = Some r -> step_recv w p r c = Some w' -> world_fifo w'.
Proof.
  intros HI Hp Hs. unfold step_recv in Hs.
  destruct r as [[b|]|sp [b|]]; destruct c as [| |[f|e]|[f|e]| | | | | | |q]; try done;
    try (simplify_eq; by apply fifo_finish).
  - destruct (sheap (w_svc w) !! p) as [sess|]; simplify_eq/=. destruct (s_ctx sess); simplify_eq/=.
    by apply fifo_finish.
  - destruct (w_main w !! q) as [hq|] eqn:Hq; simplify_eq/=. crush_match Hs. by eapply fifo_c2a.
  - crush_match Hs; [by apply fifo_rx_client|by apply fifo_finish].
  - destruct (sheap (w_svc w) !! sp) as [sess|]; simplify_eq/=. destruct (s_ctx sess); simplify_eq/=.
    by apply fifo_finish.
  - destruct (w_main w !! q) as [hq|] eqn:Hq; simplify_eq/=. crush_match Hs. by eapply fifo_a2c.
  - crush_match Hs; [by apply fifo_rx_agent|by apply fifo_finish].
Qed.

Lemma step_fifo w ev w' : world_inv w -> world_fifo w -> step w ev = Some w' -> world_fifo w'.
Proof.
  intros HC HI [_ Hs]%step_exec. destruct ev as [d|p e|req| | |p c|p c]; simpl in Hs.
  - crush_match Hs. exact HI.
  - case_decide; simplify_eq. unfold world_fifo; simpl.
    apply (fifo_sheap _ (sheap (w_svc w))); [exact HI|]. by apply same_logs_frame.
  - simplify_eq. by apply fifo_spawn.
  - simplify_eq. by apply fifo_spawn.
  - simplify_eq. by apply fifo_spawn.
  - destruct (w_main w !! p) as [h|] eqn:Hp; simplify_eq/=. unfold step_main in Hs.
    destruct (h_pc h); eauto using step_register_fifo, step_connect_fifo, step_accept_fifo, step_return_fifo.
  - destruct (w_recv w !! p) as [r|] eqn:Hp; simplify_eq/=. by eapply step_recv_fifo.
Qed.

Lemma init_fifo c : world_fifo (init_world c).
Proof.
  split; simpl; try (intros *; rewrite ?lookup_empty; intros; simplify_eq; done).
Qed.

Lemma reachable_fifo c w : reachable c w -> world_fifo w.
Proof. induction 1; eauto using init_fifo, step_fifo, reachable_inv. Qed.
