(* ===== verification/RelayProps.v ===== *)
(** * What the relay guarantees

    The properties of the relay service: its limits, its counters, the absence
    of leaks and of channel panics, the termination of its clean-up, the pairing
    of Connect and Accept calls, and the order in which ciphertexts are
    forwarded. *)

From S2P Require Import Prelude GoBase RelayService RelayLease RelayInv RelayFifo.

(** ** Shared lemmas *)

Lemma run_deferred_cfg d s p s' : run_deferred d s p = Some s' -> cfg s' = cfg s.
Proof.
  destruct d as [|a|sp|k| |k a]; simpl; intros H; simplify_eq; try done.
  - unfold releaseAgent in H. destruct (aheap s !! a); by simplify_eq/=.
  - destruct (sheap s !! sp); by simplify_eq/=.
  - unfold unregister in H. destruct (aheap s !! a) as [ag|]; simplify_eq/=.
    destruct (ag_done ag); by case_decide.
Qed.

Lemma register_cfg s k a s' : register s k a = Ok s' -> cfg s' = cfg s.
Proof. unfold register. intros H. by crush_match H. Qed.

Lemma reserve_cfg s r a s' : reserveAgent s r = Ok (a, s') -> cfg s' = cfg s.
Proof. unfold reserveAgent. intros H. by crush_match H. Qed.

Lemma accept_lookup_cfg s acc sp s' : accept_lookup s acc = Some (sp, s') -> cfg s' = cfg s.
Proof.
  unfold accept_lookup. intros H. destruct (sessions s !! _); simplify_eq/=.
  destruct (sheap s !! _) as [x|]; simplify_eq/=. destruct (s_once x); [done|]. by destruct (s_ready x).
Qed.

(** The configuration never changes. *)
Lemma step_cfg w ev w' : step w ev = Some w' -> cfg (w_svc w') = cfg (w_svc w).
Proof.
  intros [_ Hs]%step_exec. destruct ev as [d|p e|req| | |p c|p c]; simpl in Hs; try (crush_match Hs; done).
  - destruct (w_main w !! p) as [h|]; simplify_eq/=.
    unfold step_main, step_register, step_connect, step_accept, step_return, connect_reserve in Hs.
    destruct (h_pc h); destruct c; try done; crush_match Hs;
      eauto using register_cfg, reserve_cfg, accept_lookup_cfg, run_deferred_cfg.
    all: repeat match goal with H : mbind _ ?x = Some _ |- _ => destruct x eqn:?; simplify_eq/= end;
         crush_match Hs; eauto using run_deferred_cfg.
  - destruct (w_recv w !! p) as [r|]; simplify_eq/=. unfold step_recv in Hs.
    destruct r as [[b|]|sp [b|]]; destruct c; try done; crush_match Hs; try done.
    all: repeat match goal with H : mbind _ ?x = Some _ |- _ => destruct x eqn:?; simplify_eq/= end;
         crush_match Hs; done.
Qed.

Lemma reachable_cfg c w : reachable c w -> cfg (w_svc w) = cfg (NewService c).
Proof. induction 1 as [|w ev w' _ IH Hs]; [done|]. by rewrite (step_cfg _ _ _ Hs). Qed.

Lemma run_reachable c w evs w' : reachable c w -> run w evs = Some w' -> reachable c w'.
Proof.
  revert w. induction evs as [|ev evs IH]; intros w Hw Hr; simplify_eq/=; [done|].
  destruct (step w ev) as [w1|] eqn:Hs; simplify_eq/=. eapply IH; [|done]. by eapply reach_step.
Qed.

(** Neither [close(a.done)] nor [close(sess.ready)] panics. *)
Lemma never_panics c w : reachable c w -> panicked (w_svc w) = false.
Proof. intros Hr. destruct (reachable_inv c w Hr) as [HL _ _ _]. apply HL. Qed.

(** ** Handshake deadlines *)

Definition deadline_of (k : pc) : option Z :=
  match k with ConNotify _ _ d | ConWaitReady d => Some d | _ => None end.

Definition deadline_inv (w : world) : Prop :=
  forall p h d, w_main w !! p = Some h -> deadline_of (h_pc h) = Some d ->
    d <= w_now w + HandshakeTimeout (cfg (w_svc w)).

Lemma deadline_goto w p k ds :
  deadline_inv w ->
  (forall d, deadline_of k = Some d -> d <= w_now w + HandshakeTimeout (cfg (w_svc w))) ->
  forall p' h d, <[p := {| h_pc := k; h_defers := ds |}]> (w_main w) !! p' = Some h ->
    deadline_of (h_pc h) = Some d -> d <= w_now w + HandshakeTimeout (cfg (w_svc w)).
Proof.
  intros HI Hk p' h d. rewrite lookup_insert. case_decide; intros ? Hd; simplify_eq/=; eauto.
Qed.

(** All the outcomes of a step of a handler or a receiver, without the proofs
    that the looked-up objects exist. *)
Ltac step_cases Hs :=
  crush_match Hs;
  repeat match goal with H : mbind _ ?x = Some _ |- _ => destruct x eqn:?; simplify_eq/= end;
  crush_match Hs.

Lemma step_deadline w ev w' : deadline_inv w -> step w ev = Some w' -> deadline_inv w'.
Proof.
  intros HI Hs. pose proof (step_cfg _ _ _ Hs) as Hc. unfold deadline_inv. rewrite Hc. clear Hc.
  apply step_exec in Hs as [_ Hs]. destruct ev as [d|p e|req| | |p c|p c]; simpl in Hs.
  - crush_match Hs. intros p h d' Hp Hd. specialize (HI p h d' Hp Hd). apply Z.leb_le in Heqb. lia.
  - case_decide; simplify_eq. exact HI.
  - simplify_eq. simpl. apply (deadline_goto w); [done|]. by intros d [=].
  - simplify_eq. simpl. apply (deadline_goto w); [done|]. by intros d [=].
  - simplify_eq. simpl. apply (deadline_goto w); [done|]. by intros d [=].
  - destruct (w_main w !! p) as [h|] eqn:Hp; simplify_eq/=.
    unfold step_main, step_register, step_connect, step_accept, step_return, connect_reserve in Hs.
    destruct (h_pc h) eqn:Hpc; destruct c; try done; step_cases Hs;
      try (apply (deadline_goto w); [done|]; simpl; intros; simplify_eq; lia).
    + intros p' h' d. rewrite lookup_insert. destruct (decide (q = p')); intros Hp' Hd; simplify_eq/=.
      revert Hp' Hd. apply (deadline_goto w p (ConWaitReady _)); [done|]. simpl. intros; simplify_eq. lia.
    + intros p' h' d Hp' Hd. apply lookup_delete_Some in Hp' as [_ Hp']. eauto.
  - destruct (w_recv w !! p) as [r|]; simplify_eq/=. unfold step_recv in Hs.
    destruct r as [[b|]|sp [b|]]; destruct c; try done; step_cases Hs; try exact HI;
      by apply (deadline_goto w).
Qed.

Lemma reachable_deadline c w : reachable c w -> deadline_inv w.
Proof.
  induction 1; [|by eapply step_deadline]. intros p h d Hp. simpl in Hp. by rewrite lookup_empty in Hp.
Qed.

(** ** How a session evolves *)

Definition sess_later (x y : session) : Prop :=
  s_id y = s_id x /\ s_agent y = s_agent x /\
  (s_ready x = true -> s_ready y = true /\ s_agentHello y = s_agentHello x) /\
  (forall e, s_ctx x = Some e -> s_ctx y = Some e).

#[export] Instance sess_later_preorder : PreOrder sess_later.
Proof.
  split; [by intros x; repeat split; auto|]. intros x y z (H1 & H2 & H3 & H4) (K1 & K2 & K3 & K4).
  split_and!; [congruence|congruence| |eauto]. intros Hx. destruct (H3 Hx) as [Hy Hh].
  destruct (K3 Hy) as [Hz Hh']. split; congruence.
Qed.

Lemma sess_later_cancel e x : sess_later x (ctx_cancel e x).
Proof. split_and!; [done|done|done|]. intros e' He. simpl. by rewrite He. Qed.
Lemma sess_later_c2a q b x : sess_later x (log_c2a q b x).
Proof. by repeat split. Qed.
Lemma sess_later_a2c q b x : sess_later x (log_a2c q b x).
Proof. by repeat split. Qed.

(** The sessions of [h] are still in [h'], later in their life. *)
Definition heap_later (h h' : gmap nat session) : Prop :=
  forall sp x, h !! sp = Some x -> exists y, h' !! sp = Some y /\ sess_later x y.

Lemma heap_later_refl h : heap_later h h.
Proof. intros sp x Hx. exists x. split; [done|reflexivity]. Qed.

Lemma heap_later_alter f p h : (forall x, sess_later x (f x)) -> heap_later h (alter f p h).
Proof.
  intros Hf sp x Hx. rewrite lookup_alter. case_decide; subst; rewrite Hx; simpl;
    (eexists; split; [done|]); [apply Hf|reflexivity].
Qed.

Lemma heap_later_insert p x y h :
  h !! p = Some x -> sess_later x y -> heap_later h (<[p := y]> h).
Proof.
  intros Hp Hxy sp z Hz. rewrite lookup_insert. case_decide; simplify_eq;
    (eexists; split; [done|]); [done|reflexivity].
Qed.

Lemma heap_later_new p y h : h !! p = None -> heap_later h (<[p := y]> h).
Proof.
  intros Hp sp z Hz. rewrite lookup_insert_ne by congruence. eexists; split; [done|reflexivity].
Qed.

Lemma run_deferred_later d s p s' : run_deferred d s p = Some s' -> heap_later (sheap s) (sheap s').
Proof.
  destruct d as [|a|sp|k| |k a]; simpl; intros H; simplify_eq; try apply heap_later_refl.
  - unfold releaseAgent in H. destruct (aheap s !! a); simplify_eq/=. apply heap_later_refl.
  - destruct (sheap s !! sp) eqn:E; simplify_eq/=. eapply heap_later_insert; eauto using sess_later_cancel.
  - unfold unregister in H. destruct (aheap s !! a) as [ag|]; simplify_eq/=. intros q x Hq.
    match goal with |- context [cancel_sessions_of ?a ?ss ?h] =>
      destruct (cancel_sessions_of_step a ss h) as [Hs _] end.
    specialize (Hs q).
    destruct (ag_done ag); case_decide; simpl in *; rewrite Hq in Hs; inversion Hs as [? y Hxy|]; subst;
      exists y; (split; [done|]); destruct Hxy as [->|[-> _]]; auto using sess_later_cancel; reflexivity.
Qed.

Lemma accept_lookup_later s acc sp s' :
  (forall p x, sheap s !! p = Some x -> s_once x = s_ready x) ->
  accept_lookup s acc = Some (sp, s') -> heap_later (sheap s) (sheap s').
Proof.
  intros Ho H. unfold accept_lookup in H. destruct (sessions s !! _) as [x|]; simplify_eq/=.
  destruct (sheap s !! x) as [sess|] eqn:Hx; simplify_eq/=. specialize (Ho _ _ Hx).
  destruct (s_once sess) eqn:E1; [apply heap_later_refl|]. rewrite <- Ho. simpl.
  eapply heap_later_insert; [done|]. split_and!; [done|done|congruence|done].
Qed.

(** ** Unwinding *)

(** [n] steps of the handler of call [p] that need nothing from outside. *)
Definition unwind (p : addr) (n : nat) : list event := replicate n (EvMain p ChRun).

Lemma step_deferred w p r d ds s' :
  panicked (w_svc w) = false ->
  w_main w !! p = Some {| h_pc := Ret r; h_defers := d :: ds |} ->
  run_deferred d (w_svc w) p = Some s' ->
  step w (EvMain p ChRun)
  = Some (set_main (<[p := {| h_pc := Ret r; h_defers := ds |}]>) (set_svc (fun _ => s') w)).
Proof.
  intros Hn Hp Hd. rewrite step_running by done. simpl. rewrite Hp. simpl. unfold step_main. simpl. unfold step_return. simpl. by rewrite Hd.
Qed.

(** What a deferred call has settled for good: a cancelled session stays so, a
    deleted one is no longer found, an unregistered agent is closed and gone. *)
Definition settled (s : Service) (d : deferred) : Prop :=
  match d with
  | DCancelSession sp => exists x, sheap s !! sp = Some x /\ is_Some (s_ctx x)
  | DDeleteSession k => sessions s !! k = None
  | DUnregister k a => agents s !! k <> Some a /\ exists ag, aheap s !! a = Some ag /\ ag_done ag = true
  | DReleaseAgent _ | DTunnelsDec | DTimerStop => True
  end.

Lemma run_deferred_settles s p d s' :
  deferred_ok s p d -> run_deferred d s p = Some s' -> settled s' d.
Proof.
  destruct d as [|a|sp|k| |k a]; simpl; intros Hok H; simplify_eq; try done.
  - destruct Hok as [x Hx]. rewrite Hx in H. simplify_eq/=. eexists. rewrite lookup_insert_eq. split; [done|].
    simpl. destruct (s_ctx x); eauto.
  - apply lookup_delete_eq.
  - destruct Hok as (Hk & ag & Hag & _ & Hdn). unfold unregister in H. rewrite Hag in H. simpl in H.
    rewrite decide_True, Hdn in H by done. simplify_eq/=. split; [by rewrite lookup_delete_eq|].
    eexists. by rewrite lookup_insert_eq.
Qed.

(** Later deferred calls leave it settled. *)
Lemma settled_later s p d d' s' : settled s d -> run_deferred d' s p = Some s' -> settled s' d.
Proof.
  intros Hd H.
  assert (Hh : heap_later (sheap s) (sheap s')) by (by eapply run_deferred_later).
  assert (Hss : sessions s' = sessions s \/ exists k, sessions s' = delete k (sessions s)).
  { destruct d' as [|a|sp|k| |k a]; simpl in H; unfold releaseAgent, unregister in H;
      repeat match type of H with context [mbind _ ?x] => destruct x; simplify_eq/= end; simplify_eq/=; eauto.
    repeat case_match; eauto. }
  assert (Ha : (forall k a, agents s' !! k = Some a -> agents s !! k = Some a) /\
    forall a ag, aheap s !! a = Some ag -> exists ag', aheap s' !! a = Some ag' /\ (ag_done ag = true -> ag_done ag' = true)).
  { destruct d' as [|a|sp|k| |k a]; simpl in H; unfold releaseAgent, unregister in H; simplify_eq/=; eauto.
    - destruct (aheap s !! a) as [ag0|] eqn:E; simplify_eq/=. split; [done|]. intros a' ag Hag. rewrite lookup_insert.
      case_decide; simplify_eq; eauto.
    - destruct (sheap s !! sp); simplify_eq/=. eauto.
    - destruct (aheap s !! a) as [ag0|] eqn:E; simplify_eq/=. split.
      + intros k' a' Hk. repeat case_match; simpl in Hk; try (apply lookup_delete_Some in Hk as [_ Hk]); done.
      + intros a' ag Hag. destruct (ag_done ag0) eqn:Hdn; [case_match; simpl; eauto|].
        destruct (decide (a = a')) as [->|Hne]; [|exists ag; case_match; simpl; by rewrite lookup_insert_ne].
        exists (set_done ag0). case_match; simpl; by rewrite lookup_insert_eq. }
  destruct Ha as [Ha1 Ha2]. destruct d as [|a|sp|k| |k a]; simpl in *; try done.
  - destruct Hd as (x & Hx & e & He). destruct (Hh sp x Hx) as (y & Hy & _ & _ & _ & Hc). exists y. split; [done|]. eauto.
  - destruct Hss as [->|[k' ->]]; [done|]. rewrite lookup_delete. by case_decide.
  - destruct Hd as (Hk & ag & Hag & Hdn). split; [by intros ?%Ha1|]. destruct (Ha2 a ag Hag) as (ag' & Hag' & Hd'). eauto.
Qed.

Lemma unwind_terminates c w p r ds :
  reachable c w -> w_main w !! p = Some {| h_pc := Ret r; h_defers := ds |} ->
  exists w', run w (unwind p (S (length ds))) = Some w' /\
    w_main w' = delete p (w_main w) /\ w_ret w' !! p = Some r /\ Forall (settled (w_svc w')) ds /\
    (forall d, settled (w_svc w) d -> settled (w_svc w') d).
Proof.
  revert w. induction ds as [|d ds IH]; intros w Hw Hp; pose proof (never_panics _ _ Hw) as Hn.
  - cbn [unwind replicate length run]. rewrite step_running by done. simpl. rewrite Hp. eexists. split; [done|]. simpl.
    split_and!; [done|apply lookup_insert_eq|done|done].
  - pose proof (reachable_inv _ _ Hw) as HI. pose proof (ci_lease _ _ _ HI) as HL.
    destruct (lease_run_deferred (w_svc w) (h_defers <$> w_main w) p d ds) as (s' & Hd & _);
      [done|by rewrite (stack_of _ _ _ Hp)|].
    destruct (li_stack _ _ HL p _ (stack_of _ _ _ Hp)) as [_ Hall]. apply Forall_cons_iff in Hall as [Hok _].
    pose proof (step_deferred w p r d ds s' Hn Hp Hd) as Hs.
    change (unwind p (S (length (d :: ds)))) with (EvMain p ChRun :: unwind p (S (length ds))).
    cbn [run]. rewrite Hs. cbn [mbind option_bind].
    destruct (IH _ (reach_step _ _ _ _ Hw Hs) (lookup_insert_eq _ _ _)) as (w' & Hrun & Hm & Hret & Hset & Hkeep).
    exists w'. split; [done|]. simpl in Hm, Hkeep. split_and!; [|done| |].
    + rewrite Hm. apply delete_insert_eq.
    + constructor; [|done]. apply Hkeep. by eapply run_deferred_settles.
    + intros d' Hd'. apply Hkeep. by eapply settled_later.
Qed.

Lemma step_later w ev w' :
  world_inv w -> step w ev = Some w' -> heap_later (sheap (w_svc w)) (sheap (w_svc w')).
Proof.
  intros HI [_ Hs]%step_exec. destruct ev as [d|p e|req| | |p c|p c]; simpl in Hs; try (simplify_eq; apply heap_later_refl).
  - crush_match Hs. apply heap_later_refl.
  - case_decide; simplify_eq/=. apply heap_later_alter, sess_later_cancel.
  - destruct (w_main w !! p) as [h|] eqn:Hp; simplify_eq/=.
    pose proof (ci_handler _ _ _ HI p h Hp) as [Hok _]. unfold handler_ok in Hok.
    pose proof (ci_lease _ _ _ HI) as HL.
    unfold step_main, step_register, step_connect, step_accept, step_return, connect_reserve in Hs.
    destruct (h_pc h) eqn:Hpc; destruct c; try done; step_cases Hs; try apply heap_later_refl;
      eauto using run_deferred_later.
    + unfold register in *. repeat case_match; simplify_eq/=. apply heap_later_refl.
    + unfold reserveAgent in *. repeat case_match; simplify_eq/=. apply heap_later_new. by destruct Hok.
    + unfold reserveAgent in *. repeat case_match; simplify_eq/=. apply heap_later_refl.
    + eapply accept_lookup_later; [|done]. intros q x Hx. by apply (li_once _ _ HL q x).
  - destruct (w_recv w !! p) as [r|]; simplify_eq/=. unfold step_recv in Hs.
    destruct r as [[b|]|sp [b|]]; destruct c; try done; step_cases Hs; try apply heap_later_refl;
      apply heap_later_alter; auto using sess_later_c2a, sess_later_a2c.
Qed.

Lemma run_later c w evs w' :
  reachable c w -> run w evs = Some w' -> heap_later (sheap (w_svc w)) (sheap (w_svc w')).
Proof.
  revert w. induction evs as [|ev evs IH]; intros w Hw Hr; simplify_eq/=; [apply heap_later_refl|].
  destruct (step w ev) as [w1|] eqn:Hs; simplify_eq/=. intros sp x Hx.
  destruct (step_later w ev w1 (reachable_inv _ _ Hw) Hs sp x Hx) as (y & Hy & Hxy).
  destruct (IH w1 (reach_step _ _ _ _ Hw Hs) Hr sp y Hy) as (z & Hz & Hyz).
  exists z. split; [done|]. by etrans.
Qed.

(** ** A run of the relay, for the witnesses

    Call 0 registers an agent, call 1 connects to it, call 2 accepts; three
    ciphertexts are relayed and everything is closed. *)

Definition demo_cfg : Config := {| MaxAgents := 2; MaxTunnelsPerAgent := 1; HandshakeTimeout := 0 |}.
Definition demo_route : bytes := repeat x61 16.
Definition demo_sid : bytes := repeat x62 16.
Definition demo_register : RegisterAgentRequest :=
  {| rar_ProtocolVersion := 1; rar_RouteId := demo_route |}.
Definition demo_open : ConnectRequest :=
  {| creq_Body := Some (ConnectRequest_ClientOpen {| co_ProtocolVersion := 1; co_RouteId := demo_route |}) |}.
Definition demo_hello : ConnectRequest :=
  {| creq_Body := Some (ConnectRequest_ClientHandshake {| ch_ClientHello := [x01] |}) |}.
Definition demo_agent_accept : AgentAccept :=
  {| aa_ProtocolVersion := 1; aa_SessionId := demo_sid; aa_AgentHello := [x02] |}.
Definition demo_accept : AcceptRequest :=
  {| areq_Body := Some (AcceptRequest_AgentAccept demo_agent_accept) |}.
Definition demo_up (b : bytes) : ConnectRequest :=
  {| creq_Body := Some (ConnectRequest_Ciphertext {| ct_Payload := b |}) |}.
Definition demo_down (b : bytes) : AcceptRequest :=
  {| areq_Body := Some (AcceptRequest_Ciphertext {| ct_Payload := b |}) |}.

Definition demo_notify : list event := [
  EvRegister demo_register; EvMain 0 ChRun;
  EvConnect; EvMain 1 (ChRecvConnect (Ok demo_open)); EvMain 1 (ChRand (Some demo_sid));
  EvMain 1 (ChSent None); EvMain 1 (ChRecvConnect (Ok demo_hello)); EvMain 1 ChRun ].
Definition demo_pending : list event := [
  EvMain 1 (ChComm 0); EvMain 0 (ChSent None);
  EvAccept; EvMain 2 (ChRecvAccept (Ok demo_accept)) ].
Definition demo_paired : list event := [
  EvMain 2 ChRun; EvMain 1 ChReady; EvMain 1 (ChSent None) ].
Definition demo_traffic : list event := [
  EvRecv 1 (ChRecvConnect (Ok (demo_up [x10; x11]))); EvRecv 1 (ChComm 2); EvMain 2 (ChSent None);
  EvRecv 2 (ChRecvAccept (Ok (demo_down [x20]))); EvRecv 2 (ChComm 1); EvMain 1 (ChSent None);
  EvRecv 1 (ChRecvConnect (Ok (demo_up [x12]))); EvRecv 1 (ChComm 2) ].
Definition demo_close : list event := [
  EvMain 2 (ChSent None); EvRecv 2 (ChRecvAccept (Err EEOF)); EvMain 2 ChErrCh; EvMain 2 ChRun; EvMain 2 ChRun;
  EvMain 1 ChCtxDone; EvMain 1 ChRun; EvMain 1 ChRun; EvMain 1 ChRun; EvMain 1 ChRun; EvMain 1 ChRun; EvMain 1 ChRun;
  EvStreamDone 0 CtxCanceled; EvMain 0 ChCtxDone; EvMain 0 ChRun; EvMain 0 ChRun ].

Definition demo_world (evs : list event) : world :=
  default (init_world demo_cfg) (run (init_world demo_cfg) evs).

Definition demo_waiting : world := demo_world demo_notify.
Definition demo_lookup : world := demo_world (demo_notify ++ demo_pending).
Definition demo_relaying : world := demo_world (demo_notify ++ demo_pending ++ demo_paired ++ demo_traffic).
Definition demo_leaving : world :=
  demo_world (demo_notify ++ [EvStreamDone 0 CtxCanceled; EvMain 0 ChCtxDone]).
Definition demo_drained : world :=
  demo_world (demo_notify ++ demo_pending ++ demo_paired ++ demo_traffic ++ demo_close).

Lemma demo_reachable evs :
  is_Some (run (init_world demo_cfg) evs) -> reachable demo_cfg (demo_world evs).
Proof.
  intros [w Hw]. unfold demo_world. rewrite Hw. eapply run_reachable; [apply reach_init|done].
Qed.

Ltac demo := apply demo_reachable; vm_compute; eauto.

(** ** Limits, counters, leaks *)

(** C1: in every reachable state the relay holds at most [MaxAgents] registered
    agents, and every agent has between 0 and [MaxTunnelsPerAgent] active
    tunnels, for the limits [NewService] fixed. *)
Theorem relay_capacity c w :
  reachable c w ->
  Z.of_nat (size (agents (w_svc w))) <= MaxAgents (cfg (NewService c)) /\
  forall a ag, aheap (w_svc w) !! a = Some ag ->
    0 <= ag_active ag <= MaxTunnelsPerAgent (cfg (NewService c)).
Proof.
  intros Hr. rewrite <- (reachable_cfg c w Hr). destruct (reachable_inv c w Hr) as [HL _ _ _].
  split; [apply HL|]. intros a ag Ha. destruct (li_active _ _ HL a ag Ha) as [Heq Hle].
  split; [|done]. rewrite Heq. apply msum_nonneg. auto with relaycat.
Qed.

Lemma relay_capacity_witness :
  Z.of_nat (size (agents (w_svc demo_relaying))) <= 2 /\ size (agents (w_svc demo_relaying)) = 1%nat.
Proof.
  split; [|vm_compute; reflexivity].
  refine (proj1 (relay_capacity demo_cfg demo_relaying _)). demo.
Defined.

Lemma drained_empty c w :
  reachable c w -> w_main w = ∅ ->
  agents (w_svc w) = ∅ /\ sessions (w_svc w) = ∅ /\
  (forall a ag, aheap (w_svc w) !! a = Some ag -> ag_active ag = 0) /\
  m_Agents (obs (w_svc w)) = 0 /\ m_Tunnels (obs (w_svc w)) = 0.
Proof.
  intros Hr Hm. destruct (reachable_inv c w Hr) as [HL _ _ _]. rewrite Hm, fmap_empty in HL.
  assert (Ha : agents (w_svc w) = ∅).
  { apply map_empty. intros k. destruct (agents (w_svc w) !! k) as [a|] eqn:E; [|done].
    destruct (li_reg _ _ HL k a E) as (ds & Hds & _). by rewrite lookup_empty in Hds. }
  split_and!.
  - done.
  - apply map_empty. intros k. destruct (sessions (w_svc w) !! k) as [sp|] eqn:E; [|done].
    destruct (li_sess _ _ HL k sp E) as (ds & Hds & _). by rewrite lookup_empty in Hds.
  - intros a ag Hag. destruct (li_active _ _ HL a ag Hag) as [-> _]. apply msum_empty.
  - rewrite (li_gauge_agents _ _ HL), Ha. by rewrite map_size_empty.
  - rewrite (li_gauge_tunnels _ _ HL). apply msum_empty.
Qed.

(** C2: [agent.active] is exactly the number of Connect calls that reserved the
    agent and have not yet run their [releaseAgent]; the two gauges are exactly
    the number of registered routes and of calls holding a tunnel.  So nothing
    leaks: when every call has returned, no agent is registered, no session is
    pending, no tunnel is held and both gauges are zero. *)
Theorem relay_counters_exact c w :
  reachable c w ->
  (forall a ag, aheap (w_svc w) !! a = Some ag -> ag_active ag = leases a (stacks w)) /\
  m_Agents (obs (w_svc w)) = Z.of_nat (size (agents (w_svc w))) /\
  m_Tunnels (obs (w_svc w)) = open_tunnels (stacks w) /\
  (w_main w = ∅ ->
     agents (w_svc w) = ∅ /\ sessions (w_svc w) = ∅ /\
     (forall a ag, aheap (w_svc w) !! a = Some ag -> ag_active ag = 0) /\
     m_Agents (obs (w_svc w)) = 0 /\ m_Tunnels (obs (w_svc w)) = 0).
Proof.
  intros Hr. destruct (reachable_inv c w Hr) as [HL _ _ _]. split_and!; [|apply HL|apply HL|by apply (drained_empty c)].
  intros a ag Ha. by apply (li_active _ _ HL a ag Ha).
Qed.

Lemma relay_counters_exact_witness :
  m_Tunnels (obs (w_svc demo_relaying)) = open_tunnels (stacks demo_relaying) /\
  m_Tunnels (obs (w_svc demo_relaying)) = 1 /\ sessions (w_svc demo_drained) = ∅ /\ w_next demo_drained = 3%nat.
Proof.
  split; [|split; [vm_compute; reflexivity|split; [|vm_compute; reflexivity]]].
  - refine (proj1 (proj2 (proj2 (relay_counters_exact demo_cfg demo_relaying _)))). demo.
  - refine (proj1 (proj2 (proj2 (proj2 (proj2 (relay_counters_exact demo_cfg demo_drained _))) _))); [demo|vm_compute; reflexivity].
Defined.

(** C4: clean-up always completes, and leaves nothing behind.  From every reachable
    state, a handler whose body has returned runs all its deferred calls without
    waiting for anything and without a panic, after which no code would run; then
    the call is gone with that result and the other calls are where they were, it
    owns no route and no session, its sessions are cancelled, an agent it
    registered is closed, every agent has lost exactly the tunnels the call held,
    and the gauges count what is left. *)
Theorem relay_unwinds c w p h r :
  reachable c w -> w_main w !! p = Some h -> h_pc h = Ret r ->
  exists w', run w (unwind p (S (length (h_defers h)))) = Some w' /\ panicked (w_svc w') = false /\
    w_main w' = delete p (w_main w) /\ w_ret w' !! p = Some r /\
    (forall k, agents (w_svc w') !! k <> Some p) /\ (forall sid, sessions (w_svc w') !! sid <> Some p) /\
    Forall (settled (w_svc w')) (h_defers h) /\
    (forall a ag ag', aheap (w_svc w) !! a = Some ag -> aheap (w_svc w') !! a = Some ag' ->
       ag_active ag' = ag_active ag - count_list (is_release a) (h_defers h)) /\
    m_Tunnels (obs (w_svc w')) = m_Tunnels (obs (w_svc w)) - count_list is_tunnels_dec (h_defers h) /\
    m_Agents (obs (w_svc w')) = Z.of_nat (size (agents (w_svc w'))).
Proof.
  intros Hr Hp Hpc. destruct h as [k ds]; simpl in *. subst.
  destruct (unwind_terminates c w p r ds Hr Hp) as (w' & Hrun & Hm & Hret & Hset & _).
  pose proof (run_reachable _ _ _ _ Hr Hrun) as Hr'. pose proof (ci_lease _ _ _ (reachable_inv _ _ Hr)) as HL.
  pose proof (ci_lease _ _ _ (reachable_inv _ _ Hr')) as HL'. rewrite Hm, fmap_delete in HL'.
  pose proof (stack_of _ _ _ Hp) as Hst. exists w'. split_and!; try done.
  - by eapply never_panics.
  - intros k Hk. destruct (li_reg _ _ HL' _ _ Hk) as (x & Hx & _). by rewrite lookup_delete_eq in Hx.
  - intros k Hk. destruct (li_sess _ _ HL' _ _ Hk) as (x & Hx & _). by rewrite lookup_delete_eq in Hx.
  - intros a ag ag' Ha Ha'. destruct (li_active _ _ HL _ _ Ha) as [-> _], (li_active _ _ HL' _ _ Ha') as [-> _].
    apply (msum_delete _ _ _ _ Hst).
  - rewrite (li_gauge_tunnels _ _ HL), (li_gauge_tunnels _ _ HL'). apply (msum_delete _ _ _ _ Hst).
  - apply HL'.
Qed.

Lemma relay_unwinds_witness :
  exists w', run demo_leaving (unwind 0 2) = Some w' /\
    w_main w' !! 0%nat = None /\ w_ret w' !! 0%nat = Some (Some (EFromContext CtxCanceled)) /\
    agents (w_svc w') !! go_string demo_route <> Some 0%nat.
Proof.
  destruct (relay_unwinds demo_cfg demo_leaving 0
    {| h_pc := Ret (Some (EFromContext CtxCanceled)); h_defers := [DUnregister (go_string demo_route) 0%nat] |}
    (Some (EFromContext CtxCanceled))) as (w' & H1 & _ & H2 & H3 & H4 & _); [demo|vm_compute; reflexivity|reflexivity|].
  exists w'. split; [exact H1|]. split; [rewrite H2; apply lookup_delete_eq|]. split; [exact H3|apply H4].
Defined.

(** ** The relayed streams *)

(** [q] is the only Accept call attached to the session of [p]. *)
Definition sole_accept (w : world) (q p : addr) : Prop :=
  forall q', w_att w !! q' = Some p -> q' = q.

Lemma sole_tags w q p s :
  world_fifo w -> sole_accept w q p -> sheap (w_svc w) !! p = Some s ->
  from q (s_c2a s) = (s_c2a s).*2 /\ from q (s_a2c s) = (s_a2c s).*2.
Proof.
  intros HF Hq Hs. split; apply filter_fst_all, Forall_forall; intros [q' b] Hin; simpl; apply Hq;
    apply (f_tags _ _ _ _ _ _ _ HF p s q' b Hs); apply list_elem_of_In in Hin; auto.
Qed.

Lemma tunnel_prefixes c w q p :
  reachable c w -> w_att w !! q = Some p -> sole_accept w q p ->
  tx_of (w_out w) q `prefix_of` rx_of (w_rx w) p /\
  tx_of (w_out w) p `prefix_of` rx_of (w_rx w) q.
Proof.
  intros Hr Hq Hsole. pose proof (reachable_fifo c w Hr) as HF.
  destruct (f_att _ _ _ _ _ _ _ HF q p Hq) as [s Hs]. destruct (sole_tags w q p s HF Hsole Hs) as [E1 E2].
  pose proof (relayed_prefix _ _ _ (f_asend _ _ _ _ _ _ _ HF q p s Hq Hs)) as P1.
  pose proof (relayed_prefix _ _ _ (f_arecv _ _ _ _ _ _ _ HF q p s Hq Hs)) as P2.
  rewrite E1 in P1. rewrite E2 in P2. split; etrans; [exact P1| | |exact P2].
  - eapply relayed_prefix. by apply (f_crecv _ _ _ _ _ _ _ HF p s).
  - eapply relayed_prefix. by apply (f_csend _ _ _ _ _ _ _ HF p s).
Qed.

(** C5: the tunnel of a session with one Accept call is a pair of FIFO
    channels.  In every interleaving, the ciphertexts sent to the agent's
    stream are a prefix of those received from the client's stream, and the
    other way round: nothing is lost, duplicated, reordered or invented in
    what was delivered. *)
Theorem relay_tunnel_fifo c w q p :
  reachable c w -> w_att w !! q = Some p -> sole_accept w q p ->
  tx_of (w_out w) q `prefix_of` rx_of (w_rx w) p /\
  tx_of (w_out w) p `prefix_of` rx_of (w_rx w) q.
Proof. apply tunnel_prefixes. Qed.

Lemma relay_tunnel_fifo_witness :
  tx_of (w_out demo_relaying) 2 `prefix_of` rx_of (w_rx demo_relaying) 1 /\
  tx_of (w_out demo_relaying) 2 = [[x10; x11]] /\
  rx_of (w_rx demo_relaying) 1 = [[x10; x11]; [x12]].
Proof.
  split; [|by split; vm_compute].
  refine (proj1 (relay_tunnel_fifo demo_cfg demo_relaying 2 1 _ _ _)); [demo|vm_compute; reflexivity|].
  intros q' Hq'. assert (E : w_att demo_relaying = {[2%nat := 1%nat]}) by (vm_compute; reflexivity).
  rewrite E in Hq'. by apply lookup_singleton_Some in Hq' as [? _].
Defined.

(** C6: with any number of Accept calls on one session, each of them is still
    sent an ordered selection of what the client sent, and the client is sent
    an interleaving of prefixes of what they sent; no other stream's bytes ever
    enter the session. *)
Theorem relay_isolation c w p s :
  reachable c w -> sheap (w_svc w) !! p = Some s ->
  (forall q, w_att w !! q = Some p -> sublist (tx_of (w_out w) q) (rx_of (w_rx w) p)) /\
  tx_of (w_out w) p `prefix_of` (s_a2c s).*2 /\
  (forall q, w_att w !! q = Some p -> from q (s_a2c s) `prefix_of` rx_of (w_rx w) q) /\
  (forall q b, (q, b) ∈ s_a2c s -> w_att w !! q = Some p).
Proof.
  intros Hr Hs. pose proof (reachable_fifo c w Hr) as HF. split_and!.
  - intros q Hq. etrans; [apply prefix_sublist; eapply relayed_prefix, (f_asend _ _ _ _ _ _ _ HF q p s Hq Hs)|].
    etrans; [apply filter_fst_sublist|]. apply prefix_sublist. eapply relayed_prefix.
    by apply (f_crecv _ _ _ _ _ _ _ HF p s).
  - eapply relayed_prefix. by apply (f_csend _ _ _ _ _ _ _ HF p s).
  - intros q Hq. eapply relayed_prefix. by apply (f_arecv _ _ _ _ _ _ _ HF q p s).
  - intros q b Hin. apply (f_tags _ _ _ _ _ _ _ HF p s q b); auto.
Qed.

(** A run in which the agent opens two Accept streams for one session. *)
Definition demo_two : world :=
  demo_world (demo_notify ++ demo_pending ++ demo_paired ++
    [EvAccept; EvMain 3 (ChRecvAccept (Ok {| areq_Body := Some (AcceptRequest_AgentAccept
       {| aa_ProtocolVersion := 1; aa_SessionId := demo_sid; aa_AgentHello := [x03] |}) |}));
     EvMain 3 ChRun;
     EvRecv 1 (ChRecvConnect (Ok (demo_up [x10]))); EvRecv 1 (ChComm 3); EvMain 3 (ChSent None);
     EvRecv 1 (ChRecvConnect (Ok (demo_up [x11]))); EvRecv 1 (ChComm 2); EvMain 2 (ChSent None)]).

Lemma relay_isolation_witness :
  sublist (tx_of (w_out demo_two) 2) (rx_of (w_rx demo_two) 1) /\
  tx_of (w_out demo_two) 2 = [[x11]] /\ tx_of (w_out demo_two) 3 = [[x10]] /\
  rx_of (w_rx demo_two) 1 = [[x10]; [x11]].
Proof.
  split; [|by split_and!; vm_compute].
  assert (Hs : exists s, sheap (w_svc demo_two) !! 1%nat = Some s) by (vm_compute; eauto).
  destruct Hs as [s Hs].
  refine (proj1 (relay_isolation demo_cfg demo_two 1 s _ Hs) 2%nat _); [demo|vm_compute; reflexivity].
Defined.

(** ** Sessions and routes *)

(** C3: the life of a session.  Along any run a session keeps its ID and its
    agent, once it is ready it stays ready with the hello of the Accept that
    made it so, and once its context has ended the cause never changes.  No channel
    is ever closed twice: neither [close(a.done)] nor [close(sess.ready)] panics. *)
Theorem relay_session_stable c w evs w' sp x :
  reachable c w -> run w evs = Some w' -> sheap (w_svc w) !! sp = Some x ->
  exists y, sheap (w_svc w') !! sp = Some y /\
    s_id y = s_id x /\ s_agent y = s_agent x /\
    (s_ready x = true -> s_ready y = true /\ s_agentHello y = s_agentHello x) /\
    (forall e, s_ctx x = Some e -> s_ctx y = Some e) /\ panicked (w_svc w') = false.
Proof.
  intros Hr Hrun Hx. destruct (run_later c w evs w' Hr Hrun sp x Hx) as (y & H1 & H2 & H3 & H4 & H5). exists y.
  split_and!; try done; [by apply H4..|]. apply (never_panics c). by eapply run_reachable.
Qed.

Lemma relay_session_stable_witness :
  exists x y, sheap (w_svc demo_relaying) !! 1%nat = Some x /\ s_ready x = true /\
    sheap (w_svc demo_drained) !! 1%nat = Some y /\ s_agentHello y = s_agentHello x.
Proof.
  assert (Hx : exists x, sheap (w_svc demo_relaying) !! 1%nat = Some x /\ s_ready x = true)
    by (vm_compute; eauto).
  destruct Hx as (x & Hx & Hready). exists x.
  destruct (relay_session_stable demo_cfg demo_relaying demo_close demo_drained 1 x) as (y & Hy & _ & _ & H & _);
    [demo|vm_compute; reflexivity|exact Hx|].
  exists y. split_and!; [done|done|done|]. by apply H.
Defined.

Lemma disconnect_step c w p r k :
  reachable c w -> w_main w !! p = Some {| h_pc := Ret r; h_defers := [DUnregister k p] |} ->
  exists w', step w (EvMain p ChRun) = Some w' /\
    agents (w_svc w') = delete k (agents (w_svc w)) /\
    (exists ag, aheap (w_svc w') !! p = Some ag /\ ag_done ag = true) /\
    (forall sid sp x, sessions (w_svc w) !! sid = Some sp -> sheap (w_svc w) !! sp = Some x ->
       s_agent x = p -> exists y, sheap (w_svc w') !! sp = Some y /\ is_Some (s_ctx y)) /\
    (forall sp x, sheap (w_svc w) !! sp = Some x -> s_agent x <> p -> sheap (w_svc w') !! sp = Some x).
Proof.
  intros Hr Hp. destruct (reachable_inv c w Hr) as [HL _ _ _].
  destruct (li_stack _ _ HL p _ (stack_of _ _ _ Hp)) as [_ Hok].
  apply Forall_cons_iff in Hok as [(Hk & ag & Hag & Hrt & Hdone) _].
  eexists. split.
  { rewrite step_running by apply HL. simpl. rewrite Hp. unfold mbind, option_bind, step_main, step_return. simpl.
    unfold unregister. rewrite Hag. simpl. rewrite decide_True by done. rewrite Hdone. reflexivity. }
  simpl. destruct (cancel_sessions_of_step p (sessions (w_svc w)) (sheap (w_svc w))) as [H1 H2].
  split_and!.
  - done.
  - eexists. rewrite lookup_insert_eq. split; reflexivity.
  - intros sid sp x Hs Hx Ha. eexists. split; [by eapply H2|]. simpl. destruct (s_ctx x); eauto.
  - intros sp x Hx Hne. specialize (H1 sp). rewrite Hx in H1. inversion H1 as [? y Hxy|]; subst.
    destruct Hxy as [->|[_ ?]]; done.
Qed.

(** C7: one call per route.  A registered route belongs to a RegisterAgent call
    that is still running and owes its removal, and two calls never own the same
    route.  When the handler of RegisterAgent returns, its deferred function frees the
    route, closes [done], ends every session of the table that belongs to it, and
    leaves the other routes and the sessions of other agents alone. *)
Theorem relay_route_owner c w :
  reachable c w ->
  (forall k a, agents (w_svc w) !! k = Some a ->
     exists h, w_main w !! a = Some h /\ h_defers h = [DUnregister k a]) /\
  (forall k p p' h h', w_main w !! p = Some h -> w_main w !! p' = Some h' ->
     DUnregister k p ∈ h_defers h -> DUnregister k p' ∈ h_defers h' -> p = p') /\
  (forall p r k, w_main w !! p = Some {| h_pc := Ret r; h_defers := [DUnregister k p] |} ->
     exists w', step w (EvMain p ChRun) = Some w' /\
       agents (w_svc w') = delete k (agents (w_svc w)) /\
       (exists ag, aheap (w_svc w') !! p = Some ag /\ ag_done ag = true) /\
       (forall sid sp x, sessions (w_svc w) !! sid = Some sp -> sheap (w_svc w) !! sp = Some x ->
          s_agent x = p -> exists y, sheap (w_svc w') !! sp = Some y /\ is_Some (s_ctx y)) /\
       (forall sp x, sheap (w_svc w) !! sp = Some x -> s_agent x <> p -> sheap (w_svc w') !! sp = Some x)).
Proof.
  intros Hr. destruct (reachable_inv c w Hr) as [HL _ _ _]. split_and!; [| |intros p r k; by apply (disconnect_step c)].
  - intros k a Ha. destruct (li_reg _ _ HL k a Ha) as (ds & Hds & Hin).
    apply lookup_fmap_Some in Hds as (h & <- & Hh). exists h. split; [done|].
    destruct (li_stack _ _ HL a (h_defers h) (stack_of _ _ _ Hh)) as [Hok _].
    by destruct (stack_unregister _ _ _ _ Hok Hin) as [_ ?].
  - intros k p p' h h' Hp Hp' Hin Hin'.
    destruct (li_stack _ _ HL p _ (stack_of _ _ _ Hp)) as [_ H1].
    destruct (li_stack _ _ HL p' _ (stack_of _ _ _ Hp')) as [_ H2].
    rewrite Forall_forall in H1, H2. apply list_elem_of_In in Hin, Hin'.
    destruct (H1 _ Hin) as [E1 _], (H2 _ Hin') as [E2 _]. congruence.
Qed.

Lemma relay_route_owner_witness :
  (exists h, w_main demo_relaying !! 0%nat = Some h /\ h_defers h = [DUnregister (go_string demo_route) 0%nat]) /\
  exists w', step demo_leaving (EvMain 0 ChRun) = Some w' /\
    agents (w_svc w') = delete (go_string demo_route) (agents (w_svc demo_leaving)).
Proof.
  split; [refine (proj1 (relay_route_owner demo_cfg demo_relaying _) _ _ _); [demo|vm_compute; reflexivity]|].
  destruct (proj2 (proj2 (relay_route_owner demo_cfg demo_leaving ltac:(demo))) 0%nat (Some (EFromContext CtxCanceled))
    (go_string demo_route)) as (w' & Hs & Ha & _); [vm_compute; reflexivity|]. by exists w'.
Defined.

(** C8: pairing.  An Accept call joins exactly the published session its
    frame names, that of a Connect call that is still running; the first to do
    so sets the agent's hello and later ones do not change it.  With no such
    session the call fails and nothing changes. *)
Theorem relay_pairing c w q h accept :
  reachable c w -> w_main w !! q = Some h -> h_pc h = AccLookup accept ->
  exists w', step w (EvMain q ChRun) = Some w' /\
    match sessions (w_svc w) !! go_string (aa_SessionId accept) with
    | Some sp =>
        exists x y hc, sheap (w_svc w) !! sp = Some x /\ s_id x = go_string (aa_SessionId accept) /\
          w_main w !! sp = Some hc /\
          w_main w' !! q = Some {| h_pc := AccLoop sp; h_defers := [DCancelSession sp] |} /\
          sheap (w_svc w') !! sp = Some y /\ s_ready y = true /\
          s_agentHello y = (if s_ready x then s_agentHello x else aa_AgentHello accept)
    | None =>
        w_main w' !! q = Some {| h_pc := Ret (Some (EStatus NotFound "session is not pending"));
                                 h_defers := [] |} /\ w_svc w' = w_svc w
    end.
Proof.
  intros Hr Hq Hpc. destruct (reachable_inv c w Hr) as [HL HH _ _].
  pose proof (HH q h Hq) as [Hok _]. unfold handler_ok in Hok. rewrite Hpc in Hok.
  rewrite step_running by apply HL. simpl. rewrite Hq. unfold mbind, option_bind, step_main, step_accept. rewrite Hpc. unfold accept_lookup.
  destruct (sessions (w_svc w) !! _) as [sp|] eqn:Hsp; simpl.
  - destruct (li_sess _ _ HL _ _ Hsp) as (ds & Hds & Hin).
    apply lookup_fmap_Some in Hds as (hc & <- & Hhc).
    destruct (li_stack _ _ HL sp _ (stack_of _ _ _ Hhc)) as [_ Hdok].
    rewrite Forall_forall in Hdok. apply list_elem_of_In in Hin. destruct (Hdok _ Hin) as (x & Hx & Hid).
    rewrite Hx. simpl. destruct (li_once _ _ HL sp x Hx) as [Ho _].
    eexists. split; [reflexivity|]. rewrite Ho. destruct (s_ready x) eqn:Hrd; simpl.
    + exists x, x, hc. rewrite lookup_insert_eq, Hok, Hrd. done.
    + exists x, (set_ready (aa_AgentHello accept) x), hc. rewrite !lookup_insert_eq, Hok, Hrd. done.
  - eexists. split; [reflexivity|]. simpl. rewrite lookup_insert_eq, Hok. done.
Qed.

Lemma relay_pairing_witness :
  exists w' x y, step demo_lookup (EvMain 2 ChRun) = Some w' /\
    sheap (w_svc demo_lookup) !! 1%nat = Some x /\ s_ready x = false /\
    sheap (w_svc w') !! 1%nat = Some y /\ s_agentHello y = [x02].
Proof.
  destruct (relay_pairing demo_cfg demo_lookup 2 {| h_pc := AccLookup demo_agent_accept; h_defers := [] |}
    demo_agent_accept) as (w' & Hs & H); [demo|vm_compute; reflexivity|reflexivity|].
  assert (E : sessions (w_svc demo_lookup) !! go_string (aa_SessionId demo_agent_accept) = Some 1%nat)
    by (vm_compute; reflexivity).
  rewrite E in H. destruct H as (x & y & hc & Hx & _ & _ & _ & Hy & _ & Hh).
  assert (Hf : s_ready x = false).
  { enough (Hm : (s_ready <$> sheap (w_svc demo_lookup) !! 1%nat) = Some false)
      by (rewrite Hx in Hm; by injection Hm).
    vm_compute. reflexivity. }
  exists w', x, y. rewrite Hf in Hh. done.
Defined.

(** C9: no Connect call is stuck in the handshake.  Once [HandshakeTimeout] has
    passed, a call that waits for the agent to take the notification or to
    accept can give up with [DeadlineExceeded] and run all its deferred calls, with
    no help from the client, the agent or any other call. *)
Theorem relay_handshake_deadline c w p h d dl :
  reachable c w -> w_main w !! p = Some h -> deadline_of (h_pc h) = Some dl ->
  HandshakeTimeout (cfg (NewService c)) <= d ->
  exists w' msg, run w (EvTick d :: EvMain p ChTimeout :: unwind p (S (length (h_defers h)))) = Some w' /\
    w_main w' !! p = None /\ w_ret w' !! p = Some (Some (EStatus DeadlineExceeded msg)).
Proof.
  intros Hr Hp Hdl Hd. pose proof (reachable_deadline c w Hr p h dl Hp Hdl) as Hle.
  rewrite (reachable_cfg c w Hr) in Hle.
  assert (Hpos : 0 < HandshakeTimeout (cfg (NewService c))).
  { simpl. destruct (Z.leb_spec (HandshakeTimeout c) 0); [done|lia]. }
  assert (Hnow : (dl <=? w_now w + d) = true) by (apply Z.leb_le; lia).
  assert (Ht : step w (EvTick d) = Some (set_now (w_now w + d) w)).
  { rewrite step_running by (by eapply never_panics). simpl. by rewrite (proj2 (Z.leb_le 0 d)) by lia. }
  assert (Hs : exists msg, step (set_now (w_now w + d) w) (EvMain p ChTimeout)
    = Some (goto p h (Ret (Some (EStatus DeadlineExceeded msg))) (set_now (w_now w + d) w))).
  { rewrite step_running by exact (never_panics c w Hr). simpl. rewrite Hp. unfold mbind, option_bind, step_main, step_connect.
    destruct (h_pc h); simplify_eq/=; rewrite Hnow; eauto. }
  destruct Hs as [msg Hs]. pose proof (reach_step _ _ _ _ Hr Ht) as Hr1.
  destruct (unwind_terminates c _ p _ (h_defers h) (reach_step _ _ _ _ Hr1 Hs) (lookup_insert_eq _ _ _))
    as (w' & Hu & Hm & Hret & _).
  exists w', msg. split; [|split; [by rewrite Hm, lookup_delete_eq|exact Hret]]. cbn [run]. rewrite Ht. cbn [mbind option_bind run].
  rewrite Hs. exact Hu.
Qed.

Lemma relay_handshake_deadline_witness :
  exists w' msg, run demo_waiting (EvTick (10 * Second) :: EvMain 1 ChTimeout :: unwind 1 5) = Some w' /\
    w_main w' !! 1%nat = None /\ w_ret w' !! 1%nat = Some (Some (EStatus DeadlineExceeded msg)).
Proof.
  assert (Hh : exists h, w_main demo_waiting !! 1%nat = Some h /\
    deadline_of (h_pc h) = Some (10 * Second) /\ length (h_defers h) = 4%nat)
    by (vm_compute; eauto).
  destruct Hh as (h & Hp & Hd & Hl). change 5%nat with (S 4). rewrite <- Hl.
  refine (relay_handshake_deadline demo_cfg demo_waiting 1 h (10 * Second) (10 * Second) _ Hp Hd _);
    [demo|vm_compute; discriminate].
Defined.

(** ** Two behaviours worth knowing *)

(** The client does not read: the Connect call is stuck in its [Send] with a
    first payload while a second one waits, and the agent's stream is cancelled. *)
Definition demo_stalled : world :=
  demo_world (demo_notify ++ demo_pending ++ demo_paired ++
    [EvRecv 2 (ChRecvAccept (Ok (demo_down [x20]))); EvRecv 2 (ChComm 1);
     EvRecv 2 (ChRecvAccept (Ok (demo_down [x21]))); EvStreamDone 2 CtxCanceled]).

(** An Accept call whose receiver holds a payload for a Connect call in [Send],
    in a session whose context is not done, cannot move. *)
Lemma stalled_no_step w q p ds b b' :
  w_main w !! q = Some {| h_pc := AccLoop p; h_defers := ds |} ->
  w_recv w !! q = Some (RecvAgent p (Some b)) -> h_pc <$> w_main w !! p = Some (ConSend b') ->
  s_ctx <$> sheap (w_svc w) !! p = Some None -> w_errch w !! q = None ->
  (forall c, step w (EvMain q c) = None) /\ (forall c, step w (EvRecv q c) = None).
Proof.
  intros Hm Hr Hc Hx He.
  destruct (w_main w !! p) as [h1|] eqn:Hh; [|done]. destruct (sheap (w_svc w) !! p) as [x|] eqn:Hs; [|done].
  injection Hc as Hc. injection Hx as Hx. split; intros c; unfold step; (destruct (panicked (w_svc w)); [done|]); cbn [exec].
  - rewrite Hm. cbn [mbind option_bind step_main h_pc]. unfold step_accept. cbn [h_pc].
    destruct c; try done; rewrite ?He, ?Hs; cbn [mbind option_bind]; by rewrite ?Hx.
  - rewrite Hr. cbn [mbind option_bind]. unfold step_recv.
    destruct c as [| | | | | | | | | |r]; try done; rewrite ?Hs; cbn [mbind option_bind]; [by rewrite Hx|].
    destruct (w_main w !! r) as [hr|] eqn:Hq; [|done]. cbn [mbind option_bind].
    destruct (h_pc hr) eqn:Hpc; try done. case_decide; [|done]. subst. congruence.
Qed.

(** C40: cancelling the agent's stream does not always tear the session down.
    There is a reachable state in which the stream of an Accept call is cancelled
    and neither its handler nor its receiving goroutine can take any step: both
    wait for the client's side, as [Accept] selects on the session's context and
    not on its own stream's. *)
Theorem relay_accept_cancel_waits :
  reachable demo_cfg demo_stalled /\ panicked (w_svc demo_stalled) = false /\ w_sctx demo_stalled !! 2%nat = Some CtxCanceled /\
  is_Some (w_main demo_stalled !! 2%nat) /\
  (forall c, step demo_stalled (EvMain 2 c) = None) /\ (forall c, step demo_stalled (EvRecv 2 c) = None).
Proof.
  split; [demo|]. split; [vm_compute; reflexivity|]. split; [vm_compute; reflexivity|]. split; [vm_compute; eauto|].
  apply (stalled_no_step demo_stalled 2 1 [DCancelSession 1%nat] [x21] [x20]); vm_compute; reflexivity.
Qed.

(** A second Accept call joins a session that was already accepted. *)
Lemma relay_second_accept_joins :
  w_att demo_two !! 2%nat = Some 1%nat /\ w_att demo_two !! 3%nat = Some 1%nat /\
  h_pc <$> w_main demo_two !! 3%nat = Some (AccLoop 1).
Proof. split_and!; vm_compute; reflexivity. Qed.
