(* ===== verification/EndpointProps.v ===== *)
(** * The endpoints against each other and against the relay

    The frames of the two endpoint scripts are the ones the relay's handlers ask
    for; two scripts that share a code end in linked transports; the whole tunnel,
    client to relay to agent, is a byte stream; the agent's limits and retries. *)

From S2P Require Import Prelude GoBase Proto Noise AccessCode Bridge BridgeInv BridgeProps Endpoint.
From S2P Require Import RelayService RelayLease RelayInv RelayFifo RelayProps.

(** ** Frames *)

(** The frames the relay sends to the client (service.go, lines 142 and 177). *)
Definition assigned_frame (sid : bytes) : ConnectResponse :=
  {| cres_Body := Some (ConnectResponse_SessionAssigned {| sa_SessionId := sid |}) |}.
Definition accepted_frame (sid hello : bytes) : ConnectResponse :=
  {| cres_Body := Some (ConnectResponse_AgentAccept
       {| aa_ProtocolVersion := ProtocolVersion; aa_SessionId := sid; aa_AgentHello := hello |}) |}.



(** ** The scripts *)

Section scripts.
Context {FC : Codec PlainFrame} {NL : NoiseLib} {NS : NoiseSpec}.

Lemma client_script env code hello :
  (handleClientTunnel env code).2 = [client_open (RouteID code); client_handshake hello] ->
  exists assigned i, ce_assigned env = Ok assigned /\
    (exists m, ConnectResponse_GetSessionAssigned assigned = Some m /\ len (sa_SessionId m) = 16 /\
       StartInitiator (PSK code) (RouteID code) (sa_SessionId m) (ce_rnd env) = Ok (hello, i)) /\
    (handleClientTunnel env code).1 =
      match ce_accept env with
      | Err e => Err (EWrap "waiting for agent" e)
      | Ok f => match ConnectResponse_GetAgentAccept f with
                | None => Err (ENew "relay returned invalid agent handshake")
                | Some accept => (Finish i (aa_AgentHello accept)).1
                end
      end.
Proof.
  unfold handleClientTunnel. intros H.
  repeat (case_match; simplify_eq/=; try done).
  all: eexists _, _; split; [done|]; split; [|done];
    match goal with E : negb (?a =? 16) = false |- _ => apply negb_false_iff, Z.eqb_eq in E end; eauto 10.
Qed.

Lemma agent_script env cfg incoming tr h sid hello' :
  handleAgentTunnel env cfg incoming = (AgentBridge tr h, [agent_accept sid hello']) ->
  sid = ras_SessionId incoming /\ len sid = 16 /\
  Respond (PSK (ac_Code cfg)) (RouteID (ac_Code cfg)) sid (ras_ClientHello incoming) (ae_rnd env) = Ok (hello', tr).
Proof.
  unfold handleAgentTunnel. destruct (_ || _) eqn:E; [done|]. intros H.
  apply orb_false_iff in E as [_ E]. apply negb_false_iff, Z.eqb_eq in E.
  repeat case_match; simplify_eq/=. done.
Qed.
End scripts.

(** A bridge that receives an abnormal [Close] first. *)
Lemma recv_close_start {FC : Codec PlainFrame} {NL : NoiseLib} u c m u' code msg :
  Decrypt u c = (Ok m, u') -> (Unmarshal m : result goerr PlainFrame) = Ok (close_frame code msg) ->
  (code =? CLOSE_CODE_NORMAL) = false ->
  exists b, Bridge.step_recv (Bridge_start u) (BRecv (Ok c)) = Some b /\
    b_errCh b = [Some (ENew ("remote closed tunnel: " +:+ msg))] /\ bs_pc (b_sender b) = SRead /\ b_main b = MFirst.
Proof.
  intros Hd Hu Hn. unfold Bridge.step_recv. cbn [b_receiver br_pc Bridge_start b_crypt]. rewrite Hd, Hu.
  eexists. split; [reflexivity|]. unfold handle_frame, close_frame. cbn [pf_Body close_Code close_Message]. rewrite Hn. done.
Qed.

(** ** The agent's semaphore *)

Lemma agent_sem max s :
  0 < max -> agent_reach max s -> as_sem s = len (as_tunnels s) /\ as_sem s <= max.
Proof.
  intros Hm. induction 1 as [|s ev s' _ IH Hs]; [split; [done|simpl; lia]|].
  unfold agent_step in Hs. unfold len in *.
  destruct (as_pc s), ev as [[m|e]| | | |i]; simplify_eq/=; try done;
    try (destruct (as_tunnels s !! i) eqn:Hi; simplify_eq/=;
         pose proof (lookup_lt_Some _ _ _ Hi); rewrite length_delete by eauto; lia).
  destruct (Z.ltb_spec (as_sem s) max); simplify_eq/=. lia.
Qed.

(** ** Backoff *)

Lemma agent_turns_waits ts b i w :
  (agent_turns b ts).1 !! i = Some w -> w = Nat.iter i next_backoff b.
Proof.
  revert b i. induction ts as [|t ts IH]; intros b i H; [done|]. cbn [agent_turns] in H.
  destruct (tn_done t); [done|]. destruct (tn_done_waiting t).
  - destruct i as [|i]; simplify_eq/=; done.
  - destruct (agent_turns (next_backoff b) ts) as [ws r] eqn:E. destruct i as [|i]; simplify_eq/=; [done|].
    specialize (IH (next_backoff b) i). rewrite E in IH. rewrite (IH H). clear. 
    induction i as [|i IHi]; simpl; [done|]. by rewrite IHi.
Qed.

Lemma backoff_iter i : Nat.iter i next_backoff Second_ns = Z.min (2 ^ Z.of_nat i * Second_ns) (30 * Second_ns).
Proof.
  induction i as [|i IH]; [done|]. cbn [Nat.iter nat_rect]. change (nat_rect _ _ _ i) with (Nat.iter i next_backoff Second_ns).
  rewrite IH. unfold next_backoff. rewrite Nat2Z.inj_succ, Z.pow_succ_r by lia.
  pose proof (Z.pow_pos_nonneg 2 (Z.of_nat i) ltac:(lia) ltac:(lia)). unfold Second_ns.
  destruct (Z.ltb_spec (30 * 1000000000) (Z.min (2 ^ Z.of_nat i * 1000000000) (30 * 1000000000) * 2)); lia.
Qed.

Lemma agent_turns_return ts b : (agent_turns b ts).2 = true ->
  exists t, t ∈ ts /\ (tn_done t || tn_done_waiting t) = true.
Proof.
  revert b. induction ts as [|t ts IH]; intros b H; [done|]. cbn [agent_turns] in H.
  destruct (tn_done t) eqn:E1; [exists t; rewrite E1; split; [left|done]|].
  destruct (tn_done_waiting t) eqn:E2; [exists t; rewrite E2, orb_true_r; split; [left|done]|].
  destruct (agent_turns (next_backoff b) ts) as [ws r] eqn:E. simpl in H. subst.
  destruct (IH (next_backoff b)) as (t' & Hin & Ht); [by rewrite E|]. exists t'. split; [by right|done].
Qed.

Lemma agent_turns_forever ts b ws : agent_turns b ts = (ws, false) -> length ws = length ts.
Proof.
  revert b ws. induction ts as [|t ts IH]; intros b ws H; cbn [agent_turns] in H; [by simplify_eq|].
  do 2 (case_match; simplify_eq). destruct (agent_turns (next_backoff b) ts) as [ws' r] eqn:E. simplify_eq/=.
  f_equal. by eapply IH.
Qed.

(** ** Properties *)

Section properties.
Context {FC : Codec PlainFrame} {FS : CodecSpec PlainFrame} {NL : NoiseLib} {NS : NoiseSpec}.

(** The endpoints speak the relay's protocol.  For a code with a 16-byte
    route, 16-byte session IDs and non-empty hellos, every frame an endpoint's
    script sends passes the check of the relay's handler, and every frame the
    relay's handler sends passes the check of the script, with the same contents. *)
Lemma endpoint_conformance route sid hello hello' b :
  len route = 16 -> len sid = 16 -> hello <> [] -> hello' <> [] ->
  valid_open (ConnectRequest_GetClientOpen (client_open route)) = Some route /\
  valid_handshake (ConnectRequest_GetClientHandshake (client_handshake hello)) = Some hello /\
  valid_accept (AcceptRequest_GetAgentAccept (agent_accept sid hello'))
    = Some {| aa_ProtocolVersion := ProtocolVersion; aa_SessionId := sid; aa_AgentHello := hello' |} /\
  ConnectResponse_GetSessionAssigned (assigned_frame sid) = Some {| sa_SessionId := sid |} /\
  (ConnectRequest_GetCiphertext (client_SendCiphertext b) = Some {| ct_Payload := b |} /\
   agent_RecvCiphertext (Ok (acceptCiphertext b)) = Ok b) /\
  (AcceptRequest_GetCiphertext (agent_SendCiphertext b) = Some {| ct_Payload := b |} /\
   client_RecvCiphertext (Ok (connectCiphertext b)) = Ok b).
Proof.
  intros Hr Hs Hh Hh'. unfold valid_open, valid_handshake, valid_accept. simpl. rewrite Hr, Hs. simpl.
  assert (Hz : forall l : bytes, l <> [] -> (len l =? 0) = false)
    by (intros [|x l] Hl; [done|]; apply Z.eqb_neq; unfold len; simpl; lia).
  by rewrite !Hz.
Qed.

(** C17: a shared code gives a secure tunnel.  When the relay assigns a session,
    passes the client's hello on and returns the agent's answer, the two scripts,
    run with the same code, reach [Bridge] with transports that decrypt each
    other. *)
Theorem endpoint_handshake cenv aenv code cfg sid hello hello' tr h :
  ac_Code cfg = code ->
  (handleClientTunnel cenv code).2 = [client_open (RouteID code); client_handshake hello] ->
  ce_assigned cenv = Ok (assigned_frame sid) ->
  handleAgentTunnel aenv cfg {| ras_ProtocolVersion := ProtocolVersion; ras_SessionId := sid; ras_ClientHello := hello |}
    = (AgentBridge tr h, [agent_accept sid hello']) ->
  ce_accept cenv = Ok (accepted_frame sid hello') ->
  exists ti, (handleClientTunnel cenv code).1 = Ok ti /\ linked ti tr /\ linked tr ti.
Proof.
  intros Hcode Hsent Has Hag Hacc. destruct (client_script _ _ _ Hsent) as (f & i & Hf & (m & Hm & _ & Hi) & ->).
  rewrite Has in Hf. injection Hf as <-. injection Hm as <-. simpl in Hi.
  destruct (agent_script _ _ _ _ _ _ _ Hag) as (_ & _ & Hresp). simpl in Hresp. rewrite Hcode in Hresp.
  destruct (handshake _ _ _ _ _ _ _ _ _ Hi Hresp) as (ti & Hfin & Hl). rewrite Hacc. simpl. rewrite Hfin. by exists ti.
Qed.

(** C18: the whole tunnel.  A client bridge [a] and an agent bridge [b] over
    linked transports, a relay session with one Accept call between them, gRPC
    streams that deliver prefixes: the bytes that come out at the agent are a
    prefix of the bytes that went in at the client, and the other way round, and
    complete once the half-close has arrived. *)
Theorem tunnel_end_to_end c w p q ta tb a b :
  reachable c w -> w_att w !! q = Some p -> sole_accept w q p ->
  breach ta a -> breach tb b -> linked ta tb -> linked tb ta ->
  rx_of (w_rx w) p `prefix_of` bs_sent (b_sender a) -> br_got (b_receiver b) `prefix_of` tx_of (w_out w) q ->
  rx_of (w_rx w) q `prefix_of` bs_sent (b_sender b) -> br_got (b_receiver a) `prefix_of` tx_of (w_out w) p ->
  (br_written (b_receiver b) `prefix_of` bs_read (b_sender a) /\
   br_written (b_receiver a) `prefix_of` bs_read (b_sender b)) /\
  (existsb is_half_close (br_frames (b_receiver b)) = true -> br_written (b_receiver b) = bs_read (b_sender a)) /\
  (existsb is_half_close (br_frames (b_receiver a)) = true -> br_written (b_receiver a) = bs_read (b_sender b)).
Proof.
  intros Hr Hq Hsole Ha Hb Hl Hl' H1 H2 H3 H4.
  destruct (tunnel_prefixes c w q p Hr Hq Hsole) as [F1 F2].
  assert (Hp : br_got (b_receiver b) `prefix_of` bs_sent (b_sender a)) by (do 2 (etrans; [eassumption|]); done).
  assert (Hp' : br_got (b_receiver a) `prefix_of` bs_sent (b_sender b)) by (do 2 (etrans; [eassumption|]); done).
  split_and!; [by eapply stream_prefix|by eapply stream_prefix|by apply (received_all ta tb)|by apply (received_all tb ta)].
Qed.

(** An unreachable target is reported.  When the agent cannot open its
    target it sends one [Close] frame, and the client's bridge, on receiving it,
    stops with an error that carries the message, and not silently. *)
Lemma target_unreachable_reported tr u c t' :
  linked tr u ->
  SendClose tr CLOSE_CODE_TARGET_UNREACHABLE "target is unreachable" None = (None, t', Some c) ->
  exists b', brun (Bridge_start u) [BevRecv (BRecv (Ok c)); BevMain; BevSend (BRead [] (Some ENetClosed)); BevMain] = Some b' /\
    b_main b' = MRet (Some (ENew "remote closed tunnel: target is unreachable")).
Proof.
  intros Hl Hs. unfold SendClose, sendPlain, seal in Hs.
  destruct (Marshal _) as [m|] eqn:Hm; [|done]. destruct (Encrypt tr m) as [[c'|] t1] eqn:He; [|done].
  injection Hs as -> ->. destruct (linked_message _ _ _ _ _ Hl He) as (_ & u' & Hd & _).
  assert (Hu : (Unmarshal m : result goerr PlainFrame) = Ok (close_frame CLOSE_CODE_TARGET_UNREACHABLE "target is unreachable"))
    by (by apply unmarshal_marshal).
  destruct (recv_close_start u c m u' _ _ Hd Hu) as (b1 & E1 & C1 & S1 & M1); [done|].
  set (e := Some (ENew "remote closed tunnel: target is unreachable")) in *.
  assert (E2 : Bridge.step_main b1 = Some (close_both (Bridge.cancel CtxCanceled (take_err [] (MSecond e) b1))))
    by (unfold Bridge.step_main; by rewrite M1, C1).
  cbn [brun bstep]. rewrite E1. cbn [mbind option_bind]. rewrite E2. cbn [mbind option_bind].
  set (b2 := close_both _). assert (S2 : bs_pc (b_sender b2) = SRead) by done.
  unfold step_send. rewrite S2. cbn [mbind option_bind]. eexists. split; [reflexivity|]. done.
Qed.
End properties.

(** ** Witnesses *)

#[local] Existing Instances Wire.frame_codec Wire.frame_codec_spec ClearNoise.clear_noise ClearNoise.clear_noise_spec.

Definition demo_agent_cfg : AgentConfig :=
  {| ac_Code := demo_code; ac_Target := "127.0.0.1:22"; ac_Token := ""; ac_CAFile := "";
     ac_AllowInsecure := false; ac_Handler := false; ac_MaxTunnels := 1; ac_DialTimeout := 0; ac_IdleTimeout := 0 |}.
Definition demo_client_hello : bytes := ClearNoise.hello (config (PSK demo_code) (RouteID demo_code) demo_sid true).
Definition demo_client_env : client_env :=
  {| ce_connect := None; ce_send_open := None; ce_assigned := Ok (assigned_frame demo_sid); ce_rnd := [];
     ce_send_handshake := None; ce_accept := Ok (accepted_frame demo_sid demo_client_hello) |}.
Definition demo_agent_env : agent_env :=
  {| ae_rnd := []; ae_accept := None; ae_send_accept := None;
     ae_target := {| te_dial := None; te_listen := None; te_dial_handler := None; te_accept := None |};
     ae_send_close := None |}.

Lemma endpoint_handshake_witness :
  exists ti, (handleClientTunnel demo_client_env demo_code).1 = Ok ti /\
    linked ti demo_transport /\ linked demo_transport ti.
Proof.
  refine (endpoint_handshake demo_client_env demo_agent_env demo_code demo_agent_cfg demo_sid
    demo_client_hello demo_client_hello demo_transport false _ _ _ _ _); reflexivity.
Defined.

(** The relay carries the ciphertexts of the two bridges of [BridgeProps]. *)
Definition demo_sent (b : bridge) (i : nat) : bytes := default [] (bs_sent (b_sender b) !! i).
Definition demo_carry (i : nat) : list event :=
  [EvRecv 1 (ChRecvConnect (Ok (demo_up (demo_sent demo_client i)))); EvRecv 1 (ChComm 2); EvMain 2 (ChSent None)].
Definition demo_tunnel : world :=
  demo_world (demo_notify ++ demo_pending ++ demo_paired ++ demo_carry 0 ++ demo_carry 1 ++ demo_carry 2 ++
    [EvRecv 2 (ChRecvAccept (Ok (demo_down (demo_sent demo_server 0)))); EvRecv 2 (ChComm 1); EvMain 1 (ChSent None)] ++
    demo_carry 3).

Lemma tunnel_end_to_end_witness :
  br_written (b_receiver demo_server) = bs_read (b_sender demo_client) /\ bs_read (b_sender demo_client) = [x68; x69].
Proof.
  split; [|vm_compute; reflexivity].
  refine (proj1 (proj2 (tunnel_end_to_end demo_cfg demo_tunnel 1 2 demo_transport demo_transport demo_client demo_server
    _ _ _ _ _ _ _ _ _ _ _)) _).
  - demo.
  - vm_compute. reflexivity.
  - intros q' Hq'. assert (E : w_att demo_tunnel = {[2%nat := 1%nat]}) by (vm_compute; reflexivity).
    rewrite E in Hq'. by apply lookup_singleton_Some in Hq' as [? _].
  - demo_run.
  - demo_run.
  - exact demo_linked.
  - exact demo_linked.
  - demo_prefix.
  - demo_prefix.
  - demo_prefix.
  - demo_prefix.
  - vm_compute. reflexivity.
Defined.

(** ** The agent's limits *)

(** The agent runs at most [MaxTunnels] tunnels, over all its
    registrations: the limit is positive, the semaphore counts the running tunnel
    goroutines exactly, and a notification waits for a free slot precisely when
    they are at the limit. *)
Lemma tunnels_bounded cfg cfg' s :
  agent_defaults cfg = Ok cfg' -> agent_reach (ac_MaxTunnels cfg') s ->
  0 < ac_MaxTunnels cfg' /\ as_sem s = len (as_tunnels s) /\ as_sem s <= ac_MaxTunnels cfg' /\
  (forall m, as_pc s = RgSem m ->
     (agent_step (ac_MaxTunnels cfg') s AeAcquire = None <-> as_sem s = ac_MaxTunnels cfg')).
Proof.
  intros Hd Hr. assert (Hm : 0 < ac_MaxTunnels cfg').
  { unfold agent_defaults in Hd. case_match; simplify_eq/=. case_match; lia. }
  destruct (agent_sem _ s Hm Hr) as [H1 H2]. split_and!; [done..|].
  intros m Hp. unfold agent_step. rewrite Hp.
  destruct (Z.ltb_spec (as_sem s) (ac_MaxTunnels cfg')); split; intros; (done || lia).
Qed.

Definition demo_notification : RegisterAgentResponse :=
  {| ras_ProtocolVersion := 1; ras_SessionId := demo_sid; ras_ClientHello := [x01] |}.
Fixpoint agent_run (max : Z) (s : agent_state) (evs : list agent_event) : option agent_state :=
  match evs with
  | [] => Some s
  | ev :: evs' => s' ← agent_step max s ev; agent_run max s' evs'
  end.

Lemma agent_run_reach max s evs s' : agent_reach max s -> agent_run max s evs = Some s' -> agent_reach max s'.
Proof.
  revert s. induction evs as [|ev evs IH]; intros s Hs H; simplify_eq/=; [done|].
  destruct (agent_step max s ev) eqn:E; simplify_eq/=. eapply IH; [|done]. by eapply areach_step.
Qed.

Definition demo_full : agent_state :=
  {| as_pc := RgSem demo_notification; as_sem := 1; as_tunnels := [demo_notification] |}.

Lemma RunAgent_waits cfg dial ts r ws :
  RunAgent cfg dial ts = (r, ws) ->
  (forall i w, ws !! i = Some w -> w = Z.min (2 ^ Z.of_nat i * Second_ns) (30 * Second_ns)) /\
  match r with
  | None => length ws = length ts
  | Some None => exists t, t ∈ ts /\ (tn_done t || tn_done_waiting t) = true
  | Some (Some e) => agent_defaults cfg = Err e \/ dial = Some e
  end.
Proof.
  unfold RunAgent. intros E. destruct (agent_defaults cfg) as [c|e]; [|by simplify_eq; split; [|left]].
  destruct dial as [e|]; [by simplify_eq; split; [|right]|].
  unfold agent_waits in E. destruct (agent_turns Second_ns ts) as [ws' r'] eqn:Et. simplify_eq. split.
  - intros i w Hw. rewrite <- backoff_iter. apply (agent_turns_waits ts). by rewrite Et.
  - destruct r'; [apply (agent_turns_return ts Second_ns); by rewrite Et|by apply (agent_turns_forever ts Second_ns)].
Qed.

(** C19: reconnecting.  [RunAgent] waits 1, 2, 4, ... seconds between
    registrations, never more than 30; the sequence does not start again after a
    registration that worked.  Once running it returns only because its context is
    done, and then without an error.  Over all its registrations it runs at most
    [MaxTunnels] tunnels: the limit is positive, the semaphore counts the running
    tunnel goroutines exactly, and a notification waits for a free slot precisely when
    they are at the limit. *)
Theorem agent_backoff cfg dial ts r ws :
  RunAgent cfg dial ts = (r, ws) ->
  (forall i w, ws !! i = Some w -> w = Z.min (2 ^ Z.of_nat i * Second_ns) (30 * Second_ns)) /\
  match r with
  | None => length ws = length ts
  | Some None => exists t, t ∈ ts /\ (tn_done t || tn_done_waiting t) = true
  | Some (Some e) => agent_defaults cfg = Err e \/ dial = Some e
  end /\
  (forall cfg' s, agent_defaults cfg = Ok cfg' -> agent_reach (ac_MaxTunnels cfg') s ->
     0 < ac_MaxTunnels cfg' /\ as_sem s = len (as_tunnels s) /\ as_sem s <= ac_MaxTunnels cfg' /\
     (forall m, as_pc s = RgSem m ->
        (agent_step (ac_MaxTunnels cfg') s AeAcquire = None <-> as_sem s = ac_MaxTunnels cfg'))).
Proof.
  intros E. destruct (RunAgent_waits cfg dial ts r ws E) as [H1 H2]. split_and!; [done|done|].
  intros cfg' s. apply tunnels_bounded.
Qed.

Definition demo_turns : list turn := repeat {| tn_done := false; tn_done_waiting := false |} 7.

Lemma agent_backoff_witness :
  exists ws, RunAgent demo_agent_cfg None demo_turns = (None, ws) /\ ws !! 6%nat = Some (30 * Second_ns) /\
    30 * Second_ns = Z.min (2 ^ 6 * Second_ns) (30 * Second_ns) /\ agent_step 1 demo_full AeAcquire = None.
Proof.
  exists (RunAgent demo_agent_cfg None demo_turns).2. split; [vm_compute; reflexivity|]. split; [vm_compute; reflexivity|].
  destruct (agent_backoff demo_agent_cfg None demo_turns None (RunAgent demo_agent_cfg None demo_turns).2) as (H1 & _ & H2);
    [vm_compute; reflexivity|]. split; [apply (H1 6%nat); vm_compute; reflexivity|].
  destruct (H2 {| ac_Code := demo_code; ac_Target := "127.0.0.1:22"; ac_Token := ""; ac_CAFile := ""; ac_AllowInsecure := false;
       ac_Handler := false; ac_MaxTunnels := 1; ac_DialTimeout := 10 * Second_ns; ac_IdleTimeout := 1800 * Second_ns |} demo_full)
    as (_ & _ & _ & H3); [reflexivity| |exact (proj2 (H3 demo_notification eq_refl) eq_refl)].
  apply (agent_run_reach 1 agent_init [AeRegister; AeRecv (Ok demo_notification); AeAcquire; AeRecv (Ok demo_notification)]);
    [apply areach_init|reflexivity].
Defined.

(** [openTarget] leaks no connection.  When it fails nothing it opened is
    left open; when it succeeds exactly the bridge's side is open, and with a
    handler also the handler's side, which its goroutine closes. *)
Lemma open_target_no_leak cfg env :
  match openTarget cfg env with
  | (Err _, open) => open = []
  | (Ok false, open) => ac_Handler cfg = false /\ open = [TargetConn]
  | (Ok true, open) => ac_Handler cfg = true /\ open = [BridgeConn; HandlerConn]
  end.
Proof.
  unfold openTarget. destruct (ac_Handler cfg); cbn [negb].
  - destruct (te_listen env), (te_dial_handler env), (te_accept env); done.
  - by destruct (te_dial env).
Qed.
