(* ===== verification/Commands.v ===== *)
(** * The commands (internal/cli/root.go)

    The bodies of [relay], [expose], [connect] and [serve], in the state and error
    monad of [Effects]: they check their flags, read and write files, print the
    connection code, and end in the configuration of the process they start
    ([RunServer], [RunAgent] and [RunClient] are modelled in [Server], [Endpoint]
    and [Client]). *)

From S2P Require Import Prelude GoBase Effects Utf8 Base64 GoStrings Config Os NetAddr Proto AccessCode.
From S2P Require Import SshServer Client Cli Bridge Endpoint Auth RelayService Server.

(** ** Output *)

(** [json.Marshal] of a string: quotes, backslashes and control characters are
    escaped, and so are the HTML characters and the two line separators. *)
Definition json_rune (r : Z) : bytes :=
  if (r =? 34) || (r =? 92) then [x5c; to_byte r]
  else if r =? 8 then go_bytes "\b" else if r =? 12 then go_bytes "\f"
  else if r =? 10 then go_bytes "\n" else if r =? 13 then go_bytes "\r" else if r =? 9 then go_bytes "\t"
  else if (r <? 32) || (r =? 60) || (r =? 62) || (r =? 38)
  then go_bytes "\u00" ++ [Systemd.hex_digit (r / 16); Systemd.hex_digit (r mod 16)]
  else if r =? 8232 then go_bytes "\u2028" else if r =? 8233 then go_bytes "\u2029"
  else if r =? RuneError then go_bytes "\ufffd"
  else encode_rune r.
Definition json_string (s : string) : bytes := [x22] ++ flat_map json_rune (runes (go_bytes s)) ++ [x22].

(** What is printed for a code, with the line feed of [Fprintln]. *)
Definition code_text (output encoded : string) : result goerr bytes :=
  if bool_decide (output = "plain") then Ok (go_bytes encoded ++ [x0a])
  else if bool_decide (output = "json")
  then Ok ([x7b] ++ json_string "connection_code" ++ [x3a] ++ json_string encoded ++ [x7d; x0a])
  else Err (ENew "output must be plain or json").

(** A process: its files and its output streams. *)
Record proc := { p_fs : fs; p_out : bytes; p_err : bytes }.
Definition set_fs (d : fs) (s : proc) : proc := {| p_fs := d; p_out := p_out s; p_err := p_err s |}.
Definition add_out (b : bytes) (s : proc) : proc := {| p_fs := p_fs s; p_out := p_out s ++ b; p_err := p_err s |}.
Definition add_err (b : bytes) (s : proc) : proc := {| p_fs := p_fs s; p_out := p_out s; p_err := p_err s ++ b |}.

(** A call that works on the files. *)
Definition on_files {A} (f : fs -> result goerr A * fs) : eff proc A := fun s =>
  let '(r, d) := f (p_fs s) in (r, set_fs d s).
Definition with_files {A} (f : fs -> result goerr A) : eff proc A := fun s => (f (p_fs s), s).

(** What a command finds around it. *)
Record cmd_env := {
  x_windows : bool;
  x_home : option string;
  x_getenv : string -> string;
  x_logLevel : string;
  x_logFormat : string;
  x_state_env : environment;          (* LoadOrCreate *)
  x_stat : option goerr;              (* os.Stat of the state file *)
  x_check : option goerr;             (* and inside CheckPrivateFile *)
  x_write : option (nat * goerr);     (* writing the code: how much of it is written, and the error *)
  x_token : option goerr;             (* reading the token file *)
  x_keys : string -> option goerr;    (* reading an authorized_keys file *)
  x_hostkey : hostkey_env;
  x_umask : Z;
  x_open : option goerr;              (* opening the code file *)
  x_close : option goerr;
}.

Section commands.
Context `{CC : Codec ConnectionCode} `{JSON : StateCodec} {SL : SshLib}.
Variable url_Parse : string -> result goerr URL.
Variable X : cmd_env.

(** ** relay *)

Record relay_flags := {
  rf_listen : string; rf_cert : string; rf_key : string; rf_tokenFile : string; rf_metrics : string;
  rf_h2c : bool; rf_publicH2C : bool; rf_noAuth : bool; rf_reflect : bool; rf_pprof : bool;
  rf_maxAgents : Z; rf_maxTunnels : Z; rf_handshakeTimeout : Z; rf_shutdownTimeout : Z;
}.

Definition relay_RunE (f : relay_flags) : eff proc ServerConfig := (
  do! elift (logger (x_logLevel X) (x_logFormat X) true) in
  let! token := with_files (fun d => ReadToken d (x_getenv X) (x_token X) (rf_tokenFile f) "RELAYCAT_AUTH_TOKEN") in
  eret {| Listen := rf_listen f; TLSCert := rf_cert f; TLSKey := rf_key f; H2C := rf_h2c f;
          AllowPublicH2C := rf_publicH2C f; Token := token; NoAuth := rf_noAuth f; Reflection := rf_reflect f;
          MetricsListen := rf_metrics f; Pprof := rf_pprof f; ShutdownTimeout := rf_shutdownTimeout f;
          ServiceConfig := {| MaxAgents := rf_maxAgents f; MaxTunnelsPerAgent := rf_maxTunnels f;
                              HandshakeTimeout := rf_handshakeTimeout f |} |})%eff.

(** ** expose *)

(** [strings.TrimSuffix(relayURL, "/")] *)
Definition trim_slash (u : string) : string := go_string (TrimSuffix1 x2f (go_bytes u)).

(** A state file that exists must be private. *)
Definition check_state (state : string) : eff proc unit := fun s =>
  match StatPerm (p_fs s) state (x_stat X) with
  | Ok _ => echeck (CheckPrivateFile (x_windows X) (p_fs s) state (x_check X)) s
  | Err _ => (Ok tt, s)
  end.

Definition print_code (output encoded : string) : eff proc unit := (
  let! text := elift (code_text output encoded) in
  match x_write X with
  | Some (n, e) => do! emodify (add_out (firstn n text)) in efail (EWrap "writing connection code" e)
  | None => emodify (add_out text)
  end)%eff.

Record expose_flags := {
  ef_relayURL : string; ef_target : string; ef_state : string; ef_tokenFile : string; ef_caFile : string;
  ef_output : string; ef_allowInsecure : bool; ef_idleTimeout : Z;
}.

Definition expose_RunE (f : expose_flags) : eff proc AgentConfig := (
  do! echeck (ValidateRelayURL url_Parse (ef_relayURL f) (ef_allowInsecure f)) in
  do! ewrap "invalid target" (elift (SplitHostPort (go_bytes (ef_target f)))) in
  let state := if bool_decide (ef_state f = "") then "" else expandHome (x_home X) (ef_state f) in
  do! ewhen (negb (bool_decide (ef_state f = ""))) (check_state state) in
  let! code := on_files (fun d => LoadOrCreate d (x_state_env X) state (trim_slash (ef_relayURL f)) (ef_target f)) in
  let! encoded := elift (Encode code) in
  do! print_code (ef_output f) encoded in
  let! token := with_files (fun d => ReadToken d (x_getenv X) (x_token X) (ef_tokenFile f) "RELAYCAT_TOKEN") in
  do! elift (logger (x_logLevel X) (x_logFormat X) false) in
  eret {| ac_Code := code; ac_Target := ef_target f; ac_Token := token; ac_CAFile := ef_caFile f;
          ac_AllowInsecure := ef_allowInsecure f; ac_Handler := false; ac_MaxTunnels := 0; ac_DialTimeout := 0;
          ac_IdleTimeout := ef_idleTimeout f |})%eff.

(** ** connect *)

Record connect_flags := {
  nf_listen : string; nf_tokenFile : string; nf_caFile : string; nf_allowInsecure : bool; nf_once : bool;
  nf_allowPublic : bool; nf_idleTimeout : Z;
}.

Definition connect_RunE (f : connect_flags) (arg : string) : eff proc ClientConfig := (
  let! code := elift (Decode url_Parse arg (nf_allowInsecure f)) in
  do! eguard (negb (nf_allowPublic f) && negb (isLoopbackAddress (nf_listen f)))
        (ENew "local listener must use a loopback address unless --allow-public-listen is set") in
  let! token := with_files (fun d => ReadToken d (x_getenv X) (x_token X) (nf_tokenFile f) "RELAYCAT_TOKEN") in
  do! elift (logger (x_logLevel X) (x_logFormat X) false) in
  eret {| cl_Code := code; cl_Listen := nf_listen f; cl_Token := token; cl_CAFile := nf_caFile f;
          cl_AllowInsecure := nf_allowInsecure f; cl_Once := nf_once f; cl_IdleTimeout := nf_idleTimeout f |})%eff.

(** ** serve *)

Record serve_flags := {
  sf_relayURL : string; sf_state : string; sf_tokenFile : string; sf_caFile : string; sf_hostKey : string;
  sf_output : string; sf_connectionCodeFile : string; sf_authorizedKeyFiles : list string;
  sf_allowInsecure : bool; sf_idleTimeout : Z;
}.

(** [os.OpenFile(path, O_WRONLY|O_CREATE|O_TRUNC, 0o600)]: a file that exists
    keeps its mode and loses its contents. *)
Definition open_trunc (path : string) (d : fs) : fs :=
  match d !! path with
  | Some f => <[path := {| f_mode := f_mode f; f_data := [] |}]> d
  | None => <[path := {| f_mode := Z.ldiff 384 (x_umask X); f_data := [] |}]> d
  end.

(** [writeConnectionCode] to standard output or to the file, which is closed on
    every path. *)
Definition write_code (path output encoded : string) : eff proc unit := (
  if bool_decide (path = "") then print_code output encoded
  else
    let path := expandHome (x_home X) path in
    match x_open X with
    | Some e => efail (EWrap "opening connection code file" e)
    | None =>
        do! emodify (fun s => set_fs (open_trunc path (p_fs s)) s) in
        let! text := elift (code_text output encoded) in
        let! written := (fun s => let '(r, d) := WriteAll (p_fs s) path text (x_write X) in (Ok r, set_fs d s)) in
        match written with
        | Some e => efail (EWrap "writing connection code" e)
        | None => echeck (EWrap "closing connection code file" <$> x_close X)
        end
    end)%eff.

Definition read_keys (path : string) : eff proc string := fun s =>
  match ReadFile (p_fs s) (expandHome (x_home X) path) (x_keys X path) with
  | Err e => (Err (EWrap "reading authorized keys file" e), s)
  | Ok b => (Ok (go_string b), s)
  end.

Definition warning : bytes :=
  go_bytes "WARNING: anyone with this connection code can run commands as the current user" ++ [x0a].

(** [authorizedKeys] is nil when no file was given.  The text of the first error
    quotes the mode as it stands. *)
Definition serve_RunE (f : serve_flags) (mode : string) : eff proc (AgentConfig * SshServer.Server) := (
  do! eguard (negb (bool_decide (mode = "ssh")) && negb (bool_decide (mode = "no-auth-ssh")))
        (ENew ("unknown service " +:+ Systemd.dquote mode)) in
  do! echeck (ValidateRelayURL url_Parse (sf_relayURL f) (sf_allowInsecure f)) in
  let! keys := emap read_keys (sf_authorizedKeyFiles f) in
  do! eguard (bool_decide (mode = "ssh") && bool_decide (keys = [])) (ENew "ssh requires at least one --authorized-keys-file") in
  do! eguard (bool_decide (mode = "no-auth-ssh") && negb (bool_decide (keys = [])))
        (ENew "--authorized-keys-file cannot be used with no-auth-ssh") in
  do! elift (logger (x_logLevel X) (x_logFormat X) false) in
  let! server := ewrap "initializing SSH server" (on_files (fun d =>
    SshServer.New (x_windows X) d
      {| HostKeyPath := expandHome (x_home X) (sf_hostKey f);
         AuthorizedKeys := if bool_decide (keys = []) then None else Some keys;
         NoClientAuth := bool_decide (mode = "no-auth-ssh") |} (x_hostkey X))) in
  let state := if bool_decide (sf_state f = "") then "" else expandHome (x_home X) (sf_state f) in
  do! ewhen (negb (bool_decide (sf_state f = ""))) (check_state state) in
  let! code := on_files (fun d => LoadOrCreate d (x_state_env X) state (trim_slash (sf_relayURL f)) ("builtin:" +:+ mode)) in
  let! encoded := elift (Encode code) in
  do! write_code (sf_connectionCodeFile f) (sf_output f) encoded in
  do! ewhen (bool_decide (mode = "no-auth-ssh")) (emodify (add_err warning)) in
  let! token := with_files (fun d => ReadToken d (x_getenv X) (x_token X) (sf_tokenFile f) "RELAYCAT_TOKEN") in
  eret ({| ac_Code := code; ac_Target := ""; ac_Token := token; ac_CAFile := sf_caFile f;
           ac_AllowInsecure := sf_allowInsecure f; ac_Handler := true; ac_MaxTunnels := 0; ac_DialTimeout := 0;
           ac_IdleTimeout := sf_idleTimeout f |}, server))%eff.
End commands.
