(* ===== verification/CommandProps.v ===== *)
(** * What the commands promise (internal/cli/root.go)

    The connection code that [expose] and [serve] print or write, who may use what
    they start, where [connect] listens and when [relay] asks for a token: the
    bodies of [Commands] composed with the access codes, the SSH server, the
    endpoints and the relay's interceptors. *)

From S2P Require Import Prelude GoBase Effects Utf8 Base64 GoStrings Config Os NetAddr Proto AccessCode.
From S2P Require Import SshServer Client Cli Bridge Endpoint Auth RelayService Server Commands.

(** ** The printed code *)

(** Letters, digits, hyphen and underscore. *)
Definition code_char (b : byte) : bool :=
  in_range 48 57 b || in_range 65 90 b || in_range 97 122 b || bool_decide (b ∈ [x2d; x5f]).

Lemma code_char_json b : code_char b = true -> json_rune (bval b) = [b] /\ bval b < 128.
Proof. by destruct b; vm_compute. Qed.

Lemma encode_digit_char d : 0 <= d < 64 -> code_char (encode_digit d) = true.
Proof.
  intros Hd. apply (below_all 64 (fun d => code_char (encode_digit d))); [|lia]. by vm_compute.
Qed.

Lemma encode_chars b : Forall (fun x => code_char x = true) (encode b).
Proof.
  assert (Hs : forall v s, code_char (sextet v s) = true).
  { intros v s. apply encode_digit_char. rewrite land63. apply Z.mod_pos_bound. lia. }
  induction b as [b IH] using (induction_ltof1 _ (@length byte)). unfold ltof in IH.
  destruct b as [|x [|y [|z b]]]; cbn [encode]; repeat (constructor; [apply Hs|]); [constructor..|]. apply IH. simpl. lia.
Qed.

(** JSON leaves such text as it is. *)
Lemma json_string_plain s :
  Forall (fun x => code_char x = true) (go_bytes s) -> json_string s = [x22] ++ go_bytes s ++ [x22].
Proof.
  intros Hs. unfold json_string. do 2 f_equal. rewrite runes_ascii.
  2: { eapply Forall_impl; [|done]. intros b Hb. by apply code_char_json. }
  induction Hs as [|b l Hb Hl IH]; [done|]. cbn [map flat_map]. rewrite IH. by destruct (code_char_json b Hb) as [-> _].
Qed.

Section printed.
Context `{CC : Codec ConnectionCode}.

Lemma Encode_chars c s : Encode c = Ok s -> Forall (fun x => code_char x = true) (go_bytes s).
Proof.
  intros He. apply Encode_shape in He as (b & _ & -> & _). rewrite go_bytes_app. apply Forall_app. split.
  - repeat (constructor; [by vm_compute|]). constructor.
  - unfold EncodeToString. rewrite go_bytes_string. apply encode_chars.
Qed.

(** The line that carries a code, whatever the format: some framing, the code as
    it stands, and the rest. *)
Definition carries (text : bytes) (encoded : string) : Prop :=
  text = go_bytes encoded ++ [x0a] \/
  text = [x7b; x22] ++ go_bytes "connection_code" ++ [x22; x3a; x22] ++ go_bytes encoded ++ [x22; x7d; x0a].

Lemma code_text_carries output c encoded text :
  Encode c = Ok encoded -> code_text output encoded = Ok text -> carries text encoded.
Proof.
  intros He Ht. unfold code_text in Ht. case_bool_decide; [left; congruence|]. case_bool_decide; [|done].
  right. rewrite (json_string_plain encoded) in Ht by by eapply Encode_chars.
  rewrite json_string_plain in Ht by (repeat (constructor; [by vm_compute|]); constructor).
  injection Ht as <-. by rewrite <- !app_assoc.
Qed.
End printed.

(** ** Runs of the commands *)

Lemma on_files_Ok {A} (f : fs -> result goerr A * fs) s a s' :
  on_files f s = (Ok a, s') <-> exists d, f (p_fs s) = (Ok a, d) /\ s' = set_fs d s.
Proof. unfold on_files. destruct (f (p_fs s)) as [[x|e] d]; naive_solver. Qed.

Lemma with_files_Ok {A} (f : fs -> result goerr A) s a s' :
  with_files f s = (Ok a, s') <-> f (p_fs s) = Ok a /\ s' = s.
Proof. unfold with_files. split; [by intros [= -> ->]|by intros [-> ->]]. Qed.

Lemma print_code_Ok X output encoded s u s' :
  print_code X output encoded s = (Ok u, s') ->
  exists text, code_text output encoded = Ok text /\ s' = add_out text s.
Proof.
  unfold print_code. intros H. eff_run H. destruct (x_write X) as [[n e]|]; eff_run H; [done|]. eauto.
Qed.

Lemma check_state_Ok X state s u s' : check_state X state s = (Ok u, s') -> s' = s.
Proof. unfold check_state. intros H. case_match; [eff_run H|]; congruence. Qed.

Lemma when_check_Ok X b state s u s' : ewhen b (check_state X state) s = (Ok u, s') -> s' = s.
Proof. intros H. apply ewhen_Ok in H as [[_ H]|[_ H]]; [|done]. by apply check_state_Ok in H. Qed.

Lemma emap_Ok {S A B} (f : A -> eff S B) l s bs s' :
  (forall a s b s', f a s = (Ok b, s') -> s' = s) -> emap f l s = (Ok bs, s') ->
  s' = s /\ Forall2 (fun a b => f a s = (Ok b, s)) l bs.
Proof.
  intros Hf. revert bs. induction l as [|a l IH]; intros bs H; simpl in H; eff_run H; [by split|].
  pose proof (Hf _ _ _ _ Hc) as ->. destruct (IH _ Hc0) as [-> ?]. split; [done|]. by constructor.
Qed.

Section command_lemmas.
Context `{CC : Codec ConnectionCode} {CS : CodecSpec ConnectionCode} `{JSON : StateCodec} {SL : SshLib}.
Variable url_Parse : string -> result goerr URL.
Implicit Types X Y : cmd_env.

Definition state_path X (state : string) : string :=
  if bool_decide (state = "") then "" else expandHome (x_home X) state.

Lemma expose_Ok X f s cfg s' :
  expose_RunE url_Parse X f s = (Ok cfg, s') ->
  exists d encoded text,
    LoadOrCreate (p_fs s) (x_state_env X) (state_path X (ef_state f)) (trim_slash (ef_relayURL f)) (ef_target f)
      = (Ok (ac_Code cfg), d) /\
    Encode (ac_Code cfg) = Ok encoded /\ code_text (ef_output f) encoded = Ok text /\
    s' = add_out text (set_fs d s) /\ ac_Target cfg = ef_target f /\ is_ok (agent_defaults cfg) = true.
Proof.
  unfold expose_RunE. intros H. eff_run H.
  apply when_check_Ok in Hc1 as ->. apply on_files_Ok in Hc2 as (d & Hl & ->). apply with_files_Ok in Hc5 as [_ ->].
  apply print_code_Ok in Hc4 as (text & Ht & ->). exists d, a3, text. split_and!; [done..|].
  unfold agent_defaults. simpl. rewrite bool_decide_eq_false_2; [done|]. by intros E; rewrite E in Hc0.
Qed.

(** Any code an agent was started with is one [connect] takes. *)
Lemma connect_takes Y nf code encoded t :
  small (go_bytes (RelayURL code)) = true -> Encode code = Ok encoded ->
  ValidateRelayURL url_Parse (RelayURL code) (nf_allowInsecure nf) = None ->
  nf_allowPublic nf = true \/ isLoopbackAddress (nf_listen nf) = true -> nf_tokenFile nf = "" ->
  is_ok (logger (x_logLevel Y) (x_logFormat Y) false) = true ->
  exists cl, connect_RunE url_Parse Y nf encoded t = (Ok cl, t) /\ cl_Code cl = code /\ cl_Listen cl = nf_listen nf.
Proof.
  intros Hs He Hv Hl Ht Hlog. unfold connect_RunE, ebind, elift, eguard, with_files, ReadToken, eret.
  rewrite (Decode_Encode url_Parse _ _ _ Hs He), Hv, Ht, bool_decide_eq_true_2 by done.
  replace (negb _ && _) with false by (destruct Hl as [-> | ->]; by rewrite ?andb_false_r).
  destruct (logger _ _ _); [|done]. by eexists.
Qed.

(** *** connect *)

Lemma connect_Ok X f arg s cfg s' :
  connect_RunE url_Parse X f arg s = (Ok cfg, s') ->
  s' = s /\ Decode url_Parse arg (nf_allowInsecure f) = Ok (cl_Code cfg) /\
  (nf_allowPublic f = true \/ isLoopbackAddress (nf_listen f) = true) /\
  cl_Listen cfg = nf_listen f /\ cl_AllowInsecure cfg = nf_allowInsecure f.
Proof.
  unfold connect_RunE. intros H. eff_run H. apply with_files_Ok in Hc1 as [_ ->]. split_and!; [done..| |done|done].
  apply andb_false_iff in Hc0 as [Hc0|Hc0]; apply negb_false_iff in Hc0; auto.
Qed.

(** A valid relay URL leaves [Dial] only the certificates and the connection to
    fail on. *)
Lemma Dial_valid {XC : X509} d public url ca token insecure read :
  ValidateRelayURL url_Parse url insecure = None ->
  is_ok (rootCertPool d public ca read) = true ->
  exists host creds,
    Dial url_Parse d public {| dc_RelayURL := url; dc_CAFile := ca; dc_Token := token; dc_AllowInsecure := insecure |}
      read None = Ok (host, creds) /\ host <> "" /\ (creds = CredInsecure -> insecure = true).
Proof.
  intros Hv Hp. apply ValidateRelayURL_None in Hv as (u & Hu & Hh & _ & _ & _ & Hs). unfold Dial. simpl.
  rewrite Hu, (bool_decide_eq_false_2 (u_Host u = "")) by done. destruct (rootCertPool _ _ _ _) as [pool|]; [|done].
  destruct Hs as [-> | [-> ->]]; simpl; by eexists _, _.
Qed.

(** *** serve *)

(** A code file that was there keeps its mode; a new one is private. *)
Definition code_file X (old : option file) (text : bytes) : file :=
  {| f_mode := match old with Some f => f_mode f | None => Z.ldiff 384 (x_umask X) end; f_data := text |}.

Lemma write_code_Ok X path output encoded s u s' :
  write_code X path output encoded s = (Ok u, s') ->
  exists text, code_text output encoded = Ok text /\
    s' = if bool_decide (path = "") then add_out text s
         else let p := expandHome (x_home X) path in set_fs (<[p := code_file X (p_fs s !! p) text]> (p_fs s)) s.
Proof.
  unfold write_code. case_bool_decide as Hp; [apply print_code_Ok|]. cbn zeta. intros H.
  destruct (x_open X); [done|]. unfold WriteAll in H. eff_run H. destruct (x_write X) as [[n e]|]; simplify_eq. eff_run H. exists a0. split; [done|].
  unfold set_fs, open_trunc, code_file. simpl. f_equal.
  destruct (p_fs s !! _); rewrite alter_insert_eq; done.
Qed.

Lemma read_keys_Ok X path s t s' :
  read_keys X path s = (Ok t, s') ->
  s' = s /\ exists f, p_fs s !! expandHome (x_home X) path = Some f /\ go_bytes t = f_data f.
Proof.
  unfold read_keys, ReadFile. intros H. repeat case_match; simplify_eq. split; [done|]. eexists. split; [done|].
  apply go_bytes_string.
Qed.

Lemma serve_Ok X f mode s cfg srv s' :
  serve_RunE url_Parse X f mode s = (Ok (cfg, srv), s') ->
  exists keys d1 d2 encoded s1,
    (mode = "ssh" /\ keys <> [] \/ mode = "no-auth-ssh" /\ keys = []) /\
    Forall2 (fun path t => read_keys X path s = (Ok t, s)) (sf_authorizedKeyFiles f) keys /\
    SshServer.New (x_windows X) (p_fs s)
      {| HostKeyPath := expandHome (x_home X) (sf_hostKey f);
         AuthorizedKeys := if bool_decide (keys = []) then None else Some keys;
         NoClientAuth := bool_decide (mode = "no-auth-ssh") |} (x_hostkey X) = (Ok srv, d1) /\
    LoadOrCreate d1 (x_state_env X) (state_path X (sf_state f)) (trim_slash (sf_relayURL f)) ("builtin:" +:+ mode)
      = (Ok (ac_Code cfg), d2) /\
    Encode (ac_Code cfg) = Ok encoded /\
    write_code X (sf_connectionCodeFile f) (sf_output f) encoded (set_fs d2 s) = (Ok tt, s1) /\
    p_fs s' = p_fs s1 /\ p_out s' = p_out s1 /\
    p_err s' = p_err s1 ++ (if bool_decide (mode = "no-auth-ssh") then warning else []) /\
    is_ok (agent_defaults cfg) = true.
Proof.
  unfold serve_RunE. intros H. eff_run H. apply eret_Ok in H as [[= -> ->] ->].
  apply emap_Ok in Hc1 as [-> Hk]; [|intros a' t b t' Hr; by apply read_keys_Ok in Hr as [-> _]].
  apply on_files_Ok in Hc5 as (d1 & Hnew & ->). apply when_check_Ok in Hc6 as ->.
  apply on_files_Ok in Hc7 as (d2 & Hload & ->). apply with_files_Ok in Hc11 as [_ ->].
  exists a1, d1, d2, a8, s4. destruct a9. split; [repeat case_bool_decide; simplify_eq; naive_solver|].
  apply ewhen_Ok in Hc10 as [[E He]|[E ->]]; [eff_run He|]; split_and!; try done; by rewrite E, ?app_nil_r.
Qed.
End command_lemmas.

(** ** A code file and the ssh command *)

Lemma code_char_graphic b : code_char b = true -> graphic b.
Proof. unfold graphic. destruct b; vm_compute; try done; intros _; split; congruence. Qed.

Lemma TrimSpace_code `{CC : Codec ConnectionCode} c encoded :
  Encode c = Ok encoded -> TrimSpace (go_bytes encoded ++ [x0a]) = go_bytes encoded /\ encoded <> "".
Proof.
  intros He. split.
  - apply TrimSpace_line. eapply Forall_impl; [exact code_char_graphic|by eapply Encode_chars].
  - apply Encode_shape in He as (b & _ & -> & _). done.
Qed.

(** What [relaycat ssh --code-file] makes of a file that holds a printed code. *)
Lemma resolve_code_file `{CC : Codec ConnectionCode} w home d getenv o c encoded p file :
  Encode c = Ok encoded -> p = expandHome home (o_codeFile o) -> o_codeFile o <> "" -> p <> "" ->
  d !! p = Some file -> f_data file = go_bytes encoded ++ [x0a] ->
  o_connectionCode o = "" -> validSSHUser (o_user o) = true ->
  resolveInput {| sh_windows := w; sh_home := home; sh_fs := d; sh_stat := None; sh_read := None; sh_getenv := getenv |} o []
  = if w || (Z.land (Z.land (f_mode file) 511) 63 =? 0) then Ok (set_input o (o_user o) encoded [])
    else Err (ENew (p +:+ " is accessible by group or other users")).
Proof.
  intros He -> Hf Hp Hd Hdata Hc Hu. destruct (TrimSpace_code _ _ He) as [Ht Hne].
  unfold resolveInput, resolve_args, result_bind. cbn [set_input o_connectionCode o_codeFile o_user o_remoteCommand].
  rewrite Hc, (bool_decide_eq_false_2 (o_codeFile o = "")), Hu, (bool_decide_eq_true_2 ("" = "")) by done.
  unfold CheckPrivateFile, StatPerm, ReadFile. cbn [negb andb sh_windows sh_home sh_fs sh_stat sh_read].
  rewrite (bool_decide_eq_false_2 (expandHome home (o_codeFile o) = "")), Hd, Hdata, Ht, go_string_bytes by done.
  destruct w; cbn [orb]; [by rewrite !(bool_decide_eq_false_2 (encoded = ""))|].
  destruct (Z.eqb_spec (Z.land (Z.land (f_mode file) 511) 63) 0); cbn [negb]; [|done].
  by rewrite !(bool_decide_eq_false_2 (encoded = "")).
Qed.

(** ** Properties *)

Section properties.
Context `{CC : Codec ConnectionCode} {CS : CodecSpec ConnectionCode} `{JSON : StateCodec} {SL : SshLib}.
Variable url_Parse : string -> result goerr URL.
Implicit Types X Y : cmd_env.

(** What [connect] needs besides the code: a relay it may use, a local address
    it may use, no token file and a valid log configuration. *)
Definition connect_ready Y (nf : connect_flags) (url : string) : Prop :=
  ValidateRelayURL url_Parse url (nf_allowInsecure nf) = None /\
  (nf_allowPublic nf = true \/ isLoopbackAddress (nf_listen nf) = true) /\ nf_tokenFile nf = "" /\
  is_ok (logger (x_logLevel Y) (x_logFormat Y) false) = true.

(** C22: what [expose] prints connects to it.  When [expose] starts its agent it
    has printed one line that carries the connection code verbatim, plain or as
    JSON, has written nothing else and touched no file but its state file; the
    agent has one target, the one that was asked for, and its configuration is one
    [RunAgent] accepts; and [connect], given the printed code, starts a client with
    the agent's own relay URL, route and key. *)
Theorem expose_advertises X f s cfg s' :
  small (go_bytes (trim_slash (ef_relayURL f))) = true ->
  expose_RunE url_Parse X f s = (Ok cfg, s') ->
  exists encoded text, carries text encoded /\ p_out s' = p_out s ++ text /\ p_err s' = p_err s /\
    (forall q, q <> state_path X (ef_state f) -> p_fs s' !! q = p_fs s !! q) /\
    ac_Target cfg = ef_target f /\ is_ok (agent_defaults cfg) = true /\
    forall Y nf t, connect_ready Y nf (trim_slash (ef_relayURL f)) ->
      exists cl, connect_RunE url_Parse Y nf encoded t = (Ok cl, t) /\ cl_Code cl = ac_Code cfg /\ cl_Listen cl = nf_listen nf.
Proof.
  intros Hs He. destruct (expose_Ok _ _ _ _ _ _ He) as (d & encoded & text & Hl & Henc & Ht & -> & Htg & Hd).
  destruct (LoadOrCreate_Ok _ _ _ _ _ _ _ Hl) as (_ & Hu & _ & Hframe). exists encoded, text.
  split_and!; [by eapply code_text_carries|done|done|done|done|done|].
  intros Y nf t (H1 & H2 & H3 & H4). apply connect_takes; rewrite ?Hu; done.
Qed.

(** C23: who can use [serve].  A server that [serve] starts asks for no key exactly
    in the mode no-auth-ssh, and then a warning is printed; in the mode ssh it lets
    in exactly the keys on the lines of the files named on the command line.  It
    answers no global request and has no subsystem, and its agent has the handler
    and no target. *)
Theorem serve_access X f mode s cfg srv s' :
  serve_RunE url_Parse X f mode s = (Ok (cfg, srv), s') ->
  (mode = "ssh" \/ mode = "no-auth-ssh") /\
  (PublicKeyHandler srv = None <-> mode = "no-auth-ssh") /\
  p_err s' = p_err s ++ (if bool_decide (mode = "no-auth-ssh") then warning else []) /\
  (forall h, PublicKeyHandler srv = Some h -> (exists key, h key = true) /\
     forall key, h key = true <->
       exists path file line key', path ∈ sf_authorizedKeyFiles f /\
         p_fs s !! expandHome (x_home X) path = Some file /\ line ∈ Split x0a (f_data file) /\
         line_key line key' /\ key_Marshal key' = key_Marshal key) /\
  RequestHandlers srv = [] /\ SubsystemHandlers srv = [] /\ is_ok (agent_defaults cfg) = true.
Proof.
  intros H. destruct (serve_Ok _ _ _ _ _ _ _ _ H) as
    (keys & d1 & d2 & encoded & s1 & Hm & Hk & Hnew & _ & _ & Hw & _ & _ & Herr & Hd).
  apply New_auth in Hnew as (Ha & Hh & Hr & Hsub). simpl in Ha, Hh. rewrite bool_decide_eq_true in Ha.
  split_and!; [naive_solver|done| | |done|done|done].
  - rewrite Herr. f_equal. apply write_code_Ok in Hw as (text & _ & ->).
    by destruct (bool_decide (sf_connectionCodeFile f = "")).
  - intros h Heq. destruct (Hh h Heq) as (texts & Ht & _ & Hex & Hiff). split; [done|]. intros key. rewrite Hiff.
    case_bool_decide; [done|]. injection Ht as <-. unfold all_lines. split.
    + intros (line & key' & Hin & Hl & Hke). apply list_elem_of_In, in_flat_map in Hin as (t & Hin & Hline).
      apply list_elem_of_In in Hin. apply list_elem_of_lookup in Hin as [i Hi].
      destruct (Forall2_lookup_r _ _ _ _ _ Hk Hi) as (path & Hp & Hr').
      apply read_keys_Ok in Hr' as (_ & file & Hf & Hg). rewrite Hg in Hline.
      exists path, file, line, key'. split_and!; [by eapply list_elem_of_lookup_2|done|by apply list_elem_of_In|done|done].
    + intros (path & file & line & key' & Hp & Hf & Hline & Hl & Hke). exists line, key'. split; [|done].
      apply list_elem_of_lookup in Hp as [i Hi]. destruct (Forall2_lookup_l _ _ _ _ _ Hk Hi) as (t & Ht & Hr').
      apply read_keys_Ok in Hr' as (_ & file' & Hf' & Hg). rewrite Hf in Hf'. injection Hf' as <-.
      apply list_elem_of_In, in_flat_map. exists t. split; [by eapply list_elem_of_In, list_elem_of_lookup_2|].
      rewrite Hg. by apply list_elem_of_In.
Qed.

(** The path of the host key. *)
Definition host_key_path X (f : serve_flags) : result goerr string :=
  let path := expandHome (x_home X) (sf_hostKey f) in if bool_decide (path = "") then DefaultHostKeyPath (hk_configDir (x_hostkey X)) else Ok path.

(** C24: where [serve] puts the connection code.  It goes to standard output, or
    to the code file and not to standard output; the file then holds exactly the
    line that carries it.  A new file can be read by its owner alone, but a file
    that was there keeps its permissions.  [connect] takes the code, and
    [relaycat ssh --code-file] takes the file as [serve] left it exactly when it is
    private. *)
Theorem serve_advertises X f mode s cfg srv s' :
  small (go_bytes (trim_slash (sf_relayURL f))) = true ->
  serve_RunE url_Parse X f mode s = (Ok (cfg, srv), s') ->
  exists encoded text, carries text encoded /\
    (forall Y nf t, connect_ready Y nf (trim_slash (sf_relayURL f)) ->
       exists cl, connect_RunE url_Parse Y nf encoded t = (Ok cl, t) /\ cl_Code cl = ac_Code cfg) /\
    let p := expandHome (x_home X) (sf_connectionCodeFile f) in
    if bool_decide (sf_connectionCodeFile f = "") then p_out s' = p_out s ++ text
    else p_out s' = p_out s /\ exists file, p_fs s' !! p = Some file /\ f_data file = text /\
      (forall hp, host_key_path X f = Ok hp -> p_fs s !! hk_tmp (x_hostkey X) = None -> hk_tmp (x_hostkey X) <> hp ->
         p <> hp -> p <> state_path X (sf_state f) ->
         match p_fs s !! p with
         | None => Z.land (Z.land (f_mode file) 511) 63 = 0
         | Some old => f_mode file = f_mode old
         end) /\
      (forall w getenv o, sf_output f = "plain" -> o_codeFile o = sf_connectionCodeFile f -> p <> "" ->
         o_connectionCode o = "" -> validSSHUser (o_user o) = true ->
         is_ok (resolveInput {| sh_windows := w; sh_home := x_home X; sh_fs := p_fs s'; sh_stat := None;
                                sh_read := None; sh_getenv := getenv |} o [])
         = w || (Z.land (Z.land (f_mode file) 511) 63 =? 0)).
Proof.
  intros Hs H. destruct (serve_Ok _ _ _ _ _ _ _ _ H) as
    (keys & d1 & d2 & encoded & s1 & _ & _ & Hnew & Hl & Henc & Hw & Hfs & Hout & _).
  destruct (LoadOrCreate_Ok _ _ _ _ _ _ _ Hl) as (_ & Hu & _ & Hframe).
  apply write_code_Ok in Hw as (text & Ht & Hs1). exists encoded, text. rewrite Hfs, Hout.
  split; [by eapply code_text_carries|]. split.
  { intros Y nf t (H1 & H2 & H3 & H4). destruct (connect_takes url_Parse Y nf (ac_Code cfg) encoded t) as (cl & ? & ? & _);
      rewrite ?Hu; eauto. }
  cbn zeta in *. case_bool_decide as Hcf; rewrite Hs1; [done|]. simpl. split; [done|].
  set (p := expandHome (x_home X) (sf_connectionCodeFile f)). exists (code_file X (d2 !! p) text).
  rewrite lookup_insert_eq. split_and!; [done|done| |].
  - intros hp Hhp Htmp Hne Hp1 Hp2. simpl. eapply New_frame with (p := hp) (q := p) in Hnew; [|exact Hhp|done..]. rewrite Hframe by done.
    destruct Hnew as [->|(Hpt & g & -> & Hg)]; [destruct (p_fs s !! p); [done|]; apply private_mode|].
    rewrite Hpt, Htmp. simpl. rewrite <- Z.land_assoc. exact Hg.
  - intros w getenv o Hplain Hof Hp Hoc Hov. unfold code_text in Ht. rewrite Hplain in Ht. cbn in Ht. injection Ht as <-.
    erewrite (resolve_code_file w (x_home X) _ getenv o _ encoded p (code_file X (d2 !! p) _));
      rewrite ?Hof; [by destruct (w || _)|done..|apply lookup_insert_eq|done|done|done].
Qed.

(** C25: [connect] is confined.  The client it starts listens on a loopback address
    unless --allow-public-listen was given; its code has a 16-byte route and a
    32-byte key; nothing has been written and no file touched; and once the
    certificates can be read, dialing the relay of the code succeeds, in cleartext
    only if that was allowed. *)
Theorem connect_confined {XC : X509} X f arg s cfg s' :
  connect_RunE url_Parse X f arg s = (Ok cfg, s') ->
  s' = s /\ (nf_allowPublic f = true \/ loopback_addr (cl_Listen cfg)) /\
  len (RouteID (cl_Code cfg)) = 16 /\ len (PSK (cl_Code cfg)) = 32 /\
  forall d public read, is_ok (rootCertPool d public (cl_CAFile cfg) read) = true ->
    exists st, client_start url_Parse d public cfg read None None = Ok st /\
      (cs_creds st = CredInsecure -> nf_allowInsecure f = true).
Proof.
  intros H. destruct (connect_Ok _ _ _ _ _ _ _ H) as (-> & Hd & Hl & Hli & Hai).
  destruct (Decode_Ok _ _ _ _ Hd) as (_ & Hv & Hu). apply validate_None in Hv as [Hr Hk]. split_and!; [done| |done|done|].
  - rewrite Hli. destruct Hl as [?|Hl]; [by left|right]. by apply loopback_sound in Hl.
  - intros d public read Hp. rewrite <- Hai in Hu.
    destruct (Dial_valid url_Parse d public _ (cl_CAFile cfg) (cl_Token cfg) _ read Hu Hp) as (host & creds & HD & _ & Hc).
    unfold client_start. rewrite HD. eexists. split; [done|]. simpl. rewrite <- Hai. done.
Qed.

End properties.

(** C26: when the relay asks for a token.  The configuration [relay] starts with
    takes its token from the file if one is named, else from the environment,
    without the white space around it.  With that configuration both interceptors
    run the handler of a call without credentials, be its metadata missing or
    without authorization, when authentication was switched off or the token is
    empty, and otherwise reject and count it, and its handler does not run; a call
    with the header of an endpoint that has the same token is let in.  So a token
    file that holds only white space leaves the relay open to every call. *)
Theorem relay_token_policy (X : cmd_env) f s cfg s' :
  relay_RunE X f s = (Ok cfg, s') ->
  s' = s /\ NoAuth cfg = rf_noAuth f /\
  (exists source, go_bytes (Token cfg) = TrimSpace source /\
     if bool_decide (rf_tokenFile f = "") then source = go_bytes (x_getenv X "RELAYCAT_AUTH_TOKEN")
     else exists file, p_fs s !! rf_tokenFile f = Some file /\ source = f_data file) /\
  (forall (S R : Type) md (h : S -> option goerr * S) (g : S -> result goerr R * S) st n, no_credentials md ->
     if rf_noAuth f || bool_decide (Token cfg = "") then
       StreamAuthInterceptor (Token cfg) (NoAuth cfg) md h (st, n) = ((h st).1, ((h st).2, n)) /\
       UnaryAuthInterceptor (Token cfg) (NoAuth cfg) md g (st, n) = ((g st).1, ((g st).2, n))
     else exists msg,
       StreamAuthInterceptor (Token cfg) (NoAuth cfg) md h (st, n) = (Some (EStatus Unauthenticated msg), (st, n + 1)) /\
       UnaryAuthInterceptor (Token cfg) (NoAuth cfg) md g (st, n) = (Err (EStatus Unauthenticated msg), (st, n + 1))) /\
  (forall (S : Type) (h : S -> option goerr * S) st n,
     StreamAuthInterceptor (Token cfg) (NoAuth cfg) (Some (AuthContext ∅ (Token cfg))) h (st, n) = ((h st).1, ((h st).2, n))) /\
  (forall file, rf_tokenFile f <> "" -> p_fs s !! rf_tokenFile f = Some file -> TrimSpace (f_data file) = [] ->
     forall (S : Type) md (h : S -> option goerr * S) st n,
       StreamAuthInterceptor (Token cfg) (NoAuth cfg) md h (st, n) = ((h st).1, ((h st).2, n))).
Proof.
  intros H. unfold relay_RunE in H. eff_run H. apply with_files_Ok in Hc0 as [Ht ->]. cbn [Token NoAuth].
  assert (Hsrc : exists source, go_bytes a0 = TrimSpace source /\
     if bool_decide (rf_tokenFile f = "") then source = go_bytes (x_getenv X "RELAYCAT_AUTH_TOKEN")
     else exists file, p_fs s !! rf_tokenFile f = Some file /\ source = f_data file).
  { unfold ReadToken, ReadFile in Ht. case_bool_decide; simplify_eq; [by rewrite go_bytes_string; eauto|].
    destruct (x_token X); [done|]. destruct (p_fs s !! rf_tokenFile f); simplify_eq. rewrite go_bytes_string. eauto. }
  split_and!; [done|done|done| | |].
  - intros S R md h g st n Hmd. rewrite stream_check, unary_check. pose proof (auth_check_no_credentials a0 (rf_noAuth f) md Hmd) as Hn.
    destruct (rf_noAuth f || bool_decide (a0 = "")); [by rewrite Hn|]. destruct Hn as [msg ->]. by exists msg.
  - intros S h st n. rewrite stream_check. destruct (auth_context_agrees a0 "") as [Ha _].
    replace (auth_check _ _ _) with (@None goerr); [done|]. symmetry. apply auth_check_spec.
    destruct Ha as [Ha|Ha]; [done|by right].
  - intros file Hne Hf Hw S md h st n. destruct Hsrc as (src & Hs & Hif).
    rewrite bool_decide_eq_false_2 in Hif by done. destruct Hif as (file' & Hf' & ->). rewrite Hf in Hf'. injection Hf' as <-.
    rewrite Hw in Hs. rewrite stream_check. assert (a0 = "") as -> by (apply go_bytes_inj; by rewrite Hs).
    unfold auth_check. by rewrite orb_true_r.
Qed.

(** ** Witnesses *)

#[local] Existing Instances Wire.code_codec Wire.code_codec_spec StateWire.state_wire PlainSsh.plain_ssh PlainX509.plain_x509.

Definition demo_cmd_env : cmd_env :=
  {| x_windows := false; x_home := Some "/home/u"; x_getenv := fun _ => ""; x_logLevel := "info"; x_logFormat := "text";
     x_state_env := demo_env; x_stat := None; x_check := None; x_write := None; x_token := None; x_keys := fun _ => None;
     x_hostkey := demo_hostkey_env; x_umask := 18; x_open := None; x_close := None |}.
(** The files a demo starts with: keys, a token file with a line feed, and an old
    code file everyone can read. *)
Definition demo_proc : proc :=
  {| p_fs := {["/home/u/keys" := {| f_mode := 384; f_data := go_bytes demo_keys |};
               "/token" := {| f_mode := 384; f_data := [x0a] |};
               "/old.code" := {| f_mode := 420; f_data := [] |}]};
     p_out := []; p_err := [] |}.
Definition demo_expose : expose_flags :=
  {| ef_relayURL := demo_url; ef_target := "127.0.0.1:22"; ef_state := "~/state"; ef_tokenFile := ""; ef_caFile := "";
     ef_output := "json"; ef_allowInsecure := false; ef_idleTimeout := 0 |}.
Definition demo_serve (code_file : string) : serve_flags :=
  {| sf_relayURL := demo_url; sf_state := ""; sf_tokenFile := ""; sf_caFile := ""; sf_hostKey := "/k/host";
     sf_output := "plain"; sf_connectionCodeFile := code_file; sf_authorizedKeyFiles := ["~/keys"];
     sf_allowInsecure := false; sf_idleTimeout := 0 |}.
Definition demo_connect : connect_flags :=
  {| nf_listen := "127.0.0.1:0"; nf_tokenFile := ""; nf_caFile := ""; nf_allowInsecure := false; nf_once := true;
     nf_allowPublic := false; nf_idleTimeout := 0 |}.
Definition demo_relay : relay_flags :=
  {| rf_listen := ":8443"; rf_cert := "c.pem"; rf_key := "k.pem"; rf_tokenFile := "/token"; rf_metrics := "";
     rf_h2c := false; rf_publicH2C := false; rf_noAuth := false; rf_reflect := false; rf_pprof := false;
     rf_maxAgents := 1000; rf_maxTunnels := 128; rf_handshakeTimeout := 10000000000; rf_shutdownTimeout := 15000000000 |}.

(** The outcome of a run that is known to succeed. *)
Definition ran {S A} (r : result goerr A * S) (a : A) : A * S := (match r.1 with Ok x => x | Err _ => a end, r.2).
Lemma ran_Ok {S A} (r : result goerr A * S) a : is_ok r.1 = true -> r = (Ok (ran r a).1, (ran r a).2).
Proof. destruct r as [[x|e] s]; done. Qed.

Definition demo_agent : AgentConfig :=
  {| ac_Code := demo_code; ac_Target := ""; ac_Token := ""; ac_CAFile := ""; ac_AllowInsecure := false; ac_Handler := true;
     ac_MaxTunnels := 0; ac_DialTimeout := 0; ac_IdleTimeout := 0 |}.
Definition demo_exposed : AgentConfig * proc := ran (expose_RunE demo_parse demo_cmd_env demo_expose demo_proc) demo_agent.
Definition demo_server : SshServer.Server :=
  {| HostSigner := []; PublicKeyHandler := None; ChannelHandlers := []; RequestHandlers := []; SubsystemHandlers := [] |}.
Definition demo_served (code_file : string) : AgentConfig * SshServer.Server * proc :=
  ran (serve_RunE demo_parse demo_cmd_env (demo_serve code_file) "ssh" demo_proc) (demo_agent, demo_server).

Lemma expose_advertises_witness :
  exists encoded text, carries text encoded /\ p_out demo_exposed.2 = text /\
    exists cl, connect_RunE demo_parse demo_cmd_env demo_connect encoded demo_proc = (Ok cl, demo_proc) /\
      cl_Code cl = ac_Code demo_exposed.1.
Proof.
  destruct (expose_advertises demo_parse demo_cmd_env demo_expose demo_proc demo_exposed.1 demo_exposed.2)
    as (encoded & text & Hc & Ho & _ & _ & _ & _ & Hconn); [reflexivity|apply ran_Ok; vm_compute; reflexivity|].
  exists encoded, text. split; [exact Hc|]. split; [exact Ho|].
  destruct (Hconn demo_cmd_env demo_connect demo_proc) as (cl & H1 & H2 & _); [|eauto].
  split; [vm_compute; reflexivity|]. split; [right; vm_compute; reflexivity|]. split; vm_compute; reflexivity.
Defined.

Lemma serve_access_witness :
  exists h, PublicKeyHandler (demo_served "").1.2 = Some h /\ exists key, h key = true.
Proof.
  destruct (serve_access demo_parse demo_cmd_env (demo_serve "") "ssh" demo_proc (demo_served "").1.1 (demo_served "").1.2
    (demo_served "").2) as (_ & Hn & _ & Hh & _).
  { unfold demo_served. rewrite <- surjective_pairing. apply ran_Ok. vm_compute. reflexivity. }
  destruct (PublicKeyHandler (demo_served "").1.2) as [h|] eqn:E.
  - exists h. split; [reflexivity|]. exact (proj1 (Hh h eq_refl)).
  - discriminate (proj1 Hn eq_refl).
Defined.

(** A code file that was readable by everyone still is, and ssh refuses it. *)
Lemma serve_advertises_witness :
  exists file, p_fs (demo_served "/old.code").2 !! "/old.code" = Some file /\ f_mode file = 420.
Proof.
  destruct (serve_advertises demo_parse demo_cmd_env (demo_serve "/old.code") "ssh" demo_proc (demo_served "/old.code").1.1
    (demo_served "/old.code").1.2 (demo_served "/old.code").2) as (encoded & text & _ & _ & H); [reflexivity| |].
  { unfold demo_served. rewrite <- surjective_pairing. apply ran_Ok. vm_compute. reflexivity. }
  destruct H as (_ & file & Hf & _ & Hm & _). exists file. split; [exact Hf|].
  apply (Hm "/k/host"); [reflexivity|vm_compute; reflexivity|discriminate|discriminate|vm_compute; discriminate].
Defined.

Definition demo_encoded : string := match Encode demo_code with Ok e => e | Err _ => "" end.
Definition demo_connected : ClientConfig * proc :=
  ran (connect_RunE demo_parse demo_cmd_env demo_connect demo_encoded demo_proc) demo_client_config.

Lemma connect_confined_witness :
  cl_Code demo_connected.1 = demo_code /\ loopback_addr (cl_Listen demo_connected.1).
Proof.
  split; [vm_compute; reflexivity|].
  destruct (connect_confined demo_parse demo_cmd_env demo_connect demo_encoded demo_proc demo_connected.1 demo_connected.2)
    as (_ & [H|H] & _); [apply ran_Ok; vm_compute; reflexivity|discriminate H|exact H].
Defined.

Definition demo_relay_started : ServerConfig * proc :=
  ran (relay_RunE demo_cmd_env demo_relay demo_proc) demo_server_config.

(** A token file with an empty line: every call is let in. *)
Lemma relay_token_policy_witness :
  NoAuth demo_relay_started.1 = false /\
  StreamAuthInterceptor (Token demo_relay_started.1) (NoAuth demo_relay_started.1) None (fun s : Z => (None, s + 1)) (0, 0)
    = (None, (1, 0)).
Proof.
  split; [reflexivity|].
  destruct (relay_token_policy demo_cmd_env demo_relay demo_proc demo_relay_started.1 demo_relay_started.2)
    as (_ & _ & _ & _ & _ & H); [apply ran_Ok; vm_compute; reflexivity|].
  apply (H {| f_mode := 384; f_data := [x0a] |}); [discriminate|vm_compute; reflexivity|vm_compute; reflexivity].
Defined.
