(* ===== verification/SshCommand.v ===== *)
(** * relaycat ssh (internal/cli/ssh.go)

    The body of the command: it resolves its input, starts a temporary client in a
    goroutine, waits for the local address, runs OpenSSH against it and takes the
    client down again.  The goroutine is the client of [Client], so the two
    processes are interleaved freely. *)

From stdpp Require Import pretty.
From S2P Require Import Prelude GoBase Effects Config Os NetAddr Proto AccessCode SshServer Client Cli.

(** ** Before the goroutine *)

Section prepare.
Context `{CC : Codec ConnectionCode}.
Variable url_Parse : string -> result goerr URL.

(** Up to the start of the goroutine: the resolved options and the client. *)
Definition ssh_prepare (env : ssh_env) (token_fault : option goerr) (logLevel logFormat : string) (opts : sshOptions)
    (args : list string) : result goerr (sshOptions * ClientConfig) :=
  result_bind (resolveInput env opts args) (fun opts =>
  result_bind (Decode url_Parse (o_connectionCode opts) (o_allowInsecure opts)) (fun code =>
  result_bind (ReadToken (sh_fs env) (sh_getenv env) token_fault (o_tokenFile opts) "RELAYCAT_TOKEN") (fun token =>
  result_bind (logger logLevel logFormat false) (fun _ =>
  Ok (opts, {| cl_Code := code; cl_Listen := "127.0.0.1:0"; cl_Token := token; cl_CAFile := o_caFile opts;
               cl_AllowInsecure := o_allowInsecure opts; cl_Once := false; cl_IdleTimeout := o_idleTimeout opts |}))))).
End prepare.

(** The end of [runOpenSSH]. *)
Definition ssh_error (r : option cmd_error) : option goerr :=
  match r with
  | None => None
  | Some (ExitError c) => Some (EWrap ("ssh exited with status " +:+ pretty c) (ENew "exit status"))
  | Some (OtherError e) => Some (EWrap "running OpenSSH" e)
  end.

Definition ssh_result (r : result goerr (option cmd_error)) : option goerr :=
  match r with Err e => Some e | Ok r => ssh_error r end.

(** ** The temporary tunnel *)

Inductive client_phase {X : X509} :=
| CpStarting                              (* RunClient before its loop *)
| CpRunning (s : client_state)
| CpOver (s : option client_state).       (* it has returned; [None]: before its loop *)

Inductive tunnel_pc :=
| TpSelect                                (* ready, clientDone or ctx.Done *)
| TpSsh                                   (* runOpenSSH *)
| TpJoin (sshErr : option goerr)          (* <-clientDone *)
| TpReturned (joined : bool) (r : option goerr).

Section tunnel.
Context {X : X509}.

Record tunnel_state := {
  tu_pc : tunnel_pc;
  tu_ctx : bool;                          (* ctx is done *)
  tu_cancelled : bool;                    (* clientCtx is done *)
  tu_client : client_phase;
  tu_ready : bool;                        (* an address waits in ready *)
  tu_done : option (option goerr);        (* the element of clientDone *)
  tu_runs : nat;                          (* calls of runOpenSSH *)
}.

Variable cfg : ClientConfig.
Variable started : result goerr client_state.   (* what RunClient finds up to its loop *)

Definition tunnel_start : tunnel_state :=
  {| tu_pc := TpSelect; tu_ctx := false; tu_cancelled := false; tu_client := CpStarting; tu_ready := false;
     tu_done := None; tu_runs := 0 |}.

Inductive tunnel_event :=
| TeCtx                                   (* ctx ends, and clientCtx with it *)
| TeStarted                               (* RunClient reaches its loop, or fails before *)
| TeClient (ev : client_event)
| TeClientEnd                             (* RunClient returns *)
| TeReady                                 (* addr = <-ready *)
| TeClientDone                            (* err := <-clientDone *)
| TeCtxDone                               (* <-ctx.Done() *)
| TeSsh (r : result goerr (option cmd_error))   (* runOpenSSH: its arguments fail, or ssh has run; cancel() *)
| TeJoin.

(** The result when the tunnel has been taken down. *)
Definition join_result (sshErr clientErr : option goerr) : option goerr :=
  match sshErr, clientErr with
  | Some e, _ => Some e
  | None, Some e => if negb (errors_Is e (ECtx CtxCanceled)) then Some (EWrap "closing temporary tunnel" e) else None
  | None, None => None
  end.
(** [fmt.Errorf("starting temporary tunnel: %w", err)], where err may be nil. *)
Definition start_error (err : option goerr) : goerr :=
  match err with
  | Some e => EWrap "starting temporary tunnel" e
  | None => ENew "starting temporary tunnel: %!w(<nil>)"
  end.

Definition set_tunnel (s : tunnel_state) (pc : tunnel_pc) (cancelled ready : bool) (done : option (option goerr)) (runs : nat)
  : tunnel_state :=
  {| tu_pc := pc; tu_ctx := tu_ctx s; tu_cancelled := cancelled; tu_client := tu_client s; tu_ready := ready;
     tu_done := done; tu_runs := runs |}.
Definition set_client (s : tunnel_state) (c : client_phase) (ready : bool) (done : option (option goerr)) : tunnel_state :=
  {| tu_pc := tu_pc s; tu_ctx := tu_ctx s; tu_cancelled := tu_cancelled s; tu_client := c; tu_ready := ready;
     tu_done := done; tu_runs := tu_runs s |}.

(** A client can see the end of its context only once it has ended. *)
Definition client_may (s : tunnel_state) (ev : client_event) : bool :=
  match ev with CeCtxDone => tu_cancelled s | _ => true end.

(** The context of the command is one that is cancelled (by a signal, or by the
    process that runs it) and has no deadline, so its error is [context.Canceled]. *)
Definition tunnel_step (s : tunnel_state) (ev : tunnel_event) : option tunnel_state :=
  match ev, tu_pc s, tu_client s with
  | TeCtx, _, _ =>
      Some {| tu_pc := tu_pc s; tu_ctx := true; tu_cancelled := true; tu_client := tu_client s; tu_ready := tu_ready s;
              tu_done := tu_done s; tu_runs := tu_runs s |}
  | TeStarted, _, CpStarting =>
      Some match started with
      | Err e => set_client s (CpOver None) false (Some (Some e))
      | Ok c => set_client s (CpRunning c) true (tu_done s)
      end
  | TeClient cev, _, CpRunning c =>
      if client_may s cev then c' ← client_step cfg c cev; Some (set_client s (CpRunning c') (tu_ready s) (tu_done s)) else None
  | TeClientEnd, _, CpRunning c =>
      match cs_pc c with
      | ClDone r => Some (set_client s (CpOver (Some c)) (tu_ready s) (Some r))
      | _ => None
      end
  | TeReady, TpSelect, _ =>
      if tu_ready s then Some (set_tunnel s TpSsh (tu_cancelled s) false (tu_done s) (S (tu_runs s))) else None
  | TeClientDone, TpSelect, _ =>
      err ← tu_done s; Some (set_tunnel s (TpReturned false (Some (start_error err))) true (tu_ready s) None (tu_runs s))
  | TeCtxDone, TpSelect, _ =>
      if tu_ctx s then Some (set_tunnel s (TpReturned false (Some (ECtx CtxCanceled))) true (tu_ready s) (tu_done s) (tu_runs s))
      else None
  | TeSsh r, TpSsh, _ => Some (set_tunnel s (TpJoin (ssh_result r)) true (tu_ready s) (tu_done s) (tu_runs s))
  | TeJoin, TpJoin sshErr, _ =>
      clientErr ← tu_done s;
      Some (set_tunnel s (TpReturned true (join_result sshErr clientErr)) true (tu_ready s) None (tu_runs s))
  | _, _, _ => None
  end.

Fixpoint tunnel_run (s : tunnel_state) (evs : list tunnel_event) : option tunnel_state :=
  match evs with
  | [] => Some s
  | ev :: evs' => s' ← tunnel_step s ev; tunnel_run s' evs'
  end.
End tunnel.

(** ** Invariant *)

Section invariant.
Context {X : X509}.
Variable cfg : ClientConfig.
Variable started : result goerr client_state.
Hypothesis started_inv : forall c, started = Ok c -> client_inv cfg c /\ cs_ctx c = false.

(** The command still waits for the client, or has used its address. *)
Definition waiting (pc : tunnel_pc) : bool := match pc with TpReturned _ _ => false | _ => true end.
Definition in_use (pc : tunnel_pc) : bool := match pc with TpSsh | TpJoin _ => true | _ => false end.

Record tunnel_inv (s : tunnel_state) : Prop := {
  ti_ctx : tu_ctx s = true -> tu_cancelled s = true;
  ti_client : match tu_client s with
    | CpStarting => tu_ready s = false /\ tu_done s = None /\ in_use (tu_pc s) = false
    | CpRunning c => client_inv cfg c /\ tu_done s = None /\ (cs_ctx c = true -> tu_cancelled s = true)
    | CpOver (Some c) => client_inv cfg c /\ exists r, cs_pc c = ClDone r /\ (waiting (tu_pc s) = true -> tu_done s = Some r)
    | CpOver None => tu_ready s = false /\ in_use (tu_pc s) = false /\ (waiting (tu_pc s) = true -> is_Some (tu_done s))
    end;
  ti_pc : match tu_pc s with
    | TpSelect => tu_runs s = 0%nat /\ tu_cancelled s = tu_ctx s
    | TpSsh => tu_runs s = 1%nat /\ tu_cancelled s = tu_ctx s
    | TpJoin _ => tu_runs s = 1%nat /\ tu_cancelled s = true
    | TpReturned joined r => (tu_runs s <= 1)%nat /\ tu_cancelled s = true /\
        (joined = true -> exists c sshErr clientErr, tu_client s = CpOver (Some c) /\ cs_pc c = ClDone clientErr /\
           r = join_result sshErr clientErr)
    end;
}.

Lemma tunnel_start_inv : tunnel_inv tunnel_start.
Proof. by split. Qed.

(** A client that ends sees the end of its context only after it. *)
Lemma client_ctx c ev c' : client_step cfg c ev = Some c' -> cs_ctx c' = true -> ev = CeCtxDone \/ cs_ctx c = true.
Proof.
  unfold client_step, with_pc. intros H Hc. destruct ev; try (by left); right; repeat case_match; by simplify_eq/=.
Qed.

(** The client's condition, by its phase. *)
Definition client_ok (s : tunnel_state) : Prop :=
  match tu_client s with
  | CpStarting => tu_ready s = false /\ tu_done s = None /\ in_use (tu_pc s) = false
  | CpRunning c => client_inv cfg c /\ tu_done s = None /\ (cs_ctx c = true -> tu_cancelled s = true)
  | CpOver (Some c) => client_inv cfg c /\ exists r, cs_pc c = ClDone r /\ (waiting (tu_pc s) = true -> tu_done s = Some r)
  | CpOver None => tu_ready s = false /\ in_use (tu_pc s) = false /\ (waiting (tu_pc s) = true -> is_Some (tu_done s))
  end.

Lemma set_client_inv s c ready done :
  tunnel_inv s -> (forall x, tu_client s <> CpOver x) -> client_ok (set_client s c ready done) ->
  tunnel_inv (set_client s c ready done).
Proof.
  intros [I1 I2 I3] Hn Hc. split; [done|exact Hc|]. simpl. destruct (tu_pc s) as [| | |j r]; try done.
  destruct I3 as (H1 & H2 & H3). split_and!; [done|done|]. intros Hj. destruct (H3 Hj) as (x & _ & _ & E & _). by destruct (Hn (Some x)).
Qed.

Lemma tunnel_step_inv s ev s' : tunnel_inv s -> tunnel_step cfg started s ev = Some s' -> tunnel_inv s'.
Proof.
  intros I H. pose proof I as [I1 I2 I3]. unfold tunnel_step in H. destruct ev as [| |cev| | | | |res|].
  - simplify_eq. split; simpl; [done| |].
    + destruct (tu_client s) as [|c|[c|]]; naive_solver.
    + destruct (tu_pc s); naive_solver.
  - destruct (tu_client s) eqn:Hc; try done. simplify_eq. destruct I2 as (R & D & U).
    destruct started as [c|e]; (apply set_client_inv; [done|by rewrite Hc|]); unfold client_ok; simpl.
    + destruct (started_inv c eq_refl) as [Hi Hx]. split_and!; [done|done|congruence].
    + eauto.
  - destruct (tu_client s) as [|c|] eqn:Hc; try done. destruct (client_may s cev) eqn:Hm; [|done].
    destruct (client_step cfg c cev) as [c'|] eqn:E; [|done]. simplify_eq/=. destruct I2 as (Hi & D & Hx).
    apply set_client_inv; [done|by rewrite Hc|]. unfold client_ok. simpl. split_and!; [by eapply client_step_inv|done|].
    intros Ht. destruct (client_ctx _ _ _ E Ht) as [->|?]; [done|auto].
  - destruct (tu_client s) as [|c|] eqn:Hc; try done. destruct (cs_pc c) eqn:Hp; try done. simplify_eq. destruct I2 as (Hi & D & Hx).
    apply set_client_inv; [done|by rewrite Hc|]. unfold client_ok. simpl. eauto.
  - destruct (tu_pc s) eqn:Hp; try done. destruct (tu_ready s) eqn:Hr; [|done]. simplify_eq. destruct I3 as [R C].
    split; simpl; [done| |by rewrite R]. destruct (tu_client s) as [|c|[c|]]; naive_solver.
  - destruct (tu_pc s) eqn:Hp; try done. destruct (tu_done s) as [err|] eqn:Hd; [|done]. simplify_eq/=. destruct I3 as [R C].
    split; simpl; [done| |split_and!; [lia|done|done]]. destruct (tu_client s) as [|c|[c|]]; naive_solver.
  - destruct (tu_pc s) eqn:Hp; try done. destruct (tu_ctx s) eqn:Hd; [|done]. simplify_eq/=. destruct I3 as [R C].
    split; simpl; [done| |split_and!; [lia|done|done]]. destruct (tu_client s) as [|c|[c|]]; naive_solver.
  - destruct (tu_pc s) eqn:Hp; try done. simplify_eq/=. destruct I3 as [R C].
    split; simpl; [done| |done]. destruct (tu_client s) as [|c|[c|]]; naive_solver.
  - destruct (tu_pc s) eqn:Hp; try done. destruct (tu_done s) as [err|] eqn:Hd; [|done]. simplify_eq/=. destruct I3 as [R C].
    destruct (tu_client s) as [|c|[c|]] eqn:Hc; [naive_solver|naive_solver| |naive_solver].
    destruct I2 as (Hi & r & Hr & Hw). specialize (Hw eq_refl). simplify_eq.
    split; simpl; rewrite ?Hc; [done|split; [done|]; by exists r|]. split_and!; [lia|done|]. intros _. by exists c, sshErr, r.
Qed.

Lemma tunnel_run_inv s evs s' : tunnel_inv s -> tunnel_run cfg started s evs = Some s' -> tunnel_inv s'.
Proof.
  revert s. induction evs as [|ev evs IH]; intros s Hi H; simpl in H; [by simplify_eq|].
  destruct (tunnel_step cfg started s ev) as [s1|] eqn:E; [|done]. eapply IH; [|exact H]. by eapply tunnel_step_inv.
Qed.
Lemma tunnel_run_app s a b : tunnel_run cfg started s (a ++ b) = s' ← tunnel_run cfg started s a; tunnel_run cfg started s' b.
Proof. revert s. induction a as [|ev a IH]; intros s; simpl; [done|]. destruct (tunnel_step cfg started s ev); simpl; [apply IH|done]. Qed.

(** *** Taking the tunnel down *)

(** The steps of the client, seen from the command. *)
Lemma client_lifts s c evs c' :
  tu_cancelled s = true -> tu_client s = CpRunning c -> client_run cfg c evs = Some c' ->
  tunnel_run cfg started s (TeClient <$> evs) = Some (set_client s (CpRunning c') (tu_ready s) (tu_done s)).
Proof.
  intros Ht. revert s c Ht. induction evs as [|ev evs IH]; intros s c Ht Hc H; simpl in H.
  - simplify_eq. simpl. unfold set_client. destruct s; simpl in *; by subst.
  - destruct (client_step cfg c ev) as [c1|] eqn:E; [|done]. rewrite fmap_cons. cbn [tunnel_run tunnel_step]. rewrite Hc.
    replace (client_may s ev) with true by (by destruct ev). rewrite E. cbn [mbind option_bind].
    by rewrite (IH (set_client s (CpRunning c1) (tu_ready s) (tu_done s)) c1 Ht eq_refl H).
Qed.

Definition close_events (s : tunnel_state) : list tunnel_event :=
  match tu_client s with CpRunning c => (TeClient <$> stop_events c) ++ [TeClientEnd] | _ => [] end.

Lemma client_closes s :
  tunnel_inv s -> tu_cancelled s = true -> tu_client s <> CpStarting ->
  exists s' x, tunnel_run cfg started s (close_events s) = Some s' /\ tu_client s' = CpOver x /\ tu_pc s' = tu_pc s.
Proof.
  intros [I1 I2 I3] Ht Hn. unfold close_events. destruct (tu_client s) as [|c|x] eqn:Hc; [done| |by exists s, x].
  destruct I2 as (Hi & _ & _). destruct (client_stops cfg c Hi) as (c' & r & E & Hp & _).
  rewrite tunnel_run_app, (client_lifts _ _ _ _ Ht Hc E). cbn. rewrite Hp. by eexists _, _.
Qed.
End invariant.

(** ** Properties *)

Lemma ssh_prepare_Ok `{CC : Codec ConnectionCode} url env tf ll lf opts args opts' cfg :
  ssh_prepare url env tf ll lf opts args = Ok (opts', cfg) ->
  isLoopbackAddress (cl_Listen cfg) = true /\ cl_Once cfg = false /\ cl_AllowInsecure cfg = o_allowInsecure opts' /\
  Decode url (o_connectionCode opts') (o_allowInsecure opts') = Ok (cl_Code cfg) /\ resolveInput env opts args = Ok opts'.
Proof.
  unfold ssh_prepare. intros H. apply result_bind_Ok in H as (o & Ho & H). apply result_bind_Ok in H as (c & Hc & H).
  apply result_bind_Ok in H as (t & Ht & H). apply result_bind_Ok in H as (l & _ & H). simplify_eq/=.
  split_and!; try done.
Qed.

(** C27: the temporary tunnel of [relaycat ssh].  The client listens on a loopback
    address only and uses the code the input resolved to.  However the command, OpenSSH, the
    client and the context interleave: OpenSSH is run at most once, after the local
    listener is there, and as long as the context lasts the client it talks to is
    not told to stop; whenever the command returns, the client has been told to
    stop, and if OpenSSH was run it has stopped: no tunnel, no local connection and
    no listener is left, and the result is OpenSSH's error, or else the client's
    unless that is the cancellation.  And once OpenSSH has ended the command
    returns by the steps of the client alone. *)
Theorem ssh_tunnel_lifecycle `{CC : Codec ConnectionCode} {X : X509} url env tf ll lf opts args opts' cfg d public rd nc ln evs s :
  let started := client_start url d public cfg rd nc ln in
  ssh_prepare url env tf ll lf opts args = Ok (opts', cfg) ->
  tunnel_run cfg started tunnel_start evs = Some s ->
  (isLoopbackAddress (cl_Listen cfg) = true /\ resolveInput env opts args = Ok opts' /\
   Decode url (o_connectionCode opts') (o_allowInsecure opts') = Ok (cl_Code cfg)) /\
  (tu_runs s <= 1)%nat /\
  (tu_pc s = TpSsh -> exists c, (tu_client s = CpRunning c \/ tu_client s = CpOver (Some c)) /\
     (tu_ctx s = false -> tu_cancelled s = false /\ (cs_pc c = ClAccept -> cs_listener c = true))) /\
  (forall joined r, tu_pc s = TpReturned joined r -> tu_cancelled s = true /\
     (joined = true -> exists c sshErr clientErr, tu_client s = CpOver (Some c) /\ cs_tunnels c = [] /\ cs_locals c = [] /\
        cs_listener c = false /\ cs_conn c = false /\ cs_pc c = ClDone clientErr /\ r = join_result sshErr clientErr)) /\
  (forall sshErr, tu_pc s = TpJoin sshErr -> exists s' r,
     tunnel_run cfg started s (close_events s ++ [TeJoin]) = Some s' /\ tu_pc s' = TpReturned true r).
Proof.
  intros started Hprep H. apply ssh_prepare_Ok in Hprep as (P1 & _ & _ & P2 & P3). assert (Hst : forall c, started = Ok c -> client_inv cfg c /\ cs_ctx c = false).
  { intros c Hc. split; [by eapply client_start_inv|]. unfold started, client_start in Hc. repeat case_match; by simplify_eq. }
  pose proof (tunnel_run_inv cfg started Hst _ _ _ (tunnel_start_inv cfg) H) as I. pose proof I as [I1 I2 I3]. split_and!; [done..| | | |].
  - destruct (tu_pc s); lia.
  - intros Hp. rewrite Hp in *. destruct I3 as [_ Hcx]. destruct (tu_client s) as [|c|[c|]]; [naive_solver| | |naive_solver].
    + destruct I2 as (Hi & _ & Hx). exists c. split; [by left|]. intros Hctx. rewrite Hctx in Hcx. split; [done|].
      intros Ha. destruct (cs_listener c) eqn:Hl; [done|]. destruct (ci_listener _ _ Hi Hl) as [Hcc|[r Hr]]; [|congruence].
      specialize (Hx Hcc). congruence.
    + destruct I2 as (Hi & r & Hr & _). exists c. split; [by right|]. intros Hctx. rewrite Hctx in Hcx. split; [done|congruence].
  - intros joined r Hp. rewrite Hp in I3. destruct I3 as (_ & Hc & Hj). split; [done|]. intros Hjn.
    destruct (Hj Hjn) as (c & sshErr & clientErr & Ec & Hd & ->). rewrite Ec in I2. destruct I2 as (Hi & _).
    destruct (ci_done _ _ Hi _ Hd) as [Ht Hl]. exists c, sshErr, clientErr. rewrite (ci_locals _ _ Hi), (ci_conn _ _ Hi), Hd, Ht. done.
  - intros sshErr Hp. rewrite Hp in *. destruct I3 as [_ Hc].
    destruct (client_closes cfg started s I Hc) as (s' & x & E & Ex & Ep); [intros E; rewrite E in I2; naive_solver|].
    rewrite tunnel_run_app, E. cbn [mbind option_bind tunnel_run tunnel_step]. rewrite Ep, Hp.
    pose proof (ti_client _ _ (tunnel_run_inv cfg started Hst _ _ _ I E)) as J. rewrite Ex, Ep, Hp in J.
    destruct x as [c|]; [|naive_solver]. destruct J as (_ & r & _ & Hw). rewrite Hw by done. cbn. by eexists _, _.
Qed.

(** ** Witness *)

#[local] Existing Instance PlainX509.plain_x509.

(** A code given as an argument; OpenSSH runs, uses one connection and ends; the
    tunnel is taken down. *)
Definition demo_ssh_args : list string :=
  [match Encode (ConnectionCodeCodec := Wire.code_codec) demo_code with Ok s => s | Err _ => "" end; "uname"].
Definition demo_ssh_client : ClientConfig :=
  match ssh_prepare (CC := Wire.code_codec) demo_parse demo_ssh_env None "info" "text" demo_options demo_ssh_args with
  | Ok (_, cfg) => cfg | Err _ => demo_client_config end.
Definition demo_tunnel_events : list tunnel_event :=
  [TeStarted; TeReady; TeClient CeAccept; TeSsh (Ok None); TeClient CeCtxDone; TeClient CeLnClose;
   TeClient (CeAcceptErr ENetClosed); TeClient (CeTunnelEnd 0); TeClient CeWaited; TeClientEnd; TeJoin].
Definition demo_tunnel_end : option tunnel_state :=
  tunnel_run demo_ssh_client (client_start demo_parse ∅ (Ok [[x01]]) demo_ssh_client None None None) tunnel_start demo_tunnel_events.

Lemma ssh_tunnel_lifecycle_witness :
  exists s c, demo_tunnel_end = Some s /\ tu_pc s = TpReturned true None /\
    tu_client s = CpOver (Some c) /\ cs_tunnels c = [] /\ cs_listener c = false.
Proof.
  unfold demo_tunnel_end.
  destruct (ssh_prepare (CC := Wire.code_codec) demo_parse demo_ssh_env None "info" "text" demo_options demo_ssh_args)
    as [[o cfg]|e] eqn:P; [|vm_compute in P; discriminate P].
  assert (Hcfg : demo_ssh_client = cfg) by (unfold demo_ssh_client; rewrite P; reflexivity). rewrite Hcfg.
  pose proof (ssh_tunnel_lifecycle (CC := Wire.code_codec) (X := PlainX509.plain_x509) demo_parse demo_ssh_env None "info" "text"
    demo_options demo_ssh_args o cfg ∅ (Ok [[x01]]) None None None demo_tunnel_events) as L.
  cbv zeta in L. rewrite <- Hcfg in *. destruct (tunnel_run _ _ _ demo_tunnel_events) as [s|] eqn:E; [|vm_compute in E; discriminate E].
  destruct (L s P eq_refl) as (_ & _ & _ & H & _).
  assert (Hp : tu_pc s = TpReturned true None) by (vm_compute in E; injection E as <-; reflexivity).
  destruct (proj2 (H true None Hp) eq_refl) as (c & _ & _ & Hc & Ht & _ & Hl & _). exists s, c.
  exact (conj eq_refl (conj Hp (conj Hc (conj Ht Hl)))).
Defined.

(** A context that ends while the client starts can be reported as a failed start,
    with no cause: all of [ready], [clientDone] and [ctx.Done] are there to choose
    from, and the client has returned nil. *)
Example cancelled_start_reported :
  (tu_pc <$> tunnel_run demo_client_config (client_start demo_parse ∅ (Ok [[x01]]) demo_client_config None None None) tunnel_start
     [TeStarted; TeCtx; TeClient CeCtxDone; TeClient CeLnClose; TeClient (CeAcceptErr ENetClosed); TeClient CeWaited;
      TeClientEnd; TeClientDone])
  = Some (TpReturned false (Some (ENew "starting temporary tunnel: %!w(<nil>)"))).
Proof. vm_compute. reflexivity. Qed.
