(* ===== verification/Root.v ===== *)
(** * The command line around the commands (internal/cli/root.go, cmd/relaycat/main.go)

    The flags each command declares, with their defaults, how they are read after
    the configuration has been applied, and which must or must not be given
    together; [Execute], [InitTracing] and the exit code of the process.

    Cobra's checks are modelled as it documents them: a required flag must have
    been given on the command line, and of flags marked exclusive at most one. *)

From S2P Require Import Prelude GoBase Effects Config Os AccessCode Commands.

(** ** Declared flags *)

Notation decls := (list (string * flag_value)).

Definition Second : Z := 1000000000.
Definition Minute : Z := 60 * Second.

Definition root_decls : decls :=
  [("config", FString ""); ("log-level", FString "info"); ("log-format", FString "text")].

Definition relay_decls : decls :=
  [("listen", FString ":8443"); ("tls-cert", FString ""); ("tls-key", FString ""); ("h2c", FBool false);
   ("allow-public-h2c", FBool false); ("auth-token-file", FString ""); ("no-auth", FBool false);
   ("reflection", FBool false); ("metrics-listen", FString ""); ("pprof", FBool false); ("max-agents", FInt 1000);
   ("max-tunnels-per-agent", FInt 128); ("handshake-timeout", FDuration (10 * Second));
   ("shutdown-timeout", FDuration (15 * Second))].
Definition relay_exclusive : list (list string) :=
  [["h2c"; "tls-cert"]; ["h2c"; "tls-key"]; ["no-auth"; "auth-token-file"]].

Definition expose_decls : decls :=
  [("relay", FString ""); ("target", FString ""); ("state", FString ""); ("token-file", FString "");
   ("ca-file", FString ""); ("allow-insecure-relay", FBool false); ("output", FString "plain");
   ("idle-timeout", FDuration (30 * Minute))].
Definition expose_required : list string := ["relay"; "target"].

Definition connect_decls : decls :=
  [("listen", FString "127.0.0.1:0"); ("token-file", FString ""); ("ca-file", FString "");
   ("allow-insecure-relay", FBool false); ("allow-public-listen", FBool false); ("once", FBool false);
   ("idle-timeout", FDuration (30 * Minute))].

Definition serve_decls : decls :=
  [("relay", FString ""); ("state", FString ""); ("token-file", FString ""); ("ca-file", FString "");
   ("host-key", FString ""); ("authorized-keys-file", FStrings [] false); ("allow-insecure-relay", FBool false);
   ("output", FString "plain"); ("connection-code-file", FString ""); ("idle-timeout", FDuration (30 * Minute))].
Definition serve_required : list string := ["relay"].

Definition ssh_decls : decls :=
  [("code-file", FString ""); ("user", FString "relaycat"); ("identity-file", FString ""); ("ssh-option", FStrings [] false);
   ("no-auth", FBool false); ("accept-new-host-key", FBool false); ("token-file", FString ""); ("ca-file", FString "");
   ("allow-insecure-relay", FBool false); ("idle-timeout", FDuration (30 * Minute))].

Definition defaultServiceName : string := "relaycat".
Definition service_name_decls : decls := [("name", FString defaultServiceName)].
Definition service_install_decls : decls :=
  [("name", FString defaultServiceName); ("display-name", FString "");
   ("description", FString "Relaycat encrypted relay service"); ("startup", FString "automatic")].
Definition service_stop_decls : decls := [("name", FString defaultServiceName); ("timeout", FDuration (30 * Second))].
Definition service_status_decls : decls := [("name", FString defaultServiceName); ("output", FString "plain")].

(** The flag set of a command after parsing: a flag that was given has its value. *)
Definition declare (given : gmap string flag_value) (ds : decls) : gmap string flag :=
  list_to_map (map (fun '(n, v) => (n, match given !! n with
    | Some x => {| fl_value := x; fl_changed := true |}
    | None => {| fl_value := v; fl_changed := false |} end)) ds).

(** ** Reading them *)

Definition get_string (fs : gmap string flag) (n : string) : option string :=
  f ← fs !! n; match fl_value f with FString s => Some s | _ => None end.
Definition get_bool (fs : gmap string flag) (n : string) : option bool :=
  f ← fs !! n; match fl_value f with FBool b => Some b | _ => None end.
Definition get_int (fs : gmap string flag) (n : string) : option Z :=
  f ← fs !! n; match fl_value f with FInt z => Some z | _ => None end.
Definition get_duration (fs : gmap string flag) (n : string) : option Z :=
  f ← fs !! n; match fl_value f with FDuration z => Some z | _ => None end.
Definition get_strings (fs : gmap string flag) (n : string) : option (list string) :=
  f ← fs !! n; match fl_value f with FStrings l _ => Some l | _ => None end.

Definition read_relay (fs : gmap string flag) : option relay_flags :=
  listen ← get_string fs "listen"; cert ← get_string fs "tls-cert"; key ← get_string fs "tls-key";
  h2c ← get_bool fs "h2c"; publicH2C ← get_bool fs "allow-public-h2c"; tokenFile ← get_string fs "auth-token-file";
  noAuth ← get_bool fs "no-auth"; reflect ← get_bool fs "reflection"; metrics ← get_string fs "metrics-listen";
  pprof ← get_bool fs "pprof"; maxAgents ← get_int fs "max-agents"; maxTunnels ← get_int fs "max-tunnels-per-agent";
  handshake ← get_duration fs "handshake-timeout"; shutdown ← get_duration fs "shutdown-timeout";
  Some {| rf_listen := listen; rf_cert := cert; rf_key := key; rf_tokenFile := tokenFile; rf_metrics := metrics;
          rf_h2c := h2c; rf_publicH2C := publicH2C; rf_noAuth := noAuth; rf_reflect := reflect; rf_pprof := pprof;
          rf_maxAgents := maxAgents; rf_maxTunnels := maxTunnels; rf_handshakeTimeout := handshake;
          rf_shutdownTimeout := shutdown |}.

Definition read_expose (fs : gmap string flag) : option expose_flags :=
  relayURL ← get_string fs "relay"; target ← get_string fs "target"; state ← get_string fs "state";
  tokenFile ← get_string fs "token-file"; caFile ← get_string fs "ca-file"; insecure ← get_bool fs "allow-insecure-relay";
  output ← get_string fs "output"; idle ← get_duration fs "idle-timeout";
  Some {| ef_relayURL := relayURL; ef_target := target; ef_state := state; ef_tokenFile := tokenFile; ef_caFile := caFile;
          ef_output := output; ef_allowInsecure := insecure; ef_idleTimeout := idle |}.

Definition read_connect (fs : gmap string flag) : option connect_flags :=
  listen ← get_string fs "listen"; tokenFile ← get_string fs "token-file"; caFile ← get_string fs "ca-file";
  insecure ← get_bool fs "allow-insecure-relay"; public ← get_bool fs "allow-public-listen"; once ← get_bool fs "once";
  idle ← get_duration fs "idle-timeout";
  Some {| nf_listen := listen; nf_tokenFile := tokenFile; nf_caFile := caFile; nf_allowInsecure := insecure; nf_once := once;
          nf_allowPublic := public; nf_idleTimeout := idle |}.

Definition read_serve (fs : gmap string flag) : option serve_flags :=
  relayURL ← get_string fs "relay"; state ← get_string fs "state"; tokenFile ← get_string fs "token-file";
  caFile ← get_string fs "ca-file"; hostKey ← get_string fs "host-key"; keys ← get_strings fs "authorized-keys-file";
  insecure ← get_bool fs "allow-insecure-relay"; output ← get_string fs "output";
  codeFile ← get_string fs "connection-code-file"; idle ← get_duration fs "idle-timeout";
  Some {| sf_relayURL := relayURL; sf_state := state; sf_tokenFile := tokenFile; sf_caFile := caFile; sf_hostKey := hostKey;
          sf_output := output; sf_connectionCodeFile := codeFile; sf_authorizedKeyFiles := keys;
          sf_allowInsecure := insecure; sf_idleTimeout := idle |}.

Definition read_ssh (fs : gmap string flag) : option Cli.sshOptions :=
  codeFile ← get_string fs "code-file"; user ← get_string fs "user"; identity ← get_string fs "identity-file";
  options ← get_strings fs "ssh-option"; noAuth ← get_bool fs "no-auth"; accept ← get_bool fs "accept-new-host-key";
  tokenFile ← get_string fs "token-file"; caFile ← get_string fs "ca-file"; insecure ← get_bool fs "allow-insecure-relay";
  idle ← get_duration fs "idle-timeout";
  Some {| Cli.o_codeFile := codeFile; Cli.o_user := user; Cli.o_identityFile := identity; Cli.o_tokenFile := tokenFile;
          Cli.o_caFile := caFile; Cli.o_sshOptions := options; Cli.o_allowInsecure := insecure; Cli.o_noAuth := noAuth;
          Cli.o_acceptNewHost := accept; Cli.o_idleTimeout := idle; Cli.o_connectionCode := ""; Cli.o_remoteCommand := [] |}.

Definition read_service_name (fs : gmap string flag) : option string := get_string fs "name".
Definition read_service_install (fs : gmap string flag) : option (string * string * string * string) :=
  name ← get_string fs "name"; displayName ← get_string fs "display-name"; description ← get_string fs "description";
  startup ← get_string fs "startup"; Some (name, displayName, description, startup).
Definition read_service_stop (fs : gmap string flag) : option (string * Z) :=
  name ← get_string fs "name"; timeout ← get_duration fs "timeout"; Some (name, timeout).
Definition read_service_status (fs : gmap string flag) : option (string * string) :=
  name ← get_string fs "name"; output ← get_string fs "output"; Some (name, output).

(** ** Cobra's checks *)

Definition given (fs : gmap string flag) (n : string) : bool := match fs !! n with Some f => fl_changed f | None => false end.
Definition missing_required (fs : gmap string flag) (required : list string) : list string :=
  List.filter (fun n => negb (given fs n)) required.
Definition exclusive_ok (fs : gmap string flag) (groups : list (list string)) : bool :=
  forallb (fun g => Nat.leb (length (List.filter (given fs) g)) 1) groups.

(** ** The process *)

(** [InitTracing]: [exporter] and [resource] are the answers of OpenTelemetry, whose
    calls are logged; the result says whether there is a provider to shut down. *)
Inductive otel_call := NewExporter | NewResource | ShutdownExporter | SetTracerProvider | SetTextMapPropagator.
Definition otel (c : otel_call) (answer : option goerr) : eff (list otel_call) unit := fun l =>
  (match answer with Some e => Err e | None => Ok tt end, l ++ [c]).

Definition InitTracing (getenv : string -> string) (exporter resource : option goerr) : eff (list otel_call) bool := (
  if bool_decide (getenv "OTEL_EXPORTER_OTLP_ENDPOINT" = "") && bool_decide (getenv "OTEL_EXPORTER_OTLP_TRACES_ENDPOINT" = "")
  then eret false
  else
    do! otel NewExporter exporter in
    fun l => match otel NewResource resource l with
    | (Err e, l) => (do! otel ShutdownExporter None in efail e)%eff l
    | (Ok _, l) => (do! otel SetTracerProvider None in do! otel SetTextMapPropagator None in eret true)%eff l
    end)%eff.

(** [run] is the result of the command, [shutdown] that of the provider's
    [Shutdown]. *)
Definition Execute (tracing : result goerr bool) (run shutdown : option goerr) : option goerr :=
  match tracing with
  | Err e => Some (EWrap "initializing tracing" e)
  | Ok provider => errors_Join run (if provider then shutdown else None)
  end.

(** The exit code, and whether the error is printed. *)
Definition main (err : option goerr) : Z * bool :=
  match err with
  | Some e => if negb (errors_Is e (ECtx CtxCanceled)) then (1, true) else (0, false)
  | None => (0, false)
  end.

Definition version_text (version commit date : string) : bytes :=
  go_bytes ("relaycat " +:+ version +:+ " (" +:+ commit +:+ ", " +:+ date +:+ ")") ++ [x0a].

Inductive shell := Bash | Zsh | Fish | PowerShell.
Definition completion (arg : string) : result goerr shell :=
  if bool_decide (arg = "bash") then Ok Bash
  else if bool_decide (arg = "zsh") then Ok Zsh
  else if bool_decide (arg = "fish") then Ok Fish
  else if bool_decide (arg = "powershell") then Ok PowerShell
  else Err (ENew "unsupported shell").

(** ** Typed flags *)

Inductive command :=
| CRelay | CExpose | CConnect | CServe | CSsh
| CServiceInstall | CServiceUninstall | CServiceStart | CServiceStop | CServiceStatus | CServiceRun.
(** Cobra adds a help flag to every command. *)
Definition help_decl : string * flag_value := ("help", FBool false).
Definition cmd_decls (c : command) : decls :=
  root_decls ++ help_decl :: match c with
    | CRelay => relay_decls | CExpose => expose_decls | CConnect => connect_decls | CServe => serve_decls | CSsh => ssh_decls
    | CServiceInstall => service_install_decls | CServiceStop => service_stop_decls | CServiceStatus => service_status_decls
    | CServiceUninstall | CServiceStart | CServiceRun => service_name_decls
    end.
Definition readable (c : command) (fs : gmap string flag) : bool :=
  match c with
  | CRelay => bool_decide (is_Some (read_relay fs))
  | CExpose => bool_decide (is_Some (read_expose fs))
  | CConnect => bool_decide (is_Some (read_connect fs))
  | CServe => bool_decide (is_Some (read_serve fs))
  | CSsh => bool_decide (is_Some (read_ssh fs))
  | CServiceInstall => bool_decide (is_Some (read_service_install fs))
  | CServiceStop => bool_decide (is_Some (read_service_stop fs))
  | CServiceStatus => bool_decide (is_Some (read_service_status fs))
  | CServiceUninstall | CServiceStart | CServiceRun => bool_decide (is_Some (read_service_name fs))
  end.

Definition cmd_required (c : command) : list string :=
  match c with CExpose => expose_required | CServe => serve_required | _ => [] end.
Definition cmd_exclusive (c : command) : list (list string) := match c with CRelay => relay_exclusive | _ => [] end.

(** Values given on the command line have been parsed by their flag. *)
Definition well_given (given : gmap string flag_value) (ds : decls) : Prop :=
  forall n v x, (n, v) ∈ ds -> given !! n = Some x -> kind x = kind v.

Lemma cmd_decls_nodup c : NoDup (cmd_decls c).*1.
Proof. refine (bool_decide_unpack _ _). destruct c; vm_compute; exact I. Qed.

Lemma cmd_required_declared c n : In n (cmd_required c) -> In n (cmd_decls c).*1.
Proof. intros Hn. destruct c; simpl in Hn; try done; repeat destruct Hn as [<-|Hn]; try done; simpl; tauto. Qed.
Lemma cmd_exclusive_declared c g n : In g (cmd_exclusive c) -> In n g -> In n (cmd_decls c).*1.
Proof.
  intros Hg Hn. destruct c; simpl in Hg; try done; repeat destruct Hg as [<-|Hg]; try done; simpl in Hn;
    repeat destruct Hn as [<-|Hn]; try done; simpl; tauto.
Qed.

Lemma declare_lookup g ds n v :
  NoDup ds.*1 -> (n, v) ∈ ds ->
  declare g ds !! n = Some match g !! n with
    | Some x => {| fl_value := x; fl_changed := true |} | None => {| fl_value := v; fl_changed := false |} end.
Proof.
  intros Hn Hin. unfold declare. apply elem_of_list_to_map_1.
  - rewrite map_map. replace (map _ ds) with ds.*1; [done|]. apply map_ext. by intros [].
  - apply list_elem_of_In, in_map_iff. exists (n, v). split; [done|]. by apply list_elem_of_In.
Qed.

#[global] Instance flag_kind_eq_dec : EqDecision flag_kind.
Proof. solve_decision. Defined.

(** A flag set that has every declared flag with its kind. *)
Definition typed (ds : decls) (fs : gmap string flag) : Prop :=
  forall n v, (n, v) ∈ ds -> exists f, fs !! n = Some f /\ kind (fl_value f) = kind v.
Definition declares (ds : decls) (n : string) (k : flag_kind) : bool :=
  existsb (fun d => bool_decide (d.1 = n) && bool_decide (kind d.2 = k)) ds.

Lemma typed_flag ds fs n k :
  typed ds fs -> declares ds n k = true -> exists f, fs !! n = Some f /\ kind (fl_value f) = k.
Proof.
  intros Ht Hd. apply existsb_exists in Hd as ([m v] & Hin & Hd). apply andb_true_iff in Hd as [Hm Hk].
  apply bool_decide_eq_true in Hm, Hk. simpl in *. subst. apply Ht. by apply list_elem_of_In.
Qed.

(** Every read of a declared flag succeeds. *)
Ltac read_flag Ht n k :=
  let f := fresh in let E := fresh in let K := fresh in
  destruct (typed_flag _ _ n k Ht eq_refl) as (f & E & K); rewrite E; cbn [mbind option_bind];
  destruct (fl_value f); try discriminate K; clear E K.
Ltac read_flags Ht :=
  repeat first
    [ progress cbn [mbind option_bind]
    | match goal with
      | |- context [get_string ?fs ?n] => unfold get_string at 1; read_flag Ht n KString
      | |- context [get_bool ?fs ?n] => unfold get_bool at 1; read_flag Ht n KBool
      | |- context [get_int ?fs ?n] => unfold get_int at 1; read_flag Ht n KInt
      | |- context [get_duration ?fs ?n] => unfold get_duration at 1; read_flag Ht n KDuration
      | |- context [get_strings ?fs ?n] => unfold get_strings at 1; read_flag Ht n KStrings
      end ].

Lemma typed_readable c fs : typed (cmd_decls c) fs -> readable c fs = true.
Proof.
  intros Ht. destruct c; apply bool_decide_eq_true_2; unfold read_relay, read_expose, read_connect, read_serve, read_ssh,
    read_service_install, read_service_stop, read_service_status, read_service_name;
    read_flags Ht; eauto.
Qed.

(** ** Properties *)

Section properties.
Context `{Pflag} {PS : PflagSpec} `{Viper} {VS : ViperSpec}.

(** A declared flag, as the command line left it. *)
Definition parsed (g : gmap string flag_value) (n : string) (v : flag_value) : flag :=
  match g !! n with
  | Some x => {| fl_value := x; fl_changed := true |} | None => {| fl_value := v; fl_changed := false |}
  end.

Lemma config_decides c g config dir read env fs' :
  well_given g (cmd_decls c) ->
  loadConfig config dir read env (cmd_decls c).*1 root_decls.*1 (declare g (cmd_decls c)) = Ok fs' ->
  exists m, (forall m', read = ReadConfig m' -> config <> "" \/ is_Some dir -> m = m') /\
    forall n v, (n, v) ∈ cmd_decls c -> exists f', fs' !! n = Some f' /\ decided m env n (parsed g n v) f'.
Proof.
  intros Hg Hl. assert (Hnr : NoDup root_decls.*1) by (refine (bool_decide_unpack _ _); vm_compute; exact I).
  destruct (loadConfig_Ok config dir read env (cmd_decls c).*1 root_decls.*1
    (declare g (cmd_decls c)) fs' (cmd_decls_nodup c) Hnr) as (m & Hm & Hr);
    [|done|].
  { intros n f Hn Hf. apply list_elem_of_fmap in Hn as ([n' v] & -> & Hn). simpl in Hf.
    assert (Hc : (n', v) ∈ cmd_decls c) by (unfold cmd_decls; apply elem_of_app; by left).
    rewrite (declare_lookup _ _ _ _ (cmd_decls_nodup c) Hc) in Hf. injection Hf as <-.
    assert (Hk : kind v = KString) by (unfold root_decls in Hn; set_solver).
    destruct (g !! n') as [x|] eqn:Hx; simpl; [by rewrite (Hg _ _ _ Hc Hx)|done]. }
  exists m. split; [done|]. intros n v Hc. assert (Hin : n ∈ (cmd_decls c).*1) by (change n with (n, v).1; by apply list_elem_of_fmap_2).
  destruct (Hm n _ (declare_lookup g _ _ _ (cmd_decls_nodup c) Hc) Hin) as (f' & Hf & Hd).
  exists f'. split; [done|]. by apply configured_decided.
Qed.

(** C33: configuration keeps types and precedence.  Whatever the environment and
    the file hold, when [loadConfig] succeeds on the flags of a command, all of them
    are there with the type they were declared with, so the command's options can be
    read; each has the value given on the command line, else that of a non-empty
    variable RELAYCAT_NAME, else that of the file, else its default; and a value from
    the configuration does not count as given: the required flags that were missing
    still are, and exclusive flags are judged by the command line alone. *)
Theorem config_typed c g config dir read env fs' :
  well_given g (cmd_decls c) ->
  loadConfig config dir read env (cmd_decls c).*1 root_decls.*1 (declare g (cmd_decls c)) = Ok fs' ->
  readable c fs' = true /\
  (exists m, (forall m', read = ReadConfig m' -> config <> "" \/ is_Some dir -> m = m') /\
     forall n v, (n, v) ∈ cmd_decls c -> exists f', fs' !! n = Some f' /\ decided m env n (parsed g n v) f') /\
  missing_required fs' (cmd_required c) = List.filter (fun n => bool_decide (g !! n = None)) (cmd_required c) /\
  exclusive_ok fs' (cmd_exclusive c)
    = forallb (fun group => Nat.leb (length (List.filter (fun n => bool_decide (is_Some (g !! n))) group)) 1) (cmd_exclusive c).
Proof.
  intros Hg Hl. destruct (config_decides c g config dir read env fs' Hg Hl) as (m & Hr & Hall).
  assert (Hgiven : forall n, n ∈ (cmd_decls c).*1 -> given fs' n = bool_decide (is_Some (g !! n))).
  { intros n Hn. apply list_elem_of_fmap in Hn as ([n' v] & -> & Hn). destruct (Hall n' v Hn) as (f' & Hf & _ & Hch & _).
    unfold given. simpl. rewrite Hf, Hch. unfold parsed. destruct (g !! n'); done. }
  split_and!; [|by exists m| |].
  - apply typed_readable. intros n v Hc. destruct (Hall n v Hc) as (f' & Hf & Hk & _). exists f'. split; [done|].
    rewrite Hk. unfold parsed. destruct (g !! n) as [x|] eqn:Hx; [by apply (Hg n)|done].
  - unfold missing_required. apply filter_ext_in. intros n Hn. rewrite Hgiven by (by apply list_elem_of_In, cmd_required_declared).
    by destruct (g !! n).
  - unfold exclusive_ok. assert (Hx : forall l, incl l (cmd_exclusive c) -> forallb (fun g => Nat.leb (length (List.filter (given fs') g)) 1) l
      = forallb (fun g' => Nat.leb (length (List.filter (fun n => bool_decide (is_Some (g !! n))) g')) 1) l);
      [|exact (Hx _ (incl_refl _))].
    induction l as [|group l IH]; intros Hl'; [done|]. simpl. rewrite IH by (intros x Hx; apply Hl'; by right).
    assert (Hg' : In group (cmd_exclusive c)) by (apply Hl'; by left). do 3 f_equal. apply filter_ext_in.
    intros n Hn. by rewrite Hgiven by (eapply list_elem_of_In, cmd_exclusive_declared; done).
Qed.
End properties.

(** Without an endpoint tracing is left alone; an exporter that was made is shut down
    again or serves the installed provider. *)
Lemma InitTracing_calls getenv exporter resource l r l' :
  InitTracing getenv exporter resource l = (r, l') ->
  (getenv "OTEL_EXPORTER_OTLP_ENDPOINT" = "" -> getenv "OTEL_EXPORTER_OTLP_TRACES_ENDPOINT" = "" -> r = Ok false /\ l' = l) /\
  (r = Ok true -> l' = l ++ [NewExporter; NewResource; SetTracerProvider; SetTextMapPropagator]) /\
  (is_ok r = false -> l' = l ++ [NewExporter] \/ l' = l ++ [NewExporter; NewResource; ShutdownExporter]).
Proof.
  unfold InitTracing, ebind, otel, eret, efail. intros H. do 2 case_bool_decide; simpl in H; [by simplify_eq|..].
  all: split_and!; [naive_solver|..]; destruct exporter, resource; simplify_eq/=; rewrite <- ?app_assoc; auto; done.
Qed.

(** The exit code is 0 exactly when the command did not fail, or was cancelled. *)
Lemma main_exit tracing run answer :
  (main (Execute tracing run answer)).1 = 0 <->
  match tracing with
  | Err e => errors_Is e (ECtx CtxCanceled) = true
  | Ok provider => let shutdown := if provider then answer else None in
      (run = None /\ shutdown = None) \/
      exists e, (run = Some e \/ shutdown = Some e) /\ errors_Is e (ECtx CtxCanceled) = true
  end.
Proof.
  assert (Hm : forall e, (main (Some e)).1 = 0 <-> errors_Is e (ECtx CtxCanceled) = true)
    by (intros e; unfold main; by destruct (errors_Is e (ECtx CtxCanceled))).
  assert (Hj : forall e e', errors_Is (EJoin e e') (ECtx CtxCanceled) = true <->
      errors_Is e (ECtx CtxCanceled) = true \/ errors_Is e' (ECtx CtxCanceled) = true).
  { intros e e'. cbn [errors_Is]. rewrite bool_decide_eq_false_2 by done. cbn [orb]. apply orb_true_iff. }
  unfold Execute. destruct tracing as [provider|e]; [cbn zeta; set (sh := if provider then answer else None)|].
  - destruct run as [e|], sh as [e'|]; cbn [errors_Join]; rewrite ?Hm, ?Hj; cbn [errors_Is];
      rewrite ?(bool_decide_eq_false_2 (EJoin1 _ = _)) by done; cbn [orb].
    + split; [intros [?|?]; right; eauto|intros [[? ?]|(x & [?|?] & ?)]; simplify_eq; auto].
    + split; [intros ?; right; eauto|intros [[? ?]|(x & [?|?] & ?)]; by simplify_eq].
    + split; [intros ?; right; eauto|intros [[? ?]|(x & [?|?] & ?)]; by simplify_eq].
    + split; [by left|done].
  - rewrite Hm. cbn [errors_Is]. by rewrite bool_decide_eq_false_2.
Qed.

(** ** Witness *)

#[local] Existing Instances PlainFlags.plain_pflag PlainFlags.plain_pflag_spec PlainFlags.plain_viper PlainFlags.plain_viper_spec.

(** A file that sets the target and a list of key files, a variable for the log
    level, and a relay given on the command line. *)
Definition demo_given : gmap string flag_value := {["relay" := FString "https://relay.example"]}.
Definition demo_yaml : gmap string yaml :=
  {["log-level" := YString "warn"; "relay" := YString "http://other"; "authorized-keys-file" := YList ["a"; "b"]]}.
Definition demo_getenv : environ := fun k => if bool_decide (k = "RELAYCAT_LOG_LEVEL") then Some "debug" else None.
Definition demo_configured (c : command) : gmap string flag :=
  match loadConfig "c.yaml" None (ReadConfig demo_yaml) demo_getenv (cmd_decls c).*1 root_decls.*1 (declare demo_given (cmd_decls c)) with
  | Ok fs => fs | Err _ => ∅ end.

Lemma config_typed_witness :
  readable CServe (demo_configured CServe) = true /\
  get_string (demo_configured CServe) "relay" = Some "https://relay.example" /\
  get_string (demo_configured CServe) "log-level" = Some "debug" /\
  get_strings (demo_configured CServe) "authorized-keys-file" = Some ["[a b]"] /\
  missing_required (demo_configured CServe) (cmd_required CServe) = [].
Proof.
  destruct (config_typed CServe demo_given "c.yaml" None (ReadConfig demo_yaml) demo_getenv (demo_configured CServe))
    as (Hr & _ & Hm & _).
  - intros n v x Hin Hx. unfold demo_given in Hx. apply lookup_singleton_Some in Hx as [<- <-].
    assert (Hk : forallb (fun d => negb (bool_decide (d.1 = "relay")) || bool_decide (kind d.2 = KString)) (cmd_decls CServe) = true)
      by (vm_compute; reflexivity).
    rewrite forallb_forall in Hk. specialize (Hk _ (proj1 (list_elem_of_In _ _) Hin)). cbn [fst snd] in Hk.
    rewrite bool_decide_eq_true_2 in Hk by reflexivity. apply bool_decide_eq_true in Hk. symmetry. exact Hk.
  - assert (Hok : is_ok (loadConfig "c.yaml" None (ReadConfig demo_yaml) demo_getenv (cmd_decls CServe).*1 root_decls.*1
        (declare demo_given (cmd_decls CServe))) = true) by (vm_compute; reflexivity).
    unfold demo_configured. destruct (loadConfig _ _ _ _ _ _ _); [reflexivity|discriminate Hok].
  - split; [exact Hr|]. split; [vm_compute; reflexivity|]. split; [vm_compute; reflexivity|]. split; [vm_compute; reflexivity|].
    rewrite Hm. vm_compute. reflexivity.
Defined.
