(* ===== verification/Service.v ===== *)
(** * The service commands (internal/cli/service.go)

    [service install], [uninstall], [start], [stop], [status] and [run], written
    against what a service manager offers ([ServiceManager]), as the code is
    against package winservice.  The managers: systemd (service_linux.go), the
    Windows service control manager ([WinService]) and the stub of other systems
    (service_stub.go).  [ServiceManagerSpec] is what a manager promises: an
    operation on one service leaves the others alone. *)

From stdpp Require Import pretty.
From S2P Require Import Prelude GoBase Effects GoStrings FilePath Config Os Systemd WinService AccessCode Cli Commands Root.

Class ServiceManager := {
  sm_state : Type;
  sm_Install : InstallConfig -> eff sm_state unit;
  sm_Uninstall : string -> eff sm_state unit;
  sm_Start : string -> eff sm_state unit;
  sm_Stop : nat -> goerr -> string -> eff sm_state unit;   (* how long the context lasts, and its error *)
  sm_Query : string -> eff sm_state Status;
  sm_Run : option goerr -> string -> option goerr;         (* what running under the manager gives *)
}.

(** ** The commands *)

(** The flags of a command as the configuration left them; [name0] is the name
    when the arguments are checked, before that. *)
Inductive service_cmd :=
| SvcInstall (dash : Z) (args : list string) (name0 name displayName description startup : string) (executable : result goerr string)
| SvcUninstall (name : string)
| SvcStart (name : string)
| SvcStop (name : string) (ticks : nat) (e : goerr)
| SvcStatus (name output : string).

Definition svc_name (c : service_cmd) : string :=
  match c with
  | SvcInstall _ _ _ name _ _ _ _ | SvcUninstall name | SvcStart name | SvcStop name _ _ | SvcStatus name _ => name
  end.

Section commands.
Context {SM : ServiceManager}.
Variable write : option goerr.             (* the error of writing to standard output, if any *)

Definition on_manager {A} (c : eff sm_state A) : eff (sm_state * bytes) A := fun s =>
  let '(r, m) := c s.1 in (r, (m, s.2)).
(** Output is a single write, taken to be whole or to fail before its first byte. *)
Definition say (text : bytes) : eff (sm_state * bytes) unit := fun s =>
  match write with Some e => (Err e, s) | None => (Ok tt, (s.1, s.2 ++ text)) end.
Definition line (s : string) : bytes := go_bytes s ++ [x0a].

(** [json.Marshal] of a status; a process ID of 0 is omitted. *)
Definition status_json (st : Status) : bytes :=
  [x7b] ++ json_string "state" ++ [x3a] ++ json_string (State st) ++
  (if ProcessID st =? 0 then [] else [x2c] ++ json_string "process_id" ++ [x3a] ++ go_bytes (pretty (ProcessID st))) ++ [x7d].

Definition run_service (c : service_cmd) : eff (sm_state * bytes) unit := (
  match c with
  | SvcInstall dash args name0 name displayName description startup executable =>
      do! echeck (install_Args dash args name0) in
      let! cfg := elift (service_install args name displayName description startup executable) in
      do! on_manager (sm_Install cfg) in
      say (line ("installed service " +:+ name))
  | SvcUninstall name =>
      do! echeck (validateServiceName name) in
      do! on_manager (sm_Uninstall name) in
      say (line ("uninstalled service " +:+ name))
  | SvcStart name =>
      do! echeck (validateServiceName name) in
      do! on_manager (sm_Start name) in
      say (line ("started service " +:+ name))
  | SvcStop name ticks e =>
      do! echeck (validateServiceName name) in
      do! on_manager (sm_Stop ticks e name) in
      say (line ("stopped service " +:+ name))
  | SvcStatus name output =>
      do! echeck (validateServiceName name) in
      let! status := on_manager (sm_Query name) in
      if bool_decide (output = "plain") then say (line (State status))
      else if bool_decide (output = "json") then say (status_json status ++ [x0a])
      else efail (ENew "output must be plain or json")
  end)%eff.
End commands.

(** [service run]: the arguments are checked with the name of the command line; the
    service's own command line is executed with them, under the name. *)
Definition run_Args (dash : Z) (args : list string) (name0 : string) : option goerr :=
  if (dash <? 0) || bool_decide (args = []) then Some (ENew "a Relaycat command is required after --")
  else if bool_decide (head args = Some "service") then Some (ENew "a service cannot run another service command")
  else validateServiceName name0.
Definition service_run {SM : ServiceManager} (dash : Z) (args : list string) (name0 name : string) (run : option goerr) : option goerr :=
  match run_Args dash args name0 with Some e => Some e | None => sm_Run run name end.

(** ** systemd (service_linux.go) *)

(** The files and the calls of systemctl so far.  What a call answers, its error
    and its output, may depend on all calls before it. *)
Record systemd_state := { sd_fs : fs; sd_calls : list (list string) }.

(** What [Install] and [Uninstall] find: the random part of the temporary name,
    and the faults of the calls, [sd_remove] being that of removing the unit. *)
Record systemd_env := {
  sd_run : list (list string) -> list string -> option goerr * bytes;
  sd_tmp : fs -> string;
  sd_umask : Z;
  sd_lstat : option goerr;
  sd_publish : publish_faults;
  sd_remove : option goerr;
}.

(** [strconv.ParseUint(s, 10, 32)] *)
Definition parse_digit (acc : option Z) (b : byte) : option Z :=
  n ← acc;
  if in_range 48 57 b then let m := n * 10 + (bval b - 48) in if m <? 2 ^ 32 then Some m else None else None.
Definition ParseUint32 (s : bytes) : option Z :=
  match s with [] => None | _ => fold_left parse_digit s (Some 0) end.

Section systemd.
Variable E : systemd_env.

(** The error names the command and ends in its output. *)
Definition executeSystemctl (args : list string) : eff systemd_state bytes := fun s =>
  let s' := {| sd_fs := sd_fs s; sd_calls := sd_calls s ++ [args] |} in
  match sd_run E (sd_calls s) args with
  | (Some e, output) =>
      (Err (EWrap ("systemctl " +:+ join_space args +:+ ": %w: " +:+ go_string (TrimSpace output)) e), s')
  | (None, output) => (Ok output, s')
  end.

Definition systemctl (args : list string) : eff systemd_state unit :=
  (do! executeSystemctl args in eret tt)%eff.

Definition unit_name (name : string) : string := name +:+ ".service".

Definition systemd_Start (name : string) : eff systemd_state unit := systemctl ["start"; unit_name name].
(** A context that ends kills systemctl, which is then an error of the call. *)
Definition systemd_Stop (name : string) : eff systemd_state unit := systemctl ["stop"; unit_name name].

Definition systemd_Query (name : string) : eff systemd_state Status := (
  let! state := executeSystemctl ["show"; "--property=ActiveState"; "--value"; unit_name name] in
  let! pidText := executeSystemctl ["show"; "--property=MainPID"; "--value"; unit_name name] in
  match ParseUint32 (TrimSpace pidText) with
  | None => efail (EWrap ("parsing systemd MainPID " +:+ dquote (go_string (TrimSpace pidText))) (ENew "invalid syntax"))
  | Some pid => eret {| State := go_string (TrimSpace state); ProcessID := pid |}
  end)%eff.

(** [os.CreateTemp] in the directory of the unit. *)
Definition tmp_path (name : string) (d : fs) : string :=
  go_string (Dir (go_bytes (unit_path name))) +:+ "/.relaycat-unit-" +:+ sd_tmp E d.

(** The error of a call at some point of the history. *)
Definition answer (calls : list (list string)) (args : list string) : option goerr :=
  match (executeSystemctl args {| sd_fs := ∅; sd_calls := calls |}).1 with Err e => Some e | Ok _ => None end.

Definition systemd_Install (cfg : InstallConfig) : eff systemd_state unit := fun s =>
  let reload := ["daemon-reload"] in
  let '(r, d, calls) :=
    Systemd.Install (sd_fs s) cfg (tmp_path (ic_Name cfg) (sd_fs s)) (sd_umask E) (sd_lstat E) (sd_publish E)
      {| sc_reload := answer (sd_calls s) reload;
         sc_enable := answer (sd_calls s ++ [reload]) ["enable"; unit_name (ic_Name cfg)];
         sc_remove := sd_remove E |} in
  (match r with Some e => Err e | None => Ok tt end, {| sd_fs := d; sd_calls := sd_calls s ++ calls |}).

Definition systemd_Uninstall (name : string) : eff systemd_state unit := fun s =>
  let disable := ["disable"; "--now"; unit_name name] in
  let '(r, d, calls) :=
    Systemd.Uninstall (sd_fs s) name (answer (sd_calls s) disable) (sd_remove E)
      (answer (sd_calls s ++ [disable]) ["daemon-reload"]) in
  (match r with Some e => Err e | None => Ok tt end, {| sd_fs := d; sd_calls := sd_calls s ++ calls |}).

Definition systemd : ServiceManager := {|
  sm_state := systemd_state;
  sm_Install := systemd_Install;
  sm_Uninstall := systemd_Uninstall;
  sm_Start := systemd_Start;
  sm_Stop := fun _ _ => systemd_Stop;
  sm_Query := systemd_Query;
  sm_Run := fun _ _ => Some (ENew "service run is reserved for the Windows Service Control Manager");
|}.
End systemd.

(** ** Windows *)

Definition windows (SCM : Scm) : ServiceManager := {|
  sm_state := scm_log;
  sm_Install := WinService.Install;
  sm_Uninstall := WinService.Uninstall;
  sm_Start := WinService.Start;
  sm_Stop := WinService.Stop;
  sm_Query := WinService.Query;
  sm_Run := WinService.Run;
|}.

(** ** Other systems (service_stub.go) *)

Definition ErrUnsupported : goerr := ENew "service management is only supported on Windows and Linux".
Definition unsupported : ServiceManager := {|
  sm_state := unit;
  sm_Install := fun _ => efail ErrUnsupported;
  sm_Uninstall := fun _ => efail ErrUnsupported;
  sm_Start := fun _ => efail ErrUnsupported;
  sm_Stop := fun _ _ _ => efail ErrUnsupported;
  sm_Query := fun _ => efail ErrUnsupported;
  sm_Run := fun _ _ => Some ErrUnsupported;
|}.

(** [service run] is of use on Windows alone. *)
Lemma run_on_windows dash args name0 name run :
  (forall E, is_Some (service_run (SM := systemd E) dash args name0 name run)) /\
  is_Some (service_run (SM := unsupported) dash args name0 name run) /\
  (forall SCM, service_run (SM := windows SCM) dash args name0 name run = None <-> run_Args dash args name0 = None /\ run = None).
Proof.
  unfold service_run. destruct (run_Args dash args name0); simpl; split_and!; eauto; intros SCM; [naive_solver|].
  destruct run; simpl; naive_solver.
Qed.

(** ** What a manager promises *)

(** [sm_same n s s']: nothing has happened to service [n] between [s] and [s']. *)
Class ServiceManagerSpec (SM : ServiceManager) := {
  sm_same : string -> sm_state -> sm_state -> Prop;
  sm_same_pre n :: PreOrder (sm_same n);
  install_same cfg n : validateServiceName (ic_Name cfg) = None -> validateServiceName n = None -> n <> ic_Name cfg -> respects (sm_same n) (sm_Install cfg);
  uninstall_same name n : validateServiceName name = None -> validateServiceName n = None -> n <> name -> respects (sm_same n) (sm_Uninstall name);
  start_same name n : n <> name -> respects (sm_same n) (sm_Start name);
  stop_same ticks e name n : n <> name -> respects (sm_same n) (sm_Stop ticks e name);
  query_same name n : n <> name -> respects (sm_same n) (sm_Query name);
}.

Section client.
Context {SM : ServiceManager} {SP : ServiceManagerSpec SM}.

(** A command and the manager's state. *)
Definition same_cmd (n : string) (s s' : sm_state * bytes) : Prop := sm_same n s.1 s'.1.
#[local] Instance same_cmd_pre n : PreOrder (same_cmd n).
Proof. split; [intros s; unfold same_cmd; reflexivity|intros a b c; unfold same_cmd; by etransitivity]. Qed.

Lemma on_manager_same {A} n (c : eff sm_state A) : respects (sm_same n) c -> respects (same_cmd n) (on_manager c).
Proof. intros Hc s. unfold on_manager, same_cmd. specialize (Hc s.1). by destruct (c s.1). Qed.
Lemma say_same write n text : respects (same_cmd n) (say write text).
Proof. intros s. unfold say, same_cmd. destruct write; simpl; reflexivity. Qed.

#[local] Hint Resolve on_manager_same say_same : relaycat.
#[local] Hint Resolve install_same uninstall_same start_same stop_same query_same : relaycat.

Lemma service_install_name args name dn ds st exe cfg :
  service_install args name dn ds st exe = Ok cfg -> ic_Name cfg = name /\ ic_Arguments cfg = args.
Proof. unfold service_install. intros H. by repeat case_match; simplify_eq. Qed.

Lemma install_Args_name dash args name0 :
  install_Args dash args name0 = None -> validateServiceName name0 = None /\ run_Args 0 args name0 = None.
Proof.
  unfold install_Args, run_Args. intros H. destruct (dash <? 0); [done|]. destruct args as [|first rest]; [done|].
  case_bool_decide; [done|]. split; [done|]. rewrite (bool_decide_eq_false_2 (first :: rest = [])) by done. simpl.
  by rewrite bool_decide_eq_false_2 by congruence.
Qed.

(** The name that was checked is the one that is used. *)
Definition svc_checked (c : service_cmd) : Prop :=
  match c with SvcInstall _ _ name0 name _ _ _ _ => name0 = name | _ => True end.

Lemma run_service_same write c n :
  svc_checked c -> validateServiceName n = None -> n <> svc_name c -> respects (same_cmd n) (run_service write c).
Proof.
  intros Hch Hvn Hn.
  destruct c as [dash args name0 name dn ds st exe|name|name|name ticks e|name output]; simpl in Hch, Hn; unfold run_service;
    (apply respects_bind_check; [typeclasses eauto|]; intros Hv); [|eff_respects..].
  apply respects_bind_lift; [typeclasses eauto|]. intros cfg Hi. apply service_install_name in Hi as [Hc _].
  apply install_Args_name in Hv as [Hv _]. subst name0. rewrite <- Hc in Hv, Hn. eff_respects.
Qed.
End client.

(** ** systemd keeps the promise *)

Section systemd_spec.
Variable E : systemd_env.
Hypothesis tmp_fresh : forall name d, d !! tmp_path E name d = None.

(** A word that is not the unit of any service. *)
Definition plain_word (w : string) : Prop := forall n, w <> unit_name n.

Lemma unit_name_inj n m : unit_name n = unit_name m -> n = m.
Proof.
  unfold unit_name. intros H. apply (f_equal go_bytes) in H. rewrite !go_bytes_app in H. apply app_inv_tail in H.
  by apply go_bytes_inj.
Qed.
Lemma unit_path_inj n m :
  validateServiceName n = None -> validateServiceName m = None -> unit_path n = unit_path m -> n = m.
Proof.
  intros Hn Hm H. rewrite !unit_path_plain in H by (by apply service_name_plain). apply (f_equal go_bytes) in H. rewrite !go_bytes_app in H. apply app_inv_head in H.
  apply app_inv_tail in H. by apply go_bytes_inj.
Qed.

Lemma plain_word_check w :
  bool_decide (take 8 (reverse (go_bytes w)) = reverse (go_bytes ".service")) = false -> plain_word w.
Proof.
  intros H n ->. apply bool_decide_eq_false_1 in H. apply H. unfold unit_name. by rewrite go_bytes_app, reverse_app.
Qed.

(** The calls that name no other service than [name]. *)
Definition own_call (name : string) (args : list string) : Prop :=
  Forall (fun w => w = unit_name name \/ plain_word w) args.

Lemma own_call_not name n args : own_call name args -> n <> name -> unit_name n ∉ args.
Proof.
  intros Ho Hn Hin. apply list_elem_of_In in Hin. unfold own_call in Ho. rewrite Forall_forall in Ho.
  destruct (Ho _ Hin) as [He|Hp]; [by apply unit_name_inj in He|by apply (Hp n)].
Qed.

Ltac own_call := repeat (constructor; [by (left; reflexivity) || (right; apply plain_word_check; vm_compute; reflexivity)|]); constructor.

Ltac own_calls := repeat (apply List.Forall_cons; [assumption|]); apply List.Forall_nil.

Definition systemd_same (n : string) (s s' : systemd_state) : Prop :=
  sd_fs s' !! unit_path n = sd_fs s !! unit_path n /\
  exists calls, sd_calls s' = sd_calls s ++ calls /\ Forall (fun c => unit_name n ∉ c) calls.

#[export] Instance systemd_same_pre n : PreOrder (systemd_same n).
Proof.
  split.
  - intros s. split; [done|]. exists []. by rewrite app_nil_r.
  - intros a b c (H1 & l & H2 & H3) (H4 & l' & H5 & H6). split; [congruence|]. exists (l ++ l').
    rewrite H5, H2, app_assoc. split; [done|]. by apply Forall_app.
Qed.

Lemma systemctl_same name n args : own_call name args -> n <> name -> respects (systemd_same n) (executeSystemctl E args).
Proof.
  intros Ho Hn s. unfold executeSystemctl. destruct (sd_run E (sd_calls s) args) as [[e|] out]; (split; [done|]);
    exists [args]; (split; [done|]); constructor; [by eapply own_call_not|constructor|by eapply own_call_not|constructor].
Qed.

Lemma Install_frame d cfg tmp umask lstat pf sc r d' calls :
  d !! tmp = None -> tmp <> unit_path (ic_Name cfg) -> Systemd.Install d cfg tmp umask lstat pf sc = (r, d', calls) ->
  (forall q, q <> unit_path (ic_Name cfg) -> q <> tmp -> d' !! q = d !! q) /\ Forall (own_call (ic_Name cfg)) calls.
Proof.
  intros Ht Hne H. split; [by apply (Install_outcome _ _ _ _ _ _ _ _ _ _ Ht Hne H)|].
  assert (Hr : own_call (ic_Name cfg) ["daemon-reload"]) by own_call.
  assert (He : own_call (ic_Name cfg) ["enable"; ic_Name cfg +:+ ".service"]) by own_call.
  unfold Systemd.Install, install_new in H. repeat case_match; simplify_eq; own_calls.
Qed.

Lemma tmp_path_plain d name : validateServiceName name = None -> tmp_path E name d = "/etc/systemd/system/.relaycat-unit-" +:+ sd_tmp E d.
Proof.
  intros Hv. unfold tmp_path. destruct (service_name_plain name Hv) as [Hs _]. rewrite unit_path_plain, !go_bytes_app by done.
  assert (Hs' : x2f ∉ go_bytes name ++ go_bytes ".service").
  { rewrite elem_of_app. intros [?|Hin]; [done|]. vm_compute in Hin. set_solver. }
  pose proof (Dir_name (go_bytes "/etc/systemd/system") _ Hs') as HD.
  replace (go_bytes "/etc/systemd/system/" ++ go_bytes name ++ go_bytes ".service")
    with (go_bytes "/etc/systemd/system" ++ x2f :: go_bytes name ++ go_bytes ".service") by reflexivity.
  rewrite HD. replace (go_string (Clean (go_bytes "/etc/systemd/system" ++ [x2f]))) with "/etc/systemd/system"
    by (vm_compute; reflexivity). reflexivity.
Qed.

(** The names of temporary files begin with a dot, those of services do not. *)
Lemma tmp_not_unit d name n :
  validateServiceName name = None -> validateServiceName n = None -> tmp_path E name d <> unit_path n.
Proof.
  intros Hv Hvn. rewrite tmp_path_plain by done. rewrite unit_path_plain by (by apply service_name_plain). revert Hvn.
  clear Hv. unfold validateServiceName. intros Hv Heq. apply (f_equal go_bytes) in Heq. rewrite !go_bytes_app in Heq.
  destruct (go_bytes n) as [|c rest]; [done|]. simpl in Heq. injection Heq as <- Heq. by destruct (256 <? _).
Qed.

Lemma calls_same n s d calls name :
  n <> name -> d !! unit_path n = sd_fs s !! unit_path n -> Forall (own_call name) calls ->
  systemd_same n s {| sd_fs := d; sd_calls := sd_calls s ++ calls |}.
Proof.
  intros Hn Hd Hc. split; [done|]. exists calls. split; [done|]. eapply Forall_impl; [|done].
  intros c Ho. by eapply own_call_not.
Qed.

#[export] Instance systemd_spec : ServiceManagerSpec (systemd E).
Proof.
  refine {| sm_same := systemd_same : string -> @sm_state (systemd E) -> @sm_state (systemd E) -> Prop |}.
  - intros cfg n Hv Hvn Hn s. simpl. unfold systemd_Install.
    destruct (Systemd.Install _ _ _ _ _ _ _) as [[r d] calls] eqn:Hi.
    apply Install_frame in Hi as [Hf Hc]; [|done|by apply tmp_not_unit].
    eapply calls_same; [done| |done]. apply Hf; [by intros ?%unit_path_inj|]. apply not_eq_sym. by apply tmp_not_unit.
  - intros name n Hv Hvn Hn s. simpl. unfold systemd_Uninstall. destruct (Systemd.Uninstall _ _ _ _ _) as [[r d] calls] eqn:Hu.
    assert (H1 : own_call name ["disable"; "--now"; unit_name name]) by own_call.
    assert (H2 : own_call name ["daemon-reload"]) by own_call.
    unfold Systemd.Uninstall in Hu. eapply calls_same; [done| |];
      repeat case_match; simplify_eq; try done; try own_calls.
    apply lookup_delete_ne. by intros ?%unit_path_inj.
  - intros name n Hn. simpl. unfold systemd_Start, systemctl. eff_respects. eapply systemctl_same; [own_call|done].
  - intros ticks e name n Hn. simpl. unfold systemd_Stop, systemctl. eff_respects. eapply systemctl_same; [own_call|done].
  - intros name n Hn. simpl. unfold systemd_Query. eff_respects; eapply systemctl_same; try done; own_call.
Defined.
End systemd_spec.

(** ** So does the Windows service control manager *)

Section windows_spec.
Context (SCM : Scm).

Definition call_name (c : scm_call) : option string :=
  match c with OpenService name | CreateService name _ _ _ _ _ => Some name | _ => None end.

Definition windows_same (n : string) (l l' : scm_log) : Prop :=
  exists k, l' = l ++ k /\ Forall (fun c => call_name c.1 <> Some n) k.

#[export] Instance windows_same_pre n : PreOrder (windows_same n).
Proof.
  split; [intros l; exists []; by rewrite app_nil_r|].
  intros a b c (k & -> & H1) (k' & -> & H2). exists (k ++ k'). rewrite app_assoc. split; [done|]. by apply Forall_app.
Qed.

Lemma ask_same n c : call_name c <> Some n -> respects (windows_same n) (ask c).
Proof. intros Hc l. unfold ask. destruct (scm_error l c); (eexists; split; [reflexivity|]); by repeat constructor. Qed.
Lemma ask_status_same n c : call_name c <> Some n -> respects (windows_same n) (ask_status c).
Proof. intros Hc l. eexists. split; [reflexivity|]. by repeat constructor. Qed.
Lemma defer_same {A} n (c : eff scm_log A) d :
  respects (windows_same n) c -> respects (windows_same n) d -> respects (windows_same n) (edefer c d).
Proof.
  intros Hc Hd l. unfold edefer. specialize (Hc l). destruct (c l) as [r l1]. simpl in *. etransitivity; [exact Hc|apply Hd].
Qed.

#[local] Hint Resolve ask_same ask_status_same defer_same : relaycat.
#[local] Hint Extern 2 (call_name _ <> _) => simpl; congruence : relaycat.

Lemma connect_same {A} n (body : eff scm_log A) :
  respects (windows_same n) body -> respects (windows_same n) (connect_scm body).
Proof. intros Hb. unfold connect_scm. eff_respects. Qed.
Lemma withService_same {A} name n (fn : eff scm_log A) :
  n <> name -> respects (windows_same n) fn -> respects (windows_same n) (withService name fn).
Proof. intros Hn Hf. apply connect_same. eff_respects. Qed.
Lemma stop_loop_same n name ticks e st : respects (windows_same n) (stop_loop name ticks e st).
Proof. revert st. induction ticks as [|k IH]; intros st; cbn [stop_loop]; eff_respects. Qed.
#[local] Hint Resolve withService_same stop_loop_same : relaycat.

Lemma Install_same cfg n : n <> ic_Name cfg -> respects (windows_same n) (WinService.Install cfg).
Proof.
  intros Hn. apply connect_same. intros l.
  pose proof (ask_same n (OpenService (ic_Name cfg)) ltac:(simpl; congruence) l) as Ho.
  destruct (ask _ l) as [[u|e] l1]; simpl in Ho; (etransitivity; [exact Ho|]).
  - by apply (ask_same n CloseService).
  - cbn zeta. match goal with |- windows_same n l1 ((ebind ?a ?b) l1).2 => enough (Hr : respects (windows_same n) (ebind a b)) by exact (Hr l1) end.
    eff_respects.
Qed.

#[export] Instance windows_spec : ServiceManagerSpec (windows SCM).
Proof.
  refine {| sm_same := windows_same : string -> @sm_state (windows SCM) -> @sm_state (windows SCM) -> Prop |}; simpl.
  - intros cfg n _ _. apply Install_same.
  - intros name n _ _ Hn. unfold WinService.Uninstall. apply withService_same; [done|]. eff_respects.
  - intros name n Hn. unfold WinService.Start. apply withService_same; [done|]. eff_respects.
  - intros ticks e name n Hn. apply withService_same; [done|]. eff_respects.
  - intros name n Hn. apply withService_same; [done|]. eff_respects.
Defined.
End windows_spec.

(** ** Properties *)

(** What a command prints. *)
Definition printed (write : option goerr) (o o' : bytes) {A} (r : result goerr A) : Prop :=
  match r with Ok _ => write = None /\ exists text, text <> [] /\ o' = o ++ text | Err _ => o' = o end.

Section properties.
Context {SM : ServiceManager} {SP : ServiceManagerSpec SM} {PF : Pflag} {PS : PflagSpec} {VP : Viper} {VS : ViperSpec}.

Lemma say_printed write text s r s' :
  text <> [] -> say write text s = (r, s') -> printed write s.2 s'.2 r.
Proof. unfold say, printed. intros Ht H. destruct write; simplify_eq; simpl; eauto. Qed.

Lemma bind_printed {A B} write (c : eff (sm_state * bytes) A) (k : A -> eff (sm_state * bytes) B) s r s' :
  (c s).2.2 = s.2 -> (forall a s1 r s', k a s1 = (r, s') -> printed write s1.2 s'.2 r) ->
  ebind c k s = (r, s') -> printed write s.2 s'.2 r.
Proof.
  intros Hc Hk H. unfold ebind in H. destruct (c s) as [[a|e] s1]; simpl in Hc.
  - rewrite <- Hc. by eapply Hk.
  - simplify_eq. by rewrite Hc.
Qed.

Lemma on_manager_quiet {A} (c : eff sm_state A) s : (on_manager c s).2.2 = s.2.
Proof. unfold on_manager. by destruct (c s.1). Qed.

Lemma line_nonempty s : line s <> [].
Proof. unfold line. by destruct (go_bytes s). Qed.

Lemma run_service_printed write c s r s' : run_service write c s = (r, s') -> printed write s.2 s'.2 r.
Proof.
  destruct c as [dash args name0 name dn ds st exe|name|name|name ticks e|name output]; intros Hr; unfold run_service in Hr;
    (eapply bind_printed; [|clear Hr; intros ? ? ? ? Hr|exact Hr]; [done|]).
  1: eapply bind_printed; [|clear Hr; intros ? ? ? ? Hr|exact Hr]; [done|].
  all: eapply bind_printed; [apply on_manager_quiet|clear Hr; intros ? ? ? ? Hr|exact Hr].
  1-4: eapply say_printed; [apply line_nonempty|exact Hr].
  repeat case_match; [eapply say_printed; [apply line_nonempty|exact Hr]|eapply say_printed; [|exact Hr]|].
  - by destruct (status_json _).
  - unfold efail in Hr. by simplify_eq.
Qed.

(** The name of [service install] after the configuration. *)
Lemma install_name_configured g env config dir read fs' name :
  well_given g (cmd_decls CServiceInstall) -> g !! "name" = None -> env "RELAYCAT_NAME" = Some name -> name <> "" ->
  loadConfig config dir read env (cmd_decls CServiceInstall).*1 root_decls.*1 (declare g (cmd_decls CServiceInstall)) = Ok fs' ->
  read_service_name (declare g (cmd_decls CServiceInstall)) = Some defaultServiceName /\ read_service_name fs' = Some name.
Proof.
  intros Hg Hn He Hne Hl. unfold read_service_name, get_string.
  assert (Hd : ("name", FString defaultServiceName) ∈ cmd_decls CServiceInstall) by (apply elem_of_app; right; apply elem_of_cons; right; apply elem_of_cons; by left).
  destruct (config_decides _ _ _ _ _ _ _ Hg Hl) as (m & _ & Hall). destruct (Hall _ _ Hd) as (f & Hf & _ & _ & _ & Hv).
  rewrite (declare_lookup _ _ _ _ (cmd_decls_nodup _) Hd), Hf. unfold parsed in Hv. rewrite Hn in *. specialize (Hv eq_refl).
  replace (variable env (flag_variable "name")) with (Some name) in Hv.
  - cbn [fl_value] in Hv. rewrite set_string in Hv. injection Hv as Hv. cbn [mbind option_bind]. by rewrite <- Hv.
  - unfold variable. replace (flag_variable "name") with "RELAYCAT_NAME" by (vm_compute; reflexivity).
    by rewrite He, bool_decide_eq_false_2.
Qed.

(** C36: the service commands stay with their service.  For every manager that
    keeps its promise, and systemd and the Windows manager both do: a command with
    an invalid name fails without calling the manager, and no command affects a
    service of another name, as long as the name that was checked is the one used;
    a command prints exactly when it succeeds; and what [install] registers under a
    valid name [service run] accepts.  Only [install] can use another name than the
    checked one: its arguments are checked before the configuration is applied, so
    a name from a RELAYCAT_NAME variable reaches the manager whatever it is. *)
Theorem service_commands_confined write c s r s' :
  run_service write c s = (r, s') ->
  (svc_checked c -> validateServiceName (svc_name c) <> None -> is_ok r = false /\ s' = s) /\
  (svc_checked c -> forall n, validateServiceName n = None -> n <> svc_name c -> sm_same n s.1 s'.1) /\
  printed write s.2 s'.2 r /\
  (forall dash args name dn ds st exe cfg, install_Args dash args name = None ->
     service_install args name dn ds st exe = Ok cfg -> run_Args 0 (ic_Arguments cfg) (ic_Name cfg) = None) /\
  (forall g env config dir read fs' name,
     well_given g (cmd_decls CServiceInstall) -> g !! "name" = None -> env "RELAYCAT_NAME" = Some name -> name <> "" ->
     loadConfig config dir read env (cmd_decls CServiceInstall).*1 root_decls.*1 (declare g (cmd_decls CServiceInstall)) = Ok fs' ->
     read_service_name (declare g (cmd_decls CServiceInstall)) = Some defaultServiceName /\ read_service_name fs' = Some name) /\
  (forall dash args name dn ds st exe cfg, install_Args dash args defaultServiceName = None ->
     service_install args name dn ds st exe = Ok cfg -> ic_Name cfg = name /\
     run_service write (SvcInstall dash args defaultServiceName name dn ds st exe) s
       = (do! on_manager (sm_Install cfg) in say write (line ("installed service " +:+ name)))%eff s).
Proof.
  intros Hrun. split_and!.
  - intros Hch Hv. destruct c as [dash args name0 name dn ds st exe|name|name|name ticks e|name output]; simpl in Hch, Hv;
      unfold run_service, ebind at 1, echeck in Hrun.
    + destruct (install_Args dash args name0) eqn:Hi; [by simplify_eq|]. apply install_Args_name in Hi as [? _]. congruence.
    + destruct (validateServiceName name); [|done]. by simplify_eq.
    + destruct (validateServiceName name); [|done]. by simplify_eq.
    + destruct (validateServiceName name); [|done]. by simplify_eq.
    + destruct (validateServiceName name); [|done]. by simplify_eq.
  - intros Hch n Hvn Hn. pose proof (run_service_same write c n Hch Hvn Hn s) as Hs. by rewrite Hrun in Hs.
  - by eapply run_service_printed.
  - intros dash args name dn ds st exe cfg Ha Hi. apply service_install_name in Hi as [-> ->]. by eapply install_Args_name.
  - intros g env config dir read fs' name. apply install_name_configured.
  - intros dash args name dn ds st exe cfg Ha Hi. split; [by eapply service_install_name|].
    unfold run_service, ebind, echeck, elift. by rewrite Ha, Hi.
Qed.
End properties.

(** ** Witnesses *)

(** A temporary name longer than any path in use. *)
Definition long_name (d : fs) : string :=
  go_string (repeat x61 (list_max (map (fun kf => length (go_bytes kf.1)) (map_to_list d)))).
Definition demo_systemd : systemd_env :=
  {| sd_run := fun _ args => if bool_decide (head args = Some "show") then (None, [x34; x32; x0a]) else (None, []);
     sd_tmp := long_name; sd_umask := 18; sd_lstat := None; sd_publish := no_publish_faults; sd_remove := None |}.

Lemma demo_tmp_fresh name d : d !! tmp_path demo_systemd name d = None.
Proof.
  destruct (d !! tmp_path demo_systemd name d) as [f|] eqn:Hf; [|reflexivity]. exfalso.
  set (ls := map (fun kf => length (go_bytes kf.1)) (map_to_list d)).
  assert (Hin : In (length (go_bytes (tmp_path demo_systemd name d))) ls).
  { apply in_map_iff. exists (tmp_path demo_systemd name d, f). split; [done|]. apply list_elem_of_In. by apply elem_of_map_to_list. }
  pose proof (proj1 (list_max_le ls (list_max ls)) (le_n _)) as Hm. rewrite Forall_forall in Hm. specialize (Hm _ Hin).
  unfold tmp_path in Hm. rewrite !go_bytes_app, !length_app in Hm.
  change (sd_tmp demo_systemd d) with (go_string (repeat x61 (list_max ls))) in Hm.
  rewrite (go_bytes_string (repeat _ _)), repeat_length in Hm. simpl in Hm. lia.
Qed.

#[local] Existing Instances PlainFlags.plain_pflag PlainFlags.plain_pflag_spec PlainFlags.plain_viper PlainFlags.plain_viper_spec.

(** Installing under systemd touches no other unit; with a name from the environment
    the unit can be any file. *)
Definition demo_install (name : string) : service_cmd :=
  SvcInstall 0 ["relay"; "--h2c"] "relaycat" name "" "tunnel" "automatic" (Ok "/usr/bin/relaycat").
Definition demo_installed (name : string) : result goerr unit * (systemd_state * bytes) :=
  run_service (SM := systemd demo_systemd) None (demo_install name) ({| sd_fs := ∅; sd_calls := [] |}, []).

Lemma service_commands_confined_witness :
  (run_service (SM := systemd demo_systemd) None (SvcStatus "relaycat" "plain") ({| sd_fs := ∅; sd_calls := [] |}, [])).2.2
    = [x34; x32; x0a] /\
  sd_fs (demo_installed "relaycat").2.1 !! unit_path "nginx" = None /\
  validateServiceName "../../../tmp/x" <> None /\
  is_Some (sd_fs (demo_installed "../../../tmp/x").2.1 !! "/tmp/x.service") /\
  run_Args 0 ["relay"; "--h2c"] "relaycat" = None.
Proof.
  split; [vm_compute; reflexivity|]. unfold demo_installed at 1.
  destruct (run_service (SM := systemd demo_systemd) None (demo_install "relaycat") ({| sd_fs := ∅; sd_calls := [] |}, [])) as [r s'] eqn:E.
  destruct (service_commands_confined (SM := systemd demo_systemd) (SP := systemd_spec demo_systemd demo_tmp_fresh) None
    (demo_install "relaycat") ({| sd_fs := ∅; sd_calls := [] |}, []) r s' E) as (_ & Hs & _ & Hr & _).
  split; [exact (proj1 (Hs eq_refl "nginx" eq_refl ltac:(discriminate)))|].
  split; [vm_compute; discriminate|]. split; [refine (bool_decide_unpack _ _); vm_compute; exact I|].
  exact (Hr 0 ["relay"; "--h2c"] "relaycat" "" "tunnel" "automatic" (Ok "/usr/bin/relaycat") _ eq_refl eq_refl).
Defined.
